(* ===== verification/_CoqProject ===== *)
-Q . S2P
Prelude.v
Deps.v
Bytecopy.v
Consts.v
Replay.v
Ack.v
Framing.v
DtlsReassembly.v
Aead.v
Hkdf.v
DtlsRecord.v
DtlsHello.v
TlsHello.v
Cert.v
Kx.v
KxGroups.v
PinnedRoots.v
Identity.v
TlvCert.v
TlvCertSpec.v
ServerFlight.v
Reassembler.v
DtlsSession.v
DtlsHandshake.v
ClientFlight.v
EcdsaSig.v
SigBackends.v
ClientSign.v
PinTrust.v
Connection.v
Engine.v
EngineData.v
EngineHandshake.v
Stream.v
StreamSpec.v
StreamConnect.v
