(* ===== verification/Prelude.v ===== *)
(** * krabitls: a verification development

    krabitls is a TLS 1.3 and DTLS 1.3 client for microcontrollers, written in Rust
    without an allocator.  This library models the client, from the byte-level framing
    up to the connected sessions, and proves the theorems numbered C1, C2, ... in the
    files below.  All paths are relative to [krabitls/src/].

    ** The program and its parts

    A TLS connection writes a ClientHello ([lib.rs]), derives keys from the ServerHello
    ([connection.rs], [hkdf.rs]), decrypts the server's flight record by record
    ([aead.rs], [reassembler.rs]), checks the certificate chain with a caller-supplied
    strategy ([traits/verify_strategy.rs], [backends/pinned_roots.rs]), the host name
    ([identity.rs]), the CertificateVerify and the Finished ([server_flight.rs]), answers
    with its own flight ([client_flight.rs]) and enters the data phase.  The engine
    ([client/engine.rs]) drives these steps over two buffers without doing any I/O; the
    stream ([client/stream.rs]) moves bytes between the engine and a transport.
    The DTLS client ([dtls/client.rs]) does the same over datagrams, with its own framing
    ([dtls/framing.rs], [dtls/record.rs]), hello messages ([dtls/handshake.rs]),
    reassembly ([dtls/reassembly.rs]), anti-replay window ([dtls/replay.rs]) and
    acknowledgements ([dtls/ack.rs]).

    ** Files

    - [Prelude]: results, machine integers, byte slices, big-endian encodings, the state
      monad [SM] with its weakest preconditions, tactics and hint databases.
    - [Deps]: the third-party crates [heapless] and [subtle] as type classes.
    - [Bytecopy] ([bytecopy.rs]), [Consts] ([consts.rs]).
    - [Replay], [Ack], [Framing], [DtlsReassembly], [DtlsRecord], [DtlsHello]: one file
      per module of [dtls/], under the same name.
    - [Aead] ([aead.rs]): TLS record protection.  [Hkdf] ([hkdf.rs], [traits/hkdf.rs]):
      both key schedules and the transcript hash.
    - [TlsHello] ([lib.rs], [errors.rs]): the ClientHello writer and ServerHello parser.
    - [Cert] ([traits/cert.rs], [traits/verify_provider.rs], [traits/verify_strategy.rs]):
      certificate views, prepared verifiers, [SafeStrategy].  [PinnedRoots]
      ([backends/pinned_roots.rs]): the pinned-root strategy.  [Identity] ([identity.rs],
      [backends/tlv.rs]): the DER walker and host name matching.  [TlvCert]
      ([backends/tlv_cert.rs]): the X.509 parser over the walker; [TlvCertSpec]: the
      grammar it accepts, and the parser as an instance of [CertParser].
    - [Kx] ([traits/kx.rs]): the key-exchange interface.  [KxGroups] ([backends/ecdhe.rs],
      [backends/ecdhe_x25519.rs], [backends/mlkem.rs], [backends/rustcrypto.rs]): its
      instances, X25519, P-256 and the X25519MLKEM768 hybrid.
    - [ServerFlight] ([server_flight.rs]), [Reassembler] ([reassembler.rs]),
      [ClientFlight] ([client_flight.rs], [traits/client_auth.rs]).
    - [EcdsaSig] ([backends/ecdsa_verify.rs], [backends/client_auth.rs]): the DER form of
      ECDSA signatures.  [SigBackends] ([backends/rsa_verify.rs], [ecdsa_verify.rs],
      [mldsa_verify.rs], [rustcrypto.rs]): the verifiers, an instance of [VerifierBackend].
      [ClientSign] ([backends/client_auth.rs]): the signers, instances of [ClientAuth].
      [PinTrust] ([backends/pin_or_self_signed.rs]): the pin-or-self-signed strategy.
    - [Connection] ([connection.rs]): the typestates of the TLS client.
    - [Engine] ([client/engine.rs], [client/scratch.rs], [client/error.rs]): the state
      machine between the transport and the typestates, its invariant and its framing.
      [EngineData]: the data phase over arbitrary bytes from the transport.
      [EngineHandshake]: the handshake, and the invariant kept by every operation.
    - [Stream] ([client/stream.rs], [client/transport.rs], [client/config.rs]): the
      blocking client over a transport.  [StreamSpec]: its methods as runs of the engine's
      data phase, and progress.  [StreamConnect]: [TlsStream::connect].
    - [DtlsSession] ([dtls/client.rs], [dtls/transport.rs], [dtls/stream.rs]): the
      connected DTLS session.  [DtlsHandshake] ([dtls/client.rs], [dtls/keys.rs]):
      [DtlsClient::connect].

    ** Conventions

    A Rust call returns [Ok], [Err] or panics; [outcome] keeps the three apart, so that a
    theorem "never panics" says that every index, every [copy_from_slice] and every
    [unwrap] is in range.  Release-mode arithmetic is modelled: [usize] additions that the
    code checks are [checked_add], [u64] counters wrap, casts truncate; [debug_assert!] is
    left out.  [usize] is 32 bits or wider (class [Usize]).  A mutable buffer is a value
    passed in and returned; where a function reports an error and no later result depends
    on the contents of the buffer, the buffer is not returned.  A const generic or a Cargo feature is an
    argument ([Features], [RsaWidth]).  Functions that the code takes as traits (AEAD
    ciphers, HKDF, key exchange, signature verifiers, certificate parser, clock, random
    source, transports, signers) are type classes with the documented behaviour as laws,
    and each class has a concrete instance at which the witnesses evaluate.
    Constant-time comparison is modelled by its result; timing is out of scope, and so is
    zeroization on drop.

    Loops without a structural argument take fuel.  The fuel is the length of the input
    that each round shortens (parsers), the number of rounds the source's own loop
    counter allows (retransmissions, ACK bits), or an argument (the loops that wait for
    the network: the DTLS receive loop, and [read], [try_read] and the handshake loop of
    the stream, which return [None] while they have not finished).  Otherwise running out
    of fuel is [Panic], so the "never panics" theorems also show that the fuel is enough;
    for the loops that wait, termination is a theorem of its own about a link that stops
    delivering, with the number of rounds it takes.

    ** What the theorems show

    - Framing and codecs: writers emit exactly the specified wire form and parsers accept
      exactly it (round trips; exact acceptance for the TLS hellos, the server flight,
      certificate chains, canonical DER).
    - Records: round trip; only authentic records open; nonces do not repeat.
    - Reassembly: the result is independent of order, duplication, overlap and cutting.
    - Key schedules: each derivation equals the RFC's formula.
    - Certificates: the X.509 parser accepts exactly a grammar of encodings, its three
      walks agree, and the CA constraints it reports are in the certificate.
    - Backends: the verifiers, signers and key-exchange groups of the crate implement the
      interfaces that the handshakes rely on, exactly: which keys and signatures are
      accepted, that an ECDSA signature has one wire form, that the client's signatures
      verify, and that both sides of the hybrid exchange derive one secret.  A pin accepts
      the pinned key and nothing else; a self-signed certificate is alone and signs itself.
    - Authentication: an accepted chain is a signed, valid path to an anchor; an accepted
      flight carries a valid signature and MAC over the transcript; a DTLS session, and the
      data phase of a TLS connection, exist only after both; the engine reports the end of
      the handshake only then, for any bytes the transport delivers and any calls of the
      wrapper.
    - The engine: its invariant is kept by every operation and its events mean what they
      say; in the data phase the application reads exactly the application data of
      authentic consecutive records, and the transport is given exactly the records of
      what was written, across key updates and fragmented post-handshake messages.
    - The stream: [connect] returns a stream only when the server has answered the hello of
      the configuration and is authenticated; reads and writes of a connected stream are
      the channel of the engine's data phase; the loops return, and the internal errors of
      the stream are not reachable.
    - Sessions: nothing is delivered twice, coalesced records come out in order, the
      resend budget and the sequence numbers are respected, receiving terminates.

    ** Not modelled

    Third-party cryptography (hashes, curves, RSA, ML-KEM, ML-DSA, AEAD ciphers) is behind
    the classes named above, and the files that only name it are left out: the HKDF and AEAD
    adapters ([backends/jedisct.rs], part of [backends/rustcrypto.rs]), the aliases of
    [bigint.rs], the zeroizing newtypes of [newtype.rs].  The alternative X.509 parser
    ([backends/der_cert.rs]) decodes with the [der] and [x509-cert] crates, whose behaviour
    would be its content.  Tests, fixtures, the command line clients and the footprint
    binaries are test code or I/O. *)
From Stdlib Require Export ZArith Lia.
From stdpp Require Export base numbers option list.

Declare Scope krabi_scope.
Delimit Scope krabi_scope with krabi.
Open Scope Z_scope.
Open Scope krabi_scope.

(** ** Results

    A Rust call returns [Ok], returns [Err], or panics (slice index out of
    range, failed [assert!]).  The three outcomes are kept apart, so that
    "the bounds guards are sufficient" is a theorem about the model. *)

Inductive outcome (E A : Type) : Type :=
| Ok (a : A)
| Err (e : E)
| Panic.
Arguments Ok {E A} _.
Arguments Err {E A} _.
Arguments Panic {E A}.

#[export] Instance outcome_ret E : MRet (outcome E) := fun _ a => Ok a.
#[export] Instance outcome_bind E : MBind (outcome E) :=
  fun _ _ f m => match m with Ok a => f a | Err e => Err e | Panic => Panic end.

#[export] Instance outcome_eq_dec {E A} `{EqDecision E, EqDecision A} :
  EqDecision (outcome E A).
Proof. solve_decision. Defined.

(** [Option::ok_or] followed by [?]. *)
Definition ok_or {E A} (o : option A) (e : E) : outcome E A :=
  match o with Some a => Ok a | None => Err e end.

(** [Result::map_err] followed by [?]. *)
Definition map_err {E F A} (f : E -> F) (m : outcome E A) : outcome F A :=
  match m with Ok a => Ok a | Err e => Err (f e) | Panic => Panic end.

(** A slice access that panics when the range is not inside the slice. *)
Definition or_panic {E A} (o : option A) : outcome E A :=
  match o with Some a => Ok a | None => Panic end.

Definition no_panic {E A} (m : outcome E A) : Prop := m <> Panic.
Definition is_ok {E A} (m : outcome E A) : bool :=
  match m with Ok _ => true | _ => false end.

(** The value of a result known to be [Ok]. *)
Definition ok_value {E A} (d : A) (m : outcome E A) : A := match m with Ok a => a | _ => d end.

Lemma ok_value_eq {E A} (d : A) (m : outcome E A) : is_ok m = true -> m = Ok (ok_value d m).
Proof. by destruct m. Qed.

Lemma result_eq {S E A} (r : S * outcome E A) (a : A) : is_ok r.2 = true -> ok_value a r.2 = a -> r = (r.1, Ok a).
Proof. destruct r as [s [x | |]]; cbn; [by intros _ -> | done | done]. Qed.

Lemma result_eq_pair {S T E A} (r : S * T * outcome E A) (a : A) : is_ok r.2 = true -> ok_value a r.2 = a -> r = ((r.1.1, r.1.2), Ok a).
Proof. destruct r as [[s t] [x | |]]; cbn; [by intros _ -> | done | done]. Qed.

Section outcome_lemmas.
Context {E : Type}.

Lemma bind_Ok {A B} (a : A) (f : A -> outcome E B) : (Ok a ≫= f) = f a.
Proof. reflexivity. Qed.

Lemma bind_Ok_inv {A B} (m : outcome E A) (f : A -> outcome E B) b :
  (m ≫= f) = Ok b <-> exists a, m = Ok a /\ f a = Ok b.
Proof. destruct m; cbn; naive_solver. Qed.

Lemma bind_Err_inv {A B} (m : outcome E A) (f : A -> outcome E B) e :
  (m ≫= f) = Err e <-> m = Err e \/ exists a, m = Ok a /\ f a = Err e.
Proof. destruct m; cbn; naive_solver. Qed.

Lemma bind_assoc {A B C} (m : outcome E A) (f : A -> outcome E B) (g : B -> outcome E C) :
  ((m ≫= f) ≫= g) = (m ≫= fun a => f a ≫= g).
Proof. by destruct m. Qed.

Lemma Ok_inj {A} (a b : A) : Ok (E := E) a = Ok b -> a = b.
Proof. congruence. Qed.

Lemma no_panic_bind {A B} (m : outcome E A) (f : A -> outcome E B) :
  no_panic m -> (forall a, m = Ok a -> no_panic (f a)) -> no_panic (m ≫= f).
Proof. destruct m; cbn; unfold no_panic; naive_solver. Qed.

Lemma no_panic_Ok {A} (a : A) : no_panic (E := E) (Ok a).
Proof. discriminate. Qed.

Lemma no_panic_Err {A} (e : E) : no_panic (A := A) (Err e).
Proof. discriminate. Qed.

Lemma no_panic_ok_or {A} (o : option A) (e : E) : no_panic (ok_or o e).
Proof. destruct o; discriminate. Qed.

Lemma no_panic_map_err {F A} (f : F -> E) (m : outcome F A) :
  no_panic m -> no_panic (map_err f m).
Proof. destruct m; unfold no_panic; naive_solver. Qed.

Lemma ok_or_Ok_inv {A} (o : option A) (e : E) a :
  ok_or o e = Ok a <-> o = Some a.
Proof. destruct o; cbn; naive_solver. Qed.

Lemma or_panic_Ok_inv {A} (o : option A) a :
  or_panic (E := E) o = Ok a <-> o = Some a.
Proof. destruct o; cbn; naive_solver. Qed.

Lemma map_err_Ok_inv {F A} (f : F -> E) (m : outcome F A) a :
  map_err f m = Ok a <-> m = Ok a.
Proof. destruct m; cbn; naive_solver. Qed.
End outcome_lemmas.

(** A result that is no panic and, when it is [Ok], satisfies [P]: the triple the
    totality proofs compose. *)
Definition ensures {E A} (o : outcome E A) (P : A -> Prop) : Prop :=
  match o with Ok a => P a | Err _ => True | Panic => False end.

Lemma ensures_bind {E A B} (m : outcome E A) (f : A -> outcome E B) P Q :
  ensures m P -> (forall a, P a -> ensures (f a) Q) -> ensures (m ≫= f) Q.
Proof. destruct m; cbn; auto. Qed.

Lemma ensures_map_err {E F A} (g : F -> E) (m : outcome F A) P : ensures m P -> ensures (map_err g m) P.
Proof. by destruct m. Qed.

Lemma ensures_ok_or {E A} (o : option A) (e : E) P : (forall a, o = Some a -> P a) -> ensures (ok_or o e) P.
Proof. destruct o; cbn; auto. Qed.

Lemma ensures_or_panic {E A} (o : option A) (P : A -> Prop) :
  (exists a, o = Some a /\ P a) -> ensures (E := E) (or_panic o) P.
Proof. by intros (a & -> & HP). Qed.

Lemma ensures_intro {E A} (o : outcome E A) P : no_panic o -> (forall a, o = Ok a -> P a) -> ensures o P.
Proof. destruct o; cbn; unfold no_panic; auto. Qed.

(** The strongest postcondition of a result already known not to panic. *)
Lemma ensures_eq {E A} (o : outcome E A) : no_panic o -> ensures o (fun a => o = Ok a).
Proof. intros. by apply ensures_intro. Qed.

(** A specification and the equation of the result. *)
Lemma ensures_and_eq {E A} (o : outcome E A) (P : A -> Prop) : ensures o P -> ensures o (fun a => P a /\ o = Ok a).
Proof. by destruct o. Qed.

Lemma ensures_ok_or_eq {E A} (o : option A) (e : E) : ensures (ok_or o e) (fun a => o = Some a).
Proof. by apply ensures_ok_or. Qed.

Lemma ensures_weaken {E A} (o : outcome E A) (P Q : A -> Prop) :
  ensures o P -> (forall a, P a -> Q a) -> ensures o Q.
Proof. destruct o; cbn; auto. Qed.

Lemma ensures_no_panic {E A} (o : outcome E A) P : ensures o P -> no_panic o.
Proof. by destruct o. Qed.

(** ** Machine integers

    Every integer is a [Z]; the width appears where the source has it: at a
    cast, a shift, or a checked operation. *)

Definition U8 : Z := 2 ^ 8.
Definition U16 : Z := 2 ^ 16.
Definition U24 : Z := 2 ^ 24.
Definition U32 : Z := 2 ^ 32.
Definition U48 : Z := 2 ^ 48.
Definition U64 : Z := 2 ^ 64.
Definition U128 : Z := 2 ^ 128.

Definition as_u8 (x : Z) : Z := x mod U8.
Definition as_u16 (x : Z) : Z := x mod U16.
Definition as_u32 (x : Z) : Z := x mod U32.

Definition is_u8 (x : Z) : Prop := 0 <= x < U8.
Definition is_u16 (x : Z) : Prop := 0 <= x < U16.
Definition is_u24 (x : Z) : Prop := 0 <= x < U24.
Definition is_u32 (x : Z) : Prop := 0 <= x < U32.
Definition is_u64 (x : Z) : Prop := 0 <= x < U64.

(** The pointer width of the target: the crate is built for 32-bit
    microcontrollers and 64-bit hosts. *)
Class Usize := {
  usize_max : Z;
  usize_max_ge : U32 - 1 <= usize_max
}.

Definition usize32 : Usize := {| usize_max := U32 - 1; usize_max_ge := Z.le_refl _ |}.

Definition checked_add `{Usize} (a b : Z) : option Z :=
  if a + b <=? usize_max then Some (a + b) else None.
Definition checked_mul `{Usize} (a b : Z) : option Z :=
  if a * b <=? usize_max then Some (a * b) else None.
Definition saturating_sub (a b : Z) : Z := Z.max 0 (a - b).

Ltac unfold_width :=
  unfold is_u8, is_u16, is_u24, is_u32, is_u64, as_u8, as_u16, as_u32,
    U8, U16, U24, U32, U48, U64, U128 in *.

Lemma checked_add_small `{Usize} a b :
  a + b < U32 -> checked_add a b = Some (a + b).
Proof.
  intros ?. unfold checked_add. pose proof usize_max_ge.
  destruct (Z.leb_spec (a + b) usize_max); [done | lia].
Qed.

Lemma checked_mul_small `{Usize} a b :
  a * b < U32 -> checked_mul a b = Some (a * b).
Proof.
  intros ?. unfold checked_mul. pose proof usize_max_ge.
  destruct (Z.leb_spec (a * b) usize_max); [done | lia].
Qed.

Lemma checked_add_Some_inv `{Usize} a b c :
  checked_add a b = Some c -> c = a + b /\ a + b <= usize_max.
Proof.
  unfold checked_add. destruct (Z.leb_spec (a + b) usize_max); naive_solver.
Qed.

(** ** Byte slices *)

Abbreviation bytes := (list Z).

Definition bytes_ok (l : bytes) : Prop := Forall is_u8 l.
Definition byte_okb (b : Z) : bool := (0 <=? b) && (b <? U8).
Definition blen {A} (l : list A) : Z := Z.of_nat (length l).

Arguments blen : simpl never.

(** [l.get(a..b)] *)
Definition slice {A} (l : list A) (a b : Z) : option (list A) :=
  if (0 <=? a) && (a <=? b) && (b <=? blen l)
  then Some (take (Z.to_nat (b - a)) (drop (Z.to_nat a) l)) else None.

(** [l.get(i)] *)
Definition at_idx {A} (l : list A) (i : Z) : option A :=
  if 0 <=? i then l !! Z.to_nat i else None.

(** [l.get(a..)] *)
Definition slice_from {A} (l : list A) (a : Z) : option (list A) := slice l a (blen l).

(** [l[a..a + src.len()].copy_from_slice(src)] and the single-byte store. *)
Definition splice {A} (l : list A) (a : Z) (src : list A) : option (list A) :=
  if (0 <=? a) && (a + blen src <=? blen l)
  then Some (take (Z.to_nat a) l ++ src ++ drop (Z.to_nat a + length src) l) else None.

(** A zeroed buffer. *)
Definition zeros (n : Z) : bytes := replicate (Z.to_nat n) 0.

Section slices.
Context {A : Type}.
Implicit Types l m s : list A.

Lemma blen_nonneg l : 0 <= blen l.
Proof. unfold blen. lia. Qed.

Lemma blen_nil : blen (@nil A) = 0.
Proof. reflexivity. Qed.

Lemma blen_cons (x : A) l : blen (x :: l) = 1 + blen l.
Proof. unfold blen. rewrite length_cons. lia. Qed.

Lemma blen_app l m : blen (l ++ m) = blen l + blen m.
Proof. unfold blen. rewrite length_app. lia. Qed.

Lemma blen_take n l : blen (take n l) = Z.min (Z.of_nat n) (blen l).
Proof. unfold blen. rewrite length_take. lia. Qed.

Lemma blen_drop n l : blen (drop n l) = Z.max 0 (blen l - Z.of_nat n).
Proof. unfold blen. rewrite length_drop. lia. Qed.

Lemma blen_replicate n (x : A) : blen (replicate n x) = Z.of_nat n.
Proof. unfold blen. by rewrite length_replicate. Qed.

Lemma to_nat_blen l : Z.to_nat (blen l) = length l.
Proof. unfold blen. lia. Qed.

Lemma blen_zero_nil l : blen l = 0 -> l = [].
Proof. unfold blen. destruct l; cbn; [done | lia]. Qed.

(** A range that is inside the slice, and its contents. *)
Lemma slice_Some_inv l a b s :
  slice l a b = Some s ->
  0 <= a /\ a <= b /\ b <= blen l /\ blen s = b - a /\
  s = take (Z.to_nat (b - a)) (drop (Z.to_nat a) l).
Proof.
  unfold slice.
  destruct (Z.leb_spec 0 a), (Z.leb_spec a b), (Z.leb_spec b (blen l)); cbn; try done.
  intros [= <-]. rewrite blen_take, blen_drop. repeat split; try lia.
Qed.

Lemma slice_in_range l a b :
  0 <= a -> a <= b -> b <= blen l -> is_Some (slice l a b).
Proof.
  intros. unfold slice.
  destruct (Z.leb_spec 0 a), (Z.leb_spec a b), (Z.leb_spec b (blen l)); cbn; try lia.
  eauto.
Qed.

Lemma slice_None_inv l a b :
  slice l a b = None -> a < 0 \/ b < a \/ blen l < b.
Proof.
  unfold slice.
  destruct (Z.leb_spec 0 a), (Z.leb_spec a b), (Z.leb_spec b (blen l)); cbn; try done; lia.
Qed.

(** The range of the middle of a concatenation is the middle. *)
Lemma slice_middle l m s a b :
  a = blen l -> b = blen l + blen m -> slice (l ++ m ++ s) a b = Some m.
Proof.
  intros -> ->. pose proof (blen_nonneg l). pose proof (blen_nonneg m).
  destruct (slice_in_range (l ++ m ++ s) (blen l) (blen l + blen m)) as [x Hx];
    [lia | lia | rewrite !blen_app; pose proof (blen_nonneg s); lia |].
  rewrite Hx. f_equal. apply slice_Some_inv in Hx as (_ & _ & _ & _ & ->).
  replace (blen l + blen m - blen l) with (blen m) by lia.
  rewrite !to_nat_blen, drop_app_length, take_app_length. done.
Qed.

Lemma slice_prefix l s a b : a = 0 -> b = blen l -> slice (l ++ s) a b = Some l.
Proof. intros -> ->. apply (slice_middle [] l s); by rewrite ?blen_nil. Qed.

Lemma slice_suffix l s a b :
  a = blen l -> b = blen l + blen s -> slice (l ++ s) a b = Some s.
Proof. intros -> ->. rewrite <- (app_nil_r s) at 1. by apply slice_middle. Qed.

Lemma slice_all l a b : a = 0 -> b = blen l -> slice l a b = Some l.
Proof. intros -> ->. rewrite <- (app_nil_r l) at 1. by apply slice_prefix. Qed.

(** Ranges of the first part of a concatenation do not see the second. *)
Lemma slice_app_l l s a b : b <= blen l -> slice (l ++ s) a b = slice l a b.
Proof.
  intros Hb. unfold slice. rewrite blen_app. pose proof (blen_nonneg s).
  destruct (Z.leb_spec 0 a), (Z.leb_spec a b), (Z.leb_spec b (blen l)),
    (Z.leb_spec b (blen l + blen s)); cbn; try done; try lia.
  f_equal. unfold blen in *. rewrite drop_app_le by lia.
  rewrite take_app_le; [done | rewrite length_drop; lia].
Qed.

Lemma slice_decompose l a b s :
  slice l a b = Some s ->
  l = take (Z.to_nat a) l ++ s ++ drop (Z.to_nat b) l.
Proof.
  intros (Ha & Hab & Hb & _ & ->)%slice_Some_inv.
  rewrite <- (take_drop (Z.to_nat a) l) at 1. f_equal.
  rewrite <- (take_drop (Z.to_nat (b - a)) (drop (Z.to_nat a) l)) at 1. f_equal.
  rewrite drop_drop. f_equal. lia.
Qed.

Lemma at_idx_in_range l i : 0 <= i < blen l -> is_Some (at_idx l i).
Proof.
  intros ?. unfold at_idx, blen in *. destruct (Z.leb_spec 0 i); [| lia].
  apply lookup_lt_is_Some. lia.
Qed.

Lemma at_idx_Some_inv l i x : at_idx l i = Some x -> 0 <= i < blen l.
Proof.
  unfold at_idx, blen. destruct (Z.leb_spec 0 i); [| done].
  intros Hl%lookup_lt_Some. lia.
Qed.

Lemma at_idx_middle l (x : A) s i : i = blen l -> at_idx (l ++ x :: s) i = Some x.
Proof.
  intros ->. unfold at_idx. pose proof (blen_nonneg l).
  destruct (Z.leb_spec 0 (blen l)); [| lia].
  rewrite to_nat_blen, lookup_app_r by lia. by rewrite Nat.sub_diag.
Qed.

Lemma at_idx_app_l l s i : i < blen l -> at_idx (l ++ s) i = at_idx l i.
Proof.
  intros Hi. unfold at_idx. destruct (Z.leb_spec 0 i); [| done].
  apply lookup_app_l. unfold blen in Hi. lia.
Qed.

(** Accesses past the first part of a concatenation are accesses to the second. *)
Lemma at_idx_app_r l s i : 0 <= i -> at_idx (l ++ s) (blen l + i) = at_idx s i.
Proof.
  intros Hi. unfold at_idx, blen. destruct (Z.leb_spec 0 i), (Z.leb_spec 0 (Z.of_nat (length l) + i));
    try lia. rewrite lookup_app_r by lia. f_equal. lia.
Qed.

Lemma slice_app_r l s a b : 0 <= a -> slice (l ++ s) (blen l + a) (blen l + b) = slice s a b.
Proof.
  intros Ha. unfold slice. rewrite blen_app. pose proof (blen_nonneg l).
  destruct (Z.leb_spec 0 (blen l + a)), (Z.leb_spec 0 a), (Z.leb_spec (blen l + a) (blen l + b)),
    (Z.leb_spec a b), (Z.leb_spec (blen l + b) (blen l + blen s)), (Z.leb_spec b (blen s)); cbn;
    try done; try lia.
  f_equal. replace (blen l + b - (blen l + a)) with (b - a) by lia.
  replace (Z.to_nat (blen l + a)) with (length l + Z.to_nat a)%nat by (unfold blen in *; lia).
  by rewrite <- drop_drop, drop_app_length.
Qed.

(** A store at the end of what has been written so far extends it. *)
Lemma splice_append l s r a :
  a = blen l -> blen s <= blen r ->
  splice (l ++ r) a s = Some ((l ++ s) ++ drop (length s) r).
Proof.
  intros -> Hs. unfold splice. pose proof (blen_nonneg l).
  rewrite blen_app. destruct (Z.leb_spec 0 (blen l)); [| lia].
  destruct (Z.leb_spec (blen l + blen s) (blen l + blen r)); [cbn | lia].
  rewrite to_nat_blen, take_app_length, <- app_assoc.
  do 3 f_equal. by rewrite <- drop_drop, drop_app_length.
Qed.

Lemma splice_middle l m s r a :
  a = blen l -> blen m = blen s ->
  splice (l ++ m ++ r) a s = Some (l ++ s ++ r).
Proof.
  intros -> Hm. rewrite (splice_append l s (m ++ r));
    [| done | rewrite blen_app; pose proof (blen_nonneg r); lia].
  rewrite <- app_assoc. do 3 f_equal. unfold blen in *.
  replace (length s) with (length m) by lia. by rewrite drop_app_length.
Qed.

Lemma splice_Some_inv l a s l' :
  splice l a s = Some l' ->
  0 <= a /\ a + blen s <= blen l /\ blen l' = blen l /\
  l' = take (Z.to_nat a) l ++ s ++ drop (Z.to_nat a + length s) l.
Proof.
  unfold splice. destruct (Z.leb_spec 0 a), (Z.leb_spec (a + blen s) (blen l)); cbn; try done.
  intros [= <-]. rewrite !blen_app, blen_take, blen_drop. unfold blen in *.
  repeat split; lia.
Qed.

Lemma at_idx_slice l a b s i :
  slice l a b = Some s -> 0 <= i < b - a -> at_idx s i = at_idx l (a + i).
Proof.
  intros (? & ? & ? & _ & ->)%slice_Some_inv Hi. unfold at_idx.
  destruct (Z.leb_spec 0 i), (Z.leb_spec 0 (a + i)); try lia.
  rewrite lookup_take_lt, lookup_drop by lia. f_equal. lia.
Qed.

(** A store changes the stored range and nothing else. *)
Lemma at_idx_splice l a s l' i :
  splice l a s = Some l' ->
  at_idx l' i = if (a <=? i) && (i <? a + blen s) then at_idx s (i - a) else at_idx l i.
Proof.
  intros (? & ? & _ & ->)%splice_Some_inv. unfold at_idx, blen in *.
  destruct (Z.leb_spec 0 i), (Z.leb_spec a i), (Z.ltb_spec i (a + Z.of_nat (length s))),
    (Z.leb_spec 0 (i - a)); cbn [andb]; try lia; try done.
  - rewrite lookup_app_r, lookup_app_l by (rewrite length_take; lia).
    rewrite length_take. f_equal. lia.
  - rewrite lookup_app_r by (rewrite length_take; lia).
    rewrite lookup_app_r by (rewrite length_take; lia).
    rewrite length_take, lookup_drop. f_equal. lia.
  - rewrite lookup_app_l, lookup_take_lt by (rewrite ?length_take; lia). done.
Qed.

(** Slices agree when their elements do. *)
Lemma slice_ext l m a b c s :
  slice m c (c + (b - a)) = Some s -> 0 <= a -> a <= b -> b <= blen l ->
  (forall i, 0 <= i < b - a -> at_idx l (a + i) = at_idx m (c + i)) ->
  slice l a b = Some s.
Proof.
  intros Hs Ha Hab Hb Heq. destruct (slice_in_range l a b Ha Hab Hb) as [t Ht]. rewrite Ht. f_equal.
  pose proof (slice_Some_inv _ _ _ _ Ht) as (_ & _ & _ & Hlt & _).
  pose proof (slice_Some_inv _ _ _ _ Hs) as (_ & _ & _ & Hls & _).
  apply list_eq_same_length with (n := Z.to_nat (b - a)); unfold blen in *; [lia.. |].
  intros i x y Hi Hx Hy.
  assert (at_idx t (Z.of_nat i) = Some x) as Hx' by (unfold at_idx; rewrite Nat2Z.id; destruct (Z.leb_spec 0 (Z.of_nat i)); [done | lia]).
  assert (at_idx s (Z.of_nat i) = Some y) as Hy' by (unfold at_idx; rewrite Nat2Z.id; destruct (Z.leb_spec 0 (Z.of_nat i)); [done | lia]).
  rewrite (at_idx_slice _ _ _ _ _ Ht) in Hx' by lia.
  rewrite (at_idx_slice _ _ _ _ _ Hs) in Hy' by lia.
  rewrite Heq in Hx' by lia. congruence.
Qed.

(** Any list can be cut at any offset inside it ([split_at]). *)
Lemma cut_at l n : 0 <= n <= blen l -> exists a b, l = a ++ b /\ blen a = n /\ blen b = blen l - n.
Proof.
  intros Hn. exists (take (Z.to_nat n) l), (drop (Z.to_nat n) l).
  rewrite take_drop, blen_take, blen_drop. split_and!; [done | lia..].
Qed.

(** The next [k] bytes after what has been written. *)
Lemma slice_next l r a b :
  a = blen l -> a <= b -> b - a <= blen r -> slice (l ++ r) a b = Some (take (Z.to_nat (b - a)) r).
Proof.
  intros -> Hab Hb. rewrite <- (take_drop (Z.to_nat (b - blen l)) r) at 1.
  apply slice_middle; [done |]. rewrite blen_take. lia.
Qed.

Lemma splice_in_range l a s :
  0 <= a -> a + blen s <= blen l -> is_Some (splice l a s).
Proof.
  intros. unfold splice.
  destruct (Z.leb_spec 0 a), (Z.leb_spec (a + blen s) (blen l)); cbn; [eauto | lia..].
Qed.
End slices.

#[export] Hint Rewrite @blen_nil @blen_cons @blen_app @blen_replicate : blen.

(** ** Big-endian encodings ([to_be_bytes] / [from_be_bytes]) *)

Fixpoint be_bytes (n : nat) (v : Z) : bytes :=
  match n with
  | O => []
  | S k => (v / 256 ^ Z.of_nat k) mod 256 :: be_bytes k v
  end.

Fixpoint from_be (l : bytes) : Z :=
  match l with
  | [] => 0
  | b :: t => b * 256 ^ blen t + from_be t
  end.

Lemma length_be_bytes n v : length (be_bytes n v) = n.
Proof. induction n; cbn; congruence. Qed.

Lemma blen_be_bytes n v : blen (be_bytes n v) = Z.of_nat n.
Proof. unfold blen. by rewrite length_be_bytes. Qed.

Lemma bytes_ok_be_bytes n v : bytes_ok (be_bytes n v).
Proof.
  induction n; constructor; [| done].
  unfold is_u8, U8. change (2 ^ 8) with 256. apply Z.mod_pos_bound. lia.
Qed.

Lemma from_be_be_bytes n v : from_be (be_bytes n v) = v mod 256 ^ Z.of_nat n.
Proof.
  induction n as [| n IH]; [by rewrite Z.mod_1_r |].
  cbn [be_bytes from_be]. rewrite IH, blen_be_bytes.
  replace (Z.of_nat (S n)) with (Z.of_nat n + 1) by lia.
  rewrite Z.pow_add_r, Z.pow_1_r by lia.
  rewrite (Z.rem_mul_r v (256 ^ Z.of_nat n) 256) by (try apply Z.pow_nonzero; lia). lia.
Qed.

Lemma from_be_be_bytes_small n v :
  0 <= v < 256 ^ Z.of_nat n -> from_be (be_bytes n v) = v.
Proof. intros. rewrite from_be_be_bytes. by apply Z.mod_small. Qed.

Lemma from_be_bound l : bytes_ok l -> 0 <= from_be l < 256 ^ blen l.
Proof.
  induction 1 as [| b l Hb _ IH]; [change (0 <= 0 < 1); lia |].
  cbn [from_be]. rewrite blen_cons. pose proof (blen_nonneg l).
  replace (256 ^ (1 + blen l)) with (256 * 256 ^ blen l)
    by (rewrite Z.pow_add_r by lia; lia).
  unfold is_u8, U8 in Hb. change (2 ^ 8) with 256 in Hb. nia.
Qed.

Lemma be_bytes_add_multiple n v k :
  be_bytes n (k * 256 ^ Z.of_nat n + v) = be_bytes n v.
Proof.
  revert k. induction n as [| n IH]; intros k; [done |].
  cbn [be_bytes].
  replace (k * 256 ^ Z.of_nat (S n) + v) with ((k * 256) * 256 ^ Z.of_nat n + v)
    by (replace (Z.of_nat (S n)) with (1 + Z.of_nat n) by lia;
        rewrite Z.pow_add_r by lia; lia).
  rewrite IH. f_equal.
  rewrite Z.add_comm, Z.div_add by (apply Z.pow_nonzero; lia).
  by rewrite Z.add_comm, Z.add_mod, Z.mul_mod, Z.mod_same, Z.mul_0_r, Z.mod_0_l, Z.add_0_l,
    Z.mod_mod by lia.
Qed.

(** A truncating cast before encoding changes nothing. *)
Lemma be_bytes_mod n v : be_bytes n (v mod 256 ^ Z.of_nat n) = be_bytes n v.
Proof.
  assert (256 ^ Z.of_nat n <> 0) by (apply Z.pow_nonzero; lia).
  rewrite (Z.div_mod v (256 ^ Z.of_nat n)) at 2 by done.
  by rewrite Z.mul_comm, be_bytes_add_multiple.
Qed.

Lemma be_bytes_from_be l n : bytes_ok l -> n = length l -> be_bytes n (from_be l) = l.
Proof.
  intros Hl ->. induction Hl as [| b l Hb Hl IH]; [done |].
  cbn [length be_bytes from_be]. unfold is_u8, U8 in Hb. change (2 ^ 8) with 256 in Hb.
  pose proof (from_be_bound l Hl) as Hbd. unfold blen in *.
  rewrite be_bytes_add_multiple, IH. f_equal.
  rewrite Z.add_comm, Z.div_add by (apply Z.pow_nonzero; lia).
  rewrite (Z.div_small (from_be l)) by lia. by rewrite Z.add_0_l, Z.mod_small.
Qed.

Lemma from_be_app l m : from_be (l ++ m) = from_be l * 256 ^ blen m + from_be m.
Proof.
  induction l as [| b l IH]; [done |].
  cbn [app from_be]. rewrite IH, blen_app. pose proof (blen_nonneg l). pose proof (blen_nonneg m).
  rewrite Z.pow_add_r by lia. lia.
Qed.

Lemma bytes_ok_app l m : bytes_ok (l ++ m) <-> bytes_ok l /\ bytes_ok m.
Proof. apply Forall_app. Qed.

Lemma bytes_ok_slice l a b s : bytes_ok l -> slice l a b = Some s -> bytes_ok s.
Proof.
  intros Hl (_ & _ & _ & _ & ->)%slice_Some_inv. by apply Forall_take, Forall_drop.
Qed.

Lemma bytes_ok_splice l a s l' : bytes_ok l -> bytes_ok s -> splice l a s = Some l' -> bytes_ok l'.
Proof.
  intros Hl Hs (_ & _ & _ & ->)%splice_Some_inv. rewrite !bytes_ok_app.
  split_and!; [by apply Forall_take | done | by apply Forall_drop].
Qed.

Lemma bytes_ok_at_idx l i b : bytes_ok l -> at_idx l i = Some b -> is_u8 b.
Proof.
  unfold at_idx. destruct (0 <=? i); [| done]. intros Hl Hb.
  by eapply (Forall_lookup_1 is_u8).
Qed.

(** Concrete bytes, by evaluation. *)
Lemma bytes_okb_sound l : forallb byte_okb l = true -> bytes_ok l.
Proof.
  intros Hl. apply List.Forall_forall. intros b Hb. apply forallb_forall with (x := b) in Hl; [| done].
  unfold byte_okb in Hl. apply andb_true_iff in Hl as [?%Z.leb_le ?%Z.ltb_lt]. done.
Qed.

(** The pair and triple reads the parsers use. *)
Definition be16 (a b : Z) : Z := from_be [a; b].
Definition be24 (a b c : Z) : Z := from_be [0; a; b; c].

Lemma be16_eq a b : be16 a b = a * 256 + b.
Proof.
  unfold be16. cbn [from_be]. change (256 ^ blen [b]) with 256.
  change (256 ^ blen (@nil Z)) with 1. lia.
Qed.

Lemma be24_eq a b c : be24 a b c = a * 65536 + b * 256 + c.
Proof.
  unfold be24. cbn [from_be]. change (256 ^ blen [b; c]) with 65536.
  change (256 ^ blen [c]) with 256. change (256 ^ blen (@nil Z)) with 1. lia.
Qed.

(** The bytes of a length field are determined by its value. *)
Lemma be_bytes_be16 a b : is_u8 a -> is_u8 b -> be_bytes 2 (be16 a b) = [a; b].
Proof. intros. apply (be_bytes_from_be _ _); [by repeat (apply List.Forall_cons; [done |]); constructor | done]. Qed.

Lemma be_bytes_be24 a b c : is_u8 a -> is_u8 b -> is_u8 c -> be_bytes 3 (be24 a b c) = [a; b; c].
Proof.
  intros. change (be24 a b c) with (from_be [a; b; c]).
  apply (be_bytes_from_be _ _); [by repeat (apply List.Forall_cons; [done |]); constructor | done].
Qed.

Lemma be16_bound a b : is_u8 a -> is_u8 b -> is_u16 (be16 a b).
Proof. rewrite be16_eq. unfold_width. lia. Qed.

Lemma be24_bound a b c : is_u8 a -> is_u8 b -> is_u8 c -> is_u24 (be24 a b c).
Proof. rewrite be24_eq. unfold_width. lia. Qed.

Lemma be16_be_bytes v : is_u16 v -> forall a b, be_bytes 2 v = [a; b] -> be16 a b = v.
Proof.
  intros Hv a b E. unfold be16. rewrite <- E. apply from_be_be_bytes_small.
  unfold is_u16, U16 in Hv. cbn. lia.
Qed.

(** Big-endian tails: dropping the leading bytes of a wider encoding. *)
Lemma be_bytes_tail n k v :
  (k <= n)%nat -> drop (n - k) (be_bytes n v) = be_bytes k v.
Proof.
  intros Hk. induction n as [| n IH]; [by replace k with O by lia |].
  destruct (decide (k = S n)) as [-> | Hne]; [by rewrite Nat.sub_diag |].
  replace (S n - k)%nat with (S (n - k)) by lia. cbn [be_bytes drop]. apply IH. lia.
Qed.

Lemma slice_be_bytes_tail n k v a b :
  (k <= n)%nat -> a = Z.of_nat (n - k) -> b = Z.of_nat n ->
  slice (be_bytes n v) a b = Some (be_bytes k v).
Proof.
  intros Hk -> ->.
  destruct (slice_in_range (be_bytes n v) (Z.of_nat (n - k)) (Z.of_nat n)) as [x Hx];
    rewrite ?blen_be_bytes; try lia.
  rewrite Hx. f_equal. apply slice_Some_inv in Hx as (_ & _ & _ & _ & ->).
  rewrite Nat2Z.id, be_bytes_tail, take_ge by (rewrite ?length_be_bytes; lia). done.
Qed.

(** OR of a multiple of [2^n] and a value below it is addition. *)
Lemma lor_add_low a b n : 0 <= n -> 0 <= b < 2 ^ n -> Z.lor (a * 2 ^ n) b = a * 2 ^ n + b.
Proof.
  intros Hn Hb. rewrite <- Z.add_nocarry_lor; [done |].
  apply Z.bits_inj'. intros i Hi. rewrite Z.land_spec, Z.bits_0.
  destruct (Z.ltb_spec i n).
  - by rewrite Z.mul_pow2_bits_low by lia.
  - rewrite <- (Z.mod_small b (2 ^ n)) by lia. by rewrite Z.mod_pow2_bits_high, andb_false_r by lia.
Qed.

(** [(v << 8) | b] appends a byte. *)
Lemma lor_shiftl_byte v b : 0 <= v -> is_u8 b -> Z.lor (Z.shiftl v 8) b = v * 256 + b.
Proof.
  intros Hv Hb. rewrite Z.shiftl_mul_pow2 by lia. by apply lor_add_low.
Qed.

(** XOR of bytes is a byte. *)
Lemma is_u8_lxor a b : is_u8 a -> is_u8 b -> is_u8 (Z.lxor a b).
Proof.
  unfold is_u8, U8. intros [Ha1 Ha2] [Hb1 Hb2]. split; [by apply Z.lxor_nonneg |].
  rewrite <- (Z.mod_small a (2 ^ 8)), <- (Z.mod_small b (2 ^ 8)) by lia.
  rewrite <- !Z.land_ones by lia.
  assert (Z.lxor (Z.land a (Z.ones 8)) (Z.land b (Z.ones 8)) = Z.land (Z.lxor a b) (Z.ones 8)) as ->.
  { apply Z.bits_inj'. intros i Hi. rewrite Z.lxor_spec, !Z.land_spec, Z.lxor_spec.
    by destruct (Z.testbit a i), (Z.testbit b i), (Z.testbit (Z.ones 8) i). }
  rewrite Z.land_ones by lia. apply Z.mod_pos_bound. lia.
Qed.

Lemma bytes_ok_lxor l k : bytes_ok l -> bytes_ok k -> bytes_ok (zip_with Z.lxor l k).
Proof.
  intros Hl. revert k. induction Hl as [| a l Ha Hl IH]; intros k Hk; [constructor |].
  destruct Hk as [| b k Hb Hk]; [constructor |]. constructor; [by apply is_u8_lxor | by apply IH].
Qed.

(** ** Boolean filters *)

Lemma filter_bool_ext {A} (P Q : A -> bool) (l : list A) :
  (forall x, x ∈ l -> P x = Q x) ->
  filter (fun x => P x = true) l = filter (fun x => Q x = true) l.
Proof.
  induction l as [| x l IH]; intros HPQ; [done |].
  rewrite !filter_cons, IH by (intros; apply HPQ; by right).
  rewrite HPQ by left. done.
Qed.

Lemma filter_bool_none {A} (P : A -> bool) (l : list A) :
  (forall x, x ∈ l -> P x = false) -> filter (fun x => P x = true) l = [].
Proof.
  induction l as [| x l IH]; intros HP; [done |].
  rewrite filter_cons_False by (rewrite HP by left; done). apply IH. intros. apply HP. by right.
Qed.

Lemma be16_be_bytes_mod v :
  be16 ((v / 256) mod 256) (v mod 256) = v mod U16.
Proof.
  rewrite be16_eq. unfold U16. change (2 ^ 16) with (256 * 256).
  rewrite (Z.rem_mul_r v 256 256) by lia. lia.
Qed.

(** ** Wire fragments: length-prefixed vectors and extensions *)

Definition vec8 (b : bytes) : bytes := be_bytes 1 (blen b) ++ b.
Definition vec16 (b : bytes) : bytes := be_bytes 2 (blen b) ++ b.
Definition vec24 (b : bytes) : bytes := be_bytes 3 (blen b) ++ b.
Definition u16s (l : list Z) : bytes := flat_map (be_bytes 2) l.
Definition ext (ty : Z) (data : bytes) : bytes := be_bytes 2 ty ++ vec16 data.

Lemma u16s_app l m : u16s (l ++ m) = u16s l ++ u16s m.
Proof. apply flat_map_app. Qed.

Lemma blen_u16s l : blen (u16s l) = 2 * blen l.
Proof. unfold u16s. induction l; cbn [flat_map]; [done |]. rewrite blen_app, blen_be_bytes, blen_cons. lia. Qed.

(** Bytes of even length are a list of 16-bit values. *)
Lemma u16s_exists (b : bytes) : bytes_ok b -> Z.even (blen b) = true -> exists l, b = u16s l /\ Forall is_u16 l.
Proof.
  remember (length b) as n eqn:Hn. revert b Hn. induction n as [n IH] using lt_wf_ind. intros [| x [| y b]] Hn Hok He.
  - by exists [].
  - done.
  - rewrite !blen_cons in He. replace (1 + (1 + blen b)) with (2 + blen b) in He by lia. rewrite Z.even_add in He.
    apply Forall_cons in Hok as [Hx [Hy Hok]%Forall_cons]. cbn [length] in Hn.
    destruct (IH (length b) ltac:(lia) b eq_refl Hok) as (l & -> & Hl); [by destruct (Z.even (blen b)) |].
    exists (be16 x y :: l). split; [| constructor; [by apply be16_bound | done]].
    unfold u16s. cbn [flat_map]. by rewrite be_bytes_be16.
Qed.

Lemma blen_vec8 b : blen (vec8 b) = 1 + blen b.
Proof. unfold vec8. rewrite blen_app, blen_be_bytes. lia. Qed.
Lemma blen_vec16 b : blen (vec16 b) = 2 + blen b.
Proof. unfold vec16. rewrite blen_app, blen_be_bytes. lia. Qed.
Lemma blen_vec24 b : blen (vec24 b) = 3 + blen b.
Proof. unfold vec24. rewrite blen_app, blen_be_bytes. lia. Qed.
Lemma blen_ext et data : blen (ext et data) = 4 + blen data.
Proof. unfold ext. rewrite blen_app, blen_be_bytes, blen_vec16. lia. Qed.

Definition exts_ok (exts : list (Z * bytes)) : Prop :=
  Forall (fun e => is_u16 e.1 /\ is_u16 (blen e.2)) exts.

Definition exts_wire (exts : list (Z * bytes)) : bytes := flat_map (fun e => ext e.1 e.2) exts.

Lemma blen_exts_wire_cons e exts : blen (exts_wire (e :: exts)) = 4 + blen e.2 + blen (exts_wire exts).
Proof. unfold exts_wire. cbn [flat_map]. by rewrite blen_app, blen_ext. Qed.

(** Bytes that do not start with a whole extension. *)
Definition no_ext (rest : bytes) : Prop :=
  blen rest < 4 \/ exists t0 t1 l0 l1 tl, rest = t0 :: t1 :: l0 :: l1 :: tl /\ blen tl < be16 l0 l1.

(** What follows in an extension block is an extension, or no extension at all. *)
Lemma ext_cases rest :
  bytes_ok rest ->
  (exists et d tail, rest = ext et d ++ tail /\ is_u16 et /\ is_u16 (blen d) /\ bytes_ok tail) \/
  no_ext rest.
Proof.
  intros Hok. unfold no_ext. destruct rest as [| t0 [| t1 [| l0 [| l1 tl]]]]; try (right; left; rewrite ?blen_cons, ?blen_nil; lia).
  do 4 (apply Forall_cons in Hok as [? Hok]).
  pose proof (be16_bound l0 l1) as Hb. unfold is_u16 in Hb.
  destruct (Z.lt_ge_cases (blen tl) (be16 l0 l1)) as [Hl | Hl]; [right; right; eauto 10 |].
  left. destruct (cut_at tl (be16 l0 l1)) as (d & tail & -> & Hd & _); [split; [by apply Hb | done] |].
  apply bytes_ok_app in Hok as [_ Hok]. exists (be16 t0 t1), d, tail. split_and!; [| by apply be16_bound | | done].
  - unfold ext, vec16. by rewrite Hd, !be_bytes_be16.
  - rewrite Hd. by apply be16_bound.
Qed.

Lemma app_inj_blen {A} (a b c d : list A) : blen a = blen b -> a ++ c = b ++ d -> a = b /\ c = d.
Proof. unfold blen. intros Hl Heq. apply app_inj_1 in Heq; [done | lia]. Qed.

Lemma be_bytes_inj_u16 v w : is_u16 v -> is_u16 w -> be_bytes 2 v = be_bytes 2 w -> v = w.
Proof.
  intros Hv Hw Heq. rewrite <- (from_be_be_bytes_small 2 v), <- (from_be_be_bytes_small 2 w) by done. by rewrite Heq.
Qed.

(** An extension block that starts with an extension. *)
Lemma exts_wire_cons_inv et d tail exts :
  is_u16 et -> is_u16 (blen d) -> exts_ok exts -> ext et d ++ tail = exts_wire exts ->
  exists exts', exts = (et, d) :: exts' /\ tail = exts_wire exts'.
Proof.
  intros Het Hd Hok Heq. destruct exts as [| [et' d'] exts].
  { apply (f_equal blen) in Heq. unfold exts_wire in Heq. cbn [flat_map] in Heq.
    rewrite blen_app, blen_ext, blen_nil in Heq. pose proof (blen_nonneg d). pose proof (blen_nonneg tail). lia. }
  apply Forall_cons in Hok as [[Het' Hd'] _]. cbn [fst snd] in *. unfold exts_wire in Heq. cbn [flat_map fst snd] in Heq.
  fold (exts_wire exts) in Heq. unfold ext, vec16 in Heq. rewrite <- !app_assoc in Heq.
  apply app_inj_blen in Heq as [Ht Heq]; [| by rewrite !blen_be_bytes]. apply be_bytes_inj_u16 in Ht as ->; [| done..].
  apply app_inj_blen in Heq as [Hl Heq]; [| by rewrite !blen_be_bytes]. apply be_bytes_inj_u16 in Hl; [| done..].
  apply app_inj_blen in Heq as [-> ->]; [| done]. by exists exts.
Qed.

Lemma not_ext_block rest exts : no_ext rest -> exts_ok exts -> rest = exts_wire exts -> exts = [].
Proof.
  destruct exts as [| [et d] exts]; [done |]. intros Hbad [[Het Hd] _]%Forall_cons ->. cbn [fst snd] in *. exfalso.
  pose proof (blen_nonneg d). pose proof (blen_nonneg (exts_wire exts)).
  destruct Hbad as [Hs | (t0 & t1 & l0 & l1 & tl & Heq & Hs)]; [rewrite blen_exts_wire_cons in Hs; cbn [snd] in Hs; lia |].
  unfold exts_wire in Heq. cbn [flat_map fst snd] in Heq. fold (exts_wire exts) in Heq. unfold ext, vec16 in Heq.
  rewrite <- !app_assoc in Heq. change (t0 :: t1 :: l0 :: l1 :: tl) with ([t0; t1] ++ [l0; l1] ++ tl) in Heq.
  apply app_inj_blen in Heq as [_ Heq]; [| by rewrite blen_be_bytes].
  apply app_inj_blen in Heq as [Hl Heq]; [| by rewrite blen_be_bytes].
  rewrite <- Heq, blen_app, (be16_be_bytes _ Hd _ _ Hl) in Hs. lia.
Qed.

(** ** Stateful computations

    A handler that mutates a state and may fail leaves the state it has reached, also
    on an error. *)

Definition SM (S E A : Type) : Type := S -> S * outcome E A.

#[export] Instance SM_ret S E : MRet (SM S E) := fun A a s => (s, Ok a).
#[export] Instance SM_bind S E : MBind (SM S E) := fun A B f m s =>
  match m s with
  | (s', Ok a) => f a s'
  | (s', Err e) => (s', Err e)
  | (s', Panic) => (s', Panic)
  end.

Definition lift {S E A} (o : outcome E A) : SM S E A := fun s => (s, o).
Definition gets {S E A} (f : S -> A) : SM S E A := fun s => (s, Ok (f s)).
Definition modify {S E} (f : S -> S) : SM S E unit := fun s => (f s, Ok tt).

(** [wp m Q R s]: from [s], [m] does not panic, and ends in [Q] or, on an error, in [R]. *)
Definition wp {S E A} (m : SM S E A) (Q : A -> S -> Prop) (R : E -> S -> Prop) (s : S) : Prop :=
  match m s with
  | (s', Ok a) => Q a s'
  | (s', Err e) => R e s'
  | (_, Panic) => False
  end.

Section wp_rules.
Context {S E : Type}.
Implicit Types (s : S) (R : E -> S -> Prop).

Lemma wp_ret {A} (a : A) (Q : A -> S -> Prop) R s : Q a s -> wp (mret a) Q R s.
Proof. done. Qed.

Lemma wp_bind {A B} (m : SM S E A) (k : A -> SM S E B) Q R s :
  wp m (fun a => wp (k a) Q R) R s -> wp (m ≫= k) Q R s.
Proof. unfold wp, mbind, SM_bind. destruct (m s) as [s' [a | e |]]; auto. Qed.

Lemma wp_lift {A} (o : outcome E A) (Q : A -> S -> Prop) R s :
  ensures o (fun a => Q a s) -> (forall e, o = Err e -> R e s) -> wp (lift o) Q R s.
Proof. destruct o; cbn; auto. Qed.

Lemma wp_or_panic {A} (o : option A) a (Q : A -> S -> Prop) R s : o = Some a -> Q a s -> wp (lift (or_panic o)) Q R s.
Proof. by intros ->. Qed.

Lemma wp_fail {A} (e : E) (Q : A -> S -> Prop) R s : R e s -> wp (lift (Err e)) Q R s.
Proof. done. Qed.

Lemma wp_bind_fail {A B} (e : E) (k : A -> SM S E B) (Q : B -> S -> Prop) R s : R e s -> wp (lift (Err e) ≫= k) Q R s.
Proof. done. Qed.

Lemma wp_bind_ok {A B} (a : A) (k : A -> SM S E B) (Q : B -> S -> Prop) R s : wp (k a) Q R s -> wp (lift (Ok a) ≫= k) Q R s.
Proof. done. Qed.

Lemma wp_gets {A} (f : S -> A) (Q : A -> S -> Prop) R s : Q (f s) s -> wp (gets f) Q R s.
Proof. done. Qed.

Lemma wp_modify (f : S -> S) (Q : unit -> S -> Prop) R s : Q tt (f s) -> wp (modify f) Q R s.
Proof. done. Qed.

Lemma wp_weaken {A} (m : SM S E A) (Q Q' : A -> S -> Prop) R R' s :
  wp m Q R s -> (forall a s', Q a s' -> Q' a s') -> (forall e s', R e s' -> R' e s') -> wp m Q' R' s.
Proof. unfold wp. destruct (m s) as [s' [a | e |]]; auto. Qed.

Lemma wp_conj {A} (m : SM S E A) (Q Q' : A -> S -> Prop) R R' s :
  wp m Q R s -> wp m Q' R' s -> wp m (fun a s' => Q a s' /\ Q' a s') (fun e s' => R e s' /\ R' e s') s.
Proof. unfold wp. destruct (m s) as [s' [a | e |]]; auto. Qed.
End wp_rules.

(** ** Proof steps shared by the components *)

(** Invert every [Ok] of a monadic computation in the context. *)
Ltac invert_ok :=
  repeat match goal with
  | H : (_ ≫= _) = Ok _ |- _ => apply bind_Ok_inv in H; destruct H as (? & ? & H)
  | H : Ok _ = Ok _ |- _ => injection H as H; try subst
  | H : mret _ = Ok _ |- _ => injection H as H; try subst
  | H : ok_or _ _ = Ok _ |- _ => apply ok_or_Ok_inv in H
  | H : or_panic _ = Ok _ |- _ => apply or_panic_Ok_inv in H
  | H : map_err _ _ = Ok _ |- _ => apply map_err_Ok_inv in H
  | H : Err _ = Ok _ |- _ => discriminate H
  | H : Panic = Ok _ |- _ => discriminate H
  end.

(** Turn the boolean guards of the code into arithmetic facts. *)
Ltac bool_to_prop :=
  repeat match goal with
  | H : (_ <? _) = true |- _ => apply Z.ltb_lt in H
  | H : (_ <? _) = false |- _ => apply Z.ltb_ge in H
  | H : (_ <=? _) = true |- _ => apply Z.leb_le in H
  | H : (_ <=? _) = false |- _ => apply Z.leb_gt in H
  | H : (_ =? _) = true |- _ => apply Z.eqb_eq in H
  | H : (_ =? _) = false |- _ => apply Z.eqb_neq in H
  | H : (_ && _)%bool = true |- _ => apply andb_true_iff in H; destruct H
  | H : (_ || _)%bool = false |- _ => apply orb_false_iff in H; destruct H
  | H : negb _ = true |- _ => apply negb_true_iff in H
  | H : negb _ = false |- _ => apply negb_false_iff in H
  end.

(** Case on the first guard of the goal or of an equation to be inverted. *)
Ltac split_guard :=
  match goal with
  | |- context [match ?b with _ => _ end] => let Hg := fresh "Hg" in destruct b eqn:Hg
  | H : context [match ?b with _ => _ end] |- _ => let Hg := fresh "Hg" in destruct b eqn:Hg
  end.

(** Two wire forms that differ in how their length fields are written. *)
Ltac wire_eq :=
  repeat match goal with
  | |- ?a ++ _ = ?a ++ _ => f_equal
  | |- be_bytes _ _ ++ _ = be_bytes _ _ ++ _ => refine (f_equal2 app _ _); [f_equal; lia |]
  | |- ?x :: _ = ?x :: _ => f_equal
  | |- _ => reflexivity
  end.

(** Close a length equation or bound. *)
Ltac solve_blen :=
  rewrite ?blen_app, ?blen_cons, ?blen_nil, ?blen_be_bytes, ?blen_drop, ?blen_take,
    ?blen_replicate, ?length_be_bytes;
  first [done | lia | (unfold blen in *; cbn [length] in *; lia)].

(** Step through a chain of stores and calls. *)
Ltac run := cbn [mbind outcome_bind ok_or or_panic mret outcome_ret map_err].

Ltac blen_norm := rewrite ?blen_app, ?blen_cons, ?blen_nil, ?blen_be_bytes, ?blen_replicate in *.

Create HintDb panics discriminated.
#[export] Hint Resolve no_panic_Ok no_panic_Err no_panic_ok_or no_panic_map_err : panics.

(** Discharge a [no_panic] goal: guards are split, bounds go to [lia]. *)
Lemma no_panic_or_panic {E A} (o : option A) : is_Some o -> no_panic (E := E) (or_panic o).
Proof. intros [a ->]. discriminate. Qed.
