(* ===== verification/Deps.v ===== *)
(** * Third-party interfaces

    krabitls stores its variable-length data in [heapless::Vec] and compares
    secrets with the [subtle] crate.  Neither crate is part of the repository, so
    each is a type class: the operations the code calls and the documented
    behaviour it relies on.  The [..._model] values are concrete instances, used
    only where a theorem is applied to a concrete input. *)
From S2P Require Import Prelude.

(** [heapless::Vec<T, CAP>]: a vector of at most [CAP] elements. *)
Class HeaplessVec := {
  vec_push {A : Type} : Z -> list A -> A -> option (list A);
  vec_extend {A : Type} : Z -> list A -> list A -> option (list A);
  (** [push]: appends, or gives the element back when the vector is full. *)
  vec_push_spec A cap (v : list A) x :
    vec_push cap v x = if blen v <? cap then Some (v ++ [x]) else None;
  (** [extend_from_slice]: appends everything, or fails and appends nothing. *)
  vec_extend_spec A cap (v xs : list A) :
    vec_extend cap v xs = if blen v + blen xs <=? cap then Some (v ++ xs) else None
}.

Definition heapless_model : HeaplessVec := {|
  vec_push A cap v x := if blen v <? cap then Some (v ++ [x]) else None;
  vec_extend A cap v xs := if blen v + blen xs <=? cap then Some (v ++ xs) else None;
  vec_push_spec _ _ _ _ := eq_refl;
  vec_extend_spec _ _ _ _ := eq_refl
|}.

Section heapless.
Context `{HeaplessVec} {A : Type}.

Lemma vec_push_Some_inv cap (v : list A) x v' :
  vec_push cap v x = Some v' <-> blen v < cap /\ v' = v ++ [x].
Proof. rewrite vec_push_spec. destruct (Z.ltb_spec (blen v) cap); naive_solver lia. Qed.

Lemma vec_push_None_inv cap (v : list A) x : vec_push cap v x = None <-> cap <= blen v.
Proof. rewrite vec_push_spec. destruct (Z.ltb_spec (blen v) cap); naive_solver lia. Qed.

Lemma vec_extend_Some_inv cap (v xs v' : list A) :
  vec_extend cap v xs = Some v' <-> blen v + blen xs <= cap /\ v' = v ++ xs.
Proof.
  rewrite vec_extend_spec. destruct (Z.leb_spec (blen v + blen xs) cap); naive_solver lia.
Qed.
End heapless.

(** [subtle]: constant-time equality of byte slices and selection. *)
Class SubtleCt := {
  ct_eq : bytes -> bytes -> bool;
  ct_select {A : Type} : A -> A -> bool -> A;
  ct_eq_spec a b : ct_eq a b = true <-> a = b;
  ct_select_spec A (a b : A) c : ct_select a b c = if c then b else a
}.

#[program] Definition subtle_model : SubtleCt := {|
  ct_eq a b := bool_decide (a = b);
  ct_select A a b c := if c then b else a
|}.
Next Obligation. intros. apply bool_decide_eq_true. Qed.
Next Obligation. done. Qed.

(** [aead::AeadInOut] with a 12-byte nonce and a 16-byte tag (AES-128-GCM or
    ChaCha20-Poly1305): detached sealing and opening of a buffer in place.  Both
    are deterministic; opening succeeds exactly on a sealed buffer, and leaves
    the buffer in an unspecified state (of the same length) otherwise. *)
Class AeadCipher := {
  aead_key_len : Z;
  aead_seal : forall (key nonce aad buf : bytes), option (bytes * bytes);
  aead_open : forall (key nonce aad buf tag : bytes), bool * bytes;
  aead_seal_len key nonce aad buf ct tag :
    aead_seal key nonce aad buf = Some (ct, tag) -> blen ct = blen buf /\ blen tag = 16;
  aead_seal_bytes key nonce aad buf ct tag :
    aead_seal key nonce aad buf = Some (ct, tag) -> bytes_ok buf -> bytes_ok ct /\ bytes_ok tag;
  aead_open_len key nonce aad buf tag :
    blen (aead_open key nonce aad buf tag).2 = blen buf;
  aead_open_bytes key nonce aad buf tag :
    bytes_ok buf -> bytes_ok (aead_open key nonce aad buf tag).2;
  aead_open_seal key nonce aad buf ct tag :
    aead_seal key nonce aad buf = Some (ct, tag) ->
    aead_open key nonce aad ct tag = (true, buf);
  aead_open_authentic key nonce aad ct tag buf :
    aead_open key nonce aad ct tag = (true, buf) ->
    aead_seal key nonce aad buf = Some (ct, tag)
}.

(** A 32-bit rolling checksum, and a MAC made of it, for evaluating examples. *)
Definition toy_sum (bs : bytes) : Z := foldl (fun a b => Z.land (a * 31 + b) 0xFFFFFFFF) 1 bs.

Definition toy_tag (key nonce aad buf : bytes) : bytes :=
  be_bytes 16 (toy_sum (nonce ++ aad ++ buf) + toy_sum key).

Definition toy_seal (key nonce aad buf : bytes) : option (bytes * bytes) :=
  Some (buf, toy_tag key nonce aad buf).
Definition toy_open (key nonce aad buf tag : bytes) : bool * bytes :=
  (bool_decide (tag = toy_tag key nonce aad buf), buf).

Definition aead_model : AeadCipher.
Proof.
  refine {| aead_key_len := 16; aead_seal := toy_seal; aead_open := toy_open |};
    unfold toy_seal, toy_open; intros; simplify_eq; cbn [fst snd].
  - split; [done | apply blen_be_bytes].
  - split; [done | apply bytes_ok_be_bytes].
  - done.
  - done.
  - by rewrite bool_decide_eq_true_2.
  - by rewrite bool_decide_eq_true in *; subst.
Defined.

(** The raw AES-128 block and ChaCha20 keystream, used to mask DTLS record
    numbers. *)
Class RawCiphers := {
  aes_encrypt_block : bytes -> bytes -> bytes;
  chacha20_keystream_block : bytes -> Z -> bytes -> bytes;
  aes_block_len k b : blen b = 16 -> blen (aes_encrypt_block k b) = 16;
  aes_block_bytes k b : bytes_ok b -> bytes_ok (aes_encrypt_block k b);
  chacha20_block_len k c n : blen (chacha20_keystream_block k c n) = 64;
  chacha20_block_bytes k c n : bytes_ok (chacha20_keystream_block k c n)
}.

Definition raw_ciphers_model : RawCiphers.
Proof.
  refine {| aes_encrypt_block k b := zip_with Z.lxor (be_bytes (length b) (toy_sum k)) b;
            chacha20_keystream_block k c n := be_bytes 64 (toy_sum k * 5 + c + toy_sum n) |}.
  - intros k b Hb. unfold blen in *. rewrite length_zip_with, length_be_bytes. lia.
  - intros k b Hb. apply bytes_ok_lxor; [apply bytes_ok_be_bytes | done].
  - intros. apply blen_be_bytes.
  - intros. apply bytes_ok_be_bytes.
Defined.
