(* ===== verification/Bytecopy.v ===== *)
(** * [bytecopy.rs]: byte-addressed copies

    The copy loops themselves, and the theorem that they are plain copies: the
    other components call them through [copy_at]. *)
From S2P Require Import Prelude Deps.

Section bytecopy.
Context {E : Type}.

(** The [while i < src.len()] loop of [copy_bytes]. *)
Fixpoint copy_loop (fuel : nat) (i : Z) (dst src : bytes) : outcome E bytes :=
  match fuel with
  | O => Ok dst
  | S fuel =>
      if i <? blen src then
        b ← or_panic (at_idx src i);
        dst' ← or_panic (splice dst i [b]);
        copy_loop fuel (i + 1) dst' src
      else Ok dst
  end.

(** [copy_bytes(dst, src)]; the [assert_eq!] on the lengths panics. *)
Definition copy_bytes (dst src : bytes) : outcome E bytes :=
  if blen dst =? blen src then copy_loop (length src) 0 dst src else Panic.

(** [copy_bytes(&mut l[a..b], src)] *)
Definition copy_at (l : bytes) (a b : Z) (src : bytes) : outcome E bytes :=
  d ← or_panic (slice l a b);
  d' ← copy_bytes d src;
  or_panic (splice l a d').

Lemma copy_loop_spec fuel pre done_ todo dst src :
  src = pre ++ todo -> dst = pre ++ done_ -> length done_ = length todo ->
  fuel = length todo -> copy_loop fuel (blen pre) dst src = Ok src.
Proof.
  revert pre done_ todo dst src.
  induction fuel as [| fuel IH]; intros pre dn todo dst src -> -> Hl Hf.
  { destruct todo; [| done]. destruct dn; [| done]. done. }
  destruct todo as [| b todo]; [done |]. destruct dn as [| d dn]; [done |].
  cbn [copy_loop]. rewrite blen_app, blen_cons.
  pose proof (blen_nonneg todo).
  destruct (Z.ltb_spec (blen pre) (blen pre + (1 + blen todo))); [| lia].
  rewrite (at_idx_middle pre b todo) by done. cbn.
  change (d :: dn) with ([d] ++ dn). rewrite (splice_middle pre [d] [b] dn) by done. cbn.
  replace (blen pre + 1) with (blen (pre ++ [b])) by (rewrite blen_app; done).
  rewrite (IH (pre ++ [b]) dn todo); rewrite <- ?app_assoc; auto.
Qed.

(** [copy_bytes] is the identity on the source when the lengths agree. *)
Lemma copy_bytes_ok dst src : blen dst = blen src -> copy_bytes dst src = Ok src.
Proof.
  intros Hl. unfold copy_bytes. rewrite Hl, Z.eqb_refl.
  apply (copy_loop_spec (length src) [] dst src); auto. unfold blen in Hl. lia.
Qed.

Lemma copy_bytes_panic dst src : blen dst <> blen src -> copy_bytes dst src = Panic.
Proof. intros Hl. unfold copy_bytes. by rewrite (proj2 (Z.eqb_neq _ _) Hl). Qed.

(** The call-site form is one store. *)
Lemma copy_at_splice l a b src :
  b = a + blen src -> copy_at l a b src = or_panic (splice l a src).
Proof.
  intros ->. unfold copy_at. pose proof (blen_nonneg src).
  destruct (slice l a (a + blen src)) as [d |] eqn:Hd; cbn.
  - apply slice_Some_inv in Hd as (? & ? & ? & Hl & _).
    rewrite copy_bytes_ok by lia. done.
  - apply slice_None_inv in Hd. unfold splice.
    destruct (Z.leb_spec 0 a), (Z.leb_spec (a + blen src) (blen l)); cbn; try done; lia.
Qed.

(** The form the writers use: extend what is already written. *)
Lemma copy_at_append l r a b src :
  a = blen l -> b = a + blen src -> blen src <= blen r ->
  copy_at (l ++ r) a b src = Ok ((l ++ src) ++ drop (length src) r).
Proof. intros -> -> Hr. by rewrite copy_at_splice, splice_append. Qed.
End bytecopy.

(** ** [push_bytes]: one checked [push] per byte *)

Inductive CapacityError := CapacityErr.

Section push_bytes.
Context `{HeaplessVec}.

Fixpoint push_bytes (cap : Z) (out bs : bytes) : outcome CapacityError bytes :=
  match bs with
  | [] => Ok out
  | b :: bs => out' ← ok_or (vec_push cap out b) CapacityErr; push_bytes cap out' bs
  end.

Lemma push_bytes_ok cap out bs :
  blen out + blen bs <= cap -> push_bytes cap out bs = Ok (out ++ bs).
Proof.
  revert out. induction bs as [| b bs IH]; intros out Hc; cbn; [by rewrite app_nil_r |].
  rewrite blen_cons in Hc. pose proof (blen_nonneg bs).
  rewrite vec_push_spec. destruct (Z.ltb_spec (blen out) cap); [cbn | lia].
  rewrite IH by (rewrite blen_app; change (blen [b]) with 1; lia). by rewrite <- app_assoc.
Qed.

Lemma push_bytes_full cap out bs :
  blen out <= cap -> cap < blen out + blen bs -> push_bytes cap out bs = Err CapacityErr.
Proof.
  revert out. induction bs as [| b bs IH]; intros out Ho Hc; cbn.
  { rewrite blen_nil in Hc. lia. }
  rewrite blen_cons in Hc. rewrite vec_push_spec.
  destruct (Z.ltb_spec (blen out) cap); [cbn | done].
  apply IH; rewrite blen_app; change (blen [b]) with 1; lia.
Qed.
End push_bytes.
