(* ===== verification/Consts.v ===== *)
(** * [lib.rs], module [consts]: protocol constants (RFC 8446, RFC 9147) *)
From S2P Require Import Prelude.

Definition CT_HANDSHAKE : Z := 22.
Definition CT_APPLICATION_DATA : Z := 23.
Definition CT_ALERT : Z := 21.
Definition CT_ACK : Z := 26.
Definition CT_CHANGE_CIPHER_SPEC : Z := 0x14.
Definition CLOSE_NOTIFY_ALERT : bytes := [0x01; 0x00].

Definition LEGACY_VERSION : Z := 0x0303.
Definition TLS_1_3 : Z := 0x0304.
Definition LEGACY_SESSION_ID_LEN : Z := 32.

Definition HS_CLIENT_HELLO : Z := 1.
Definition HS_SERVER_HELLO : Z := 2.
Definition HS_NEW_SESSION_TICKET : Z := 4.
Definition HS_ENCRYPTED_EXTENSIONS : Z := 8.
Definition HS_CERTIFICATE_REQUEST : Z := 13.
Definition HS_CERTIFICATE : Z := 11.
Definition HS_CERTIFICATE_VERIFY : Z := 15.
Definition HS_FINISHED : Z := 20.
Definition HS_KEY_UPDATE : Z := 24.

Definition CONTENT_TYPE_LEN : Z := 1.

Definition CIPHER_AES_128_GCM_SHA256 : Z := 0x1301.
Definition CIPHER_CHACHA20_POLY1305_SHA256 : Z := 0x1303.
Definition NAMED_GROUP_X25519 : Z := 0x001D.
Definition NAMED_GROUP_SECP256R1 : Z := 0x0017.
Definition NAMED_GROUP_X25519MLKEM768 : Z := 0x11EC.
Definition SIG_SCHEME_ED25519 : Z := 0x0807.
Definition SIG_SCHEME_ECDSA_P256 : Z := 0x0403.
Definition SIG_SCHEME_ECDSA_P384 : Z := 0x0503.
Definition SIG_SCHEME_RSA_PSS_RSAE_SHA256 : Z := 0x0804.
Definition SIG_SCHEME_MLDSA44 : Z := 0x0904.
Definition SIG_SCHEME_MLDSA65 : Z := 0x0905.
Definition SIG_SCHEME_MLDSA87 : Z := 0x0906.

Definition EXT_SERVER_NAME : Z := 0.
Definition EXT_SUPPORTED_GROUPS : Z := 10.
Definition EXT_SIGNATURE_ALGORITHMS : Z := 13.
Definition EXT_RECORD_SIZE_LIMIT : Z := 28.
Definition EXT_SUPPORTED_VERSIONS : Z := 43.
Definition EXT_KEY_SHARE : Z := 51.
Definition EXT_ALPN : Z := 16.
Definition SNI_NAME_TYPE_HOST_NAME : Z := 0.

Definition HRR_RANDOM : bytes :=
  [0xCF; 0x21; 0xAD; 0x74; 0xE5; 0x9A; 0x61; 0x11; 0xBE; 0x1D; 0x8C; 0x02; 0x1E; 0x65; 0xB8;
   0x91; 0xC2; 0xA2; 0x11; 0x16; 0x7A; 0xBB; 0x8C; 0x5E; 0x07; 0x9E; 0x09; 0xE2; 0xC8; 0xA8;
   0x33; 0x9C].
Definition DOWNGRADE_TLS12 : bytes := [0x44; 0x4F; 0x57; 0x4E; 0x47; 0x52; 0x44; 0x01].
Definition DOWNGRADE_TLS11_OR_BELOW : bytes := [0x44; 0x4F; 0x57; 0x4E; 0x47; 0x52; 0x44; 0x00].

(** The cargo features that change the code's behaviour ([Cargo.toml]); a build
    fixes one value of each. *)
Record Features := {
  f_chacha20 : bool;
  f_cipher_aes : bool;
  f_rsa : bool;
  f_mldsa : bool;
  f_ecdsa : bool;
  f_mlkem : bool;
  f_x25519_kx : bool;
  f_p256_kx : bool
}.

(** A build with both ciphers and both classical groups, RSA and ECDSA. *)
Definition demo_features : Features := {|
  f_chacha20 := true; f_cipher_aes := true; f_rsa := true; f_mldsa := false;
  f_ecdsa := true; f_mlkem := false; f_x25519_kx := true; f_p256_kx := true |}.
