(* ===== verification/Replay.v ===== *)
(** * [dtls/replay.rs]: the anti-replay window (RFC 9147 4.5.1)

    The 64-entry sliding bitmap, an abstract specification (the set of marked
    sequence numbers), and the refinement between the two. *)
From S2P Require Import Prelude.

Record ReplayWindow := mkWindow {
  highest : Z;
  seen_any : bool;
  bitmap : Z
}.

Definition WINDOW : Z := 64.

Definition new : ReplayWindow :=
  {| highest := 0; seen_any := false; bitmap := 0 |}.

Definition accepts (w : ReplayWindow) (seq : Z) : bool :=
  if negb (seen_any w) || (highest w <? seq) then true
  else
    let delta := highest w - seq in
    if WINDOW <=? delta then false
    else Z.land (bitmap w) (Z.shiftl 1 delta) =? 0.

Definition mark (w : ReplayWindow) (seq : Z) : ReplayWindow :=
  if negb (seen_any w) then {| highest := seq; seen_any := true; bitmap := 1 |}
  else if highest w <? seq then
    let shift := seq - highest w in
    let bm := if WINDOW <=? shift then 0 else (Z.shiftl (bitmap w) shift) mod U64 in
    {| highest := seq; seen_any := true; bitmap := Z.lor bm 1 |}
  else
    let delta := highest w - seq in
    {| highest := highest w; seen_any := seen_any w;
       bitmap := if delta <? WINDOW then Z.lor (bitmap w) (Z.shiftl 1 delta)
                 else bitmap w |}.

(** ** Specification

    [hist] is what has been marked.  The window promises: a number is refused
    exactly when it was marked, or lies 64 or more below the highest mark. *)

Definition list_max_Z (l : list Z) : Z := foldr Z.max 0 l.

Definition spec_accepts (hist : list Z) (seq : Z) : bool :=
  bool_decide (hist = []) || (list_max_Z hist <? seq)
  || ((list_max_Z hist - seq <? WINDOW) && negb (bool_decide (seq ∈ hist))).

(** The bitmap describes the marks of the last 64 numbers and nothing else. *)
Record repr (w : ReplayWindow) (hist : list Z) : Prop := {
  repr_seen : seen_any w = negb (bool_decide (hist = []));
  repr_nonneg : Forall (fun s => 0 <= s) hist;
  repr_high : hist <> [] -> highest w = list_max_Z hist;
  repr_range : 0 <= bitmap w < U64;
  repr_bits : hist <> [] -> forall d, 0 <= d < WINDOW ->
    Z.testbit (bitmap w) d = bool_decide (highest w - d ∈ hist)
}.

Lemma list_max_Z_ge l x : x ∈ l -> x <= list_max_Z l.
Proof.
  induction l as [| y l IH]; [by intros ?%elem_of_nil |].
  change (list_max_Z (y :: l)) with (Z.max y (list_max_Z l)).
  intros [-> | Hx]%elem_of_cons; [| specialize (IH Hx)]; lia.
Qed.

Lemma list_max_Z_nonneg l : 0 <= list_max_Z l.
Proof.
  induction l as [| x l IH]; [done |].
  change (list_max_Z (x :: l)) with (Z.max x (list_max_Z l)). lia.
Qed.

Lemma list_max_Z_in l : l <> [] -> Forall (fun s => 0 <= s) l -> list_max_Z l ∈ l.
Proof.
  intros Hne Hf. induction Hf as [| x l Hx Hf IH]; [done |].
  destruct l as [| y l]; [cbn; rewrite Z.max_l by lia; left |].
  change (list_max_Z (x :: y :: l)) with (Z.max x (list_max_Z (y :: l))).
  destruct (Z.max_spec x (list_max_Z (y :: l))) as [[_ ->] | [_ ->]]; [right; by apply IH | left].
Qed.

(** A single bit test, as the code writes it. *)
Lemma land_bit_zero b d :
  0 <= d -> (Z.land b (Z.shiftl 1 d) =? 0) = negb (Z.testbit b d).
Proof.
  intros Hd. rewrite Z.shiftl_1_l.
  destruct (Z.testbit b d) eqn:Hb; cbn; [apply Z.eqb_neq | apply Z.eqb_eq].
  - intros H0. assert (Z.testbit (Z.land b (2 ^ d)) d = true) as Ht.
    { rewrite Z.land_spec, Hb, Z.pow2_bits_true by lia. done. }
    rewrite H0, Z.bits_0 in Ht. done.
  - apply Z.bits_inj'. intros n Hn. rewrite Z.land_spec, Z.bits_0.
    destruct (decide (n = d)) as [-> | Hne]; [by rewrite Hb |].
    rewrite (Z.pow2_bits_false d n) by lia. by rewrite andb_false_r.
Qed.

Lemma lor_range a b n : 0 <= n -> 0 <= a < 2 ^ n -> 0 <= b < 2 ^ n -> 0 <= Z.lor a b < 2 ^ n.
Proof.
  intros Hn [Ha1 Ha2] [Hb1 Hb2]. split; [by apply Z.lor_nonneg |].
  assert (Z.lor a b = Z.lor a b mod 2 ^ n) as ->.
  { apply Z.bits_inj'. intros i Hi.
    destruct (Z.ltb_spec i n).
    - by rewrite Z.mod_pow2_bits_low by lia.
    - rewrite Z.mod_pow2_bits_high by lia. rewrite Z.lor_spec.
      rewrite <- (Z.mod_small a (2 ^ n)), <- (Z.mod_small b (2 ^ n)) by lia.
      by rewrite !Z.mod_pow2_bits_high by lia. }
  apply Z.mod_pos_bound. lia.
Qed.

Lemma repr_new : repr new [].
Proof. by constructor. Qed.

Lemma testbit_one d : 0 <= d -> Z.testbit 1 d = bool_decide (d = 0).
Proof.
  intros Hd. change 1 with (2 ^ 0). destruct (decide (d = 0)) as [-> | Hne].
  - by rewrite Z.pow2_bits_true.
  - rewrite Z.pow2_bits_false by lia. by rewrite bool_decide_eq_false_2.
Qed.

(** The first mark anchors the window. *)
Lemma repr_mark_first w s : repr w [] -> 0 <= s -> repr (mark w s) [s].
Proof.
  intros [Hs _ _ _ _] Hpos. unfold mark. rewrite Hs. cbn.
  constructor; cbn; [done | by repeat constructor | lia | unfold U64; lia |].
  intros _ d Hd. rewrite testbit_one by lia. apply bool_decide_ext.
  rewrite list_elem_of_singleton. lia.
Qed.

(** A new high slides the bitmap. *)
Lemma repr_mark_above w hist s :
  repr w hist -> hist <> [] -> highest w < s -> repr (mark w s) (s :: hist).
Proof.
  intros [Hs Hf Hh [Hr1 Hr2] Hb] Hne Hlt. specialize (Hh Hne).
  pose proof (list_max_Z_nonneg hist). specialize (Hb Hne).
  unfold mark. rewrite Hs, (bool_decide_eq_false_2 (hist = [])) by done. cbn.
  destruct (Z.ltb_spec (highest w) s); [| lia].
  set (bm := if WINDOW <=? s - highest w then 0 else Z.shiftl (bitmap w) (s - highest w) mod U64).
  assert (0 <= bm < U64) as Hbm.
  { unfold bm. destruct (WINDOW <=? s - highest w);
      [unfold U64; lia | apply Z.mod_pos_bound; unfold U64; lia]. }
  constructor; cbn; [done | constructor; [lia | done] | | |].
  - intros _. unfold list_max_Z in *. lia.
  - apply (lor_range _ _ 64); [lia | done | unfold U64; lia].
  - intros _ d Hd. rewrite Z.lor_spec, testbit_one by lia.
    destruct (decide (d = 0)) as [-> | Hd0].
    { rewrite (bool_decide_eq_true_2 (0 = 0)), orb_true_r by done. symmetry.
      apply bool_decide_eq_true_2. rewrite Z.sub_0_r. left. }
    rewrite (bool_decide_eq_false_2 (d = 0)), orb_false_r by done.
    assert (Hmem : s - d ∈ s :: hist <-> s - d ∈ hist) by (rewrite elem_of_cons; lia || (split; [intros [?|?]; [lia|done] | by right])).
    rewrite (bool_decide_ext _ _ Hmem). unfold bm.
    destruct (Z.leb_spec WINDOW (s - highest w)).
    + rewrite Z.bits_0. symmetry. apply bool_decide_eq_false_2. intros Hin%list_max_Z_ge.
      unfold WINDOW in *. lia.
    + unfold U64, WINDOW in *. rewrite Z.mod_pow2_bits_low, Z.shiftl_spec by lia.
      destruct (Z.ltb_spec d (s - highest w)).
      * rewrite Z.testbit_neg_r by lia. symmetry. apply bool_decide_eq_false_2.
        intros Hin%list_max_Z_ge. lia.
      * rewrite Hb by lia. apply bool_decide_ext.
        by replace (highest w - (d - (s - highest w))) with (s - d) by lia.
Qed.

(** A late arrival inside the window sets its bit; outside, nothing changes. *)
Lemma repr_mark_below w hist s :
  repr w hist -> hist <> [] -> 0 <= s <= highest w -> repr (mark w s) (s :: hist).
Proof.
  intros [Hs Hf Hh [Hr1 Hr2] Hb] Hne Hle. specialize (Hh Hne). specialize (Hb Hne).
  unfold mark. rewrite Hs, (bool_decide_eq_false_2 (hist = [])) by done. cbn.
  destruct (Z.ltb_spec (highest w) s); [lia |].
  constructor; cbn; [done | constructor; [lia | done] | | |].
  - intros _. unfold list_max_Z in *. lia.
  - split_guard; [| done]. bool_to_prop. unfold WINDOW in *.
    apply (lor_range _ _ 64); [lia | done |]. rewrite Z.shiftl_1_l. unfold U64.
    split; [apply Z.pow_nonneg; lia | apply Z.pow_lt_mono_r; lia].
  - intros _ d Hd. destruct (Z.ltb_spec (highest w - s) WINDOW).
    + rewrite Z.lor_spec, Hb, Z.shiftl_1_l by lia.
      destruct (decide (d = highest w - s)) as [-> | Hne'].
      * rewrite Z.pow2_bits_true, orb_true_r by lia. symmetry. apply bool_decide_eq_true_2.
        replace (highest w - (highest w - s)) with s by lia. left.
      * rewrite Z.pow2_bits_false, orb_false_r by lia. apply bool_decide_ext.
        rewrite elem_of_cons. split; [by right | intros [? | ?]; [lia | done]].
    + rewrite Hb by lia. apply bool_decide_ext. rewrite elem_of_cons.
      split; [by right | intros [? | ?]; [lia | done]].
Qed.

Lemma repr_mark w hist s : repr w hist -> 0 <= s -> repr (mark w s) (s :: hist).
Proof.
  intros Hr Hs. destruct hist as [| h hist]; [by apply repr_mark_first |].
  destruct (Z.ltb_spec (highest w) s); [by apply repr_mark_above |].
  apply repr_mark_below; [done.. | lia].
Qed.

Lemma repr_accepts w hist s : repr w hist -> 0 <= s -> accepts w s = spec_accepts hist s.
Proof.
  intros [Hs Hf Hh _ Hb] Hpos. unfold accepts, spec_accepts. rewrite Hs, negb_involutive.
  destruct (decide (hist = [])) as [-> | Hne]; [done |].
  rewrite (bool_decide_eq_false_2 (hist = [])) by done. cbn [orb].
  rewrite (Hh Hne) at 1. destruct (Z.ltb_spec (list_max_Z hist) s); [done |]. cbn [orb].
  specialize (Hb Hne). rewrite (Hh Hne) in Hb |- *.
  destruct (Z.leb_spec WINDOW (list_max_Z hist - s)),
    (Z.ltb_spec (list_max_Z hist - s) WINDOW); try lia; [done.. |].
  rewrite land_bit_zero, Hb by lia. cbn [andb].
  by replace (list_max_Z hist - (list_max_Z hist - s)) with s by lia.
Qed.

(** The window after a history of marks (oldest last). *)
Definition after_marks (hist : list Z) : ReplayWindow :=
  foldr (fun s w => mark w s) new hist.

Lemma repr_after_marks hist : Forall (fun s => 0 <= s) hist -> repr (after_marks hist) hist.
Proof. induction 1; cbn; [apply repr_new | by apply repr_mark]. Qed.

(** The receive path: a record is delivered when the window accepts it, and
    delivered records are marked. *)
Fixpoint receive (w : ReplayWindow) (arrivals : list Z) : list Z :=
  match arrivals with
  | [] => []
  | s :: rest => if accepts w s then s :: receive (mark w s) rest else receive w rest
  end.

Lemma receive_fresh w hist arrivals :
  repr w hist -> Forall (fun s => 0 <= s) arrivals ->
  NoDup (receive w arrivals) /\ Forall (fun s => s ∉ hist) (receive w arrivals).
Proof.
  intros Hr Hf. revert w hist Hr.
  induction Hf as [| s rest Hs Hf IH]; intros w hist Hr; cbn; [by split; constructor |].
  destruct (accepts w s) eqn:Ha; [| by apply IH].
  destruct (IH _ _ (repr_mark _ _ _ Hr Hs)) as [Hnd Hfr].
  rewrite Forall_forall in Hfr.
  assert (s ∉ hist) as Hnew.
  { rewrite (repr_accepts _ _ _ Hr Hs) in Ha. unfold spec_accepts in Ha.
    intros Hin. rewrite (bool_decide_eq_true_2 (s ∈ hist)), andb_false_r, orb_false_r in Ha by done.
    pose proof (list_max_Z_ge _ _ Hin).
    destruct (Z.ltb_spec (list_max_Z hist) s); [lia |]. rewrite orb_false_r in Ha.
    apply bool_decide_eq_true in Ha. subst. by apply elem_of_nil in Hin. }
  split.
  - constructor; [| done]. intros Hin. apply (Hfr _ Hin). left.
  - constructor; [done |]. rewrite Forall_forall. intros x Hx Hin.
    apply (Hfr _ Hx). by right.
Qed.

(** C35. The window refines its specification: after any history of marked
    sequence numbers, a number is refused exactly when it was marked before or
    is 64 or more below the highest one marked. *)
Theorem accepts_refines_spec (hist : list Z) (s : Z) :
  Forall (fun x => 0 <= x) hist -> 0 <= s ->
  accepts (after_marks hist) s = spec_accepts hist s.
Proof. intros Hf Hs. by apply repr_accepts; [apply repr_after_marks |]. Qed.

Lemma accepts_refines_spec_witness :
  accepts (after_marks [103; 101; 100]) 102 = spec_accepts [103; 101; 100] 102 /\
  accepts (after_marks [103; 101; 100]) 102 = true.
Proof.
  split; [apply accepts_refines_spec; [by repeat constructor | done] | vm_compute; done].
Defined.

(** C36. No sequence number is ever delivered twice, whatever arrives in whatever
    order. *)
Theorem receive_no_replay (arrivals : list Z) :
  Forall (fun x => 0 <= x) arrivals -> NoDup (receive new arrivals).
Proof. intros Hf. apply (receive_fresh new []); [apply repr_new | done]. Qed.

Lemma receive_no_replay_witness :
  NoDup (receive new [5; 7; 5; 200; 7; 137; 136]) /\
  receive new [5; 7; 5; 200; 7; 137; 136] = [5; 7; 200; 137].
Proof.
  split; [apply receive_no_replay; by repeat constructor | vm_compute; done].
Defined.
