(* ===== verification/Ack.v ===== *)
(** * [dtls/ack.rs]: ACK bodies (RFC 9147 section 7)

    The two writers, the parser and its iterator; the bitmap writer is shown
    equal to the list writer on the ascending list of set bits, and the list
    writer and the parser are inverse. *)
From S2P Require Import Prelude Deps Bytecopy.

Inductive AckError := AckBufferTooSmall | AckTooMany | AckMalformed.

#[export] Instance AckError_eq_dec : EqDecision AckError.
Proof. solve_decision. Defined.

Definition RECORD_NUMBER_LEN : Z := 16.
Definition MAX_ACK_RECORDS : Z := 128.
Definition MAX_ACK_BODY_LEN : Z := 2 + MAX_ACK_RECORDS * RECORD_NUMBER_LEN.

(** The body of both writers' loops: one record number at [p]. *)
Definition put_record_number (out : bytes) (p epoch seq : Z) : outcome AckError bytes :=
  out1 ← copy_at out p (p + 8) (be_bytes 8 epoch);
  copy_at out1 (p + 8) (p + 16) (be_bytes 8 seq).

Fixpoint write_ack_loop (records : list (Z * Z)) (p : Z) (out : bytes)
    : outcome AckError bytes :=
  match records with
  | [] => Ok out
  | (epoch, seq) :: rest =>
      out1 ← put_record_number out p epoch seq;
      write_ack_loop rest (p + RECORD_NUMBER_LEN) out1
  end.

Definition write_ack `{Usize} (records : list (Z * Z)) (out : bytes)
    : outcome AckError (bytes * Z) :=
  list_len ← ok_or (checked_mul (blen records) RECORD_NUMBER_LEN) AckTooMany;
  if U16 - 1 <? list_len then Err AckTooMany else
  let total := 2 + list_len in
  if blen out <? total then Err AckBufferTooSmall else
  out1 ← copy_at out 0 2 (be_bytes 2 (as_u16 list_len));
  out2 ← write_ack_loop records 2 out1;
  Ok (out2, total).

(** [u128::count_ones] and [u128::trailing_zeros]. *)
Fixpoint count_ones_pos (p : positive) : Z :=
  match p with
  | xH => 1
  | xO p => count_ones_pos p
  | xI p => 1 + count_ones_pos p
  end.
Definition count_ones (b : Z) : Z :=
  match b with Zpos p => count_ones_pos p | _ => 0 end.

Fixpoint trailing_zeros_pos (p : positive) : Z :=
  match p with xO p => 1 + trailing_zeros_pos p | _ => 0 end.
Definition trailing_zeros (b : Z) : Z :=
  match b with Zpos p => trailing_zeros_pos p | _ => 128 end.

(** [while bits != 0], at most one round per bit of the [u128]. *)
Fixpoint write_ack_bitmap_loop (fuel : nat) (epoch bits p : Z) (out : bytes)
    : outcome AckError bytes :=
  if bits =? 0 then Ok out else
  match fuel with
  | O => Panic
  | S fuel =>
      let seq := trailing_zeros bits in
      let bits := Z.land bits (bits - 1) in
      out1 ← put_record_number out p epoch seq;
      write_ack_bitmap_loop fuel epoch bits (p + RECORD_NUMBER_LEN) out1
  end.

Definition write_ack_bitmap (epoch seqs : Z) (out : bytes) : outcome AckError (bytes * Z) :=
  let list_len := count_ones seqs * RECORD_NUMBER_LEN in
  let total := 2 + list_len in
  if blen out <? total then Err AckBufferTooSmall else
  out1 ← copy_at out 0 2 (be_bytes 2 (as_u16 list_len));
  out2 ← write_ack_bitmap_loop (Z.to_nat MAX_ACK_RECORDS) epoch seqs 2 out1;
  Ok (out2, total).

Record AckRecords := { entries : bytes; pos : Z }.

Definition parse_ack (body : bytes) : outcome AckError AckRecords :=
  len_bytes ← ok_or (slice body 0 2) AckMalformed;
  b0 ← or_panic (at_idx len_bytes 0);
  b1 ← or_panic (at_idx len_bytes 1);
  let list_len := be16 b0 b1 in
  ents ← ok_or (slice body 2 (2 + list_len)) AckMalformed;
  if negb (blen ents mod RECORD_NUMBER_LEN =? 0) then Err AckMalformed
  else Ok {| entries := ents; pos := 0 |}.

(** [Iterator::next] *)
Definition next (r : AckRecords) : option (Z * Z) * AckRecords :=
  match slice (entries r) (pos r) (pos r + RECORD_NUMBER_LEN) with
  | None => (None, r)
  | Some chunk =>
      let r' := {| entries := entries r; pos := pos r + RECORD_NUMBER_LEN |} in
      match slice chunk 0 8, slice chunk 8 16 with
      | Some e, Some s => (Some (from_be e, from_be s), r')
      | _, _ => (None, r')
      end
  end.

(** A [for] loop over the iterator. *)
Fixpoint collect (fuel : nat) (r : AckRecords) : list (Z * Z) :=
  match fuel with
  | O => []
  | S fuel =>
      match next r with
      | (Some rn, r') => rn :: collect fuel r'
      | (None, _) => []
      end
  end.

Definition ack_records (body : bytes) : outcome AckError (list (Z * Z)) :=
  r ← parse_ack body; Ok (collect (length (entries r)) r).

(** ** The wire form *)

Definition record_number (rn : Z * Z) : bytes := be_bytes 8 rn.1 ++ be_bytes 8 rn.2.
Definition ack_wire (records : list (Z * Z)) : bytes :=
  be_bytes 2 (RECORD_NUMBER_LEN * blen records) ++ flat_map record_number records.

Lemma blen_record_number rn : blen (record_number rn) = 16.
Proof. unfold record_number. by rewrite blen_app, !blen_be_bytes. Qed.

Lemma blen_record_numbers l : blen (flat_map record_number l) = 16 * blen l.
Proof.
  induction l as [| rn l IH]; [done |].
  cbn [flat_map]. rewrite blen_app, blen_record_number, blen_cons, IH. lia.
Qed.

(** ** The writers *)

Lemma put_record_number_append pre r e s :
  16 <= blen r ->
  put_record_number (pre ++ r) (blen pre) e s
  = Ok ((pre ++ record_number (e, s)) ++ drop 16 r).
Proof.
  intros Hr. unfold put_record_number.
  rewrite copy_at_append by (rewrite ?blen_be_bytes; lia). cbn [mbind outcome_bind].
  rewrite copy_at_append; rewrite ?blen_app, ?blen_drop, ?length_be_bytes, ?blen_be_bytes; try lia.
  unfold record_number. cbn [fst snd]. by rewrite drop_drop, <- !app_assoc.
Qed.

Lemma write_ack_loop_ok records pre r :
  16 * blen records <= blen r ->
  write_ack_loop records (blen pre) (pre ++ r)
  = Ok ((pre ++ flat_map record_number records) ++ drop (16 * length records) r).
Proof.
  revert pre r. induction records as [| [e s] records IH]; intros pre r Hr.
  { cbn. by rewrite app_nil_r. }
  rewrite blen_cons in Hr. pose proof (blen_nonneg records).
  cbn [write_ack_loop]. rewrite put_record_number_append by lia. cbn [mbind outcome_bind].
  replace (blen pre + RECORD_NUMBER_LEN) with (blen (pre ++ record_number (e, s)))
    by (rewrite blen_app, blen_record_number; done).
  rewrite IH by (rewrite blen_drop; lia).
  rewrite drop_drop. cbn [flat_map length]. rewrite <- !app_assoc.
  do 5 f_equal. lia.
Qed.

(** What [write_ack] leaves in the buffer, and when. *)
Lemma write_ack_ok `{Usize} records out :
  RECORD_NUMBER_LEN * blen records < U16 ->
  2 + RECORD_NUMBER_LEN * blen records <= blen out ->
  write_ack records out
  = Ok (ack_wire records ++ drop (2 + 16 * length records) out,
        2 + RECORD_NUMBER_LEN * blen records).
Proof.
  intros Hn Ho. unfold write_ack. unfold RECORD_NUMBER_LEN in *.
  rewrite checked_mul_small by (unfold U16, U32 in *; lia). cbn [ok_or mbind outcome_bind].
  destruct (Z.ltb_spec (U16 - 1) (blen records * 16)); [lia |].
  destruct (Z.ltb_spec (blen out) (2 + blen records * 16)); [lia |].
  pose proof (blen_nonneg records).
  rewrite (copy_at_append [] out) by (rewrite ?blen_be_bytes; done || lia).
  cbn [mbind outcome_bind]. rewrite length_be_bytes, app_nil_l.
  rewrite <- (blen_be_bytes 2 (as_u16 (blen records * 16))) at 1.
  rewrite write_ack_loop_ok by (rewrite blen_drop; lia). cbn [mbind outcome_bind].
  unfold ack_wire, as_u16, RECORD_NUMBER_LEN. rewrite Z.mod_small by lia.
  rewrite drop_drop. do 3 f_equal; [do 2 f_equal |]; lia.
Qed.

Lemma write_ack_rejects `{Usize} records out :
  write_ack records out =
  if U16 - 1 <? RECORD_NUMBER_LEN * blen records then Err AckTooMany
  else if blen out <? 2 + RECORD_NUMBER_LEN * blen records then Err AckBufferTooSmall
  else Ok (ack_wire records ++ drop (2 + 16 * length records) out,
           2 + RECORD_NUMBER_LEN * blen records).
Proof.
  destruct (Z.ltb_spec (U16 - 1) (RECORD_NUMBER_LEN * blen records)) as [Hb | Hb].
  { unfold write_ack, checked_mul. rewrite Z.mul_comm.
    destruct (_ <=? usize_max); [cbn [ok_or mbind outcome_bind] | done].
    by rewrite (proj2 (Z.ltb_lt _ _) Hb). }
  destruct (Z.ltb_spec (blen out) (2 + RECORD_NUMBER_LEN * blen records)) as [Ho | Ho].
  - unfold write_ack. rewrite checked_mul_small by (unfold U16, U32, RECORD_NUMBER_LEN in *; lia).
    cbn [ok_or mbind outcome_bind]. rewrite Z.mul_comm.
    rewrite (proj2 (Z.ltb_ge _ _) Hb). by rewrite (proj2 (Z.ltb_lt _ _) Ho).
  - apply write_ack_ok; lia.
Qed.

(** ** The bitmap loop enumerates the set bits in ascending order *)

Definition set_bits (b : Z) : list Z := filter (fun i => Z.testbit b i = true) (seqZ 0 128).

(** The same enumeration by recursion on the binary representation. *)
Fixpoint bits_from (off : Z) (p : positive) : list Z :=
  match p with
  | xH => [off]
  | xO p => bits_from (off + 1) p
  | xI p => off :: bits_from (off + 1) p
  end.

Definition bits_of (b : Z) : list Z := match b with Zpos p => bits_from 0 p | _ => [] end.

Lemma filter_bits_step (P Q : Z -> bool) off n :
  0 <= n -> (forall i, off < i -> P i = Q i) ->
  filter (fun i => P i = true) (seqZ off (1 + n))
  = (if P off then [off] else []) ++ filter (fun i => Q i = true) (seqZ (off + 1) n).
Proof.
  intros Hn HPQ. rewrite Z.add_comm, seqZ_cons by lia.
  replace (Z.succ off) with (off + 1) by lia. replace (Z.pred (n + 1)) with n by lia.
  assert (filter (fun i => P i = true) (seqZ (off + 1) n)
          = filter (fun i => Q i = true) (seqZ (off + 1) n)) as Hf.
  { apply filter_bool_ext. intros i Hi%elem_of_seqZ. apply HPQ. lia. }
  rewrite filter_cons, Hf. by destruct (P off).
Qed.

Lemma bits_from_filter p off n :
  Zpos p < 2 ^ n -> 0 <= n -> 0 <= off ->
  bits_from off p = filter (fun i => Z.testbit (Zpos p) (i - off) = true) (seqZ off n).
Proof.
  assert (forall (q : positive) n, 0 <= n -> Zpos q < 2 ^ n -> exists m, n = 1 + m /\ 0 <= m) as Hsz.
  { intros q k Hk Hq. exists (k - 1). destruct (decide (k = 0)) as [-> |]; [cbn in Hq |]; lia. }
  revert off n. induction p as [p IH | p IH |]; intros off n Hp Hn Hoff;
    destruct (Hsz _ n Hn Hp) as (m & -> & Hm);
    rewrite Z.pow_add_r in Hp by lia; change (2 ^ 1) with 2 in Hp.
  - rewrite (filter_bits_step _ (fun i => Z.testbit (Zpos p) (i - (off + 1)))) by
      (lia || (intros i Hi; rewrite Pos2Z.inj_xI;
               replace (i - off) with (Z.succ (i - (off + 1))) by lia;
               rewrite Z.testbit_odd_succ by lia; done)).
    rewrite <- IH by lia. rewrite Z.sub_diag. done.
  - rewrite (filter_bits_step _ (fun i => Z.testbit (Zpos p) (i - (off + 1)))) by
      (lia || (intros i Hi; rewrite Pos2Z.inj_xO;
               replace (i - off) with (Z.succ (i - (off + 1))) by lia;
               rewrite Z.testbit_even_succ by lia; done)).
    rewrite <- IH by lia. rewrite Z.sub_diag. done.
  - rewrite (filter_bits_step _ (fun _ => false)) by
      (lia || (intros i Hi; replace (i - off) with (Z.succ (i - off - 1)) by lia;
               change 1 with (2 * 0 + 1) at 1; rewrite Z.testbit_odd_succ by lia; apply Z.bits_0)).
    rewrite Z.sub_diag. cbn [Z.testbit]. cbn [bits_from]. f_equal.
    symmetry. by apply (filter_bool_none (fun _ => false)).
Qed.

Lemma bits_of_set_bits b : 0 <= b < U128 -> bits_of b = set_bits b.
Proof.
  intros Hb. unfold set_bits. destruct b as [| p | p]; cbn [bits_of]; [| | lia].
  - symmetry. apply filter_bool_none. intros i _. by rewrite Z.bits_0.
  - rewrite (bits_from_filter p 0 128) by (unfold U128 in Hb; lia).
    apply filter_bool_ext. intros i _. by rewrite Z.sub_0_r.
Qed.

Lemma length_bits_from off p : blen (bits_from off p) = count_ones_pos p.
Proof. revert off. induction p; intros; cbn; rewrite ?blen_cons; auto. by rewrite IHp. Qed.

Lemma count_ones_bits b : blen (bits_of b) = count_ones b.
Proof. destruct b; [done | apply length_bits_from | done]. Qed.

(** One round of the loop removes the head of the enumeration. *)
Lemma bits_from_shift p off : bits_from (off + 1) p = Z.succ <$> bits_from off p.
Proof. revert off. induction p; intros off; cbn; rewrite ?IHp; done. Qed.

Lemma bits_of_double z : 0 <= z -> bits_of (2 * z) = Z.succ <$> bits_of z.
Proof. intros. destruct z as [| p |]; [done | | lia]. cbn. apply (bits_from_shift p 0). Qed.

Lemma bits_of_clear_lowest p :
  bits_of (Zpos p)
  = trailing_zeros (Zpos p) :: bits_of (Z.land (Zpos p) (Zpos p - 1)) /\
  0 <= Z.land (Zpos p) (Zpos p - 1).
Proof.
  induction p as [p IH | p IH |]; [| | done].
  - assert (Z.land (Zpos p~1) (Zpos p~1 - 1) = 2 * Zpos p) as ->.
    { replace (Zpos p~1 - 1) with (2 * Zpos p) by lia.
      apply Z.bits_inj'. intros n Hn. rewrite Z.land_spec.
      destruct (Z.lt_ge_cases 0 n).
      - replace n with (Z.succ (n - 1)) by lia. rewrite Pos2Z.inj_xI.
        rewrite Z.testbit_odd_succ, Z.testbit_even_succ by lia. by rewrite andb_diag.
      - replace n with 0 by lia. by rewrite Z.testbit_even_0, andb_false_r. }
    split; [| lia]. cbn [bits_of trailing_zeros trailing_zeros_pos bits_from]. done.
  - assert (Z.land (Zpos p~0) (Zpos p~0 - 1) = 2 * Z.land (Zpos p) (Zpos p - 1)) as ->.
    { replace (Zpos p~0 - 1) with (2 * (Zpos p - 1) + 1) by lia.
      rewrite (Pos2Z.inj_xO p). apply Z.bits_inj'. intros n Hn. rewrite Z.land_spec.
      destruct (Z.lt_ge_cases 0 n).
      - replace n with (Z.succ (n - 1)) by lia.
        rewrite Z.testbit_odd_succ, !Z.testbit_even_succ, Z.land_spec by lia. done.
      - replace n with 0 by lia. by rewrite !Z.testbit_even_0. }
    destruct IH as [IH Hpos]. split; [| lia].
    rewrite bits_of_double, (Pos2Z.inj_xO p), bits_of_double, IH by lia. cbn [fmap list_fmap].
    f_equal. rewrite <- Pos2Z.inj_xO. cbn [trailing_zeros trailing_zeros_pos]. lia.
Qed.

Lemma write_ack_bitmap_loop_eq fuel epoch bits p out :
  0 <= bits -> (length (bits_of bits) <= fuel)%nat ->
  write_ack_bitmap_loop fuel epoch bits p out
  = write_ack_loop ((fun s => (epoch, s)) <$> bits_of bits) p out.
Proof.
  revert bits p out. induction fuel as [| fuel IH]; intros bits p out Hb Hf.
  - destruct bits as [| q | q]; [done | | lia].
    destruct (bits_of_clear_lowest q) as [Hq _]. rewrite Hq in Hf. cbn in Hf. lia.
  - destruct bits as [| q | q]; [done | | lia].
    destruct (bits_of_clear_lowest q) as [Hq Hpos]. rewrite Hq in Hf |- *. cbn [length] in Hf.
    cbn [write_ack_bitmap_loop Z.eqb fmap list_fmap write_ack_loop].
    destruct (put_record_number out p epoch (trailing_zeros (Zpos q))); cbn [mbind outcome_bind];
      [| done..].
    rewrite IH by (lia || done). done.
Qed.

Lemma set_bits_length b : blen (set_bits b) <= 128.
Proof.
  unfold set_bits, blen. pose proof (length_filter (fun i => Z.testbit b i = true) (seqZ 0 128)).
  rewrite length_seqZ in *. lia.
Qed.

Lemma write_ack_bitmap_eq `{Usize} (epoch seqs : Z) (out : bytes) :
  0 <= seqs < U128 ->
  write_ack_bitmap epoch seqs out = write_ack ((fun s => (epoch, s)) <$> set_bits seqs) out.
Proof.
  intros Hs. pose proof (set_bits_length seqs) as Hlen.
  assert (blen ((fun s => (epoch, s)) <$> set_bits seqs) = count_ones seqs) as Hl.
  { unfold blen. rewrite length_fmap. fold (blen (set_bits seqs)).
    by rewrite <- bits_of_set_bits, count_ones_bits. }
  rewrite <- (bits_of_set_bits seqs), count_ones_bits in Hlen by done.
  assert (length (bits_of seqs) <= Z.to_nat MAX_ACK_RECORDS)%nat as Hf.
  { rewrite <- count_ones_bits in Hlen. unfold blen, MAX_ACK_RECORDS in *. lia. }
  unfold write_ack_bitmap, write_ack. rewrite Hl, <- (bits_of_set_bits seqs) by done.
  revert Hf. generalize (Z.to_nat MAX_ACK_RECORDS). intros fuel Hf.
  rewrite checked_mul_small by (unfold RECORD_NUMBER_LEN, U32; lia). cbn [ok_or mbind outcome_bind].
  destruct (Z.ltb_spec (U16 - 1) (count_ones seqs * RECORD_NUMBER_LEN));
    [unfold RECORD_NUMBER_LEN, U16 in *; lia |].
  split_guard; [done |].
  destruct (copy_at _ _ _ _); cbn [mbind outcome_bind]; [| done..].
  by rewrite write_ack_bitmap_loop_eq by (lia || done).
Qed.

(** The bitmap writer is the list writer applied to the set bits of the
    bitmap in ascending order: same bytes, same length, same errors.  The loop
    ends within 128 rounds. *)
Theorem write_ack_bitmap_equiv `{Usize} (epoch seqs : Z) (out : bytes) :
  0 <= seqs < U128 ->
  write_ack_bitmap epoch seqs out = write_ack ((fun s => (epoch, s)) <$> set_bits seqs) out.
Proof. apply write_ack_bitmap_eq. Qed.

Lemma write_ack_bitmap_equiv_witness :
  @write_ack_bitmap 2 11 (zeros 50)
  = @write_ack usize32 ((fun s => (2, s)) <$> set_bits 11) (zeros 50) /\
  set_bits 11 = [0; 1; 3].
Proof.
  split; [apply write_ack_bitmap_equiv; unfold U128; lia | vm_compute; reflexivity].
Defined.

(** ** The parser *)

Lemma next_entry pre rn rest :
  is_u64 rn.1 -> is_u64 rn.2 ->
  next {| entries := pre ++ record_number rn ++ rest; pos := blen pre |}
  = (Some rn, {| entries := pre ++ record_number rn ++ rest; pos := blen pre + 16 |}).
Proof.
  intros H1 H2. unfold next. cbn [entries pos].
  rewrite (slice_middle pre (record_number rn) rest) by (rewrite ?blen_record_number; done).
  unfold record_number. rewrite (slice_prefix (be_bytes 8 rn.1)) by (rewrite ?blen_be_bytes; done).
  rewrite (slice_suffix (be_bytes 8 rn.1)) by (rewrite ?blen_be_bytes; done).
  unfold is_u64, U64 in *. rewrite !from_be_be_bytes_small by done.
  by destruct rn.
Qed.

Lemma collect_entries fuel pre records :
  Forall (fun rn => is_u64 rn.1 /\ is_u64 rn.2) records ->
  (length records < fuel)%nat ->
  collect fuel {| entries := pre ++ flat_map record_number records; pos := blen pre |} = records.
Proof.
  revert pre records. induction fuel as [| fuel IH]; intros pre records Hf Hl; [lia |].
  cbn [collect]. destruct Hf as [| rn records [Hr1 Hr2] Hf].
  - unfold next. cbn [entries pos flat_map]. rewrite app_nil_r. unfold slice.
    destruct (Z.leb_spec (blen pre + RECORD_NUMBER_LEN) (blen pre)); [unfold RECORD_NUMBER_LEN in *; lia |].
    by rewrite andb_false_r.
  - cbn [flat_map]. rewrite next_entry by done. f_equal.
    rewrite app_assoc, <- (blen_record_number rn), <- blen_app.
    apply IH; [done | cbn in Hl; lia].
Qed.

Lemma parse_ack_wire records tail :
  RECORD_NUMBER_LEN * blen records < U16 ->
  parse_ack (ack_wire records ++ tail)
  = Ok {| entries := flat_map record_number records; pos := 0 |}.
Proof.
  intros Hn. pose proof (blen_nonneg records).
  unfold parse_ack, ack_wire. rewrite <- app_assoc.
  rewrite (slice_prefix (be_bytes 2 _)) by (rewrite ?blen_be_bytes; done).
  cbn [ok_or mbind outcome_bind]. 
  destruct (be_bytes 2 (RECORD_NUMBER_LEN * blen records)) as [| a [| b [|]]] eqn:E;
    try (apply (f_equal length) in E; rewrite length_be_bytes in E; discriminate).
  cbn [at_idx Z.leb or_panic mbind outcome_bind].
  change (at_idx [a; b] 0) with (Some a). change (at_idx [a; b] 1) with (Some b).
  cbn [or_panic mbind outcome_bind].
  rewrite (be16_be_bytes (RECORD_NUMBER_LEN * blen records)) by
    (done || unfold is_u16, RECORD_NUMBER_LEN in *; lia).
  change (a :: b :: []) with ([a; b]).
  rewrite (slice_middle [a; b]) by
    (rewrite ?blen_record_numbers; unfold RECORD_NUMBER_LEN; done || reflexivity).
  cbn [ok_or mbind outcome_bind]. rewrite blen_record_numbers. unfold RECORD_NUMBER_LEN.
  by rewrite Z.mul_comm, Z.mod_mul by lia.
Qed.

(** Round trip: the acknowledged records a peer reads back from the bytes
    [write_ack] produced are exactly the records that were written, in order,
    whatever bytes follow the body. *)
Theorem ack_roundtrip `{Usize} (records : list (Z * Z)) (out out' : bytes) (total : Z) :
  Forall (fun rn => is_u64 rn.1 /\ is_u64 rn.2) records ->
  write_ack records out = Ok (out', total) ->
  total = 2 + RECORD_NUMBER_LEN * blen records /\ blen out' = blen out /\
  forall tail, ack_records (take (Z.to_nat total) out' ++ tail) = Ok records.
Proof.
  intros Hf Hw. rewrite write_ack_rejects in Hw. repeat split_guard; try done.
  assert (out' = ack_wire records ++ drop (2 + 16 * length records) out) as -> by congruence.
  assert (total = 2 + RECORD_NUMBER_LEN * blen records) as -> by congruence. bool_to_prop.
  assert (blen (ack_wire records) = 2 + RECORD_NUMBER_LEN * blen records) as Hl.
  { unfold ack_wire. by rewrite blen_app, blen_be_bytes, blen_record_numbers. }
  split; [done |]. split.
  { rewrite blen_app, blen_drop, Hl. unfold RECORD_NUMBER_LEN, blen in *. lia. }
  intros tail. rewrite take_app_length' by (unfold blen in *; lia).
  unfold ack_records. rewrite parse_ack_wire by lia. cbn [mbind outcome_bind entries].
  f_equal. destruct records as [| rn records]; [done |].
  apply (collect_entries _ [] (rn :: records)); [done |].
  pose proof (blen_record_numbers (rn :: records)) as Hc. unfold blen in Hc. cbn [length] in *. lia.
Qed.

Lemma ack_roundtrip_witness :
  exists out' total,
    @write_ack usize32 [(2, 0); (2, 7)] (zeros 40) = Ok (out', total) /\
    forall tail, ack_records (take (Z.to_nat total) out' ++ tail) = Ok [(2, 0); (2, 7)].
Proof.
  eexists _, _. split; [vm_compute; reflexivity |]. intros tail.
  eapply (@ack_roundtrip usize32 [(2, 0); (2, 7)] (zeros 40));
    [repeat constructor; done | vm_compute; reflexivity].
Defined.

(** No ACK body makes the parser or its iterator panic. *)
Lemma parse_ack_no_panic body : no_panic (parse_ack body).
Proof.
  unfold parse_ack. apply no_panic_bind; [auto with panics |]. intros lb Hlb. invert_ok.
  apply slice_Some_inv in Hlb as (_ & _ & _ & Hl & _).
  destruct (at_idx_in_range lb 0 ltac:(lia)) as [b0 ->].
  destruct (at_idx_in_range lb 1 ltac:(lia)) as [b1 ->].
  cbn [or_panic mbind outcome_bind]. apply no_panic_bind; [auto with panics |].
  intros. split_guard; auto with panics.
Qed.
