(* ===== verification/Framing.v ===== *)
(** * [dtls/framing.rs]: plaintext records and handshake headers (RFC 9147)

    The epoch-0 record header and the 12-byte handshake header, with the round
    trips between their writers and parsers. *)
From S2P Require Import Prelude Deps Bytecopy.

Definition DTLS_1_2_LEGACY_VERSION : Z := 0xFEFD.
Definition DTLS_1_3_VERSION : Z := 0xFEFC.
Definition PLAINTEXT_HEADER_LEN : Z := 13.
Definition HS_HEADER_LEN : Z := 12.

Inductive FramingError := FrBufferTooSmall | FrTruncated | FrFieldTooLarge.

#[export] Instance FramingError_eq_dec : EqDecision FramingError.
Proof. solve_decision. Defined.

(** ** 24- and 48-bit fields *)

Definition read_u24 (b : bytes) : outcome FramingError Z :=
  b0 ← or_panic (at_idx b 0);
  b1 ← or_panic (at_idx b 1);
  b2 ← or_panic (at_idx b 2);
  Ok (be24 b0 b1 b2).

(** [write_u24(&mut out[a..a + 3], v)] *)
Definition write_u24 (out : bytes) (a v : Z) : outcome FramingError bytes :=
  if 0x00FFFFFF <? v then Err FrFieldTooLarge else
  be ← or_panic (slice (be_bytes 4 v) 1 4);
  copy_at out a (a + 3) be.

(** [(v << 8) | byte] over the first six bytes, in a [u64]. *)
Definition read_u48_step (v byte : Z) : Z := Z.lor ((Z.shiftl v 8) mod U64) byte.
Definition read_u48 (b : bytes) : outcome FramingError Z :=
  six ← or_panic (slice b 0 6);
  Ok (foldl read_u48_step 0 six).

(** [write_u48(&mut out[a..a + 6], v)] *)
Definition write_u48 (out : bytes) (a v : Z) : outcome FramingError bytes :=
  be ← or_panic (slice (be_bytes 8 v) 2 8);
  copy_at out a (a + 6) be.

(** ** [PlaintextRecord] *)

Record PlaintextRecord := {
  content_type : Z;
  epoch : Z;
  seq : Z;
  fragment : bytes
}.

Definition PlaintextRecord_parse `{Usize} (buf : bytes)
    : outcome FramingError (PlaintextRecord * Z) :=
  if blen buf <? PLAINTEXT_HEADER_LEN then Err FrTruncated else
  ct ← or_panic (at_idx buf 0);
  e0 ← or_panic (at_idx buf 3);
  e1 ← or_panic (at_idx buf 4);
  sb ← or_panic (slice buf 5 11);
  s ← read_u48 sb;
  l0 ← or_panic (at_idx buf 11);
  l1 ← or_panic (at_idx buf 12);
  let length := be16 l0 l1 in
  end_ ← ok_or (checked_add PLAINTEXT_HEADER_LEN length) FrTruncated;
  if blen buf <? end_ then Err FrTruncated else
  frag ← or_panic (slice buf PLAINTEXT_HEADER_LEN end_);
  Ok ({| content_type := ct; epoch := be16 e0 e1; seq := s; fragment := frag |}, end_).

(** Returns the buffer as left behind and the record slice [&out[..total]]. *)
Definition PlaintextRecord_write (content_type epoch seq : Z) (fragment out : bytes)
    : outcome FramingError (bytes * bytes) :=
  let total := PLAINTEXT_HEADER_LEN + blen fragment in
  if U16 - 1 <? blen fragment then Err FrFieldTooLarge else
  if blen out <? total then Err FrBufferTooSmall else
  out ← or_panic (splice out 0 [content_type]);
  out ← copy_at out 1 3 (be_bytes 2 DTLS_1_2_LEGACY_VERSION);
  out ← copy_at out 3 5 (be_bytes 2 epoch);
  out ← write_u48 out 5 seq;
  out ← copy_at out 11 13 (be_bytes 2 (as_u16 (blen fragment)));
  out ← or_panic (splice out PLAINTEXT_HEADER_LEN fragment);
  rec ← or_panic (slice out 0 total);
  Ok (out, rec).

(** ** [HandshakeHeader] *)

Record HandshakeHeader := {
  msg_type : Z;
  hs_length : Z;
  message_seq : Z;
  fragment_offset : Z;
  fragment_length : Z
}.

Definition HandshakeHeader_parse (buf : bytes) : outcome FramingError HandshakeHeader :=
  if blen buf <? HS_HEADER_LEN then Err FrTruncated else
  mt ← or_panic (at_idx buf 0);
  lb ← or_panic (slice buf 1 4); l ← read_u24 lb;
  m0 ← or_panic (at_idx buf 4);
  m1 ← or_panic (at_idx buf 5);
  ob ← or_panic (slice buf 6 9); o ← read_u24 ob;
  fb ← or_panic (slice buf 9 12); f ← read_u24 fb;
  Ok {| msg_type := mt; hs_length := l; message_seq := be16 m0 m1;
        fragment_offset := o; fragment_length := f |}.

Definition HandshakeHeader_write (h : HandshakeHeader) (out : bytes)
    : outcome FramingError bytes :=
  if blen out <? HS_HEADER_LEN then Err FrBufferTooSmall else
  out ← or_panic (splice out 0 [msg_type h]);
  out ← write_u24 out 1 (hs_length h);
  out ← copy_at out 4 6 (be_bytes 2 (message_seq h));
  out ← write_u24 out 6 (fragment_offset h);
  write_u24 out 9 (fragment_length h).

(** ** Wire forms *)

Definition plaintext_header (ct ep sq len : Z) : bytes :=
  ct :: be_bytes 2 DTLS_1_2_LEGACY_VERSION ++ be_bytes 2 ep ++ be_bytes 6 sq ++ be_bytes 2 len.

Definition hs_header_wire (h : HandshakeHeader) : bytes :=
  msg_type h :: be_bytes 3 (hs_length h) ++ be_bytes 2 (message_seq h)
  ++ be_bytes 3 (fragment_offset h) ++ be_bytes 3 (fragment_length h).

Lemma blen_plaintext_header ct ep sq len : blen (plaintext_header ct ep sq len) = 13.
Proof. reflexivity. Qed.

Lemma blen_hs_header_wire h : blen (hs_header_wire h) = 12.
Proof. reflexivity. Qed.

Lemma read_u48_loop l v :
  bytes_ok l -> 0 <= v -> v * 256 ^ blen l + from_be l < U64 ->
  foldl read_u48_step v l = v * 256 ^ blen l + from_be l.
Proof.
  intros Hl. revert v. induction Hl as [| b l Hb Hl IH]; intros v Hv Hlt.
  { cbn [foldl from_be]. change (256 ^ blen (@nil Z)) with 1. lia. }
  cbn [foldl from_be]. cbn [from_be] in Hlt. rewrite blen_cons in *.
  pose proof (blen_nonneg l). pose proof (from_be_bound l Hl).
  rewrite (Z.pow_add_r 256 1) in * by lia. change (256 ^ 1) with 256 in *.
  assert (0 < 256 ^ blen l) by (apply Z.pow_pos_nonneg; lia).
  assert (v * 256 + b < U64) by (unfold is_u8 in Hb; nia).
  assert (read_u48_step v b = v * 256 + b) as ->.
  { unfold read_u48_step. rewrite Z.mod_small; [by apply lor_shiftl_byte |].
    rewrite Z.shiftl_mul_pow2 by lia. change (2 ^ 8) with 256. unfold is_u8 in Hb. lia. }
  rewrite IH; unfold is_u8 in Hb; lia.
Qed.

(** The shift loop is the big-endian value. *)
Lemma read_u48_from_be b : bytes_ok b -> blen b = 6 -> read_u48 b = Ok (from_be b).
Proof.
  intros Hb Hl. unfold read_u48. rewrite slice_all by done. cbn [or_panic mbind outcome_bind].
  pose proof (from_be_bound b Hb) as Hbd. rewrite Hl in Hbd.
  rewrite read_u48_loop; rewrite ?Hl; unfold U64; cbn in *; try done; lia.
Qed.

Lemma write_u24_append pre r v :
  0 <= v < U24 -> 3 <= blen r ->
  write_u24 (pre ++ r) (blen pre) v = Ok ((pre ++ be_bytes 3 v) ++ drop 3 r).
Proof.
  intros Hv Hr. unfold write_u24. unfold U24 in Hv.
  destruct (Z.ltb_spec 0x00FFFFFF v); [lia |].
  rewrite (slice_be_bytes_tail 4 3) by (done || lia). cbn [or_panic mbind outcome_bind].
  apply copy_at_append; rewrite ?blen_be_bytes; lia.
Qed.

Lemma write_u48_append pre r v :
  6 <= blen r -> write_u48 (pre ++ r) (blen pre) v = Ok ((pre ++ be_bytes 6 v) ++ drop 6 r).
Proof.
  intros Hr. unfold write_u48.
  rewrite (slice_be_bytes_tail 8 6) by (done || lia). cbn [or_panic mbind outcome_bind].
  apply copy_at_append; rewrite ?blen_be_bytes; lia.
Qed.

(** What [PlaintextRecord::write] leaves behind, on every branch. *)
Lemma PlaintextRecord_write_eq ct ep sq frag out :
  PlaintextRecord_write ct ep sq frag out =
  if U16 - 1 <? blen frag then Err FrFieldTooLarge
  else if blen out <? 13 + blen frag then Err FrBufferTooSmall
  else Ok ((plaintext_header ct ep sq (blen frag) ++ frag) ++ drop (13 + length frag) out,
           plaintext_header ct ep sq (blen frag) ++ frag).
Proof.
  unfold PlaintextRecord_write. unfold PLAINTEXT_HEADER_LEN.
  destruct (Z.ltb_spec (U16 - 1) (blen frag)); [done |].
  destruct (Z.ltb_spec (blen out) (13 + blen frag)) as [| Ho]; [done |].
  pose proof (blen_nonneg frag) as Hf.
  rewrite (splice_append [] [ct] out) by solve_blen. run. rewrite app_nil_l.
  rewrite copy_at_append by solve_blen. run.
  rewrite copy_at_append by solve_blen. run.
  rewrite !drop_drop, ?length_be_bytes. cbn [length Nat.add].
  rewrite (write_u48_append (([ct] ++ be_bytes 2 DTLS_1_2_LEGACY_VERSION) ++ be_bytes 2 ep)) by solve_blen.
  run. rewrite copy_at_append by solve_blen. run.
  rewrite splice_append by solve_blen. run.
  rewrite slice_prefix by solve_blen. run.
  rewrite !drop_drop, ?length_be_bytes. unfold as_u16. rewrite Z.mod_small by lia.
  unfold plaintext_header. rewrite <- !app_assoc. cbn [app]. done.
Qed.

Lemma PlaintextRecord_parse_wire `{Usize} ct ep sq frag tail :
  is_u16 (blen frag) ->
  PlaintextRecord_parse ((plaintext_header ct ep sq (blen frag) ++ frag) ++ tail)
  = Ok ({| content_type := ct; epoch := ep mod U16; seq := sq mod U48; fragment := frag |},
        13 + blen frag).
Proof.
  intros Hl. unfold PlaintextRecord_parse. pose proof (blen_nonneg tail).
  pose proof (blen_nonneg frag).
  set (hdr := plaintext_header ct ep sq (blen frag)). rewrite <- app_assoc.
  assert (blen hdr = 13) as Hh by apply blen_plaintext_header.
  destruct (Z.ltb_spec (blen (hdr ++ frag ++ tail)) PLAINTEXT_HEADER_LEN) as [Hc | _];
    [rewrite !blen_app, Hh in Hc; unfold PLAINTEXT_HEADER_LEN in Hc; lia |].
  rewrite slice_app_l, !at_idx_app_l by (rewrite Hh; lia).
  change (slice hdr 5 11) with (Some (be_bytes 6 sq)).
  change (at_idx hdr 0) with (Some ct).
  change (at_idx hdr 3) with (Some ((ep / 256 ^ 1) mod 256)).
  change (at_idx hdr 4) with (Some ((ep / 256 ^ 0) mod 256)).
  change (at_idx hdr 11) with (Some ((blen frag / 256 ^ 1) mod 256)).
  change (at_idx hdr 12) with (Some ((blen frag / 256 ^ 0) mod 256)).
  run. rewrite read_u48_from_be by (apply bytes_ok_be_bytes || apply blen_be_bytes). run.
  change (256 ^ 1) with 256. change (256 ^ 0) with 1. rewrite !Z.div_1_r, !be16_be_bytes_mod.
  unfold is_u16 in Hl. rewrite (Z.mod_small (blen frag)) by done.
  rewrite checked_add_small by (unfold PLAINTEXT_HEADER_LEN, U16, U32 in *; lia). run.
  unfold PLAINTEXT_HEADER_LEN. rewrite !blen_app, Hh.
  destruct (Z.ltb_spec (13 + (blen frag + blen tail)) (13 + blen frag)); [lia |].
  rewrite slice_middle by (rewrite ?Hh; done). run.
  by rewrite from_be_be_bytes.
Qed.

(** Round trip of plaintext records: whatever follows in the datagram, the
    parser reads back the content type, the epoch, the fragment and the record's
    end offset exactly, and the sequence number modulo its 48-bit field; bytes of
    the output buffer beyond the record are untouched. *)
Theorem plaintext_record_roundtrip `{Usize} (ct ep sq : Z) (frag out out' rec tail : bytes) :
  is_u16 ep -> 0 <= sq < U48 ->
  PlaintextRecord_write ct ep sq frag out = Ok (out', rec) ->
  PlaintextRecord_parse (rec ++ tail)
  = Ok ({| content_type := ct; epoch := ep; seq := sq; fragment := frag |}, blen rec) /\
  out' = rec ++ drop (length rec) out.
Proof.
  intros Hep Hsq Hw. rewrite PlaintextRecord_write_eq in Hw. repeat split_guard; try done.
  assert (rec = plaintext_header ct ep sq (blen frag) ++ frag) as Hrec by congruence.
  assert (out' = rec ++ drop (13 + length frag) out) as -> by congruence.
  bool_to_prop. pose proof (blen_nonneg frag). split.
  - rewrite Hrec, PlaintextRecord_parse_wire by (unfold is_u16; lia).
    rewrite blen_app, blen_plaintext_header, !Z.mod_small by done. done.
  - f_equal. f_equal. rewrite Hrec, length_app. done.
Qed.

Lemma plaintext_record_roundtrip_witness :
  exists out' rec,
    PlaintextRecord_write 22 0 7 [1; 2; 3] (zeros 20) = Ok (out', rec) /\
    @PlaintextRecord_parse usize32 (rec ++ [9; 9])
    = Ok ({| content_type := 22; epoch := 0; seq := 7; fragment := [1; 2; 3] |}, blen rec) /\
    out' = rec ++ drop (length rec) (zeros 20).
Proof.
  eexists _, _. split; [vm_compute; reflexivity |].
  apply (@plaintext_record_roundtrip usize32);
    [unfold is_u16, U16; lia | unfold U48; lia | vm_compute; reflexivity].
Defined.

(** ** Handshake headers *)

Definition hs_header_ok (h : HandshakeHeader) : Prop :=
  is_u8 (msg_type h) /\ is_u24 (hs_length h) /\ is_u16 (message_seq h) /\
  is_u24 (fragment_offset h) /\ is_u24 (fragment_length h).

Lemma HandshakeHeader_write_ok h out :
  hs_header_ok h -> 12 <= blen out ->
  HandshakeHeader_write h out = Ok (hs_header_wire h ++ drop 12 out).
Proof.
  intros (_ & Hl & _ & Ho & Hf) Hb. unfold HandshakeHeader_write, HS_HEADER_LEN.
  destruct (Z.ltb_spec (blen out) 12); [lia |].
  rewrite (splice_append [] [msg_type h] out) by solve_blen. run. rewrite app_nil_l.
  rewrite (write_u24_append [msg_type h]) by (done || solve_blen). run.
  rewrite copy_at_append by solve_blen. run.
  rewrite !drop_drop, ?length_be_bytes. cbn [length Nat.add].
  rewrite (write_u24_append (([msg_type h] ++ be_bytes 3 (hs_length h)) ++ be_bytes 2 (message_seq h)))
    by (done || solve_blen). run.
  rewrite (write_u24_append ((([msg_type h] ++ be_bytes 3 (hs_length h))
      ++ be_bytes 2 (message_seq h)) ++ be_bytes 3 (fragment_offset h))) by (done || solve_blen).
  unfold hs_header_wire. rewrite !drop_drop, <- !app_assoc. cbn [app Nat.add]. done.
Qed.

(** A field wider than 24 bits is refused. *)
Lemma HandshakeHeader_write_Ok_inv h out out' :
  HandshakeHeader_write h out = Ok out' ->
  12 <= blen out /\ hs_length h < U24 /\ fragment_offset h < U24 /\ fragment_length h < U24.
Proof.
  unfold HandshakeHeader_write, write_u24, HS_HEADER_LEN, U24. intros Hw.
  split_guard; [done |]. invert_ok. repeat split_guard; try done. bool_to_prop. lia.
Qed.

Lemma read_u24_ok a b c rest : read_u24 (a :: b :: c :: rest) = Ok (be24 a b c).
Proof. reflexivity. Qed.

Lemma read_u24_be_bytes v : 0 <= v < U24 -> read_u24 (be_bytes 3 v) = Ok v.
Proof.
  intros Hv. cbn [be_bytes]. rewrite read_u24_ok. f_equal. unfold U24 in Hv.
  pose proof (from_be_be_bytes_small 3 v ltac:(cbn; lia)) as Hr. cbn [be_bytes] in Hr.
  unfold be24. cbn [from_be] in *. lia.
Qed.

Lemma HandshakeHeader_parse_wire h tail :
  hs_header_ok h -> HandshakeHeader_parse (hs_header_wire h ++ tail) = Ok h.
Proof.
  intros (Ht & Hl & Hm & Ho & Hf). unfold HandshakeHeader_parse. pose proof (blen_nonneg tail).
  set (w := hs_header_wire h). assert (blen w = 12) as Hw by apply blen_hs_header_wire.
  destruct (Z.ltb_spec (blen (w ++ tail)) HS_HEADER_LEN) as [Hc | _];
    [rewrite blen_app, Hw in Hc; unfold HS_HEADER_LEN in Hc; lia |].
  rewrite !slice_app_l, !at_idx_app_l by (rewrite Hw; lia).
  change (slice w 1 4) with (Some (be_bytes 3 (hs_length h))).
  change (slice w 6 9) with (Some (be_bytes 3 (fragment_offset h))).
  change (slice w 9 12) with (Some (be_bytes 3 (fragment_length h))).
  change (at_idx w 0) with (Some (msg_type h)).
  change (at_idx w 4) with (Some ((message_seq h / 256 ^ 1) mod 256)).
  change (at_idx w 5) with (Some ((message_seq h / 256 ^ 0) mod 256)).
  run. rewrite !read_u24_be_bytes by done. run.
  change (256 ^ 1) with 256. change (256 ^ 0) with 1.
  rewrite Z.div_1_r, be16_be_bytes_mod, Z.mod_small by done. by destruct h.
Qed.

(** Round trip of handshake headers: a header whose fields fit their widths
    is written and read back unchanged, the bytes after it are preserved, and a
    header with a field wider than 24 bits is never written. *)
Theorem handshake_header_roundtrip (h : HandshakeHeader) (out out' tail : bytes) :
  is_u8 (msg_type h) -> is_u16 (message_seq h) ->
  0 <= hs_length h -> 0 <= fragment_offset h -> 0 <= fragment_length h ->
  HandshakeHeader_write h out = Ok out' ->
  hs_header_ok h /\ drop 12 out' = drop 12 out /\
  HandshakeHeader_parse (take 12 out' ++ tail) = Ok h.
Proof.
  intros Ht Hm Hl Ho Hf Hw.
  destruct (HandshakeHeader_write_Ok_inv _ _ _ Hw) as (Hb & ? & ? & ?).
  assert (hs_header_ok h) as Hok by (unfold hs_header_ok, is_u24; auto with lia).
  split; [done |]. rewrite HandshakeHeader_write_ok in Hw by done. apply Ok_inj in Hw as <-.
  split; [done |]. rewrite take_app_length' by done. by apply HandshakeHeader_parse_wire.
Qed.

Lemma handshake_header_roundtrip_witness :
  exists out',
    HandshakeHeader_write {| msg_type := 2; hs_length := 70000; message_seq := 1;
      fragment_offset := 300; fragment_length := 900 |} (zeros 14) = Ok out' /\
    HandshakeHeader_parse (take 12 out' ++ [5]) = Ok {| msg_type := 2; hs_length := 70000;
      message_seq := 1; fragment_offset := 300; fragment_length := 900 |}.
Proof.
  eexists. split; [vm_compute; reflexivity |].
  eapply (handshake_header_roundtrip _ (zeros 14)); cbn;
    [unfold is_u8, U8; lia | unfold is_u16, U16; lia | lia | lia | lia | vm_compute; reflexivity].
Defined.

(** ** Totality on arbitrary input *)

Lemma slice_cases {A} (l : list A) a b :
  0 <= a -> a <= b -> b <= blen l -> exists s, slice l a b = Some s /\ blen s = b - a.
Proof.
  intros Ha Hab Hb. destruct (slice_in_range l a b Ha Hab Hb) as [s Hs].
  exists s. split; [done |]. by apply slice_Some_inv in Hs as (_ & _ & _ & ? & _).
Qed.

Lemma read_u24_no_panic b : 3 <= blen b -> no_panic (read_u24 b).
Proof.
  intros Hb. unfold read_u24.
  destruct (at_idx_in_range b 0 ltac:(lia)) as [b0 ->].
  destruct (at_idx_in_range b 1 ltac:(lia)) as [b1 ->].
  destruct (at_idx_in_range b 2 ltac:(lia)) as [b2 ->]. done.
Qed.

Lemma HandshakeHeader_parse_no_panic buf : no_panic (HandshakeHeader_parse buf).
Proof.
  unfold HandshakeHeader_parse. destruct (Z.ltb_spec (blen buf) HS_HEADER_LEN); [done |].
  unfold HS_HEADER_LEN in *.
  destruct (slice_cases buf 1 4) as (s1 & -> & ?); [lia.. |].
  destruct (slice_cases buf 6 9) as (s2 & -> & ?); [lia.. |].
  destruct (slice_cases buf 9 12) as (s3 & -> & ?); [lia.. |].
  destruct (at_idx_in_range buf 0 ltac:(lia)) as [b0 ->].
  destruct (at_idx_in_range buf 4 ltac:(lia)) as [b4 ->].
  destruct (at_idx_in_range buf 5 ltac:(lia)) as [b5 ->].
  run. repeat (apply no_panic_bind; [apply read_u24_no_panic; lia | intros]). done.
Qed.

(** The fields of a parsed header are in range. *)
Lemma read_u24_bound b v : bytes_ok b -> read_u24 b = Ok v -> is_u24 v.
Proof.
  unfold read_u24. intros Hb Hv. invert_ok. 
  apply be24_bound; eauto using bytes_ok_at_idx.
Qed.

Lemma HandshakeHeader_parse_ok buf h :
  bytes_ok buf -> HandshakeHeader_parse buf = Ok h -> hs_header_ok h /\ 12 <= blen buf.
Proof.
  unfold HandshakeHeader_parse, HS_HEADER_LEN. intros Hb Hp. split_guard; [done |].
  invert_ok. bool_to_prop. split; [| lia]. unfold hs_header_ok. cbn.
  split_and!; eauto 6 using bytes_ok_at_idx, be16_bound, read_u24_bound, bytes_ok_slice.
Qed.

Lemma PlaintextRecord_parse_no_panic `{Usize} buf :
  bytes_ok buf -> no_panic (PlaintextRecord_parse buf).
Proof.
  intros Hbuf.
  unfold PlaintextRecord_parse. destruct (Z.ltb_spec (blen buf) PLAINTEXT_HEADER_LEN); [done |].
  unfold PLAINTEXT_HEADER_LEN in *.
  destruct (slice_cases buf 5 11) as (s1 & -> & Hs); [lia.. |].
  destruct (at_idx_in_range buf 0 ltac:(lia)) as [b0 ->].
  destruct (at_idx_in_range buf 3 ltac:(lia)) as [b3 ->].
  destruct (at_idx_in_range buf 4 ltac:(lia)) as [b4 ->].
  destruct (at_idx_in_range buf 11 ltac:(lia)) as [b11 H11].
  destruct (at_idx_in_range buf 12 ltac:(lia)) as [b12 H12].
  assert (is_u16 (be16 b11 b12)) as [? _] by (eauto using be16_bound, bytes_ok_at_idx).
  rewrite H11, H12. run.
  unfold read_u48. rewrite (slice_all s1) by lia. run.
  apply no_panic_bind; [auto with panics |]. intros e He. invert_ok.
  apply checked_add_Some_inv in He as [-> _].
  destruct (Z.ltb_spec (blen buf) (13 + be16 b11 b12)); [done |].
  destruct (slice_cases buf 13 (13 + be16 b11 b12)) as (s2 & -> & _); [lia.. | done].
Qed.

(** What an accepted record says about the datagram. *)
Lemma PlaintextRecord_parse_Ok_inv `{Usize} buf r e :
  PlaintextRecord_parse buf = Ok (r, e) ->
  slice buf 13 e = Some (fragment r) /\ 13 <= e <= blen buf /\ at_idx buf 0 = Some (content_type r).
Proof.
  unfold PlaintextRecord_parse, PLAINTEXT_HEADER_LEN. intros Hp. split_guard; [done |].
  invert_ok. split_guard; [done |]. invert_ok. simplify_eq. cbn.
  match goal with Hs : slice buf 13 _ = Some _ |- _ =>
    pose proof (slice_Some_inv _ _ _ _ Hs) end. naive_solver lia.
Qed.
