(* ===== verification/DtlsReassembly.v ===== *)
(** * [dtls/reassembly.rs]: handshake-message reassembly (RFC 9147 5.5)

    Fragments arrive out of order, duplicated, overlapping.  The component keeps
    a range set per message and the bodies in a bump-allocated arena; the
    theorems say that the flight it serializes is the sequence of messages that
    were sent, however they were cut up. *)
From Stdlib Require Import Sorting.Sorted.
From S2P Require Import Prelude Deps.

Inductive ReasmError :=
| TooManyMessages | TooManyFragments | ArenaFull | BadFragment | Inconsistent.

#[export] Instance ReasmError_eq_dec : EqDecision ReasmError.
Proof. solve_decision. Defined.

Record Slot := {
  slot_seq : Z;
  slot_type : Z;
  slot_len : Z;
  slot_off : Z;
  ranges : list (Z * Z)
}.

Record Reassembler := { slots : list Slot; used : Z }.

Definition Reassembler_new : Reassembler := {| slots := []; used := 0 |}.

Definition is_complete (s : Slot) : bool :=
  match ranges s with
  | (0, end_) :: _ => (end_ =? slot_len s) && (blen (ranges s) =? 1)
  | _ => false
  end.

Section reassembly.
Context `{Usize, HeaplessVec}.
(** The const generics [MAX_MSGS] and [MAX_FRAGS]. *)
Context (max_msgs max_frags : Z).

Definition push_range (merged : list (Z * Z)) (r : Z * Z) : outcome ReasmError (list (Z * Z)) :=
  ok_or (vec_push max_frags merged r) TooManyFragments.

(** The [for &(s, e) in &self.ranges] loop: [lo], [hi], [merged], [placed]. *)
Fixpoint add_range_loop (rs : list (Z * Z)) (lo hi : Z) (merged : list (Z * Z)) (placed : bool)
    : outcome ReasmError (Z * Z * list (Z * Z) * bool) :=
  match rs with
  | [] => Ok (lo, hi, merged, placed)
  | (s, e) :: rest =>
      if e <? lo then
        merged ← push_range merged (s, e);
        add_range_loop rest lo hi merged placed
      else if hi <? s then
        merged ← (if negb placed then push_range merged (lo, hi) else Ok merged);
        merged ← push_range merged (s, e);
        add_range_loop rest lo hi merged true
      else add_range_loop rest (Z.min lo s) (Z.max hi e) merged placed
  end.

Definition add_range (sl : Slot) (start end_ : Z) : outcome ReasmError Slot :=
  if end_ <=? start then Ok sl else
  st ← add_range_loop (ranges sl) start end_ [] false;
  let '(lo, hi, merged, placed) := st in
  merged ← (if negb placed then push_range merged (lo, hi) else Ok merged);
  Ok {| slot_seq := slot_seq sl; slot_type := slot_type sl; slot_len := slot_len sl;
        slot_off := slot_off sl; ranges := merged |}.

(** The lookup or the bump allocation of [push]. *)
Definition find_slot (r : Reassembler) (arena_len msg_type seq msg_len : Z)
    : outcome ReasmError (Reassembler * nat) :=
  match list_find (fun s => slot_seq s = seq) (slots r) with
  | Some (i, s) =>
      if negb (slot_type s =? msg_type) || negb (slot_len s =? msg_len) then Err Inconsistent
      else Ok (r, i)
  | None =>
      let off := used r in
      new_used ← ok_or (checked_add off msg_len) ArenaFull;
      if arena_len <? new_used then Err ArenaFull else
      slots' ← ok_or (vec_push max_msgs (slots r)
        {| slot_seq := seq; slot_type := msg_type; slot_len := msg_len;
           slot_off := off; ranges := [] |}) TooManyMessages;
      Ok ({| slots := slots'; used := new_used |}, (length slots' - 1)%nat)
  end.

(** [push] returns the state it leaves behind on every path: an [Err] from
    [add_range] keeps the new slot and the copied bytes. *)
Definition push (r : Reassembler) (arena : bytes) (msg_type seq msg_len frag_off : Z) (frag : bytes)
    : (Reassembler * bytes) * outcome ReasmError unit :=
  match checked_add frag_off (blen frag) with
  | None => ((r, arena), Err BadFragment)
  | Some frag_end =>
      if msg_len <? frag_end then ((r, arena), Err BadFragment) else
      match find_slot r (blen arena) msg_type seq msg_len with
      | Err e => ((r, arena), Err e)
      | Panic => ((r, arena), Panic)
      | Ok (r1, idx) =>
          match slots r1 !! idx with
          | None => ((r1, arena), Panic)
          | Some sl =>
              match splice arena (slot_off sl + frag_off) frag with
              | None => ((r1, arena), Panic)
              | Some arena1 =>
                  match add_range sl (as_u32 frag_off) (as_u32 frag_end) with
                  | Ok sl' => (({| slots := <[idx := sl']> (slots r1); used := used r1 |}, arena1), Ok ())
                  | Err e => ((r1, arena1), Err e)
                  | Panic => ((r1, arena1), Panic)
                  end
              end
          end
      end
  end.

(** [(base_seq..=fin.seq).all(...)] over the [u16] range. *)
Definition flight_complete (r : Reassembler) (base_seq finished_type : Z) : bool :=
  match list_find (fun s => slot_type s = finished_type /\ is_complete s = true) (slots r) with
  | None => false
  | Some (_, fin) =>
      if slot_seq fin <? base_seq then false else
      forallb (fun seq => existsb (fun s => (slot_seq s =? seq) && is_complete s) (slots r))
        (seqZ base_seq (slot_seq fin - base_seq + 1))
  end.

(** [.filter(|s| prev.is_none_or(|p| s.seq > p)).min_by_key(|s| s.seq)]: the
    first slot with the least key. *)
Definition after_prev (prev : option Z) (s : Slot) : bool :=
  match prev with None => true | Some p => p <? slot_seq s end.

Definition min_step (acc : option Slot) (s : Slot) : option Slot :=
  match acc with
  | None => Some s
  | Some m => if slot_seq s <? slot_seq m then Some s else Some m
  end.

Definition next_slot (ss : list Slot) (prev : option Z) : option Slot :=
  foldl min_step None (filter (fun s => after_prev prev s = true) ss).

Definition slot_header (s : Slot) : bytes :=
  [slot_type s; as_u8 (Z.shiftr (slot_len s) 16); as_u8 (Z.shiftr (slot_len s) 8);
   as_u8 (slot_len s)].

(** The [loop] of [serialize_flight]; each round advances [prev]. *)
Fixpoint serialize_loop (fuel : nat) (ss : list Slot) (arena : bytes)
    (prev : option Z) (written : Z) (out : bytes) : outcome ReasmError (bytes * Z) :=
  match next_slot ss prev with
  | None => Ok (out, written)
  | Some slot =>
      match fuel with
      | O => Panic
      | S fuel =>
          let prev := Some (slot_seq slot) in
          if negb (is_complete slot) then serialize_loop fuel ss arena prev written out else
          end_ ← ok_or (checked_add written (4 + slot_len slot)) ArenaFull;
          if blen out <? end_ then Err ArenaFull else
          out ← or_panic (splice out written (slot_header slot));
          body ← or_panic (slice arena (slot_off slot) (slot_off slot + slot_len slot));
          out ← or_panic (splice out (written + 4) body);
          serialize_loop fuel ss arena prev end_ out
      end
  end.

Definition serialize_flight (r : Reassembler) (arena out : bytes) : outcome ReasmError (bytes * Z) :=
  serialize_loop (length (slots r)) (slots r) arena None 0 out.
End reassembly.

(** ** Range sets *)

(** Sorted, non-empty, and separated by at least one missing byte. *)
Fixpoint gapped (lo : Z) (rs : list (Z * Z)) : Prop :=
  match rs with
  | [] => True
  | (s, e) :: rest => lo < s /\ s < e /\ gapped e rest
  end.

Definition covers (rs : list (Z * Z)) (i : Z) : Prop := Exists (fun r => r.1 <= i < r.2) rs.

Definition ranges_wf (len : Z) (rs : list (Z * Z)) : Prop :=
  gapped (-1) rs /\ Forall (fun r => r.2 <= len) rs.

(** The merge without the capacity limit. *)
Fixpoint merge_range (rs : list (Z * Z)) (lo hi : Z) (placed : bool) : list (Z * Z) :=
  match rs with
  | [] => if placed then [] else [(lo, hi)]
  | (s, e) :: rest =>
      if e <? lo then (s, e) :: merge_range rest lo hi placed
      else if hi <? s then
        (if placed then [] else [(lo, hi)]) ++ (s, e) :: merge_range rest lo hi true
      else merge_range rest (Z.min lo s) (Z.max hi e) placed
  end.

Section add_range.
Context `{HeaplessVec} (max_frags : Z).

(** The loop and the final placement, as one function of the merged prefix. *)
Definition finish_ranges (st : Z * Z * list (Z * Z) * bool) : outcome ReasmError (list (Z * Z)) :=
  let '(lo, hi, merged, placed) := st in
  if negb placed then push_range max_frags merged (lo, hi) else Ok merged.

Definition within_cap (l : list (Z * Z)) : outcome ReasmError (list (Z * Z)) :=
  if blen l <=? max_frags then Ok l else Err TooManyFragments.

Lemma push_range_eq merged r :
  push_range max_frags merged r =
  if blen merged <? max_frags then Ok (merged ++ [r]) else Err TooManyFragments.
Proof. unfold push_range. rewrite vec_push_spec. by destruct (_ <? _). Qed.

Lemma within_cap_over l : max_frags < blen l -> within_cap l = Err TooManyFragments.
Proof. intros ?. unfold within_cap. destruct (Z.leb_spec (blen l) max_frags); [lia | done]. Qed.

(** Pushing onto a prefix commutes with the cap on the final list. *)
Lemma push_range_bind merged r (k : list (Z * Z) -> outcome ReasmError (list (Z * Z))) tail :
  (blen (merged ++ [r]) <= max_frags ->
   k (merged ++ [r]) = within_cap ((merged ++ [r]) ++ tail)) ->
  (push_range max_frags merged r ≫= k) = within_cap (merged ++ r :: tail).
Proof.
  intros Hk. rewrite <- app_assoc in Hk. rewrite push_range_eq.
  destruct (Z.ltb_spec (blen merged) max_frags).
  - apply Hk. rewrite blen_app. change (blen [r]) with 1. lia.
  - symmetry. apply within_cap_over. rewrite blen_app, blen_cons.
    pose proof (blen_nonneg tail). lia.
Qed.

Lemma add_range_loop_eq rs lo hi merged placed :
  blen merged <= max_frags ->
  (add_range_loop max_frags rs lo hi merged placed ≫= finish_ranges)
  = within_cap (merged ++ merge_range rs lo hi placed).
Proof.
  revert lo hi merged placed. induction rs as [| [s e] rs IH]; intros lo hi merged placed Hm.
  { cbn. destruct placed; cbn.
    - rewrite app_nil_r. unfold within_cap. by destruct (Z.leb_spec (blen merged) max_frags); [| lia].
    - rewrite <- (push_range_bind merged (lo, hi) Ok []); [by destruct (push_range _ _ _) |].
      intros Hl. rewrite app_nil_r. unfold within_cap. by rewrite (proj2 (Z.leb_le _ _) Hl). }
  cbn [add_range_loop merge_range]. destruct (e <? lo).
  { rewrite bind_assoc. apply push_range_bind. apply IH. }
  destruct (hi <? s); [| by apply IH].
  destruct placed; cbn [negb app].
  - rewrite bind_Ok, bind_assoc. apply push_range_bind. apply IH.
  - rewrite bind_assoc. apply push_range_bind. intros _. rewrite bind_assoc.
    apply push_range_bind. apply IH.
Qed.

(** [add_range] installs the merged set when it fits, and changes nothing otherwise. *)
Lemma add_range_eq sl start end_ :
  0 <= max_frags -> start < end_ ->
  add_range max_frags sl start end_
  = (rs ← within_cap (merge_range (ranges sl) start end_ false);
     Ok {| slot_seq := slot_seq sl; slot_type := slot_type sl; slot_len := slot_len sl;
           slot_off := slot_off sl; ranges := rs |}).
Proof.
  intros Hm Hlt. unfold add_range. destruct (Z.leb_spec end_ start); [lia |].
  rewrite <- (app_nil_l (merge_range _ _ _ _)).
  rewrite <- add_range_loop_eq by (rewrite blen_nil; lia). rewrite bind_assoc.
  destruct (add_range_loop max_frags (ranges sl) start end_ [] false) as [[[[lo hi] m] p] | |]; done.
Qed.
End add_range.

Lemma merge_range_placed rs b lo hi :
  gapped b rs -> lo < hi -> hi <= b -> merge_range rs lo hi true = rs.
Proof.
  revert b. induction rs as [| [s e] rs IH]; intros b Hg Hlt Hb; [done |].
  destruct Hg as (? & ? & Hg). cbn [merge_range].
  destruct (Z.ltb_spec e lo); [lia |]. destruct (Z.ltb_spec hi s); [| lia].
  cbn [app]. f_equal. apply (IH e); [done | lia | lia].
Qed.

Lemma merge_range_gapped rs b lo hi :
  gapped b rs -> b < lo -> lo < hi -> gapped b (merge_range rs lo hi false).
Proof.
  revert b lo hi. induction rs as [| [s e] rs IH]; intros b lo hi Hg Hb Hlt; [cbn; lia |].
  destruct Hg as (? & ? & Hg). cbn [merge_range].
  destruct (Z.ltb_spec e lo); [cbn; auto |].
  destruct (Z.ltb_spec hi s).
  - rewrite (merge_range_placed rs e) by (done || lia). cbn. auto with lia.
  - apply IH; [| lia | lia]. destruct rs as [| [s' e'] rs]; cbn in *; lia || intuition lia.
Qed.

Lemma covers_nil i : covers [] i <-> False.
Proof. unfold covers. by rewrite Exists_nil. Qed.

Lemma covers_cons s e rs i : covers ((s, e) :: rs) i <-> s <= i < e \/ covers rs i.
Proof. unfold covers. by rewrite Exists_cons. Qed.

Lemma merge_range_covers rs b lo hi i :
  gapped b rs -> lo < hi ->
  covers (merge_range rs lo hi false) i <-> lo <= i < hi \/ covers rs i.
Proof.
  revert b lo hi. induction rs as [| [s e] rs IH]; intros b lo hi Hg Hlt.
  { cbn. rewrite covers_cons, covers_nil. done. }
  destruct Hg as (? & ? & Hg). cbn [merge_range].
  destruct (Z.ltb_spec e lo).
  - rewrite !covers_cons, (IH e) by done. tauto.
  - destruct (Z.ltb_spec hi s).
    + rewrite (merge_range_placed rs e) by (done || lia). cbn [app]. rewrite !covers_cons. done.
    + rewrite (IH e), covers_cons by (done || lia).
      assert (Z.min lo s <= i < Z.max hi e <-> lo <= i < hi \/ s <= i < e) by lia. tauto.
Qed.

Lemma merge_range_bounded rs lo hi p len :
  Forall (fun r => r.2 <= len) rs -> hi <= len ->
  Forall (fun r => r.2 <= len) (merge_range rs lo hi p).
Proof.
  intros Hf. revert lo hi p. induction Hf as [| [s e] rs He Hf IH]; intros lo hi p Hh; cbn [merge_range].
  { destruct p; repeat constructor; done. }
  cbn in He. repeat split_guard; cbn [app]; repeat constructor; auto. apply IH. lia.
Qed.

(** The set is one interval exactly when nothing is missing. *)
Lemma gapped_covers_lower rs b i : gapped b rs -> covers rs i -> b < i.
Proof.
  revert b. induction rs as [| [s e] rs IH]; intros b Hg; [by rewrite covers_nil |].
  destruct Hg as (? & ? & Hg). rewrite covers_cons. intros [? | Hc]; [lia |].
  specialize (IH _ Hg Hc). lia.
Qed.

Lemma complete_iff_covered sl :
  ranges_wf (slot_len sl) (ranges sl) ->
  is_complete sl = true <->
  0 < slot_len sl /\ forall i, 0 <= i < slot_len sl -> covers (ranges sl) i.
Proof.
  intros [Hg Hb]. unfold is_complete. destruct (ranges sl) as [| [s e] rs].
  { split; [done |]. intros [Hl Hc]. specialize (Hc 0 ltac:(lia)). by apply covers_nil in Hc. }
  destruct Hg as (Hs & Hse & Hg). inversion Hb as [| ? ? He _]; subst. cbn in He.
  split.
  - destruct s as [| | ]; try done. intros [He1 Hl1]%andb_true_iff.
    apply Z.eqb_eq in He1, Hl1. subst e. split; [lia |]. intros i Hi. rewrite covers_cons. left. lia.
  - intros [Hl Hc].
    assert (s = 0) as ->.
    { specialize (Hc 0 ltac:(lia)). rewrite covers_cons in Hc.
      destruct Hc as [? | Hc]; [lia |]. apply (gapped_covers_lower _ e) in Hc; [lia | done]. }
    assert (e = slot_len sl) as ->.
    { destruct (decide (e < slot_len sl)) as [Hlt | ?]; [| lia].
      specialize (Hc e ltac:(lia)). rewrite covers_cons in Hc. destruct Hc as [? | Hc]; [lia |].
      apply (gapped_covers_lower _ e) in Hc; [lia | done]. }
    rewrite Z.eqb_refl. cbn [andb]. apply Z.eqb_eq.
    destruct rs as [| [s' e'] rs]; [done |]. exfalso.
    destruct Hg as (? & ? & _). inversion Hb as [| ? ? ? Hb2]; subst.
    inversion Hb2; subst. cbn in *. lia.
Qed.

(** ** The structural invariant *)

(** Slots tile the arena in allocation order, from [off] to [u]. *)
Fixpoint laid_out (off : Z) (ss : list Slot) (u : Z) : Prop :=
  match ss with
  | [] => u = off
  | s :: ss => slot_off s = off /\ 0 <= slot_len s < U24 /\ laid_out (off + slot_len s) ss u
  end.

(** Everything but the range set. *)
Definition shape (s : Slot) : Z * Z * Z * Z := (slot_seq s, slot_type s, slot_len s, slot_off s).

Record reasm_wf (max_msgs max_frags : Z) (r : Reassembler) (arena_len : Z) : Prop := {
  wf_layout : laid_out 0 (slots r) (used r);
  wf_used : used r <= arena_len;
  wf_seqs : NoDup (slot_seq <$> slots r);
  wf_msgs : blen (slots r) <= max_msgs;
  wf_ranges : Forall (fun s => ranges_wf (slot_len s) (ranges s) /\ blen (ranges s) <= max_frags)
                (slots r)
}.

Lemma laid_out_shape ss ss' off u :
  shape <$> ss = shape <$> ss' -> laid_out off ss u -> laid_out off ss' u.
Proof.
  revert ss' off. induction ss as [| s ss IH]; intros [| s' ss'] off Hs; try done.
  cbn in Hs. injection Hs as _ _ Hlen Hoff Hs. cbn. rewrite <- Hlen, <- Hoff.
  intros (? & ? & ?). auto.
Qed.

Lemma laid_out_app ss s off u :
  laid_out off ss u -> 0 <= slot_len s < U24 -> slot_off s = u ->
  laid_out off (ss ++ [s]) (u + slot_len s).
Proof.
  revert off. induction ss as [| s' ss IH]; intros off Hl Hlen Hoff; cbn in *; [subst; auto |].
  destruct Hl as (? & ? & ?). auto.
Qed.

Lemma laid_out_inside ss off u s :
  laid_out off ss u -> s ∈ ss ->
  off <= slot_off s /\ 0 <= slot_len s < U24 /\ slot_off s + slot_len s <= u.
Proof.
  revert off. induction ss as [| s' ss IH]; intros off Hl Hin; [by apply elem_of_nil in Hin |].
  destruct Hl as (Ho & Hlen & Hl).
  assert (forall ss off, laid_out off ss u -> off <= u) as Hmono.
  { clear. induction ss as [| s ss IH]; intros off; cbn; [lia |].
    intros (? & ? & Hl). apply IH in Hl. lia. }
  apply elem_of_cons in Hin as [-> | Hin].
  - apply Hmono in Hl. lia.
  - destruct (IH _ Hl Hin) as (? & ? & ?). lia.
Qed.

(** Regions of different messages do not overlap. *)
Lemma laid_out_disjoint ss off u s s' :
  laid_out off ss u -> s ∈ ss -> s' ∈ ss -> NoDup (slot_seq <$> ss) ->
  slot_seq s <> slot_seq s' ->
  slot_off s + slot_len s <= slot_off s' \/ slot_off s' + slot_len s' <= slot_off s.
Proof.
  revert off. induction ss as [| x ss IH]; intros off Hl Hs Hs' Hnd Hne;
    [by apply elem_of_nil in Hs |].
  destruct Hl as (Ho & Hlen & Hl). cbn in Hnd. apply NoDup_cons in Hnd as [_ Hnd].
  apply elem_of_cons in Hs as [-> | Hs], Hs' as [-> | Hs']; [done | | |].
  - destruct (laid_out_inside _ _ _ _ Hl Hs'). lia.
  - destruct (laid_out_inside _ _ _ _ Hl Hs). lia.
  - by apply (IH _ Hl).
Qed.

Lemma reasm_wf_new max_msgs max_frags n :
  0 <= max_msgs -> 0 <= n -> reasm_wf max_msgs max_frags Reassembler_new n.
Proof. intros. constructor; cbn; [done | done | constructor | rewrite blen_nil; lia | constructor]. Qed.

Section push.
Context `{Usize, HeaplessVec} (max_msgs max_frags : Z).
Hypothesis max_frags_nonneg : 0 <= max_frags.
Local Abbreviation wf := (reasm_wf max_msgs max_frags).

(** The slot [push] works on: an existing one with the same type and length, or
    a fresh one at the end of the arena. *)
Lemma find_slot_spec r n ty sq len r1 idx :
  wf r n -> 0 <= len < U24 ->
  find_slot max_msgs r n ty sq len = Ok (r1, idx) ->
  wf r1 n /\ exists sl, slots r1 !! idx = Some sl /\
    slot_seq sl = sq /\ slot_type sl = ty /\ slot_len sl = len /\
    (r1 = r \/ (slots r1 = slots r ++ [sl] /\ ranges sl = [] /\
                Forall (fun s => slot_seq s <> sq) (slots r))).
Proof.
  intros Hwf Hlen. unfold find_slot.
  destruct (list_find (fun s => slot_seq s = sq) (slots r)) as [[i s] |] eqn:Hf.
  - apply list_find_Some in Hf as (Hi & Hs & _). split_guard; [done |]. intros [= <- <-].
    bool_to_prop. split; [done |]. exists s. naive_solver.
  - apply list_find_None in Hf. intros Hok. invert_ok. split_guard; [done |].
    invert_ok. bool_to_prop. simplify_eq.
    match goal with Ha : checked_add _ _ = Some _ |- _ => apply checked_add_Some_inv in Ha as [-> _] end.
    match goal with Hv : vec_push _ _ _ = Some _ |- _ => apply vec_push_Some_inv in Hv as [Hcap ->] end.
    set (sl := {| slot_seq := sq; slot_type := ty; slot_len := len;
                  slot_off := used r; ranges := [] |}).
    destruct Hwf as [Hlay Hu Hnd Hm Hr]. split.
    + constructor; cbn.
      * by apply (laid_out_app _ sl).
      * lia.
      * rewrite fmap_app. apply NoDup_app. split_and!; [done | | apply NoDup_singleton].
        intros x Hx Hx'%list_elem_of_singleton. subst x.
        apply list_elem_of_fmap in Hx as (s & Hs & Hin). rewrite Forall_forall in Hf.
        by apply (Hf s Hin).
      * rewrite blen_app. change (blen [sl]) with 1. lia.
      * apply Forall_app. split; [done |]. repeat constructor. cbn. by rewrite blen_nil.
    + exists sl. cbn. split_and!; [| done.. |].
      * rewrite length_app. cbn [length]. rewrite lookup_app_r by lia.
        by replace (length (slots r) + 1 - 1 - length (slots r))%nat with O by lia.
      * right. done.
Qed.

Lemma find_slot_no_panic r n ty sq len : no_panic (find_slot max_msgs r n ty sq len).
Proof.
  unfold find_slot. destruct (list_find _ _) as [[? ?] |]; [split_guard; auto with panics |].
  apply no_panic_bind; [auto with panics |]. intros. split_guard; [auto with panics |].
  apply no_panic_bind; auto with panics.
Qed.

(** Adding a received range to a slot of the table. *)
Lemma add_range_wf sl a b sl' :
  ranges_wf (slot_len sl) (ranges sl) -> blen (ranges sl) <= max_frags ->
  0 <= a -> b <= slot_len sl ->
  add_range max_frags sl a b = Ok sl' ->
  shape sl' = shape sl /\ ranges_wf (slot_len sl) (ranges sl') /\
  blen (ranges sl') <= max_frags /\
  forall i, covers (ranges sl') i <-> covers (ranges sl) i \/ a <= i < b.
Proof.
  intros [Hg Hb] Hcap Ha Hbl Hadd. destruct (Z.le_gt_cases b a) as [Hle | Hlt].
  - unfold add_range in Hadd. rewrite (proj2 (Z.leb_le _ _) Hle) in Hadd. simplify_eq.
    split_and!; [done.. |]. intros i. split; [by left | intros [? | ?]; [done | lia]].
  - rewrite add_range_eq in Hadd by lia. unfold within_cap in Hadd.
    destruct (Z.leb_spec (blen (merge_range (ranges sl) a b false)) max_frags) as [Hl |]; [| done].
    cbn in Hadd. apply Ok_inj in Hadd as <-. cbn. split_and!; [done | | done |].
    + split; [apply merge_range_gapped; auto with lia | by apply merge_range_bounded].
    + intros i. rewrite (merge_range_covers _ (-1)) by done. tauto.
Qed.

Lemma add_range_no_panic sl a b : no_panic (add_range max_frags sl a b).
Proof.
  destruct (Z.le_gt_cases b a) as [Hle | Hlt].
  - unfold add_range. by rewrite (proj2 (Z.leb_le _ _) Hle).
  - rewrite add_range_eq by done. unfold within_cap. by split_guard.
Qed.

(** Replacing a slot by one of the same shape. *)
Lemma shape_insert (ss : list Slot) (idx : nat) sl sl' :
  ss !! idx = Some sl -> shape sl' = shape sl -> shape <$> <[idx := sl']> ss = shape <$> ss.
Proof.
  intros Hi Hs. rewrite list_fmap_insert, Hs. apply list_insert_id.
  by rewrite list_lookup_fmap, Hi.
Qed.

Lemma slot_seq_shape (ss ss' : list Slot) :
  shape <$> ss = shape <$> ss' -> slot_seq <$> ss = slot_seq <$> ss'.
Proof.
  revert ss'. induction ss as [| s ss IH]; intros [| s' ss'] Hs; try done.
  cbn in Hs. injection Hs as Hq _ _ _ Hs. cbn. rewrite Hq. f_equal. by apply IH.
Qed.

Lemma reasm_wf_insert r n idx sl sl' :
  wf r n -> slots r !! idx = Some sl -> shape sl' = shape sl ->
  ranges_wf (slot_len sl) (ranges sl') -> blen (ranges sl') <= max_frags ->
  wf {| slots := <[idx := sl']> (slots r); used := used r |} n.
Proof.
  intros [Hlay Hu Hnd Hm Hr] Hi Hs Hw Hc. pose proof (shape_insert _ _ _ _ Hi Hs) as Hsh.
  constructor; cbn; [by eapply laid_out_shape | done | | |].
  - by rewrite (slot_seq_shape _ _ Hsh).
  - unfold blen in *. by rewrite length_insert.
  - apply Forall_insert; [done |]. split; [| done].
    injection Hs as _ _ -> _. done.
Qed.

(** Every path of [push], with the state it leaves. *)
Inductive push_result (r : Reassembler) (arena : bytes) (ty sq len foff : Z) (frag : bytes)
    : (Reassembler * bytes) * outcome ReasmError unit -> Prop :=
| push_refused e : push_result r arena ty sq len foff frag ((r, arena), Err e)
| push_overflow r1 arena1 e : wf r1 (blen arena) -> blen arena1 = blen arena ->
    push_result r arena ty sq len foff frag ((r1, arena1), Err e)
| push_stored r1 idx sl sl' arena1 :
    wf r1 (blen arena) -> slots r1 !! idx = Some sl ->
    slot_seq sl = sq -> slot_type sl = ty -> slot_len sl = len ->
    (r1 = r \/ (slots r1 = slots r ++ [sl] /\ ranges sl = [] /\
                Forall (fun s => slot_seq s <> sq) (slots r))) ->
    0 <= foff -> foff + blen frag <= len ->
    splice arena (slot_off sl + foff) frag = Some arena1 ->
    shape sl' = shape sl -> ranges_wf len (ranges sl') -> blen (ranges sl') <= max_frags ->
    (forall i, covers (ranges sl') i <-> covers (ranges sl) i \/ foff <= i < foff + blen frag) ->
    push_result r arena ty sq len foff frag
      (({| slots := <[idx := sl']> (slots r1); used := used r1 |}, arena1), Ok ()).

Lemma push_cases r arena ty sq len foff frag :
  wf r (blen arena) -> 0 <= len < U24 -> 0 <= foff ->
  push_result r arena ty sq len foff frag (push max_msgs max_frags r arena ty sq len foff frag).
Proof.
  intros Hwf Hlen Hoff. unfold push.
  destruct (checked_add foff (blen frag)) as [fe |] eqn:Hfe; [| constructor].
  apply checked_add_Some_inv in Hfe as [-> _]. pose proof (blen_nonneg frag).
  destruct (Z.ltb_spec len (foff + blen frag)); [constructor |].
  pose proof (find_slot_no_panic r (blen arena) ty sq len) as Hnp.
  destruct (find_slot max_msgs r (blen arena) ty sq len) as [[r1 idx] | e |] eqn:Hfs;
    [| constructor | done].
  destruct (find_slot_spec _ _ _ _ _ _ _ Hwf Hlen Hfs) as (Hwf1 & sl & Hi & Hsq & Hty & Hle & Hr1).
  rewrite Hi. assert (sl ∈ slots r1) as Hin by (by eapply list_elem_of_lookup_2).
  destruct (laid_out_inside _ _ _ _ (wf_layout _ _ _ _ Hwf1) Hin) as (? & ? & ?).
  pose proof (wf_used _ _ _ _ Hwf1).
  destruct (splice_in_range arena (slot_off sl + foff) frag) as [arena1 Ha]; [lia | lia |].
  rewrite Ha. destruct (splice_Some_inv _ _ _ _ Ha) as (_ & _ & Hal & _).
  unfold as_u32, U24, U32 in *. rewrite !Z.mod_small by lia.
  destruct (proj1 (Forall_forall _ _) (wf_ranges _ _ _ _ Hwf1) _ Hin) as [Hrw Hrc].
  pose proof (add_range_no_panic sl foff (foff + blen frag)) as Hnp2.
  destruct (add_range max_frags sl foff (foff + blen frag)) as [sl' | e |] eqn:Had;
    [| by constructor | done].
  apply add_range_wf in Had as (Hsh & Hw & Hc & Hcov); [| done | done | lia | lia].
  subst len. by eapply push_stored.
Qed.
End push.

(** C32. No fragment, however malformed, makes [push] panic, and on every path
    (also the failing ones) the table keeps its invariant: slots with distinct
    message numbers tile the arena without overlap, and each range set is sorted,
    merged, inside its message and within its capacity. *)
Theorem push_preserves_wf `{Usize, HeaplessVec} (max_msgs max_frags : Z)
    (r : Reassembler) (arena : bytes) (ty sq len foff : Z) (frag : bytes) :
  0 <= max_frags -> is_u24 len -> 0 <= foff -> reasm_wf max_msgs max_frags r (blen arena) ->
  let '((r', arena'), res) := push max_msgs max_frags r arena ty sq len foff frag in
  res <> Panic /\ blen arena' = blen arena /\ reasm_wf max_msgs max_frags r' (blen arena').
Proof.
  intros Hm Hlen Hoff Hwf.
  destruct (push_cases max_msgs max_frags Hm r arena ty sq len foff frag Hwf Hlen Hoff)
    as [e | r1 arena1 e Hwf1 Hl | r1 idx sl sl' arena1 Hwf1 Hi Hsq Hty Hle _ _ _ Ha Hsh Hw Hc _].
  - done.
  - by rewrite Hl.
  - destruct (splice_Some_inv _ _ _ _ Ha) as (_ & _ & Hl & _). rewrite Hl. split_and!; [done.. |].
    eapply reasm_wf_insert; eauto. by rewrite Hle.
Qed.

Lemma push_preserves_wf_witness :
  let '((r', arena'), res) :=
    @push usize32 heapless_model 2 2 Reassembler_new (zeros 8) 8 0 6 2 [7; 7] in
  res <> Panic /\ blen arena' = 8 /\ reasm_wf 2 2 r' (blen arena').
Proof.
  apply (@push_preserves_wf usize32 heapless_model 2 2);
    [lia | unfold is_u24, U24; lia | lia | by apply reasm_wf_new].
Defined.

(** ** Reassembly gives back what was sent *)

(** The arguments of one [push]. *)
Record Fragment := {
  f_type : Z; f_seq : Z; f_msg_len : Z; f_off : Z; f_data : bytes
}.

Definition push_frag `{Usize, HeaplessVec} (max_msgs max_frags : Z)
    (r : Reassembler) (arena : bytes) (f : Fragment) :=
  push max_msgs max_frags r arena (f_type f) (f_seq f) (f_msg_len f) (f_off f) (f_data f).

(** A receive loop that stops at the first error. *)
Fixpoint push_all `{Usize, HeaplessVec} (max_msgs max_frags : Z)
    (r : Reassembler) (arena : bytes) (fs : list Fragment) : outcome ReasmError (Reassembler * bytes) :=
  match fs with
  | [] => Ok (r, arena)
  | f :: fs =>
      let '((r1, arena1), res) := push_frag max_msgs max_frags r arena f in
      _ ← res; push_all max_msgs max_frags r1 arena1 fs
  end.

(** The sender's messages: type and body by message number. *)
Definition Messages := Z -> option (Z * bytes).

Definition of_message (sent : Messages) (f : Fragment) : Prop :=
  exists body, sent (f_seq f) = Some (f_type f, body) /\ f_msg_len f = blen body /\
    blen body < U24 /\ slice body (f_off f) (f_off f + blen (f_data f)) = Some (f_data f).

Definition received (got : list Fragment) (sq i : Z) : Prop :=
  exists f, f ∈ got /\ f_seq f = sq /\ f_off f <= i < f_off f + blen (f_data f).

Definition slot_faithful (sent : Messages) (got : list Fragment) (arena : bytes) (s : Slot) : Prop :=
  exists body, sent (slot_seq s) = Some (slot_type s, body) /\ slot_len s = blen body /\
    (forall i, covers (ranges s) i -> at_idx arena (slot_off s + i) = at_idx body i) /\
    (forall i, covers (ranges s) i <-> received got (slot_seq s) i).

Record faithful (sent : Messages) (got : list Fragment) (r : Reassembler) (arena : bytes) : Prop := {
  faithful_slots : Forall (slot_faithful sent got arena) (slots r);
  faithful_got : Forall (fun f => exists s, s ∈ slots r /\ slot_seq s = f_seq f) got
}.

Lemma received_cons f got sq i :
  received (f :: got) sq i <->
  (f_seq f = sq /\ f_off f <= i < f_off f + blen (f_data f)) \/ received got sq i.
Proof. unfold received. setoid_rewrite elem_of_cons. naive_solver. Qed.

Lemma covers_bounds len rs i : ranges_wf len rs -> covers rs i -> 0 <= i < len.
Proof.
  intros [Hg Hb] Hc. apply gapped_covers_lower with (i := i) in Hg; [| done].
  unfold covers in Hc. apply Exists_exists in Hc as ([s e] & Hin & Hi).
  rewrite Forall_forall in Hb. specialize (Hb _ Hin). cbn in *. lia.
Qed.

(** The slot a fragment went to. *)
Lemma slot_faithful_stored sent got f arena arena1 sl sl' :
  of_message sent f ->
  (slot_faithful sent got arena sl \/ (ranges sl = [] /\ forall i, ~ received got (f_seq f) i)) ->
  slot_seq sl = f_seq f -> slot_type sl = f_type f -> slot_len sl = f_msg_len f ->
  splice arena (slot_off sl + f_off f) (f_data f) = Some arena1 ->
  shape sl' = shape sl ->
  (forall i, covers (ranges sl') i <->
     covers (ranges sl) i \/ f_off f <= i < f_off f + blen (f_data f)) ->
  slot_faithful sent (f :: got) arena1 sl'.
Proof.
  intros (body & Hsent & Hlen & _ & Hslice) Hold Hsq Hty Hsl Hspl Hsh Hcov.
  injection Hsh as Hq Ht Hl Ho.
  assert ((forall i, covers (ranges sl) i -> at_idx arena (slot_off sl + i) = at_idx body i) /\
          (forall i, covers (ranges sl) i <-> received got (f_seq f) i)) as [Hdata Hrec].
  { destruct Hold as [(body' & Hs' & _ & Hd & Hr) | [Hnil Hno]].
    - rewrite Hsq, Hsent in Hs'. injection Hs' as _ <-. by rewrite <- Hsq.
    - rewrite Hnil. split; intros i; rewrite covers_nil; [done | naive_solver]. }
  exists body. rewrite Hq, Ht, Hl, Ho, Hsq, Hty. split_and!; [done | lia | |].
  - intros i Hi. rewrite (at_idx_splice _ _ _ _ _ Hspl).
    destruct (Z.leb_spec (slot_off sl + f_off f) (slot_off sl + i)),
      (Z.ltb_spec (slot_off sl + i) (slot_off sl + f_off f + blen (f_data f))); cbn [andb];
      try (apply Hdata; apply Hcov in Hi; intuition lia).
    rewrite (at_idx_slice _ _ _ _ _ Hslice) by lia. f_equal. lia.
  - intros i. rewrite Hcov, received_cons, Hrec. naive_solver.
Qed.

(** The slots of other messages. *)
Lemma slot_faithful_other sent got f arena arena1 a s :
  slot_faithful sent got arena s -> slot_seq s <> f_seq f ->
  ranges_wf (slot_len s) (ranges s) ->
  splice arena a (f_data f) = Some arena1 ->
  slot_off s + slot_len s <= a \/ a + blen (f_data f) <= slot_off s ->
  slot_faithful sent (f :: got) arena1 s.
Proof.
  intros (body & Hsent & Hlen & Hdata & Hrec) Hne Hw Hspl Hdisj.
  exists body. split_and!; [done.. | |].
  - intros i Hi. pose proof (covers_bounds _ _ _ Hw Hi).
    rewrite (at_idx_splice _ _ _ _ _ Hspl), <- Hdata by done.
    destruct (Z.leb_spec a (slot_off s + i)), (Z.ltb_spec (slot_off s + i) (a + blen (f_data f)));
      cbn [andb]; done || lia.
  - intros i. rewrite received_cons, Hrec. naive_solver.
Qed.

Section faithful.
Context `{Usize, HeaplessVec} (max_msgs max_frags : Z) (Hmf : 0 <= max_frags) (sent : Messages).

Lemma push_faithful got r arena f r' arena' :
  reasm_wf max_msgs max_frags r (blen arena) -> faithful sent got r arena ->
  of_message sent f ->
  push_frag max_msgs max_frags r arena f = ((r', arena'), Ok ()) ->
  reasm_wf max_msgs max_frags r' (blen arena') /\ blen arena' = blen arena /\
  faithful sent (f :: got) r' arena'.
Proof.
  intros Hwf [Hsl Hgot] Hof Hpush. pose proof Hof as (body & Hsent & Hlen & Hb24 & Hslice).
  pose proof (blen_nonneg body). pose proof (slice_Some_inv _ _ _ _ Hslice) as (Hoff & _ & _ & _).
  pose proof (push_cases max_msgs max_frags Hmf r arena (f_type f) (f_seq f) (f_msg_len f)
    (f_off f) (f_data f) Hwf ltac:(lia) Hoff) as Hc.
  unfold push_frag in Hpush. rewrite Hpush in Hc.
  inversion Hc as [| | r1 idx sl sl' arena1 Hwf1 Hi Hsq Hty Hle Hr1 _ Hfe Ha Hsh Hw Hcap Hcov]; subst.
  destruct (splice_Some_inv _ _ _ _ Ha) as (_ & _ & Hal & _). rewrite Hal.
  split; [eapply reasm_wf_insert; eauto; by rewrite Hle |]. split; [done |].
  assert (Hin : sl ∈ slots r1) by (by eapply list_elem_of_lookup_2).
  assert (Hsub : forall s, s ∈ slots r1 -> s = sl \/ s ∈ slots r).
  { intros s Hs. destruct Hr1 as [-> | (Hap & _)]; [by right |].
    rewrite Hap in Hs. apply elem_of_app in Hs as [? | ?%list_elem_of_singleton]; auto. }
  rewrite Forall_forall in Hsl. rewrite Forall_forall in Hgot. constructor; cbn.
  - apply Forall_forall. intros s (j & Hj)%list_elem_of_lookup_1.
    destruct (decide (idx = j)) as [<- | Hne].
    + rewrite list_lookup_insert_eq in Hj by (by eapply lookup_lt_Some). injection Hj as <-.
      eapply slot_faithful_stored; eauto.
      destruct Hr1 as [-> | (Hap & Hnil & Hfresh)]; [left; by apply Hsl |]. right.
      split; [done |]. intros i (g & Hg & Hgq & _). destruct (Hgot _ Hg) as (s & Hs & Hsg).
      rewrite Forall_forall in Hfresh. by apply (Hfresh _ Hs); congruence.
    + rewrite list_lookup_insert_ne in Hj by done.
      assert (s ∈ slots r1) as Hs by (by eapply list_elem_of_lookup_2).
      assert (slot_seq s <> slot_seq sl) as Hnq.
      { intros Heq. apply Hne. eapply (NoDup_lookup _ _ _ (slot_seq s) (wf_seqs _ _ _ _ Hwf1));
          rewrite list_lookup_fmap; [rewrite Hi | rewrite Hj]; cbn; congruence. }
      assert (s ∈ slots r) as Hsr by (destruct (Hsub _ Hs); [congruence | done]).
      destruct (proj1 (Forall_forall _ _) (wf_ranges _ _ _ _ Hwf1) _ Hs) as [Hrw _].
      eapply (slot_faithful_other sent got f arena); eauto; [congruence |].
      destruct (laid_out_disjoint _ _ _ _ _ (wf_layout _ _ _ _ Hwf1) Hs Hin (wf_seqs _ _ _ _ Hwf1) Hnq);
        pose proof (blen_nonneg (f_data f)); lia.
  - constructor.
    + exists sl'. split; [| injection Hsh; congruence].
      eapply list_elem_of_lookup_2, list_lookup_insert_eq, lookup_lt_Some; eauto.
    + apply Forall_forall. intros g Hg. destruct (Hgot _ Hg) as (s & Hs & Hsg).
      assert (s ∈ slots r1) as Hs1.
      { destruct Hr1 as [-> | (-> & _)]; [done | apply elem_of_app; by left]. }
      apply list_elem_of_lookup_1 in Hs1 as (j & Hj). destruct (decide (idx = j)) as [<- | Hne].
      * exists sl'. split; [eapply list_elem_of_lookup_2, list_lookup_insert_eq, lookup_lt_Some; eauto |].
        injection Hsh as Hq _ _ _. congruence.
      * exists s. split; [| done]. apply (list_elem_of_lookup_2 _ j). by rewrite list_lookup_insert_ne.
Qed.

Lemma push_all_faithful fs got r arena r' arena' :
  reasm_wf max_msgs max_frags r (blen arena) -> faithful sent got r arena ->
  Forall (of_message sent) fs ->
  push_all max_msgs max_frags r arena fs = Ok (r', arena') ->
  reasm_wf max_msgs max_frags r' (blen arena') /\ faithful sent (reverse fs ++ got) r' arena'.
Proof.
  intros Hwf Hfa Hof. revert got r arena Hwf Hfa.
  induction Hof as [| f fs Hf Hof IH]; intros got r arena Hwf Hfa Hp; cbn [push_all] in Hp.
  { injection Hp as <- <-. done. }
  destruct (push_frag max_msgs max_frags r arena f) as [[r1 arena1] res] eqn:Hpf.
  destruct res as [[] | |]; try done. cbn in Hp.
  destruct (push_faithful _ _ _ _ _ _ Hwf Hfa Hf Hpf) as (Hwf1 & _ & Hfa1).
  destruct (IH _ _ _ Hwf1 Hfa1 Hp) as [Hwf' Hfa']. split; [done |].
  by rewrite reverse_cons, <- app_assoc.
Qed.
End faithful.

(** ** Serialization visits the slots in ascending order *)

Lemma foldl_min_spec l acc :
  exists m, foldl min_step (Some acc) l = Some m /\ m ∈ acc :: l /\
    forall s, s ∈ acc :: l -> slot_seq m <= slot_seq s.
Proof.
  revert acc. induction l as [| x l IH]; intros acc.
  { exists acc. split_and!; [done | left |]. intros s Hs%list_elem_of_singleton. subst. lia. }
  cbn [foldl min_step]. destruct (Z.ltb_spec (slot_seq x) (slot_seq acc)).
  - destruct (IH x) as (m & -> & Hm & Hle). exists m. split_and!; [done | by right |].
    intros s [-> | Hs]%elem_of_cons; [| by apply Hle]. specialize (Hle x ltac:(left)). lia.
  - destruct (IH acc) as (m & -> & Hm & Hle). exists m. split_and!; [done | |].
    + apply elem_of_cons in Hm as [-> | Hm]; [left | right; by right].
    + intros s. rewrite !elem_of_cons. intros [-> | [-> | Hs]].
      * apply Hle. left.
      * specialize (Hle acc ltac:(left)). lia.
      * apply Hle. by right.
Qed.

Lemma next_slot_Some ss prev s :
  next_slot ss prev = Some s ->
  s ∈ ss /\ after_prev prev s = true /\
  forall s', s' ∈ ss -> after_prev prev s' = true -> slot_seq s <= slot_seq s'.
Proof.
  unfold next_slot.
  destruct (filter (fun s => after_prev prev s = true) ss) as [| x l] eqn:Hf; [done |].
  cbn [foldl min_step]. destruct (foldl_min_spec l x) as (m & -> & Hm & Hle). intros [= <-].
  rewrite <- Hf in Hm, Hle. apply list_elem_of_filter in Hm as [Ha Hin]. split_and!; [done.. |].
  intros s' Hs' Ha'. apply Hle. by apply list_elem_of_filter.
Qed.

Lemma next_slot_None ss prev : next_slot ss prev = None -> forall s, s ∈ ss -> after_prev prev s = false.
Proof.
  unfold next_slot.
  destruct (filter (fun s => after_prev prev s = true) ss) as [| x l] eqn:Hf.
  - intros _ s Hs. destruct (after_prev prev s) eqn:Ha; [| done].
    assert (s ∈ filter (fun s => after_prev prev s = true) ss) as Hin by (by apply list_elem_of_filter).
    rewrite Hf in Hin. by apply elem_of_nil in Hin.
  - cbn [foldl min_step]. destruct (foldl_min_spec l x) as (m & -> & _). done.
Qed.

Lemma length_filter_bool_lt {A} (P Q : A -> bool) (l : list A) x :
  (forall y, Q y = true -> P y = true) -> x ∈ l -> P x = true -> Q x = false ->
  (length (filter (fun y => Q y = true) l) < length (filter (fun y => P y = true) l))%nat.
Proof.
  intros HQP. assert (forall l, (length (filter (fun y => Q y = true) l)
                              <= length (filter (fun y => P y = true) l))%nat) as Hle.
  { clear l. induction l as [| y l IH]; [done |]. rewrite !filter_cons.
    repeat case_decide; cbn; try lia. exfalso. auto. }
  induction l as [| y l IH]; intros Hin HP HQ; [by apply elem_of_nil in Hin |].
  rewrite !filter_cons. apply elem_of_cons in Hin as [-> | Hin].
  - rewrite decide_False by congruence. rewrite decide_True by done. cbn. specialize (Hle l). lia.
  - specialize (IH Hin HP HQ). repeat case_decide; cbn; try lia. exfalso. auto.
Qed.

(** The slots in the order the loop meets them. *)
Fixpoint visit (fuel : nat) (ss : list Slot) (prev : option Z) : list Slot :=
  match next_slot ss prev, fuel with
  | Some s, S fuel => s :: visit fuel ss (Some (slot_seq s))
  | _, _ => []
  end.

Definition remaining (ss : list Slot) (prev : option Z) : nat :=
  length (filter (fun s => after_prev prev s = true) ss).

Lemma remaining_next ss prev s :
  next_slot ss prev = Some s -> (remaining ss (Some (slot_seq s)) < remaining ss prev)%nat.
Proof.
  intros (Hin & Ha & Hmin)%next_slot_Some. eapply length_filter_bool_lt; [| done | done |].
  - intros y. cbn. intros Hy%Z.ltb_lt. destruct prev as [p |]; [| done]. cbn in *. lia.
  - cbn. lia.
Qed.

Lemma visit_spec fuel ss prev :
  (remaining ss prev <= fuel)%nat -> NoDup (slot_seq <$> ss) ->
  StronglySorted Z.lt (slot_seq <$> visit fuel ss prev) /\
  forall s, s ∈ visit fuel ss prev <-> s ∈ ss /\ after_prev prev s = true.
Proof.
  revert prev. induction fuel as [| fuel IH]; intros prev Hf Hnd.
  - cbn [visit]. destruct (next_slot ss prev) as [s |] eqn:Hn; [apply remaining_next in Hn; lia |].
    split; [constructor |]. intros s. rewrite elem_of_nil. split; [done |]. intros [Hs Ha].
    by rewrite (next_slot_None _ _ Hn s Hs) in Ha.
  - cbn [visit]. destruct (next_slot ss prev) as [s |] eqn:Hn.
    + pose proof (remaining_next _ _ _ Hn). destruct (next_slot_Some _ _ _ Hn) as (Hin & Ha & Hmin).
      destruct (IH (Some (slot_seq s)) ltac:(lia) Hnd) as [Hsort Hel].
      split.
      * cbn. constructor; [done |]. apply Forall_fmap, Forall_forall. intros s' Hs'.
        apply Hel in Hs' as [_ Hlt]. cbn in Hlt. cbn. lia.
      * intros s'. rewrite elem_of_cons, Hel. cbn. split.
        -- intros [-> | [Hs' Hlt]]; [done |]. split; [done |].
           destruct prev as [p |]; [| done]. cbn in *. lia.
        -- intros [Hs' Ha']. specialize (Hmin _ Hs' Ha').
           destruct (decide (slot_seq s < slot_seq s')); [right; split; [done | lia] |]. left.
           apply list_elem_of_lookup_1 in Hin as (j & Hj), Hs' as (k & Hk).
           assert (j = k) as ->; [| congruence].
           eapply (NoDup_lookup _ _ _ (slot_seq s) Hnd); rewrite list_lookup_fmap;
             [rewrite Hj; done | rewrite Hk; cbn; f_equal; lia].
    + split; [constructor |]. intros s. rewrite elem_of_nil. split; [done |]. intros [Hs Ha].
      by rewrite (next_slot_None _ _ Hn s Hs) in Ha.
Qed.

(** What one visited slot contributes. *)
Definition slot_wire (arena : bytes) (s : Slot) : bytes :=
  slot_header s ++ default [] (slice arena (slot_off s) (slot_off s + slot_len s)).

Definition flight_wire (arena : bytes) (ss : list Slot) : bytes :=
  flat_map (slot_wire arena) (filter (fun s => is_complete s = true) ss).

(** Appending [w] to what is written, if it fits. *)
Definition append_out (pre rest w : bytes) : outcome ReasmError (bytes * Z) :=
  if blen w <=? blen rest then Ok ((pre ++ w) ++ drop (length w) rest, blen pre + blen w)
  else Err ArenaFull.

Lemma append_out_nil pre rest : append_out pre rest [] = Ok (pre ++ rest, blen pre).
Proof.
  unfold append_out. pose proof (blen_nonneg rest).
  rewrite blen_nil, (proj2 (Z.leb_le _ _)) by done. by rewrite app_nil_r, Z.add_0_r.
Qed.

Lemma append_out_app pre rest w1 w2 :
  append_out pre rest (w1 ++ w2) =
  if blen w1 <=? blen rest then append_out (pre ++ w1) (drop (length w1) rest) w2
  else Err ArenaFull.
Proof.
  unfold append_out. rewrite blen_app, blen_drop. pose proof (blen_nonneg w2).
  fold (blen w1). destruct (Z.leb_spec (blen w1) (blen rest)).
  - destruct (Z.leb_spec (blen w1 + blen w2) (blen rest)),
      (Z.leb_spec (blen w2) (Z.max 0 (blen rest - blen w1))); try lia; [| done].
    by rewrite drop_drop, length_app, <- !app_assoc, blen_app, Z.add_assoc.
  - destruct (Z.leb_spec (blen w1 + blen w2) (blen rest)); [lia | done].
Qed.

(** One round that emits a slot. *)
Lemma emit_slot_eq `{Usize} (k : bytes -> Z -> outcome ReasmError (bytes * Z)) s arena pre rest :
  blen (pre ++ rest) <= usize_max ->
  0 <= slot_off s -> 0 <= slot_len s -> slot_off s + slot_len s <= blen arena ->
  (end_ ← ok_or (checked_add (blen pre) (4 + slot_len s)) ArenaFull;
   if blen (pre ++ rest) <? end_ then Err ArenaFull else
   out ← or_panic (splice (pre ++ rest) (blen pre) (slot_header s));
   body ← or_panic (slice arena (slot_off s) (slot_off s + slot_len s));
   out ← or_panic (splice out (blen pre + 4) body);
   k out end_)
  = if blen (slot_wire arena s) <=? blen rest
    then k ((pre ++ slot_wire arena s) ++ drop (length (slot_wire arena s)) rest)
           (blen (pre ++ slot_wire arena s))
    else Err ArenaFull.
Proof.
  intros Hu Ho Hl Ha.
  destruct (slice_in_range arena (slot_off s) (slot_off s + slot_len s)) as [body Hb]; [lia.. |].
  assert (blen body = slot_len s) as Hbl by (apply slice_Some_inv in Hb as (_ & _ & _ & ? & _); lia).
  unfold slot_wire. rewrite Hb. cbn [default from_option id].
  assert (blen (slot_header s) = 4) as Hh by done.
  rewrite !blen_app, Hh, Hbl. rewrite blen_app in Hu. unfold checked_add.
  destruct (Z.leb_spec (blen pre + (4 + slot_len s)) usize_max).
  2:{ run. rewrite (proj2 (Z.leb_gt _ _)) by lia. done. }
  run.
  destruct (Z.ltb_spec (blen pre + blen rest) (blen pre + (4 + slot_len s))).
  { rewrite (proj2 (Z.leb_gt _ _)) by lia. done. }
  rewrite (proj2 (Z.leb_le _ _)) by lia.
  rewrite splice_append by (done || lia). run.
  rewrite splice_append by (rewrite ?blen_app, ?blen_drop, ?Hh; change (length (slot_header s)) with 4%nat; lia).
  run. by rewrite drop_drop, length_app, <- !app_assoc.
Qed.

Lemma serialize_loop_eq `{Usize} fuel ss arena prev pre rest :
  (remaining ss prev <= fuel)%nat -> blen (pre ++ rest) <= usize_max ->
  Forall (fun s => 0 <= slot_off s /\ 0 <= slot_len s /\ slot_off s + slot_len s <= blen arena) ss ->
  serialize_loop fuel ss arena prev (blen pre) (pre ++ rest) =
  append_out pre rest (flight_wire arena (visit fuel ss prev)).
Proof.
  intros Hf Hu Hin. revert prev pre rest Hf Hu.
  induction fuel as [| fuel IH]; intros prev pre rest Hf Hu; cbn [serialize_loop visit].
  { destruct (next_slot ss prev) as [s |] eqn:Hn; [apply remaining_next in Hn; lia |].
    by rewrite append_out_nil. }
  destruct (next_slot ss prev) as [s |] eqn:Hn; [| by rewrite append_out_nil].
  pose proof (remaining_next _ _ _ Hn). destruct (next_slot_Some _ _ _ Hn) as (Hsin & _ & _).
  unfold flight_wire. rewrite filter_cons. destruct (is_complete s) eqn:Hc; cbn [negb].
  2:{ rewrite decide_False by done. by apply IH; [lia |]. }
  rewrite decide_True by done. cbn [flat_map].
  fold (flight_wire arena (visit fuel ss (Some (slot_seq s)))).
  destruct (proj1 (Forall_forall _ _) Hin _ Hsin) as (? & ? & ?).
  rewrite (emit_slot_eq (fun out e => serialize_loop fuel ss arena (Some (slot_seq s)) e out)) by done.
  rewrite append_out_app. destruct (Z.leb_spec (blen (slot_wire arena s)) (blen rest)); [| done].
  apply IH; [lia |]. rewrite !blen_app, blen_drop in *. unfold blen in *. lia.
Qed.

(** ** The flight, in terms of what was sent and received *)

(** Every byte of the message [sq] has arrived; an empty message has no byte
    that could. *)
Definition delivered (sent : Messages) (got : list Fragment) (sq : Z) : Prop :=
  exists ty body, sent sq = Some (ty, body) /\ 0 < blen body /\
    forall i, 0 <= i < blen body -> received got sq i.

(** The transcript form of a message: type, 24-bit length, body. *)
Definition message_wire (sent : Messages) (sq : Z) : bytes :=
  match sent sq with Some (ty, body) => ty :: be_bytes 3 (blen body) ++ body | None => [] end.

Section flight.
Context (max_msgs max_frags : Z) (sent : Messages) (got : list Fragment).
Context (r : Reassembler) (arena : bytes).
Hypothesis Hwf : reasm_wf max_msgs max_frags r (blen arena).
Hypothesis Hfa : faithful sent got r arena.

Lemma slot_ranges_wf s : s ∈ slots r -> ranges_wf (slot_len s) (ranges s).
Proof. intros Hs. by apply (proj1 (Forall_forall _ _) (wf_ranges _ _ _ _ Hwf)). Qed.

Lemma slot_is_faithful s : s ∈ slots r -> slot_faithful sent got arena s.
Proof. apply Forall_forall. by destruct Hfa. Qed.

Lemma complete_delivered s : s ∈ slots r -> is_complete s = true <-> delivered sent got (slot_seq s).
Proof.
  intros Hs. rewrite complete_iff_covered by (by apply slot_ranges_wf).
  destruct (slot_is_faithful _ Hs) as (body & Hsent & Hlen & _ & Hrec). unfold delivered.
  setoid_rewrite Hrec. rewrite Hlen. split.
  - intros [? ?]. by exists (slot_type s), body.
  - intros (ty & body' & Hs' & ? & ?). rewrite Hsent in Hs'. by injection Hs' as _ <-.
Qed.

Lemma delivered_slot sq :
  delivered sent got sq <-> exists s, s ∈ slots r /\ slot_seq s = sq /\ is_complete s = true.
Proof.
  split.
  - intros Hd. pose proof Hd as (ty & body & _ & Hpos & Hrec).
    destruct (Hrec 0 ltac:(lia)) as (f & Hf & Hfq & _).
    destruct (proj1 (Forall_forall _ _) (faithful_got _ _ _ _ Hfa) _ Hf) as (s & Hs & Hsq).
    exists s. split_and!; [done | congruence |]. apply complete_delivered; [done |]. congruence.
  - intros (s & Hs & <- & Hc). by apply complete_delivered.
Qed.

Lemma slot_wire_message s :
  s ∈ slots r -> is_complete s = true -> slot_wire arena s = message_wire sent (slot_seq s).
Proof.
  intros Hs Hc. destruct (slot_is_faithful _ Hs) as (body & Hsent & Hlen & Hdata & _).
  apply complete_iff_covered in Hc as [_ Hcov]; [| by apply slot_ranges_wf].
  destruct (laid_out_inside _ _ _ _ (wf_layout _ _ _ _ Hwf) Hs) as (? & ? & ?).
  pose proof (wf_used _ _ _ _ Hwf).
  unfold slot_wire, message_wire. rewrite Hsent, (slice_ext arena body _ _ 0 body).
  - cbn [default from_option id]. unfold slot_header, as_u8, U8. cbn [app be_bytes].
    rewrite Hlen, !Z.shiftr_div_pow2 by lia.
    change (256 ^ Z.of_nat 0) with 1. rewrite Z.div_1_r. done.
  - apply slice_all; lia.
  - lia.
  - lia.
  - lia.
  - intros i Hi. rewrite Z.add_0_l. apply Hdata, Hcov. lia.
Qed.

Lemma serialize_flight_eq `{Usize} out :
  blen out <= usize_max ->
  exists order, StronglySorted Z.lt order /\
    (forall sq, sq ∈ order <-> delivered sent got sq) /\
    serialize_flight r arena out = append_out [] out (flat_map (message_wire sent) order).
Proof.
  intros Hu. pose proof (visit_spec (length (slots r)) (slots r) None) as Hv.
  destruct Hv as [Hsort Hel]; [unfold remaining; apply length_filter | by destruct Hwf |].
  set (vs := visit (length (slots r)) (slots r) None) in *.
  exists (slot_seq <$> filter (fun s => is_complete s = true) vs). split_and!.
  - clear Hel. induction vs as [| s vs IH]; [constructor |].
    cbn in Hsort. apply StronglySorted_inv in Hsort as [Hsort Hlt]. rewrite filter_cons.
    case_decide; [| by apply IH]. cbn. constructor; [by apply IH |].
    rewrite Forall_forall in Hlt. apply Forall_forall. intros x (s' & -> & Hin)%list_elem_of_fmap.
    apply list_elem_of_filter in Hin as [_ Hin]. apply Hlt. by apply list_elem_of_fmap_2.
  - intros sq. rewrite delivered_slot, list_elem_of_fmap. setoid_rewrite list_elem_of_filter.
    setoid_rewrite Hel. naive_solver.
  - unfold serialize_flight. rewrite (serialize_loop_eq _ _ _ _ [] out); [fold vs | | done |].
    + f_equal. unfold flight_wire.
      assert (forall s, s ∈ filter (fun s => is_complete s = true) vs ->
              s ∈ slots r /\ is_complete s = true) as Hin.
      { intros s [Hc Hs]%list_elem_of_filter. apply Hel in Hs as [Hs _]. done. }
      induction (filter (fun s => is_complete s = true) vs) as [| s l IH]; [done |].
      cbn [flat_map fmap list_fmap]. destruct (Hin s ltac:(left)). rewrite slot_wire_message by done. f_equal.
      apply IH. intros ? ?. apply Hin. by right.
    + unfold remaining. apply length_filter.
    + apply Forall_forall. intros s Hs.
      destruct (laid_out_inside _ _ _ _ (wf_layout _ _ _ _ Hwf) Hs) as (? & ? & ?).
      pose proof (wf_used _ _ _ _ Hwf). lia.
Qed.
End flight.

(** C31. Reassembly is correct: push the fragments of any set of messages in any
    order, cut anyhow, duplicated or overlapping.  If no push fails, serializing
    writes exactly the messages whose every byte has arrived, in ascending message
    order, each with its 4-byte header, or reports that the output is too small. *)
Theorem reassembly_correct `{Usize, HeaplessVec} (max_msgs max_frags : Z)
    (sent : Messages) (fs : list Fragment) (arena arena' out : bytes) (r : Reassembler) :
  0 <= max_msgs -> 0 <= max_frags -> blen out <= usize_max ->
  Forall (of_message sent) fs ->
  push_all max_msgs max_frags Reassembler_new arena fs = Ok (r, arena') ->
  exists order, StronglySorted Z.lt order /\
    (forall sq, sq ∈ order <-> delivered sent fs sq) /\
    serialize_flight r arena' out =
      let w := flat_map (message_wire sent) order in
      if blen w <=? blen out then Ok (w ++ drop (length w) out, blen w) else Err ArenaFull.
Proof.
  intros Hmm Hmf Hu Hof Hp. pose proof (blen_nonneg arena).
  destruct (push_all_faithful max_msgs max_frags Hmf sent fs [] Reassembler_new arena r arena')
    as [Hwf Hfa]; [by apply reasm_wf_new | by constructor; constructor | done | done |].
  destruct (serialize_flight_eq _ _ _ _ _ _ Hwf Hfa out Hu) as (order & Hs & Hel & Heq).
  exists order. split_and!; [done | | done].
  intros sq. rewrite Hel. unfold delivered, received.
  setoid_rewrite app_nil_r. by setoid_rewrite elem_of_reverse.
Qed.

(** Two messages, the first in three overlapping pieces around the second. *)
Definition demo_sent : Messages := fun sq =>
  if sq =? 1 then Some (8, [1; 2; 3; 4]) else if sq =? 2 then Some (20, [9; 9]) else None.

Definition demo_frags : list Fragment := [
  {| f_type := 8; f_seq := 1; f_msg_len := 4; f_off := 2; f_data := [3; 4] |};
  {| f_type := 20; f_seq := 2; f_msg_len := 2; f_off := 0; f_data := [9; 9] |};
  {| f_type := 8; f_seq := 1; f_msg_len := 4; f_off := 1; f_data := [2; 3] |};
  {| f_type := 8; f_seq := 1; f_msg_len := 4; f_off := 0; f_data := [1] |}].

Lemma demo_frags_sent : Forall (of_message demo_sent) demo_frags.
Proof. repeat constructor; eexists; repeat split; reflexivity. Qed.

Lemma reassembly_correct_witness :
  exists r arena', @push_all usize32 heapless_model 8 4 Reassembler_new (zeros 8) demo_frags
                   = Ok (r, arena') /\
  exists order, StronglySorted Z.lt order /\
    (forall sq, sq ∈ order <-> delivered demo_sent demo_frags sq) /\
    @serialize_flight usize32 r arena' (zeros 20) =
      let w := flat_map (message_wire demo_sent) order in
      if blen w <=? 20 then Ok (w ++ drop (length w) (zeros 20), blen w) else Err ArenaFull.
Proof.
  eexists _, _. split; [vm_compute; reflexivity |].
  eapply (@reassembly_correct usize32 heapless_model 8 4 demo_sent demo_frags (zeros 8) _ (zeros 20));
    [lia | lia | vm_compute; congruence | apply demo_frags_sent | vm_compute; reflexivity].
Defined.

Lemma forallb_seqZ (P : Z -> bool) a n :
  forallb P (seqZ a n) = true <-> forall i, a <= i < a + n -> P i = true.
Proof.
  rewrite forallb_forall. split.
  - intros Hf i Hi. apply Hf. apply list_elem_of_In, elem_of_seqZ. lia.
  - intros Hf i Hi%list_elem_of_In%elem_of_seqZ. apply Hf. lia.
Qed.

Lemma existsb_slot (ss : list Slot) sq :
  existsb (fun s => (slot_seq s =? sq) && is_complete s) ss = true <->
  exists s, s ∈ ss /\ slot_seq s = sq /\ is_complete s = true.
Proof.
  rewrite existsb_exists. setoid_rewrite <- list_elem_of_In.
  setoid_rewrite andb_true_iff. setoid_rewrite Z.eqb_eq. done.
Qed.

(** The flight is reported complete exactly when it is: some Finished message
    at or after [base_seq] and every message from [base_seq] up to it have fully
    arrived.  A Finished that overtakes the rest of its flight is not enough. *)
Theorem flight_complete_correct `{Usize, HeaplessVec} (max_msgs max_frags : Z)
    (sent : Messages) (fs : list Fragment) (arena arena' : bytes) (r : Reassembler)
    (base_seq finished_type : Z) :
  0 <= max_msgs -> 0 <= max_frags -> Forall (of_message sent) fs ->
  (forall q q' b b', sent q = Some (finished_type, b) -> sent q' = Some (finished_type, b') -> q = q') ->
  push_all max_msgs max_frags Reassembler_new arena fs = Ok (r, arena') ->
  flight_complete r base_seq finished_type = true <->
  exists fin body, base_seq <= fin /\ sent fin = Some (finished_type, body) /\
    forall q, base_seq <= q <= fin -> delivered sent fs q.
Proof.
  intros Hmm Hmf Hof Huniq Hp. pose proof (blen_nonneg arena).
  destruct (push_all_faithful max_msgs max_frags Hmf sent fs [] Reassembler_new arena r arena')
    as [Hwf Hfa]; [by apply reasm_wf_new | by constructor; constructor | done | done |].
  assert (Hd : forall sq, delivered sent fs sq <->
      exists s, s ∈ slots r /\ slot_seq s = sq /\ is_complete s = true).
  { intros sq. rewrite <- (delivered_slot _ _ _ _ _ _ Hwf Hfa). unfold delivered, received.
    setoid_rewrite app_nil_r. by setoid_rewrite elem_of_reverse. }
  assert (Hty : forall s, s ∈ slots r -> exists b, sent (slot_seq s) = Some (slot_type s, b)).
  { intros s Hs. destruct (slot_is_faithful _ _ _ _ Hfa s Hs) as (b & Hb & _). eauto. }
  unfold flight_complete.
  destruct (list_find _ (slots r)) as [[i fin] |] eqn:Hf.
  - apply list_find_Some in Hf as (Hi & [Hft Hfc] & _).
    assert (fin ∈ slots r) as Hin by (by eapply list_elem_of_lookup_2).
    destruct (Hty _ Hin) as (b & Hb). rewrite Hft in Hb.
    destruct (Z.ltb_spec (slot_seq fin) base_seq).
    + split; [done |]. intros (q & b' & Hle & Hq & _). rewrite (Huniq _ _ _ _ Hq Hb) in Hle. lia.
    + rewrite forallb_seqZ. setoid_rewrite existsb_slot. setoid_rewrite <- Hd. split.
      * intros Hall. exists (slot_seq fin), b. split_and!; [lia | done |]. intros q Hq. apply Hall. lia.
      * intros (q & b' & _ & Hq & Hall) j Hj. rewrite (Huniq _ _ _ _ Hq Hb) in Hall. apply Hall. lia.
  - split; [done |]. intros (q & b & Hle & Hq & Hall).
    destruct (proj1 (Hd q) (Hall q ltac:(lia))) as (s & Hs & Hsq & Hsc).
    apply list_find_None in Hf. rewrite Forall_forall in Hf. exfalso. apply (Hf s Hs).
    destruct (Hty _ Hs) as (b' & Hb'). rewrite Hsq, Hq in Hb'. split; [congruence | done].
Qed.

Lemma flight_complete_correct_witness :
  exists r arena', @push_all usize32 heapless_model 8 4 Reassembler_new (zeros 8) demo_frags
                   = Ok (r, arena') /\
  flight_complete r 1 20 = true /\
  exists fin body, 1 <= fin /\ demo_sent fin = Some (20, body) /\
    forall q, 1 <= q <= fin -> delivered demo_sent demo_frags q.
Proof.
  eexists _, _. split; [vm_compute; reflexivity |]. split; [vm_compute; reflexivity |].
  eapply (@flight_complete_correct usize32 heapless_model 8 4 demo_sent demo_frags (zeros 8));
    [lia | lia | apply demo_frags_sent | | vm_compute; reflexivity | vm_compute; reflexivity].
  intros q q' b b'. unfold demo_sent.
  destruct (Z.eqb_spec q 1), (Z.eqb_spec q' 1), (Z.eqb_spec q 2), (Z.eqb_spec q' 2); congruence.
Defined.
