(* ===== verification/Aead.v ===== *)
(** * [aead.rs]: the TLS 1.3 record layer (RFC 8446 section 5)

    Nonces, in-place decryption, constant-time padding removal and encryption,
    over any AEAD cipher that meets its contract. *)
From S2P Require Import Prelude Deps Bytecopy Consts.

Definition AEAD_TAG_LEN : Z := 16.
Definition TLS_PLAINTEXT_MAX : Z := Z.shiftl 1 14.
Definition TLS_CIPHERTEXT_MAX : Z := Z.shiftl 1 14 + 256.

Inductive EncryptError :=
| EncBufferTooSmall (needed got : Z)
| EncRecordTooLarge
| EncAeadFailed.

Inductive DecryptError :=
| DecTruncated
| DecRecordTooLarge
| DecTrailingBytes
| DecUnexpectedContentType (ct : Z)
| DecUnexpectedLegacyVersion (v : Z)
| DecBufferTooSmall (needed got : Z)
| DecAeadFailed
| DecEmptyInnerPlaintext.

#[export] Instance EncryptError_eq_dec : EqDecision EncryptError.
Proof. solve_decision. Defined.
#[export] Instance DecryptError_eq_dec : EqDecision DecryptError.
Proof. solve_decision. Defined.

(** Per-record nonce: the last eight bytes of the IV are XORed with the
    big-endian sequence number. *)
Definition aead_nonce (iv : bytes) (seq : Z) : bytes :=
  take 4 iv ++ zip_with Z.lxor (drop 4 iv) (be_bytes 8 seq).

(** ** The suites, and the cipher a build gives each ([AeadBackend]) *)

Inductive Suite := Aes128GcmSha256 | ChaCha20Poly1305Sha256.

(** [CipherSuite::KeyBytes] *)
Definition suite_key_len (s : Suite) : Z :=
  match s with Aes128GcmSha256 => 16 | ChaCha20Poly1305Sha256 => 32 end.

Class AeadBackend := { cipher : Suite -> AeadCipher }.

(** [RecordKeys<S>]: the traffic key (expanded per call) and the IV. *)
Record RecordKeys := { rk_key : bytes; rk_iv : bytes }.

Section record_layer.
Context `{Usize, AeadCipher}.

(** [run_encrypt] and [run_decrypt] under [with_cipher]. *)
Definition run_encrypt (keys : RecordKeys) (nonce aad buf : bytes) : option (bytes * bytes) :=
  aead_seal (rk_key keys) nonce aad buf.
Definition run_decrypt (keys : RecordKeys) (nonce aad buf tag : bytes) : bool * bytes :=
  aead_open (rk_key keys) nonce aad buf tag.

(** [seal_in_place] and [open_in_place]: the entry points of the DTLS layer. *)
Definition seal_in_place (keys : RecordKeys) (aad : bytes) (seq : Z) (buf : bytes)
    : option (bytes * bytes) :=
  run_encrypt keys (aead_nonce (rk_iv keys) seq) aad buf.
Definition open_in_place (keys : RecordKeys) (aad : bytes) (seq : Z) (buf tag : bytes)
    : bool * bytes :=
  run_decrypt keys (aead_nonce (rk_iv keys) seq) aad buf tag.

(** The header checks of [decrypt_record_inplace_with], down to [ct_len]. *)
Definition check_record_header (record : bytes) : outcome DecryptError Z :=
  if blen record <? 5 then Err DecTruncated else
  content_type ← or_panic (at_idx record 0);
  if negb (content_type =? CT_APPLICATION_DATA) then Err (DecUnexpectedContentType content_type) else
  v0 ← or_panic (at_idx record 1);
  v1 ← or_panic (at_idx record 2);
  let legacy_version := be16 v0 v1 in
  if negb (legacy_version =? LEGACY_VERSION) then Err (DecUnexpectedLegacyVersion legacy_version) else
  l0 ← or_panic (at_idx record 3);
  l1 ← or_panic (at_idx record 4);
  let body_len := be16 l0 l1 in
  if TLS_CIPHERTEXT_MAX <? body_len then Err DecRecordTooLarge else
  if blen record <? 5 + body_len then Err DecTruncated else
  if negb (blen record =? 5 + body_len) then Err DecTrailingBytes else
  if body_len <? 16 then Err DecTruncated else
  Ok (body_len - 16).

(** [decrypt_record_inplace]: the record buffer afterwards, and the result. *)
Definition decrypt_record_inplace (keys : RecordKeys) (record : bytes) (seq : Z)
    : bytes * outcome DecryptError Z :=
  match check_record_header record with
  | Err e => (record, Err e)
  | Panic => (record, Panic)
  | Ok ct_len =>
      match slice record 0 5, slice record 5 (5 + ct_len), slice record (5 + ct_len) (blen record) with
      | Some header, Some ciphertext, Some tag =>
          if negb (blen tag =? 16) then (record, Panic) else
          let nonce := aead_nonce (rk_iv keys) seq in
          match run_decrypt keys nonce header ciphertext tag with
          | (true, plaintext) => (header ++ plaintext ++ tag, Ok ct_len)
          | (false, garbage) => (header ++ zeros (blen garbage) ++ tag, Err DecAeadFailed)
          end
      | _, _, _ => (record, Panic)
      end
  end.

(** [encrypt_record]; [out_buf] afterwards and the record slice. *)
Definition encrypt_record (keys : RecordKeys) (content : bytes) (content_type seq : Z) (out_buf : bytes)
    : outcome EncryptError (bytes * bytes) :=
  if TLS_PLAINTEXT_MAX <? blen content then Err EncRecordTooLarge else
  inner_len ← ok_or (checked_add (blen content) 1) EncRecordTooLarge;
  cipher_body_len ← ok_or (checked_add inner_len AEAD_TAG_LEN) EncRecordTooLarge;
  total_len ← ok_or (checked_add cipher_body_len 5) EncRecordTooLarge;
  if TLS_CIPHERTEXT_MAX <? cipher_body_len then Err EncRecordTooLarge else
  if blen out_buf <? total_len then Err (EncBufferTooSmall total_len (blen out_buf)) else
  let aad := CT_APPLICATION_DATA :: be_bytes 2 LEGACY_VERSION ++ be_bytes 2 (as_u16 cipher_body_len) in
  out ← or_panic (splice out_buf 0 aad);
  out ← or_panic (splice out 5 content);
  out ← or_panic (splice out (5 + blen content) [content_type]);
  let nonce := aead_nonce (rk_iv keys) seq in
  inner ← or_panic (slice out 5 (5 + inner_len));
  sealed ← ok_or (run_encrypt keys nonce aad inner) EncAeadFailed;
  out ← or_panic (splice out 5 sealed.1);
  out ← or_panic (splice out (5 + inner_len) sealed.2);
  rec ← or_panic (slice out 0 total_len);
  Ok (out, rec).
End record_layer.

(** ** [split_inner_plaintext] *)

Section split.
Context `{SubtleCt}.

(** One round of the scan: [(last_nonzero_plus_one, content_type)]. *)
Definition split_step (st : Z * Z) (i b : Z) : Z * Z :=
  let is_nonzero := negb (ct_eq [b] [0]) in
  (ct_select st.1 (as_u32 (i + 1)) is_nonzero, ct_select st.2 b is_nonzero).

Fixpoint split_scan (inner : bytes) (i : Z) (st : Z * Z) : Z * Z :=
  match inner with
  | [] => st
  | b :: rest => split_scan rest (i + 1) (split_step st i b)
  end.

Definition split_inner_plaintext (inner : bytes) : outcome DecryptError (bytes * Z) :=
  if TLS_CIPHERTEXT_MAX <? blen inner then Err DecRecordTooLarge else
  let '(end_, content_type) := split_scan inner 0 (0, 0) in
  if end_ =? 0 then Err DecEmptyInnerPlaintext else
  if TLS_PLAINTEXT_MAX <? end_ - 1 then Err DecRecordTooLarge else
  content ← or_panic (slice inner 0 (end_ - 1));
  Ok (content, content_type).
End split.

(** ** Nonces *)

Lemma zip_lxor_inj (k x y : bytes) :
  length x = length k -> length y = length k ->
  zip_with Z.lxor k x = zip_with Z.lxor k y -> x = y.
Proof.
  revert x y. induction k as [| a k IH]; intros [| b x] [| c y] Hx Hy Heq; try done.
  cbn in Heq. injection Heq as Hb Heq. f_equal; [| apply IH; cbn in *; auto with lia].
  rewrite <- (Z.lxor_0_l b), <- (Z.lxor_0_l c), <- (Z.lxor_nilpotent a).
  by rewrite !Z.lxor_assoc, Hb.
Qed.

Lemma be_bytes_inj n v w :
  0 <= v < 256 ^ Z.of_nat n -> 0 <= w < 256 ^ Z.of_nat n -> be_bytes n v = be_bytes n w -> v = w.
Proof.
  intros Hv Hw Heq. rewrite <- (from_be_be_bytes_small n v), <- (from_be_be_bytes_small n w) by done.
  by rewrite Heq.
Qed.

Lemma length_aead_nonce iv seq : blen iv = 12 -> blen (aead_nonce iv seq) = 12.
Proof.
  intros Hl. unfold aead_nonce, blen in *.
  rewrite length_app, length_take, length_zip_with, length_drop, length_be_bytes. lia.
Qed.

(** Under one IV no two sequence numbers share a nonce. *)
Theorem aead_nonce_unique (iv : bytes) (seq seq' : Z) :
  blen iv = 12 -> is_u64 seq -> is_u64 seq' ->
  aead_nonce iv seq = aead_nonce iv seq' -> seq = seq'.
Proof.
  intros Hl Hs Hs' Heq. unfold aead_nonce in Heq. apply app_inv_head in Heq.
  apply zip_lxor_inj in Heq; try (rewrite length_be_bytes, length_drop; unfold blen in Hl; lia).
  by apply (be_bytes_inj 8) in Heq.
Qed.

Lemma aead_nonce_unique_witness :
  aead_nonce (zeros 12) 3 = aead_nonce (zeros 12) 3 /\
  (aead_nonce (zeros 12) 3 = aead_nonce (zeros 12) 4 -> 3 = 4).
Proof.
  split; [reflexivity |].
  apply aead_nonce_unique; [reflexivity | unfold is_u64, U64; lia | unfold is_u64, U64; lia].
Defined.

(** ** Padding removal *)

Section split_lemmas.
Context `{SubtleCt}.

Lemma split_step_eq st i b :
  split_step st i b = if b =? 0 then st else (as_u32 (i + 1), b).
Proof.
  unfold split_step. rewrite !ct_select_spec.
  destruct (Z.eqb_spec b 0) as [-> | Hb].
  - rewrite (proj2 (ct_eq_spec [0] [0])) by done. by destruct st.
  - destruct (ct_eq [b] [0]) eqn:Hc; [| done]. apply ct_eq_spec in Hc. congruence.
Qed.

Lemma split_scan_app l r i st :
  split_scan (l ++ r) i st = split_scan r (i + blen l) (split_scan l i st).
Proof.
  revert i st. induction l as [| b l IH]; intros i st; cbn [app split_scan].
  - by rewrite blen_nil, Z.add_0_r.
  - rewrite IH, blen_cons. f_equal. lia.
Qed.

Lemma split_scan_zeros n i st : split_scan (replicate n 0) i st = st.
Proof.
  revert i. induction n as [| n IH]; intros i; [done |].
  cbn [replicate split_scan]. by rewrite split_step_eq, IH.
Qed.

Lemma split_scan_padded content ct n st :
  ct <> 0 -> blen content + 1 < U32 ->
  split_scan (content ++ ct :: replicate n 0) 0 st = (blen content + 1, ct).
Proof.
  intros Hct Hl. rewrite split_scan_app. cbn [split_scan].
  rewrite split_step_eq, (proj2 (Z.eqb_neq _ _) Hct), split_scan_zeros.
  unfold as_u32. rewrite Z.add_0_l, Z.mod_small; [done |]. pose proof (blen_nonneg content). lia.
Qed.

(** Every inner plaintext is all padding, or has a last non-zero byte. *)
Lemma padding_cases (l : bytes) :
  l = replicate (length l) 0 \/ exists content ct n, ct <> 0 /\ l = content ++ ct :: replicate n 0.
Proof.
  induction l as [| b l IH] using rev_ind; [by left |].
  destruct (decide (b = 0)) as [-> | Hb]; [| right; by exists l, b, O].
  destruct IH as [Hz | (content & ct & n & Hct & Hl)].
  - left. rewrite length_app. cbn [length]. rewrite replicate_add. by rewrite <- Hz.
  - right. exists content, ct, (S n). split; [done |].
    rewrite Hl, <- app_assoc. cbn [app]. do 2 f_equal.
    change [0] with (replicate 1 0). rewrite <- replicate_add. f_equal. lia.
Qed.

(** The scan on each shape. *)
Lemma split_inner_zeros n :
  Z.of_nat n <= TLS_CIPHERTEXT_MAX ->
  split_inner_plaintext (replicate n 0) = Err DecEmptyInnerPlaintext.
Proof.
  intros Hn. unfold split_inner_plaintext. rewrite blen_replicate.
  rewrite (proj2 (Z.ltb_ge _ _) Hn). by rewrite split_scan_zeros.
Qed.

Lemma split_inner_padded content ct n :
  ct <> 0 ->
  let inner := content ++ ct :: replicate n 0 in
  split_inner_plaintext inner =
  if (TLS_CIPHERTEXT_MAX <? blen inner) || (TLS_PLAINTEXT_MAX <? blen content)
  then Err DecRecordTooLarge else Ok (content, ct).
Proof.
  intros Hct inner. unfold split_inner_plaintext.
  destruct (Z.ltb_spec TLS_CIPHERTEXT_MAX (blen inner)) as [| Hl]; [done |]. cbn [orb].
  assert (blen inner = blen content + 1 + Z.of_nat n) as Hi
    by (unfold inner; rewrite blen_app, blen_cons, blen_replicate; lia).
  pose proof (blen_nonneg content). change TLS_CIPHERTEXT_MAX with 16640 in Hl.
  unfold inner at 1. rewrite split_scan_padded by (done || unfold U32; lia).
  destruct (Z.eqb_spec (blen content + 1) 0); [lia |].
  replace (blen content + 1 - 1) with (blen content) by lia.
  destruct (TLS_PLAINTEXT_MAX <? blen content); [done |].
  unfold inner. by rewrite slice_prefix by done.
Qed.

Lemma split_no_panic inner : no_panic (split_inner_plaintext inner).
Proof.
  destruct (padding_cases inner) as [Hz | (c & x & n & Hx & ->)].
  - rewrite Hz. unfold split_inner_plaintext. rewrite split_scan_zeros. by split_guard.
  - rewrite split_inner_padded by done. by split_guard.
Qed.

(** The content is a prefix of the inner plaintext. *)
Lemma split_Ok_prefix inner content ct :
  split_inner_plaintext inner = Ok (content, ct) -> exists rest, inner = content ++ ct :: rest.
Proof.
  destruct (padding_cases inner) as [Hz | (c & x & n & Hx & ->)].
  - rewrite Hz. unfold split_inner_plaintext. rewrite split_scan_zeros. by split_guard.
  - rewrite split_inner_padded by done. split_guard; [done |]. intros [= <- <-]. by eexists.
Qed.
End split_lemmas.

(** ** The scan the code avoids: stop at the last non-zero byte *)

Fixpoint naive_end (k : nat) (inner : bytes) : nat :=
  match k with
  | O => O
  | S k' => if bool_decide (inner !! k' = Some 0) then naive_end k' inner else k
  end.

Definition naive_split (inner : bytes) : outcome DecryptError (bytes * Z) :=
  match naive_end (length inner) inner with
  | O => Err DecEmptyInnerPlaintext
  | S k =>
      if TLS_PLAINTEXT_MAX <? Z.of_nat k then Err DecRecordTooLarge
      else Ok (take k inner, default 0 (inner !! k))
  end.

Lemma naive_end_zeros k n : (k <= n)%nat -> naive_end k (replicate n 0) = O.
Proof.
  induction k as [| k IH]; intros Hk; [done |]. cbn [naive_end].
  rewrite lookup_replicate_2 by lia. rewrite bool_decide_eq_true_2 by done. apply IH. lia.
Qed.

Lemma naive_end_padded k content ct n :
  ct <> 0 -> (length content < k <= length content + 1 + n)%nat ->
  naive_end k (content ++ ct :: replicate n 0) = S (length content).
Proof.
  intros Hct. induction k as [| k IH]; intros Hk; [lia |]. cbn [naive_end].
  destruct (decide (k = length content)) as [-> | Hne].
  - rewrite lookup_app_r, Nat.sub_diag by lia. rewrite bool_decide_eq_false_2; [done |]. cbn. congruence.
  - rewrite lookup_app_r by lia. destruct (k - length content)%nat as [| j] eqn:Hj; [lia |].
    change ((ct :: replicate n 0) !! S j) with (replicate n 0 !! j).
    rewrite lookup_replicate_2 by lia. rewrite bool_decide_eq_true_2 by done. apply IH. lia.
Qed.

(** The constant-time scan returns what the early-exit scan would: the bytes
    before the last non-zero byte as content and that byte as content type, the
    same errors for padding only and for oversized content, after the up-front
    size cap; it never panics. *)
Theorem split_inner_plaintext_equiv `{SubtleCt} (inner : bytes) :
  split_inner_plaintext inner =
  if TLS_CIPHERTEXT_MAX <? blen inner then Err DecRecordTooLarge else naive_split inner.
Proof.
  unfold naive_split. destruct (padding_cases inner) as [-> | (c & x & n & Hx & ->)].
  - rewrite length_replicate, naive_end_zeros by lia.
    destruct (Z.ltb_spec TLS_CIPHERTEXT_MAX (blen (replicate (length inner) 0))) as [Hl | Hl].
    + unfold split_inner_plaintext. by rewrite (proj2 (Z.ltb_lt _ _) Hl).
    + apply split_inner_zeros. by rewrite blen_replicate in Hl.
  - rewrite split_inner_padded by done.
    rewrite naive_end_padded by (rewrite ?length_app, ?length_cons, ?length_replicate; done || lia).
    rewrite take_app_length, lookup_app_r, Nat.sub_diag by lia. cbn [lookup list_lookup default].
    fold (blen c). destruct (TLS_CIPHERTEXT_MAX <? _), (TLS_PLAINTEXT_MAX <? _); done.
Qed.

(** ** Encryption and decryption *)

(** The record header, which is also the additional data. *)
Definition record_header (body_len : Z) : bytes :=
  CT_APPLICATION_DATA :: be_bytes 2 LEGACY_VERSION ++ be_bytes 2 body_len.

Section roundtrip.
Context `{Usize, AeadCipher}.

(** [encrypt_record] on every branch. *)
Lemma encrypt_record_eq keys content ct seq out :
  encrypt_record keys content ct seq out =
  let n := blen content in
  if TLS_PLAINTEXT_MAX <? n then Err EncRecordTooLarge
  else if blen out <? n + 22 then Err (EncBufferTooSmall (n + 22) (blen out))
  else match seal_in_place keys (record_header (n + 17)) seq (content ++ [ct]) with
       | None => Err EncAeadFailed
       | Some (c, t) =>
           Ok ((record_header (n + 17) ++ c ++ t) ++ drop (Z.to_nat (n + 22)) out,
               record_header (n + 17) ++ c ++ t)
       end.
Proof.
  cbn zeta. unfold encrypt_record. change TLS_PLAINTEXT_MAX with 16384. change TLS_CIPHERTEXT_MAX with 16640.
  destruct (Z.ltb_spec 16384 (blen content)) as [| Hn]; [done |]. unfold AEAD_TAG_LEN.
  pose proof (blen_nonneg content). rewrite !checked_add_small by (unfold U32; lia). run.
  rewrite checked_add_small by (unfold U32; lia). run.
  rewrite checked_add_small by (unfold U32; lia). run.
  destruct (Z.ltb_spec 16640 (blen content + 1 + 16)); [lia |].
  replace (blen content + 1 + 16 + 5) with (blen content + 22) by lia.
  destruct (Z.ltb_spec (blen out) (blen content + 22)) as [| Ho]; [done |].
  replace (blen content + 1 + 16) with (blen content + 17) by lia.
  unfold as_u16. rewrite Z.mod_small by (unfold U16; lia). fold (record_header (blen content + 17)).
  set (hd := record_header (blen content + 17)). assert (blen hd = 5) as Hh by done.
  assert (length hd = 5%nat) as Hh' by done.
  rewrite (splice_append [] hd out) by (rewrite ?Hh; done || lia). run. rewrite app_nil_l, Hh'.
  rewrite splice_append by (rewrite ?Hh, ?blen_drop; lia). run.
  rewrite splice_append by (rewrite ?blen_app, ?Hh, ?blen_drop; change (blen [ct]) with 1; unfold blen in *; lia).
  run. rewrite !drop_drop. cbn [length].
  rewrite <- (app_assoc hd content [ct]), <- (app_assoc hd (content ++ [ct])).
  rewrite (slice_middle hd (content ++ [ct])) by (rewrite ?Hh, ?blen_app; change (blen [ct]) with 1; lia). run.
  unfold seal_in_place.
  destruct (run_encrypt keys (aead_nonce (rk_iv keys) seq) hd (content ++ [ct])) as [[c t] |] eqn:Hs;
    [| done].
  apply aead_seal_len in Hs as [Hc Ht]. rewrite blen_app in Hc. change (blen [ct]) with 1 in Hc. run.
  cbn [fst snd].
  rewrite (splice_middle hd (content ++ [ct]) c) by (rewrite ?Hh, ?blen_app; change (blen [ct]) with 1; lia). run.
  rewrite (app_assoc hd c).
  rewrite splice_append by (rewrite ?blen_app, ?Hh, ?Hc, ?Ht, ?blen_drop; unfold blen in *; lia). run.
  rewrite <- (app_assoc hd c t).
  rewrite slice_prefix by (rewrite ?blen_app, ?Hh, ?Hc, ?Ht; lia). run.
  rewrite drop_drop. do 4 f_equal. unfold blen in *. lia.
Qed.

Lemma check_record_header_wire n body :
  blen body = n -> 16 <= n <= TLS_CIPHERTEXT_MAX ->
  check_record_header (record_header n ++ body) = Ok (n - 16).
Proof.
  intros Hb Hn. change TLS_CIPHERTEXT_MAX with 16640 in Hn. unfold check_record_header.
  set (hd := record_header n). assert (blen hd = 5) as Hh by done.
  assert (blen (hd ++ body) = 5 + n) as -> by (rewrite blen_app; lia).
  destruct (Z.ltb_spec (5 + n) 5); [lia |].
  rewrite !at_idx_app_l by (rewrite Hh; lia).
  change (at_idx hd 0) with (Some 23). change (at_idx hd 1) with (Some 3).
  change (at_idx hd 2) with (Some 3).
  change (at_idx hd 3) with (Some ((n / 256 ^ 1) mod 256)).
  change (at_idx hd 4) with (Some ((n / 256 ^ 0) mod 256)).
  change (256 ^ 1) with 256. change (256 ^ 0) with 1. rewrite Z.div_1_r. run.
  change (23 =? CT_APPLICATION_DATA) with true. change (be16 3 3 =? LEGACY_VERSION) with true.
  cbn [negb]. rewrite be16_be_bytes_mod, Z.mod_small by (unfold U16; lia).
  change TLS_CIPHERTEXT_MAX with 16640.
  destruct (Z.ltb_spec 16640 n); [lia |]. destruct (Z.ltb_spec (5 + n) (5 + n)); [lia |].
  rewrite Z.eqb_refl. cbn [negb]. destruct (Z.ltb_spec n 16); [lia | done].
Qed.

(** Opening a sealed record. *)
Lemma decrypt_sealed keys inner c t seq :
  blen inner + 16 <= TLS_CIPHERTEXT_MAX ->
  let hd := record_header (blen inner + 16) in
  seal_in_place keys hd seq inner = Some (c, t) ->
  decrypt_record_inplace keys (hd ++ c ++ t) seq = (hd ++ inner ++ t, Ok (blen inner)).
Proof.
  intros Hn hd Hs. pose proof (blen_nonneg inner).
  pose proof (aead_seal_len _ _ _ _ _ _ Hs) as [Hc Ht].
  unfold decrypt_record_inplace. unfold hd at 1.
  rewrite check_record_header_wire by (rewrite ?blen_app; lia).
  replace (blen inner + 16 - 16) with (blen inner) by lia.
  assert (blen hd = 5) as Hh by done.
  rewrite (slice_prefix hd) by done. rewrite (slice_middle hd c t) by lia.
  rewrite (app_assoc hd c t), (slice_suffix (hd ++ c) t) by (rewrite ?blen_app; lia).
  rewrite Ht. cbn [Z.eqb negb Pos.eqb]. unfold run_decrypt.
  unfold seal_in_place, run_encrypt in Hs. by rewrite (aead_open_seal _ _ _ _ _ _ Hs).
Qed.
End roundtrip.

(** [record] carries [content] of type [ct], sealed with [keys] for the number [seq]. *)
Definition protects `{AeadCipher} (keys : RecordKeys) (seq : Z) (record content : bytes) (ct : Z) : Prop :=
  ct <> 0 /\ blen content <= TLS_PLAINTEXT_MAX /\
  exists pad c t, let inner := content ++ ct :: replicate pad 0 in
    let hd := record_header (blen inner + 16) in
    blen inner + 16 <= TLS_CIPHERTEXT_MAX /\ record = hd ++ c ++ t /\ seal_in_place keys hd seq inner = Some (c, t).

Section protected.
Context `{Usize, AeadCipher, SubtleCt}.

(** What [encrypt_record] writes is protected content, at the front of the buffer. *)
Lemma encrypt_record_protects keys content ct seq out out' rec :
  ct <> 0 -> encrypt_record keys content ct seq out = Ok (out', rec) ->
  protects keys seq rec content ct /\ blen rec = blen content + 22 /\ blen rec <= blen out /\ out' = rec ++ drop (length rec) out.
Proof.
  intros Hct He. rewrite encrypt_record_eq in He. cbn zeta in He.
  destruct (Z.ltb_spec TLS_PLAINTEXT_MAX (blen content)) as [| Hn]; [done |].
  destruct (Z.ltb_spec (blen out) (blen content + 22)) as [| Ho]; [done |].
  destruct (seal_in_place _ _ _ _) as [[c t] |] eqn:Hs; [| done].
  pose proof (blen_nonneg content). pose proof (aead_seal_len _ _ _ _ _ _ Hs) as [Hc Ht].
  assert (blen (content ++ [ct]) = blen content + 1) as Hi by (by rewrite blen_app).
  set (hd := record_header (blen content + 17)) in *. assert (blen hd = 5) as Hh by done.
  apply Ok_inj, pair_equal_spec in He as [<- <-].
  assert (blen (hd ++ c ++ t) = blen content + 22) as Hl by (rewrite !blen_app; lia).
  split_and!; [| done | lia |].
  - split_and!; [done | done |]. exists O, c, t. cbn [replicate]. cbv zeta. rewrite Hi.
    replace (blen content + 1 + 16) with (blen content + 17) by lia.
    split_and!; [| done | done]. change TLS_PLAINTEXT_MAX with 16384 in Hn. change TLS_CIPHERTEXT_MAX with 16640. lia.
  - do 2 f_equal. unfold blen in *. lia.
Qed.

(** Protected content is opened: the plaintext comes in place, and its split returns the content. *)
Lemma decrypt_protected keys seq record content ct :
  protects keys seq record content ct ->
  exists record' n inner, decrypt_record_inplace keys record seq = (record', Ok n) /\ blen record' = blen record /\
    slice record' 5 (5 + n) = Some inner /\ split_inner_plaintext inner = Ok (content, ct) /\
    slice record' 5 (5 + blen content) = Some content.
Proof.
  intros (Hct & Hmax & pad & c & t & Hp). cbv zeta in Hp. set (inner := content ++ _) in *. destruct Hp as (Hm & -> & Hs).
  set (hd := record_header (blen inner + 16)) in *. assert (blen hd = 5) as Hh by done.
  pose proof (aead_seal_len _ _ _ _ _ _ Hs) as [Hc Ht].
  exists (hd ++ inner ++ t), (blen inner), inner. split_and!.
  - by apply decrypt_sealed.
  - rewrite !blen_app. lia.
  - apply slice_middle; lia.
  - pose proof (split_inner_padded content ct pad Hct) as Hsp. cbv zeta in Hsp. fold inner in Hsp. rewrite Hsp.
    rewrite (proj2 (Z.ltb_ge _ _)), (proj2 (Z.ltb_ge TLS_PLAINTEXT_MAX _)) by lia. done.
  - unfold inner. rewrite <- app_assoc. apply slice_middle; lia.
Qed.
End protected.

(** C20. Record round trip: what [encrypt_record] writes, [decrypt_record_inplace]
    under the same keys and sequence number opens in place, and the split returns
    the content and its type. *)
Theorem record_roundtrip `{Usize, AeadCipher, SubtleCt}
    (keys : RecordKeys) (content : bytes) (ct seq : Z) (out out' rec : bytes) :
  ct <> 0 -> encrypt_record keys content ct seq out = Ok (out', rec) ->
  out' = rec ++ drop (length rec) out /\
  exists record' n,
    decrypt_record_inplace keys rec seq = (record', Ok n) /\ blen record' = blen rec /\
    exists inner, slice record' 5 (5 + n) = Some inner /\
      split_inner_plaintext inner = Ok (content, ct).
Proof.
  intros Hct He. destruct (encrypt_record_protects _ _ _ _ _ _ _ Hct He) as (Hp & _ & _ & Ho). split; [done |].
  destruct (decrypt_protected _ _ _ _ _ Hp) as (record' & n & inner & Hd & Hl & Hs & Hi & _).
  exists record', n. split_and!; [done | done |]. by exists inner.
Qed.

Lemma record_roundtrip_witness :
  exists out' rec record' n inner,
    @encrypt_record usize32 aead_model {| rk_key := [1]; rk_iv := zeros 12 |} [7; 0; 8; 0] 23 5 (zeros 30)
    = Ok (out', rec) /\
    @decrypt_record_inplace aead_model {| rk_key := [1]; rk_iv := zeros 12 |} rec 5 = (record', Ok n) /\
    slice record' 5 (5 + n) = Some inner /\
    @split_inner_plaintext subtle_model inner = Ok ([7; 0; 8; 0], 23).
Proof.
  destruct (@record_roundtrip usize32 aead_model subtle_model
    {| rk_key := [1]; rk_iv := zeros 12 |} [7; 0; 8; 0] 23 5 (zeros 30) _ _
    ltac:(done) ltac:(vm_compute; reflexivity)) as (_ & record' & n & Hd & _ & inner & Hs & Hi).
  eexists _, _, record', n, inner. split; [vm_compute; reflexivity |].
  exact (conj Hd (conj Hs Hi)).
Defined.

(** ** Arbitrary input *)

Lemma bytes_ok_two_inj a b v :
  is_u8 a -> is_u8 b -> be16 a b = v -> [a; b] = be_bytes 2 v.
Proof.
  intros Ha Hb <-. symmetry. unfold be16. apply be_bytes_from_be; [| done].
  by apply Forall_cons; split; [| apply Forall_singleton].
Qed.

(** A header that passes the checks is the header of its own length. *)
Lemma check_record_header_inv record n :
  bytes_ok record -> check_record_header record = Ok n ->
  0 <= n /\ n + 16 <= TLS_CIPHERTEXT_MAX /\ blen record = 5 + n + 16 /\
  exists body, record = record_header (n + 16) ++ body.
Proof.
  intros Hok. unfold check_record_header. destruct (Z.ltb_spec (blen record) 5); [done |].
  destruct record as [| a [| b [| c [| d [| e body]]]]]; try (by unfold blen in *; cbn in *; lia).
  set (record := a :: b :: c :: d :: e :: body).
  change (at_idx record 0) with (Some a). change (at_idx record 1) with (Some b).
  change (at_idx record 2) with (Some c). change (at_idx record 3) with (Some d).
  change (at_idx record 4) with (Some e). run. intros Hc.
  inversion_clear Hok as [| ? ? _ Hok1]. inversion_clear Hok1 as [| ? ? Hb Hok2].
  inversion_clear Hok2 as [| ? ? Hc' Hok3]. inversion_clear Hok3 as [| ? ? Hd Hok4].
  inversion_clear Hok4 as [| ? ? He _].
  repeat split_guard; try done. apply Ok_inj in Hc as <-. bool_to_prop.
  split_and!; [lia | lia | lia |]. exists body.
  replace (be16 d e - 16 + 16) with (be16 d e) by lia. unfold record_header, record.
  rewrite <- (bytes_ok_two_inj b c LEGACY_VERSION), <- (bytes_ok_two_inj d e (be16 d e)) by done.
  subst a. done.
Qed.

(** The header checks neither panic nor report a tag failure. *)
Lemma check_record_header_cases record :
  match check_record_header record with Panic | Err DecAeadFailed => False | _ => True end.
Proof.
  unfold check_record_header. destruct (Z.ltb_spec (blen record) 5); [done |].
  destruct (at_idx_in_range record 0 ltac:(lia)) as [? ->].
  destruct (at_idx_in_range record 1 ltac:(lia)) as [? ->].
  destruct (at_idx_in_range record 2 ltac:(lia)) as [? ->].
  destruct (at_idx_in_range record 3 ltac:(lia)) as [? ->].
  destruct (at_idx_in_range record 4 ltac:(lia)) as [? ->]. run.
  by repeat split_guard.
Qed.

(** [decrypt_record_inplace] on arbitrary bytes. *)
Lemma decrypt_record_spec `{AeadCipher} (keys : RecordKeys) (record : bytes) (seq : Z) :
  bytes_ok record ->
  let '(record', res) := decrypt_record_inplace keys record seq in
  blen record' = blen record /\ bytes_ok record' /\
  match res with
  | Ok n => exists plaintext c t,
      record = record_header (n + 16) ++ c ++ t /\
      record' = record_header (n + 16) ++ plaintext ++ t /\
      blen plaintext = n /\ n + 16 <= TLS_CIPHERTEXT_MAX /\
      seal_in_place keys (record_header (n + 16)) seq plaintext = Some (c, t)
  | Err DecAeadFailed => exists hd c t,
      record = hd ++ c ++ t /\ record' = hd ++ zeros (blen c) ++ t /\ blen hd = 5 /\ blen t = 16
  | Err _ => record' = record
  | Panic => False
  end.
Proof.
  intros Hok. unfold decrypt_record_inplace.
  pose proof (check_record_header_cases record) as Hnp.
  destruct (check_record_header record) as [n | e |] eqn:Hc; [| by destruct e | done].
  pose proof Hok as Hok0.
  destruct (check_record_header_inv _ _ Hok Hc) as (Hn & Hmax & Hl & body & ->).
  set (hd := record_header (n + 16)) in *. assert (blen hd = 5) as Hh by done.
  rewrite blen_app in Hl.
  assert (exists c t, body = c ++ t /\ blen c = n /\ blen t = 16) as (c & t & -> & Hcl & Htl).
  { exists (take (Z.to_nat n) body), (drop (Z.to_nat n) body).
    rewrite take_drop, blen_take, blen_drop. split_and!; [done | lia | lia]. }
  rewrite (slice_prefix hd) by done. rewrite (slice_middle hd c t) by lia.
  rewrite (app_assoc hd c t), (slice_suffix (hd ++ c) t) by (rewrite ?blen_app; lia).
  rewrite Htl. cbn [Z.eqb negb Pos.eqb].
  pose proof (aead_open_len (rk_key keys) (aead_nonce (rk_iv keys) seq) hd c t) as Hol.
  rewrite !bytes_ok_app in Hok0. destruct Hok0 as (Hhok & Hcok & Htok).
  pose proof (aead_open_bytes (rk_key keys) (aead_nonce (rk_iv keys) seq) hd c t Hcok) as Hob.
  unfold run_decrypt. destruct (aead_open _ _ _ _ _) as [[] buf] eqn:Ho; cbn [snd] in Hol, Hob.
  - split; [rewrite !blen_app; lia |]. split; [by rewrite !bytes_ok_app |]. exists buf, c, t.
    split_and!; [by rewrite app_assoc | done | lia | done |]. by apply aead_open_authentic.
  - split; [rewrite !blen_app; unfold zeros; rewrite blen_replicate; pose proof (blen_nonneg c); lia |].
    split; [rewrite !bytes_ok_app; split_and!; [done | by apply Forall_replicate | done] |].
    exists hd, c, t. rewrite Hol. by rewrite app_assoc.
Qed.

(** Whatever is opened and split was protected content, and it lies in place. *)
Lemma decrypt_split_spec `{AeadCipher, SubtleCt} (keys : RecordKeys) (record : bytes) (seq : Z) :
  bytes_ok record ->
  let '(record', res) := decrypt_record_inplace keys record seq in
  blen record' = blen record /\ bytes_ok record' /\
  match res with
  | Ok n => exists inner, slice record' 5 (5 + n) = Some inner /\
      forall content ct, split_inner_plaintext inner = Ok (content, ct) ->
        protects keys seq record content ct /\ slice record' 5 (5 + blen content) = Some content
  | Err _ => True
  | Panic => False
  end.
Proof.
  intros Hok. pose proof (decrypt_record_spec keys record seq Hok) as Hs.
  destruct (decrypt_record_inplace keys record seq) as [record' [n | e |]];
    [destruct Hs as (Hl & Hb & inner & c & t & -> & -> & <- & Hm & Hseal) | by destruct Hs as (? & ? & _) | by destruct Hs as (_ & _ & [])].
  split_and!; [done | done |]. exists inner. set (hd := record_header _) in *. assert (blen hd = 5) as Hh by done.
  split; [apply slice_middle; lia |]. intros content ct Hsp. clear Hb Hok Hl.
  destruct (padding_cases inner) as [Hz | (content' & ct' & pad & Hct & Hi)].
  { rewrite Hz in Hsp. unfold split_inner_plaintext in Hsp. rewrite split_scan_zeros in Hsp. revert Hsp. by split_guard. }
  pose proof (split_inner_padded content' ct' pad Hct) as He. cbv zeta in He. rewrite <- Hi, Hsp in He.
  destruct ((_ <? _) || _) eqn:Hg in He; [done |]. apply Ok_inj, pair_equal_spec in He as [-> ->].
  apply orb_false_iff in Hg as [_ Hg%Z.ltb_ge]. split.
  - split_and!; [done | done |]. exists pad, c, t. cbv zeta. rewrite <- Hi. by split_and!.
  - rewrite Hi, <- app_assoc. apply slice_middle; lia.
Qed.

(** C21. Decryption of arbitrary bytes: it never panics and never changes the
    length of the buffer; it succeeds only on a record that the holder of the keys
    sealed for this sequence number under this very header, and then the buffer
    holds the plaintext; a tag mismatch leaves zeros in place of the plaintext, and
    every other error leaves the record as it was. *)
Theorem decrypt_record_safe `{AeadCipher} (keys : RecordKeys) (record : bytes) (seq : Z) :
  bytes_ok record ->
  let '(record', res) := decrypt_record_inplace keys record seq in
  blen record' = blen record /\
  match res with
  | Ok n => exists plaintext c t,
      record = record_header (n + 16) ++ c ++ t /\
      record' = record_header (n + 16) ++ plaintext ++ t /\
      blen plaintext = n /\ n + 16 <= TLS_CIPHERTEXT_MAX /\
      seal_in_place keys (record_header (n + 16)) seq plaintext = Some (c, t)
  | Err DecAeadFailed => exists hd c t,
      record = hd ++ c ++ t /\ record' = hd ++ zeros (blen c) ++ t /\ blen hd = 5 /\ blen t = 16
  | Err _ => record' = record
  | Panic => False
  end.
Proof.
  intros Hok. pose proof (decrypt_record_spec keys record seq Hok) as Hs.
  destruct (decrypt_record_inplace keys record seq) as [record' res]. by destruct Hs as (Hl & _ & Hr).
Qed.

Definition demo_keys : RecordKeys := {| rk_key := [1]; rk_iv := zeros 12 |}.
Definition demo_forged : bytes := record_header 18 ++ [1; 2] ++ zeros 15 ++ [9].

Lemma decrypt_record_safe_witness :
  exists hd c t, demo_forged = hd ++ c ++ t /\
    @decrypt_record_inplace aead_model demo_keys demo_forged 0
    = (hd ++ zeros (blen c) ++ t, Err DecAeadFailed).
Proof.
  assert (bytes_ok demo_forged) as Hok by (repeat constructor; done).
  pose proof (@decrypt_record_safe aead_model demo_keys demo_forged 0 Hok) as Hs.
  destruct (@decrypt_record_inplace aead_model demo_keys demo_forged 0) as [r' res] eqn:E.
  assert (res = Err DecAeadFailed) as -> by (change res with (r', res).2; rewrite <- E; vm_compute; reflexivity).
  destruct Hs as (_ & hd & c & t & Hf & -> & _). exists hd, c, t.
  exact (conj Hf eq_refl).
Defined.
