(* ===== verification/Hkdf.v ===== *)
(** * [hkdf.rs], [traits/hkdf.rs]: the TLS 1.3 and DTLS 1.3 key schedules

    The [HkdfSha256] trait is a class: backends may fail, and when they do not
    they compute SHA-256 and HKDF.  The label encoder, the running transcript
    hash and every derivation of the two schedules are modelled on top of it. *)
From stdpp Require Import strings.
From S2P Require Import Prelude Deps Bytecopy.

(** ** [traits/hkdf.rs] *)

Inductive HkdfBackendError := BackendFailed.
Inductive HkdfExpandError :=
| ExpandOutputTooLong | ExpandInvalidPrk | ExpandBackend (e : HkdfBackendError).

Class HkdfSha256 := {
  Hasher : Type;
  hasher : Hasher;
  hash_update : Hasher -> bytes -> Hasher;
  hash_snapshot : Hasher -> outcome HkdfBackendError bytes;
  extract : bytes -> bytes -> outcome HkdfBackendError bytes;
  expand : bytes -> bytes -> Z -> outcome HkdfExpandError bytes;
  (** The functions of RFC 5869 and FIPS 180-4, and the bytes a hasher has seen. *)
  sha256 : bytes -> bytes;
  hkdf_extract : bytes -> bytes -> bytes;
  hkdf_expand : bytes -> bytes -> Z -> bytes;
  hashed : Hasher -> bytes;
  hasher_spec : hashed hasher = [];
  hash_update_spec h m : hashed (hash_update h m) = hashed h ++ m;
  hash_snapshot_spec h d : hash_snapshot h = Ok d -> d = sha256 (hashed h);
  hash_snapshot_total h : no_panic (hash_snapshot h);
  sha256_len m : blen (sha256 m) = 32;
  extract_spec s i k : extract s i = Ok k -> k = hkdf_extract s i;
  extract_total s i : no_panic (extract s i);
  hkdf_extract_len s i : blen (hkdf_extract s i) = 32;
  hkdf_extract_bytes s i : bytes_ok (hkdf_extract s i);
  expand_spec k i n o : expand k i n = Ok o -> o = hkdf_expand k i n;
  expand_total k i n : no_panic (expand k i n);
  hkdf_expand_len k i n : 0 <= n -> blen (hkdf_expand k i n) = n
}.

(** A stand-in that mixes its inputs, for evaluating examples. *)
Definition toy_hash (m : bytes) : bytes := be_bytes 32 (toy_sum m).
Definition toy_extract (s i : bytes) : bytes := be_bytes 32 (toy_sum s * 7 + toy_sum i).
Definition toy_expand (k i : bytes) (n : Z) : bytes :=
  be_bytes (Z.to_nat n) (toy_sum k * 13 + toy_sum i).

Definition hkdf_model : HkdfSha256.
Proof.
  refine {| Hasher := bytes; hasher := []; hash_update h m := h ++ m;
            hash_snapshot h := Ok (toy_hash h); extract s i := Ok (toy_extract s i);
            expand k i n := Ok (toy_expand k i n); sha256 := toy_hash;
            hkdf_extract := toy_extract; hkdf_expand := toy_expand; hashed h := h |};
    intros; try done; try congruence; unfold toy_hash, toy_extract, toy_expand;
    apply bytes_ok_be_bytes || (rewrite blen_be_bytes; lia).
Defined.

(** ** Labels *)

Definition label (s : string) : bytes :=
  (fun a => Z.of_N (Ascii.N_of_ascii a)) <$> String.list_ascii_of_string s.

Definition HKDF_LABEL_MAX : Z := 64.
Definition TLS13_LABEL_PREFIX : bytes := label "tls13 ".
Definition DTLS13_LABEL_PREFIX : bytes := label "dtls13".

Inductive HkdfLabelError :=
| HlOutputTooLong | HlLabelTooLong | HlContextTooLong | HlEncodedTooLong
| HlExpand (e : HkdfExpandError) | HlBackend (e : HkdfBackendError).

(** [impl From<heapless::CapacityError> for HkdfLabelError] *)
Definition label_capacity (e : CapacityError) : HkdfLabelError := HlEncodedTooLong.

Section key_schedule.
Context `{HeaplessVec, HkdfSha256}.

(** [out] is a fresh buffer of [n] bytes at every call site. *)
Definition hkdf_expand_label_prefixed (prefix secret lbl context : bytes) (n : Z)
    : outcome HkdfLabelError bytes :=
  if U16 - 1 <? n then Err HlOutputTooLong else
  let label_total := blen prefix + blen lbl in
  if U8 - 1 <? label_total then Err HlLabelTooLong else
  if U8 - 1 <? blen context then Err HlContextTooLong else
  info ← map_err label_capacity (push_bytes HKDF_LABEL_MAX [] (be_bytes 2 (as_u16 n)));
  info ← map_err label_capacity (push_bytes HKDF_LABEL_MAX info [as_u8 label_total]);
  info ← map_err label_capacity (push_bytes HKDF_LABEL_MAX info prefix);
  info ← map_err label_capacity (push_bytes HKDF_LABEL_MAX info lbl);
  info ← map_err label_capacity (push_bytes HKDF_LABEL_MAX info [as_u8 (blen context)]);
  info ← map_err label_capacity (push_bytes HKDF_LABEL_MAX info context);
  map_err HlExpand (expand secret info n).

Definition hkdf_expand_label := hkdf_expand_label_prefixed TLS13_LABEL_PREFIX.
Definition dtls_expand_label := hkdf_expand_label_prefixed DTLS13_LABEL_PREFIX.

Definition EMPTY_TRANSCRIPT_HASH : bytes :=
  [0xe3; 0xb0; 0xc4; 0x42; 0x98; 0xfc; 0x1c; 0x14; 0x9a; 0xfb; 0xf4; 0xc8; 0x99; 0x6f; 0xb9; 0x24;
   0x27; 0xae; 0x41; 0xe4; 0x64; 0x9b; 0x93; 0x4c; 0xa4; 0x95; 0x99; 0x1b; 0x78; 0x52; 0xb8; 0x55].

Definition extract_ (salt ikm : bytes) : outcome HkdfLabelError bytes :=
  map_err HlBackend (extract salt ikm).

(** *** TLS 1.3 (RFC 8446 section 7) *)

Definition derive_secret (secret lbl transcript_hash : bytes) : outcome HkdfLabelError bytes :=
  hkdf_expand_label secret lbl transcript_hash 32.

Definition early_secret : outcome HkdfLabelError bytes := extract_ (zeros 32) (zeros 32).

Definition handshake_secret (dhe : bytes) : outcome HkdfLabelError bytes :=
  es ← early_secret;
  salt ← derive_secret es (label "derived") EMPTY_TRANSCRIPT_HASH;
  extract_ salt dhe.

Definition handshake_traffic_secrets (hs th : bytes) : outcome HkdfLabelError (bytes * bytes) :=
  c ← derive_secret hs (label "c hs traffic") th;
  s ← derive_secret hs (label "s hs traffic") th;
  Ok (c, s).

Definition traffic_keys (n : Z) (traffic_secret : bytes) : outcome HkdfLabelError (bytes * bytes) :=
  key ← hkdf_expand_label traffic_secret (label "key") [] n;
  iv ← hkdf_expand_label traffic_secret (label "iv") [] 12;
  Ok (key, iv).

Definition master_secret (hs : bytes) : outcome HkdfLabelError bytes :=
  salt ← derive_secret hs (label "derived") EMPTY_TRANSCRIPT_HASH;
  extract_ salt (zeros 32).

Definition application_traffic_secrets (ms th : bytes) : outcome HkdfLabelError (bytes * bytes) :=
  c ← derive_secret ms (label "c ap traffic") th;
  s ← derive_secret ms (label "s ap traffic") th;
  Ok (c, s).

Definition next_application_traffic_secret (secret : bytes) : outcome HkdfLabelError bytes :=
  hkdf_expand_label secret (label "traffic upd") [] 32.

Definition finished_mac (traffic_secret transcript_hash : bytes) : outcome HkdfLabelError bytes :=
  finished_key ← hkdf_expand_label traffic_secret (label "finished") [] 32;
  extract_ finished_key transcript_hash.

(** *** DTLS 1.3 (RFC 9147 section 5.9) *)

Definition sn_key (n : Z) (traffic_secret : bytes) : outcome HkdfLabelError bytes :=
  dtls_expand_label traffic_secret (label "sn") [] n.

Definition dtls_derive_secret (secret lbl transcript_hash : bytes) : outcome HkdfLabelError bytes :=
  dtls_expand_label secret lbl transcript_hash 32.

Definition dtls_handshake_secret (dhe : bytes) : outcome HkdfLabelError bytes :=
  es ← early_secret;
  salt ← dtls_derive_secret es (label "derived") EMPTY_TRANSCRIPT_HASH;
  extract_ salt dhe.

Definition dtls_handshake_traffic_secrets (hs th : bytes) : outcome HkdfLabelError (bytes * bytes) :=
  c ← dtls_derive_secret hs (label "c hs traffic") th;
  s ← dtls_derive_secret hs (label "s hs traffic") th;
  Ok (c, s).

Definition dtls_traffic_keys (n : Z) (traffic_secret : bytes) : outcome HkdfLabelError (bytes * bytes) :=
  key ← dtls_expand_label traffic_secret (label "key") [] n;
  iv ← dtls_expand_label traffic_secret (label "iv") [] 12;
  Ok (key, iv).

Definition dtls_finished_mac (traffic_secret transcript_hash : bytes) : outcome HkdfLabelError bytes :=
  finished_key ← dtls_expand_label traffic_secret (label "finished") [] 32;
  extract_ finished_key transcript_hash.

Definition dtls_master_secret (hs : bytes) : outcome HkdfLabelError bytes :=
  salt ← dtls_derive_secret hs (label "derived") EMPTY_TRANSCRIPT_HASH;
  extract_ salt (zeros 32).

Definition dtls_application_traffic_secrets (ms th : bytes) : outcome HkdfLabelError (bytes * bytes) :=
  c ← dtls_derive_secret ms (label "c ap traffic") th;
  s ← dtls_derive_secret ms (label "s ap traffic") th;
  Ok (c, s).

(** ** [TranscriptHash] *)

Inductive TranscriptError := TrRecordTooShort | TrBackend (e : HkdfBackendError).

Definition TranscriptHash := Hasher.
Definition TranscriptHash_new : TranscriptHash := hasher.
Definition transcript_update (t : TranscriptHash) (msg : bytes) : TranscriptHash := hash_update t msg.
Definition transcript_snapshot (t : TranscriptHash) : outcome TranscriptError bytes :=
  map_err TrBackend (hash_snapshot t).

Definition update_record `{Usize} (t : TranscriptHash) (record : bytes)
    : outcome TranscriptError TranscriptHash :=
  if blen record <? 5 then Err TrRecordTooShort else
  l0 ← or_panic (at_idx record 3);
  l1 ← or_panic (at_idx record 4);
  let body_len := be16 l0 l1 in
  end_ ← ok_or (checked_add 5 body_len) TrRecordTooShort;
  if blen record <? end_ then Err TrRecordTooShort else
  body ← or_panic (slice record 5 end_);
  Ok (hash_update t body).
End key_schedule.

(** ** The encoded [HkdfLabel] *)

Definition hkdf_label (prefix lbl context : bytes) (n : Z) : bytes :=
  be_bytes 2 n ++ [blen (prefix ++ lbl)] ++ (prefix ++ lbl) ++ [blen context] ++ context.

Section labels.
Context `{HeaplessVec, HkdfSha256}.

(** Within the scratch buffer, the encoder adds no failure of its own. *)
Lemma expand_label_eq prefix secret lbl context n :
  0 <= n < U16 -> blen prefix + blen lbl + blen context <= 60 ->
  hkdf_expand_label_prefixed prefix secret lbl context n
  = map_err HlExpand (expand secret (hkdf_label prefix lbl context n) n).
Proof.
  intros Hn Hl. unfold hkdf_expand_label_prefixed.
  pose proof (blen_nonneg prefix). pose proof (blen_nonneg lbl). pose proof (blen_nonneg context).
  destruct (Z.ltb_spec (U16 - 1) n); [lia |].
  destruct (Z.ltb_spec (U8 - 1) (blen prefix + blen lbl)); [unfold U8 in *; lia |].
  destruct (Z.ltb_spec (U8 - 1) (blen context)); [unfold U8 in *; lia |].
  unfold HKDF_LABEL_MAX.
  rewrite push_bytes_ok by solve_blen. run. rewrite push_bytes_ok by solve_blen. run.
  rewrite push_bytes_ok by solve_blen. run. rewrite push_bytes_ok by solve_blen. run.
  rewrite push_bytes_ok by solve_blen. run. rewrite push_bytes_ok by solve_blen. run.
  unfold as_u16, as_u8, hkdf_label, U16, U8 in *. rewrite !Z.mod_small by lia.
  rewrite blen_app, <- !app_assoc. done.
Qed.

(** The encoding is uniquely readable. *)
Lemma hkdf_label_inj p l c n p' l' c' n' :
  0 <= n < U16 -> 0 <= n' < U16 ->
  hkdf_label p l c n = hkdf_label p' l' c' n' -> p ++ l = p' ++ l' /\ c = c' /\ n = n'.
Proof.
  intros Hn Hn' Heq. unfold hkdf_label in Heq.
  apply app_inj_blen in Heq as [Hnn Heq]; [| by rewrite !blen_be_bytes].
  injection Heq as Hlen Heq. apply app_inj_blen in Heq as [Hpl Heq]; [| done].
  injection Heq as _ Hc. split_and!; [done | done |].
  rewrite <- (from_be_be_bytes_small 2 n), <- (from_be_be_bytes_small 2 n') by done. by rewrite Hnn.
Qed.
End labels.

(** Label separation: two HKDF-Expand inputs built by the encoder coincide only
    for the same prefixed label, context and length.  In particular no TLS
    derivation can ever ask the backend for the bytes of a DTLS one. *)
Theorem hkdf_label_separation (p l c p' l' c' : bytes) (n n' : Z) :
  0 <= n < U16 -> 0 <= n' < U16 ->
  (hkdf_label p l c n = hkdf_label p' l' c' n' -> p ++ l = p' ++ l' /\ c = c' /\ n = n') /\
  hkdf_label TLS13_LABEL_PREFIX l c n <> hkdf_label DTLS13_LABEL_PREFIX l' c' n'.
Proof.
  intros Hn Hn'. split; [by apply hkdf_label_inj |].
  intros Heq. apply hkdf_label_inj in Heq as (Hp & _); done.
Qed.

Lemma hkdf_label_separation_witness :
  hkdf_label TLS13_LABEL_PREFIX (label "key") [] 16
  <> hkdf_label DTLS13_LABEL_PREFIX (label "key") [] 16.
Proof.
  apply (hkdf_label_separation [] (label "key") [] [] (label "key") [] 16 16); unfold U16; lia.
Defined.

(** ** The schedule as the RFCs write it *)

Section reference.
Context `{HkdfSha256} (prefix : bytes).

Definition Expand_Label (secret lbl context : bytes) (n : Z) : bytes :=
  hkdf_expand secret (hkdf_label prefix lbl context n) n.
Definition Derive_Secret (secret : bytes) (lbl : string) (th : bytes) : bytes :=
  Expand_Label secret (label lbl) th 32.
Definition Early_Secret : bytes := hkdf_extract (zeros 32) (zeros 32).
Definition Handshake_Secret (dhe : bytes) : bytes :=
  hkdf_extract (Derive_Secret Early_Secret "derived" EMPTY_TRANSCRIPT_HASH) dhe.
Definition Master_Secret (hs : bytes) : bytes :=
  hkdf_extract (Derive_Secret hs "derived" EMPTY_TRANSCRIPT_HASH) (zeros 32).
Definition Finished_Mac (ts th : bytes) : bytes :=
  hkdf_extract (Expand_Label ts (label "finished") [] 32) th.
End reference.

(** A derivation gives the reference value or reports that the backend failed;
    the encoder's own size errors never occur. *)
Definition computes {A} (m : outcome HkdfLabelError A) (v : A) : Prop :=
  match m with
  | Ok a => a = v
  | Err (HlExpand _) | Err (HlBackend _) => True
  | _ => False
  end.

Section computes.
Context `{HeaplessVec, HkdfSha256}.

Lemma computes_bind {A B} (m : outcome HkdfLabelError A) (f : A -> outcome HkdfLabelError B) a b :
  computes m a -> computes (f a) b -> computes (m ≫= f) b.
Proof. destruct m as [x | e |]; cbn; [by intros -> | by destruct e | done]. Qed.

Lemma computes_Ok {A} (a : A) : computes (Ok a) a.
Proof. done. Qed.

Lemma computes_expand prefix secret lbl context n :
  0 <= n < U16 -> blen prefix + blen lbl + blen context <= 60 ->
  computes (hkdf_expand_label_prefixed prefix secret lbl context n)
           (Expand_Label prefix secret lbl context n).
Proof.
  intros Hn Hl. rewrite expand_label_eq by done. unfold Expand_Label.
  pose proof (expand_total secret (hkdf_label prefix lbl context n) n) as Ht.
  destruct (expand _ _ _) as [o | e |] eqn:He; cbn; [by apply expand_spec | done | done].
Qed.

Lemma computes_extract s i : computes (extract_ s i) (hkdf_extract s i).
Proof.
  unfold extract_. pose proof (extract_total s i).
  destruct (extract s i) eqn:He; cbn; [by apply extract_spec | done | done].
Qed.
End computes.

Ltac solve_schedule :=
  repeat match goal with
  | |- computes (_ ≫= _) _ => eapply computes_bind
  | |- computes (Ok _) _ => apply computes_Ok
  | |- computes (extract_ _ _) _ => apply computes_extract
  | |- computes (hkdf_expand_label_prefixed _ _ _ _ _) _ =>
      apply computes_expand;
      [first [done | unfold U16; lia] | repeat match goal with |- context [blen (label ?s)] =>
         let n := eval vm_compute in (blen (label s)) in change (blen (label s)) with n end;
       rewrite ?blen_nil; lia]
  end.

Section schedule.
Context `{HeaplessVec, HkdfSha256}.

Lemma tls_schedule_eq (dhe hs ms ts th : bytes) (n : Z) :
  blen th = 32 -> 0 <= n < U16 ->
  let P := TLS13_LABEL_PREFIX in
  computes early_secret Early_Secret /\
  computes (handshake_secret dhe) (Handshake_Secret P dhe) /\
  computes (handshake_traffic_secrets hs th)
    (Derive_Secret P hs "c hs traffic" th, Derive_Secret P hs "s hs traffic" th) /\
  computes (master_secret hs) (Master_Secret P hs) /\
  computes (application_traffic_secrets ms th)
    (Derive_Secret P ms "c ap traffic" th, Derive_Secret P ms "s ap traffic" th) /\
  computes (traffic_keys n ts)
    (Expand_Label P ts (label "key") [] n, Expand_Label P ts (label "iv") [] 12) /\
  computes (next_application_traffic_secret ts) (Expand_Label P ts (label "traffic upd") [] 32) /\
  computes (finished_mac ts th) (Finished_Mac P ts th).
Proof.
  intros Hth Hn P. unfold P.
  assert (blen TLS13_LABEL_PREFIX = 6) as HP by done.
  assert (blen EMPTY_TRANSCRIPT_HASH = 32) as HE by done.
  split_and!; unfold early_secret, handshake_secret, handshake_traffic_secrets, master_secret,
    application_traffic_secrets, traffic_keys, next_application_traffic_secret, finished_mac,
    early_secret, derive_secret, hkdf_expand_label; solve_schedule.
Qed.

(** C30. The TLS 1.3 key schedule: every derivation returns the value RFC 8446
    section 7 prescribes, with the "tls13 " labels, or reports a backend failure;
    the fixed label buffer is always large enough. *)
Theorem tls_key_schedule (dhe hs ms ts th : bytes) (n : Z) :
  blen th = 32 -> 0 <= n < U16 ->
  let P := TLS13_LABEL_PREFIX in
  computes early_secret Early_Secret /\
  computes (handshake_secret dhe) (Handshake_Secret P dhe) /\
  computes (handshake_traffic_secrets hs th)
    (Derive_Secret P hs "c hs traffic" th, Derive_Secret P hs "s hs traffic" th) /\
  computes (master_secret hs) (Master_Secret P hs) /\
  computes (application_traffic_secrets ms th)
    (Derive_Secret P ms "c ap traffic" th, Derive_Secret P ms "s ap traffic" th) /\
  computes (traffic_keys n ts)
    (Expand_Label P ts (label "key") [] n, Expand_Label P ts (label "iv") [] 12) /\
  computes (next_application_traffic_secret ts) (Expand_Label P ts (label "traffic upd") [] 32) /\
  computes (finished_mac ts th) (Finished_Mac P ts th).
Proof. apply tls_schedule_eq. Qed.

Lemma dtls_schedule_eq (dhe hs ms ts th : bytes) (n : Z) :
  blen th = 32 -> 0 <= n < U16 ->
  let P := DTLS13_LABEL_PREFIX in
  computes (dtls_handshake_secret dhe) (Handshake_Secret P dhe) /\
  computes (dtls_handshake_traffic_secrets hs th)
    (Derive_Secret P hs "c hs traffic" th, Derive_Secret P hs "s hs traffic" th) /\
  computes (dtls_master_secret hs) (Master_Secret P hs) /\
  computes (dtls_application_traffic_secrets ms th)
    (Derive_Secret P ms "c ap traffic" th, Derive_Secret P ms "s ap traffic" th) /\
  computes (dtls_traffic_keys n ts)
    (Expand_Label P ts (label "key") [] n, Expand_Label P ts (label "iv") [] 12) /\
  computes (sn_key n ts) (Expand_Label P ts (label "sn") [] n) /\
  computes (dtls_finished_mac ts th) (Finished_Mac P ts th).
Proof.
  intros Hth Hn P. unfold P.
  assert (blen DTLS13_LABEL_PREFIX = 6) as HP by done.
  assert (blen EMPTY_TRANSCRIPT_HASH = 32) as HE by done.
  split_and!; unfold dtls_handshake_secret, dtls_handshake_traffic_secrets, dtls_master_secret,
    dtls_application_traffic_secrets, dtls_traffic_keys, sn_key, dtls_finished_mac,
    early_secret, dtls_derive_secret, dtls_expand_label; solve_schedule.
Qed.

(** The DTLS 1.3 key schedule is the same schedule with the "dtls13" labels,
    plus the record-number key. *)
Theorem dtls_key_schedule (dhe hs ms ts th : bytes) (n : Z) :
  blen th = 32 -> 0 <= n < U16 ->
  let P := DTLS13_LABEL_PREFIX in
  computes (dtls_handshake_secret dhe) (Handshake_Secret P dhe) /\
  computes (dtls_handshake_traffic_secrets hs th)
    (Derive_Secret P hs "c hs traffic" th, Derive_Secret P hs "s hs traffic" th) /\
  computes (dtls_master_secret hs) (Master_Secret P hs) /\
  computes (dtls_application_traffic_secrets ms th)
    (Derive_Secret P ms "c ap traffic" th, Derive_Secret P ms "s ap traffic" th) /\
  computes (dtls_traffic_keys n ts)
    (Expand_Label P ts (label "key") [] n, Expand_Label P ts (label "iv") [] 12) /\
  computes (sn_key n ts) (Expand_Label P ts (label "sn") [] n) /\
  computes (dtls_finished_mac ts th) (Finished_Mac P ts th).
Proof. apply dtls_schedule_eq. Qed.

(** The transcript hash covers exactly the declared body of a record. *)
Lemma update_record_ok `{Usize} t hd l0 l1 body tail :
  blen hd = 3 -> be16 l0 l1 = blen body -> is_u16 (blen body) ->
  exists t', update_record t (hd ++ [l0; l1] ++ body ++ tail) = Ok t' /\ hashed t' = hashed t ++ body.
Proof.
  intros Hh Hb Hu. pose proof (blen_nonneg body). pose proof (blen_nonneg tail).
  unfold update_record, is_u16 in *. rewrite !blen_app. change (blen [l0; l1]) with 2.
  destruct (Z.ltb_spec (blen hd + (2 + (blen body + blen tail))) 5); [lia |].
  assert (at_idx (hd ++ [l0; l1] ++ body ++ tail) 3 = Some l0) as -> by (by apply at_idx_middle).
  assert (at_idx (hd ++ [l0; l1] ++ body ++ tail) 4 = Some l1) as ->.
  { change (hd ++ [l0; l1] ++ body ++ tail) with (hd ++ [l0] ++ l1 :: body ++ tail).
    rewrite app_assoc. apply at_idx_middle. rewrite blen_app, Hh. done. }
  run. rewrite Hb, checked_add_small by (unfold U16, U32 in *; lia). run.
  destruct (Z.ltb_spec (blen hd + (2 + (blen body + blen tail))) (5 + blen body)); [lia |].
  rewrite app_assoc, (slice_middle (hd ++ [l0; l1]) body tail) by
    (rewrite blen_app, Hh; done). run.
  eexists. split; [done |]. apply hash_update_spec.
Qed.
End schedule.

Lemma tls_key_schedule_witness :
  computes (@handshake_secret heapless_model hkdf_model [7])
    (@Handshake_Secret hkdf_model TLS13_LABEL_PREFIX [7]) /\
  is_ok (@handshake_secret heapless_model hkdf_model [7]) = true.
Proof.
  split; [| vm_compute; reflexivity].
  destruct (@tls_key_schedule heapless_model hkdf_model [7] [] [] [] (zeros 32) 16)
    as (_ & Hh & _); [reflexivity | unfold U16; lia | exact Hh].
Defined.

Lemma dtls_key_schedule_witness :
  computes (@dtls_handshake_secret heapless_model hkdf_model [7])
    (@Handshake_Secret hkdf_model DTLS13_LABEL_PREFIX [7]) /\
  is_ok (@dtls_handshake_secret heapless_model hkdf_model [7]) = true.
Proof.
  split; [| vm_compute; reflexivity].
  destruct (@dtls_key_schedule heapless_model hkdf_model [7] [] [] [] (zeros 32) 16)
    as (Hh & _); [reflexivity | unfold U16; lia | exact Hh].
Defined.
