(* ===== verification/DtlsRecord.v ===== *)
(** * [dtls/record.rs]: the DTLS 1.3 record layer (RFC 9147 section 4)

    The unified header, record-number encryption, sequence-number
    reconstruction, sealing and opening. *)
From S2P Require Import Prelude Deps Bytecopy Consts Aead Hkdf.

Definition UNIFIED_HDR_FIXED : Z := 0x20.
Definition UNIFIED_HDR_FIXED_MASK : Z := 0xE0.
Definition HDR_CID_PRESENT : Z := 0x10.
Definition HDR_SEQ_16BIT : Z := 0x08.
Definition HDR_LENGTH_PRESENT : Z := 0x04.
Definition HDR_EPOCH_LOW2 : Z := 0x03.
Definition TAG_LEN : Z := 16.
Definition SN_SAMPLE_LEN : Z := 16.

Inductive SeqNumLen := One | Two.
#[export] Instance SeqNumLen_eq_dec : EqDecision SeqNumLen.
Proof. solve_decision. Defined.

Definition seq_bytes (l : SeqNumLen) : Z := match l with One => 1 | Two => 2 end.
Definition seq_bits (l : SeqNumLen) : Z := match l with One => 8 | Two => 16 end.

Record SealHeader := {
  sh_epoch : Z; sh_seq : Z; sh_seq_len : SeqNumLen; sh_cid : option bytes
}.

Inductive DtlsRecordError :=
| DrBufferTooSmall (needed got : Z)
| DrRecordTooLarge | DrBadHeader | DrTruncated | DrCidMismatch
| DrCiphertextTooShort | DrAead | DrInnerPlaintext.

#[export] Instance DtlsRecordError_eq_dec : EqDecision DtlsRecordError.
Proof. solve_decision. Defined.

(** [write_seq] and [read_seq] on the header's sequence-number bytes. *)
Definition write_seq (out : bytes) (seq : Z) : outcome DtlsRecordError bytes :=
  if blen out =? 1 then Ok [as_u8 seq] else copy_bytes out (be_bytes 2 (as_u16 seq)).

Definition read_seq (bs : bytes) : outcome DtlsRecordError Z :=
  b0 ← or_panic (at_idx bs 0);
  if blen bs =? 1 then Ok b0 else
  b1 ← or_panic (at_idx bs 1);
  Ok (be16 b0 b1).

Definition abs_diff (a b : Z) : Z := Z.abs (a - b).

(** [reconstruct_seq], in [u64] arithmetic. *)
Definition reconstruct_seq (wire_low bits expected : Z) : Z :=
  let step := Z.shiftl 1 bits in
  let mask := step - 1 in
  let candidate := Z.lor (Z.ldiff expected mask) (Z.land wire_low mask) in
  let '(best, best_dist) := (candidate, abs_diff candidate expected) in
  let '(best, best_dist) :=
    (let up := candidate + step in
     if (up <? U64) && (abs_diff up expected <? best_dist)
     then (up, abs_diff up expected) else (best, best_dist)) in
  let down := candidate - step in
  if (0 <=? down) && (abs_diff down expected <? best_dist) then down else best.

(** [trait DtlsSuite], for the two suites. *)
Definition CIPHER_SUITE_ID (s : Suite) : Z :=
  match s with
  | Aes128GcmSha256 => CIPHER_AES_128_GCM_SHA256
  | ChaCha20Poly1305Sha256 => CIPHER_CHACHA20_POLY1305_SHA256
  end.

Definition from_le (l : bytes) : Z := from_be (reverse l).

Definition sn_mask `{RawCiphers} (s : Suite) (masker sample : bytes) : bytes :=
  match s with
  | Aes128GcmSha256 => aes_encrypt_block masker sample
  | ChaCha20Poly1305Sha256 =>
      chacha20_keystream_block masker (from_le (take 4 sample)) (take 12 (drop 4 sample))
  end.

Definition mask_seq `{RawCiphers} (s : Suite) (masker sample seq_bytes : bytes) : bytes :=
  zip_with Z.lxor seq_bytes (sn_mask s masker sample).

Record EpochKeys := { ek_keys : RecordKeys; ek_masker : bytes }.

Record Opened := {
  op_epoch_low2 : Z; op_seq : Z; op_content_type : Z; op_content : bytes; op_record_len : Z
}.

Definition derive_record_keys `{HeaplessVec, HkdfSha256} (s : Suite) (traffic_secret : bytes)
    : outcome HkdfLabelError RecordKeys :=
  '(key, iv) ← dtls_traffic_keys (suite_key_len s) traffic_secret;
  Ok {| rk_key := key; rk_iv := iv |}.

Definition derive_masker `{HeaplessVec, HkdfSha256} (s : Suite) (traffic_secret : bytes)
    : outcome HkdfLabelError bytes := sn_key (suite_key_len s) traffic_secret.

Definition EpochKeys_derive `{HeaplessVec, HkdfSha256} (s : Suite) (traffic_secret : bytes)
    : outcome HkdfLabelError EpochKeys :=
  keys ← derive_record_keys s traffic_secret;
  masker ← derive_masker s traffic_secret;
  Ok {| ek_keys := keys; ek_masker := masker |}.

Section record.
Context `{Usize, AeadCipher, RawCiphers, SubtleCt} (S_ : Suite).

Definition first_byte (hdr : SealHeader) : Z :=
  let first := Z.lor (Z.lor UNIFIED_HDR_FIXED HDR_LENGTH_PRESENT)
                 (Z.land (as_u8 (sh_epoch hdr)) HDR_EPOCH_LOW2) in
  let first := if bool_decide (is_Some (sh_cid hdr)) then Z.lor first HDR_CID_PRESENT else first in
  if bool_decide (sh_seq_len hdr = Two) then Z.lor first HDR_SEQ_16BIT else first.

(** [EpochKeys::seal]: [out] afterwards and the record slice. *)
Definition seal (ek : EpochKeys) (hdr : SealHeader) (content : bytes) (content_type : Z) (out : bytes)
    : outcome DtlsRecordError (bytes * bytes) :=
  let cid := default [] (sh_cid hdr) in
  let cid_len := blen cid in
  let sl := seq_bytes (sh_seq_len hdr) in
  let seq_pos := 1 + cid_len in
  let header_len := seq_pos + sl + 2 in
  inner_len ← ok_or (checked_add (blen content) 1) DrRecordTooLarge;
  body_len ← ok_or (checked_add inner_len TAG_LEN) DrRecordTooLarge;
  total ← ok_or (checked_add header_len body_len) DrRecordTooLarge;
  if U16 - 1 <? body_len then Err DrRecordTooLarge else
  if blen out <? total then Err (DrBufferTooSmall total (blen out)) else
  out ← or_panic (splice out 0 [first_byte hdr]);
  out ← (match sh_cid hdr with
         | Some cid => or_panic (splice out 1 cid)
         | None => Ok out
         end);
  sq ← or_panic (slice out seq_pos (seq_pos + sl));
  sq ← write_seq sq (sh_seq hdr);
  out ← or_panic (splice out seq_pos sq);
  out ← copy_at out (seq_pos + sl) header_len (be_bytes 2 (as_u16 body_len));
  out ← or_panic (splice out header_len content);
  out ← or_panic (splice out (header_len + blen content) [content_type]);
  header ← or_panic (slice out 0 header_len);
  inner ← or_panic (slice out header_len (header_len + inner_len));
  sealed ← ok_or (seal_in_place (ek_keys ek) header (sh_seq hdr) inner) DrAead;
  out ← or_panic (splice out header_len sealed.1);
  out ← or_panic (splice out (header_len + inner_len) sealed.2);
  sample ← or_panic (slice out header_len (header_len + SN_SAMPLE_LEN));
  sq ← or_panic (slice out seq_pos (seq_pos + sl));
  out ← or_panic (splice out seq_pos (mask_seq S_ (ek_masker ek) sample sq));
  rec ← or_panic (slice out 0 total);
  Ok (out, rec).

(** The header part of [EpochKeys::open], before the sequence number is unmasked:
    [(epoch_low2, seq_len, header_len, body_len)]. *)
Definition open_header (cid_len : Z) (record : bytes)
    : outcome DtlsRecordError (Z * SeqNumLen * Z * Z) :=
  first ← ok_or (at_idx record 0) DrTruncated;
  if negb (Z.land first UNIFIED_HDR_FIXED_MASK =? UNIFIED_HDR_FIXED) then Err DrBadHeader else
  let cid_present := negb (Z.land first HDR_CID_PRESENT =? 0) in
  if negb (eqb cid_present (0 <? cid_len)) then Err DrCidMismatch else
  let seq_len := if negb (Z.land first HDR_SEQ_16BIT =? 0) then Two else One in
  let epoch_low2 := Z.land first HDR_EPOCH_LOW2 in
  let length_present := negb (Z.land first HDR_LENGTH_PRESENT =? 0) in
  let seq_pos := 1 + cid_len in
  let len_pos := seq_pos + seq_bytes seq_len in
  let header_len := len_pos + (if length_present then 2 else 0) in
  if blen record <? header_len then Err DrTruncated else
  body_len ← (if length_present then
                b0 ← or_panic (at_idx record len_pos);
                b1 ← or_panic (at_idx record (len_pos + 1));
                Ok (be16 b0 b1)
              else Ok (blen record - header_len));
  body_end ← ok_or (checked_add header_len body_len) DrTruncated;
  if (blen record <? body_end) || (body_len <? SN_SAMPLE_LEN) || (body_len <? TAG_LEN + 1)
  then Err DrCiphertextTooShort else
  Ok (epoch_low2, seq_len, header_len, body_len).

(** The rest of [open]: the record afterwards and the result. *)
Definition open_body (ek : EpochKeys) (cid_len expected_seq : Z) (record : bytes)
    (epoch_low2 : Z) (seq_len : SeqNumLen) (header_len body_len : Z)
    : outcome DtlsRecordError (bytes * outcome DtlsRecordError Opened) :=
  let seq_pos := 1 + cid_len in
  let sl := seq_bytes seq_len in
  sample ← or_panic (slice record header_len (header_len + SN_SAMPLE_LEN));
  sq ← or_panic (slice record seq_pos (seq_pos + sl));
  let sq := mask_seq S_ (ek_masker ek) sample sq in
  record ← or_panic (splice record seq_pos sq);
  wire_low ← read_seq sq;
  let seq := reconstruct_seq wire_low (seq_bits seq_len) expected_seq in
  let inner_len := body_len - TAG_LEN in
  header ← or_panic (slice record 0 header_len);
  ciphertext ← or_panic (slice record header_len (header_len + inner_len));
  tag ← or_panic (slice record (header_len + inner_len) (header_len + body_len));
  let '(ok, buf) := open_in_place (ek_keys ek) header seq ciphertext tag in
  record ← or_panic (splice record header_len buf);
  Ok (record,
      if negb ok then Err DrAead else
      '(content, content_type) ← map_err (fun _ => DrInnerPlaintext) (split_inner_plaintext buf);
      Ok {| op_epoch_low2 := epoch_low2; op_seq := seq; op_content_type := content_type;
            op_content := content; op_record_len := header_len + body_len |}).

Definition open (ek : EpochKeys) (cid_len expected_seq : Z) (record : bytes)
    : bytes * outcome DtlsRecordError Opened :=
  match open_header cid_len record with
  | Err e => (record, Err e)
  | Panic => (record, Panic)
  | Ok (epoch_low2, seq_len, header_len, body_len) =>
      match open_body ek cid_len expected_seq record epoch_low2 seq_len header_len body_len with
      | Ok (record', res) => (record', res)
      | Err e => (record, Err e)
      | Panic => (record, Panic)
      end
  end.
End record.

(** ** Sequence-number reconstruction *)

Lemma candidate_eq w e b :
  0 <= b -> 0 <= e ->
  Z.lor (Z.ldiff e (Z.shiftl 1 b - 1)) (Z.land w (Z.shiftl 1 b - 1))
  = e / 2 ^ b * 2 ^ b + w mod 2 ^ b.
Proof.
  intros Hb He. rewrite Z.shiftl_1_l. replace (2 ^ b - 1) with (Z.ones b) by (rewrite Z.ones_equiv; lia).
  rewrite Z.land_ones, Z.ldiff_ones_r, Z.shiftr_div_pow2, Z.shiftl_mul_pow2 by lia.
  apply lor_add_low; [lia |]. apply Z.mod_pos_bound. lia.
Qed.

Lemma reconstruct_seq_spec wire_low bits expected r :
  0 < bits <= 16 -> is_u64 expected ->
  r = reconstruct_seq wire_low bits expected ->
  is_u64 r /\ r mod 2 ^ bits = wire_low mod 2 ^ bits /\
  forall x, is_u64 x -> x mod 2 ^ bits = wire_low mod 2 ^ bits ->
    Z.abs (r - expected) <= Z.abs (x - expected).
Proof.
  intros Hb [He1 He2] ->. unfold reconstruct_seq. rewrite candidate_eq, Z.shiftl_1_l by lia.
  set (s := 2 ^ bits). assert (0 < s) as Hs by (apply Z.pow_pos_nonneg; lia).
  assert (U64 = (2 ^ (64 - bits)) * s) as HU
    by (unfold U64, s; rewrite <- Z.pow_add_r by lia; f_equal; lia).
  set (k := 2 ^ (64 - bits)) in *. set (q := expected / s). set (w := wire_low mod s).
  assert (0 <= w < s) as Hwb by (apply Z.mod_pos_bound; lia).
  pose proof (Z.div_mod expected s ltac:(lia)) as Hdm. fold q in Hdm.
  pose proof (Z.mod_pos_bound expected s Hs) as Hm. set (m := expected mod s) in *.
  assert (0 <= q < k) as Hq by (split; nia).
  assert (Hx : forall x, is_u64 x -> x mod s = w -> exists j, x = j * s + w /\ 0 <= j < k).
  { intros x [Hx1 Hx2] Hxw. exists (x / s). pose proof (Z.div_mod x s ltac:(lia)). split; [lia |].
    split; nia. }
  assert (Hr : forall j, 0 <= j < k -> is_u64 (j * s + w) /\ (j * s + w) mod s = w).
  { intros j Hj. split; [unfold is_u64; nia |].
    rewrite Z.add_comm, Z.mod_add by lia. by apply Z.mod_small. }
  unfold abs_diff. replace (q * s + w + s) with ((q + 1) * s + w) by lia.
  replace (q * s + w - s) with ((q - 1) * s + w) by lia.
  assert (Hfar : forall x d, is_u64 x -> x mod s = w ->
    d <= Z.abs (q * s + w - expected) ->
    (q + 1 < k -> d <= Z.abs ((q + 1) * s + w - expected)) ->
    (0 <= q - 1 -> d <= Z.abs ((q - 1) * s + w - expected)) -> d <= Z.abs (x - expected)).
  { intros x d Hxu Hxw H0 H1 H2. destruct (Hx x Hxu Hxw) as (j & -> & Hj).
    destruct (Z.lt_trichotomy j q) as [Hlt | [-> | Hgt]]; [| done |].
    - etransitivity; [apply H2; lia |]. assert (j * s <= (q - 1) * s) by nia. lia.
    - etransitivity; [apply H1; lia |]. assert ((q + 1) * s <= j * s) by nia. lia. }
  assert ((q + 1) * s + w < U64 <-> q + 1 < k) as Hup by (split; nia).
  assert (0 <= (q - 1) * s + w <-> 0 <= q - 1) as Hdn by (split; nia).
  destruct (Z.ltb_spec ((q + 1) * s + w) U64), (Z.leb_spec 0 ((q - 1) * s + w)),
    (Z.ltb_spec (Z.abs ((q + 1) * s + w - expected)) (Z.abs (q * s + w - expected))); cbn [andb];
    repeat match goal with |- context [?a <? ?b] => destruct (Z.ltb_spec a b) end;
    match goal with |- is_u64 (?j * s + w) /\ _ =>
      destruct (Hr j ltac:(lia)) as [? ?]; split_and!; [done | done |];
      intros x Hxu Hxw; apply Hfar; try done; lia end.
Qed.

(** Reconstruction picks the right number: the result is a [u64] with the low
    bits on the wire, and no other such [u64] is closer to the expected one. *)
Theorem reconstruct_seq_nearest (wire_low bits expected : Z) :
  0 < bits <= 16 -> 0 <= wire_low -> is_u64 expected ->
  let r := reconstruct_seq wire_low bits expected in
  is_u64 r /\ r mod 2 ^ bits = wire_low mod 2 ^ bits /\
  forall x, is_u64 x -> x mod 2 ^ bits = wire_low mod 2 ^ bits ->
    Z.abs (r - expected) <= Z.abs (x - expected).
Proof. intros Hb Hw He r. by apply (reconstruct_seq_spec wire_low bits expected). Qed.

Lemma reconstruct_seq_nearest_witness :
  let r := reconstruct_seq 2 8 0x1FF in
  r = 0x202 /\ forall x, is_u64 x -> x mod 2 ^ 8 = 2 mod 2 ^ 8 -> Z.abs (r - 0x1FF) <= Z.abs (x - 0x1FF).
Proof.
  split; [reflexivity |]. apply (reconstruct_seq_nearest 2 8 0x1FF); unfold is_u64, U64; lia.
Defined.

(** Within half the window, the original number comes back. *)
Lemma reconstruct_seq_exact bits seq expected :
  0 < bits <= 16 -> is_u64 seq -> is_u64 expected ->
  2 * Z.abs (seq - expected) < 2 ^ bits ->
  reconstruct_seq (seq mod 2 ^ bits) bits expected = seq.
Proof.
  intros Hb Hs He Hd. assert (0 < 2 ^ bits) by (apply Z.pow_pos_nonneg; lia).
  pose proof (Z.mod_pos_bound seq (2 ^ bits) ltac:(lia)).
  remember (reconstruct_seq (seq mod 2 ^ bits) bits expected) as r eqn:Hr.
  destruct (reconstruct_seq_spec (seq mod 2 ^ bits) bits expected r Hb He Hr) as (Hu & Hmod & Hmin).
  rewrite Z.mod_mod in Hmod, Hmin by lia. specialize (Hmin seq Hs eq_refl).
  assert (Z.abs (r - seq) < 2 ^ bits) as Hlt by lia.
  assert ((r - seq) mod 2 ^ bits = 0) as Hz by (rewrite Zminus_mod, Hmod, Z.sub_diag; apply Z.mod_0_l; lia).
  apply Z.mod_divide in Hz as [k Hk]; [| lia].
  destruct (Z.lt_trichotomy k 0) as [? | [-> | ?]]; [nia | lia | nia].
Qed.

(** ** Sealing *)

Definition seq_wire (l : SeqNumLen) (seq : Z) : bytes :=
  match l with One => be_bytes 1 seq | Two => be_bytes 2 seq end.

(** The cleartext header: also the additional data. *)
Definition unified_header (hdr : SealHeader) (body_len : Z) : bytes :=
  (first_byte hdr :: default [] (sh_cid hdr)) ++ seq_wire (sh_seq_len hdr) (sh_seq hdr)
  ++ be_bytes 2 body_len.

Lemma blen_seq_wire l seq : blen (seq_wire l seq) = seq_bytes l.
Proof. by destruct l. Qed.

Lemma seq_bytes_bound l : 1 <= seq_bytes l <= 2.
Proof. destruct l; cbn; lia. Qed.

Lemma write_seq_ok out l seq : blen out = seq_bytes l -> write_seq out seq = Ok (seq_wire l seq).
Proof.
  intros Hl. unfold write_seq. rewrite Hl. destruct l; cbn [seq_bytes Z.eqb Pos.eqb].
  - f_equal. cbn [seq_wire be_bytes]. unfold as_u8, U8. change (256 ^ Z.of_nat 0) with 1.
    by rewrite Z.div_1_r.
  - rewrite copy_bytes_ok by (rewrite Hl; done). f_equal. apply (be_bytes_mod 2).
Qed.

Section seal.
Context `{Usize, AeadCipher, RawCiphers, SubtleCt} (S_ : Suite).

Lemma blen_sn_mask masker sample : blen sample = 16 -> 16 <= blen (sn_mask S_ masker sample).
Proof.
  intros Hs. destruct S_; cbn [sn_mask].
  - rewrite aes_block_len by done. lia.
  - rewrite chacha20_block_len. lia.
Qed.

Lemma blen_mask_seq masker sample sq :
  blen sample = 16 -> blen sq <= 2 -> blen (mask_seq S_ masker sample sq) = blen sq.
Proof.
  intros Hs Hq. pose proof (blen_sn_mask masker sample Hs). unfold mask_seq, blen in *.
  rewrite length_zip_with. lia.
Qed.

Lemma bytes_ok_mask masker sample sq : bytes_ok sample -> bytes_ok sq -> bytes_ok (mask_seq S_ masker sample sq).
Proof.
  intros Hs Hq. apply bytes_ok_lxor; [done |]. destruct S_; cbn [sn_mask].
  - by apply aes_block_bytes.
  - apply chacha20_block_bytes.
Qed.

(** Masking is its own inverse. *)
Lemma mask_seq_involutive masker sample sq :
  blen sample = 16 -> blen sq <= 2 ->
  mask_seq S_ masker sample (mask_seq S_ masker sample sq) = sq.
Proof.
  intros Hs Hq. pose proof (blen_sn_mask masker sample Hs) as Hm. unfold mask_seq.
  revert Hm. generalize (sn_mask S_ masker sample) as k. intros k Hk.
  assert (length sq <= length k)%nat as Hl by (unfold blen in *; lia). clear - Hl.
  revert k Hl. induction sq as [| b sq IH]; intros [| c k] Hl; cbn in *; try done; [lia |].
  rewrite Z.lxor_assoc, Z.lxor_nilpotent, Z.lxor_0_r, IH by lia. done.
Qed.

(** What [seal] writes, on every branch. *)
Lemma seal_eq ek hdr content ct out :
  blen (default [] (sh_cid hdr)) < U24 -> blen content < U24 ->
  seal S_ ek hdr content ct out =
  let body_len := blen content + 17 in
  let cid := default [] (sh_cid hdr) in
  let total := 3 + blen cid + seq_bytes (sh_seq_len hdr) + body_len in
  let hd := unified_header hdr body_len in
  if U16 - 1 <? body_len then Err DrRecordTooLarge
  else if blen out <? total then Err (DrBufferTooSmall total (blen out))
  else match seal_in_place (ek_keys ek) hd (sh_seq hdr) (content ++ [ct]) with
       | None => Err DrAead
       | Some (c, t) =>
           let sq := mask_seq S_ (ek_masker ek) (take 16 (c ++ t)) (seq_wire (sh_seq_len hdr) (sh_seq hdr)) in
           let rec := (first_byte hdr :: cid) ++ sq ++ be_bytes 2 body_len ++ c ++ t in
           Ok (rec ++ drop (Z.to_nat total) out, rec)
       end.
Proof.
  intros Hcid Hcont. cbn zeta. unfold seal, TAG_LEN, SN_SAMPLE_LEN, U24 in *.
  set (cid := default [] (sh_cid hdr)) in *. set (sl := seq_bytes (sh_seq_len hdr)).
  pose proof (seq_bytes_bound (sh_seq_len hdr)) as Hsl. fold sl in Hsl.
  pose proof (blen_nonneg content). pose proof (blen_nonneg cid).
  rewrite checked_add_small by (unfold U32; lia). run.
  rewrite checked_add_small by (unfold U32; lia). run.
  rewrite checked_add_small by (unfold U32; lia). run.
  replace (blen content + 1 + 16) with (blen content + 17) by lia.
  replace (1 + blen cid + sl + 2 + (blen content + 17)) with (3 + blen cid + sl + (blen content + 17)) by lia.
  destruct (Z.ltb_spec (U16 - 1) (blen content + 17)) as [| Hb]; [done |].
  destruct (Z.ltb_spec (blen out) (3 + blen cid + sl + (blen content + 17))) as [| Ho]; [done |].
  rewrite (splice_append [] [first_byte hdr] out) by solve_blen. run. rewrite app_nil_l. cbn [length].
  assert ((match sh_cid hdr with
           | Some cid => or_panic (E := DtlsRecordError) (splice ([first_byte hdr] ++ drop 1 out) 1 cid)
           | None => Ok ([first_byte hdr] ++ drop 1 out)
           end) = Ok (([first_byte hdr] ++ cid) ++ drop (1 + length cid) out)) as ->.
  { subst cid. destruct (sh_cid hdr) as [cid |]; cbn [default from_option id] in *.
    - rewrite splice_append by (rewrite ?blen_drop; done || lia). run. by rewrite drop_drop.
    - by rewrite app_nil_r. }
  run. set (p1 := [first_byte hdr] ++ cid). assert (blen p1 = 1 + blen cid) as Hp1 by (unfold p1; solve_blen).
  rewrite (slice_next p1) by (rewrite ?blen_drop; unfold blen in *; lia). run.
  rewrite (write_seq_ok _ (sh_seq_len hdr)) by (rewrite blen_take, blen_drop; unfold blen in *; lia). run.
  set (sq := seq_wire (sh_seq_len hdr) (sh_seq hdr)).
  assert (blen sq = sl) as Hsq by apply blen_seq_wire.
  rewrite splice_append by (rewrite ?blen_drop; unfold blen in *; lia). run.
  assert (as_u16 (blen content + 17) = blen content + 17) as ->
    by (unfold as_u16; apply Z.mod_small; lia).
  rewrite copy_at_append by (rewrite ?blen_app, ?blen_drop, ?blen_be_bytes; unfold blen in *; lia). run.
  set (lb := be_bytes 2 (blen content + 17)). assert (blen lb = 2) as Hlb by done.
  assert (length lb = 2%nat) as Hlb' by done.
  set (hd := (p1 ++ sq) ++ lb). assert (blen hd = 3 + blen cid + sl) as Hh by (unfold hd; rewrite !blen_app; lia).
  assert (unified_header hdr (blen content + 17) = hd) as -> by (unfold hd, p1; by rewrite <- app_assoc).
  rewrite splice_append by (rewrite ?blen_drop; unfold blen in *; lia). run.
  rewrite splice_append by (rewrite ?blen_app, ?blen_drop; change (blen [ct]) with 1; unfold blen in *; lia). run.
  rewrite !drop_drop, Hlb'. change (length [ct]) with 1%nat.
  set (rest := drop _ out). set (inner := content ++ [ct]).
  assert (blen inner = blen content + 1) as Hi by (unfold inner; by rewrite blen_app).
  assert (blen rest >= 16) as Hrest by (unfold rest; rewrite blen_drop; unfold blen in *; lia).
  rewrite <- (app_assoc hd content [ct]). fold inner. rewrite <- (app_assoc hd inner).
  rewrite (slice_prefix hd _ 0) by lia. run. rewrite (slice_middle hd inner) by lia. run.
  destruct (seal_in_place (ek_keys ek) hd (sh_seq hdr) inner) as [[c t] |] eqn:Hs; [| done]. run. cbn [fst snd].
  apply aead_seal_len in Hs as [Hc Ht].
  rewrite (splice_middle hd inner c) by lia. run.
  rewrite (app_assoc hd c), splice_append by (rewrite ?blen_app; lia). run.
  set (rest' := drop (length t) rest). rewrite <- (app_assoc hd c t).
  set (body := c ++ t). assert (blen body = blen content + 17) as Hbody by (unfold body; rewrite blen_app; lia).
  rewrite <- (app_assoc hd body).
  rewrite (slice_next hd _ (1 + blen cid + sl + 2)) by (rewrite ?blen_app; pose proof (blen_nonneg rest'); lia). run.
  replace (Z.to_nat (1 + blen cid + sl + 2 + 16 - (1 + blen cid + sl + 2))) with 16%nat by lia.
  rewrite (take_app_le body) by (unfold blen in *; lia).
  unfold hd. rewrite <- !(app_assoc p1), <- (app_assoc sq). rewrite (slice_middle p1 sq) by lia. run.
  set (msq := mask_seq S_ (ek_masker ek) (take 16 body) sq).
  assert (blen msq = sl) as Hmsq.
  { unfold msq. rewrite blen_mask_seq; [done | rewrite blen_take; lia | lia]. }
  rewrite (splice_middle p1 sq msq) by lia. run.
  rewrite !app_assoc, slice_prefix by (rewrite ?blen_app; lia). run.
  unfold p1. rewrite <- !app_assoc. cbn [app]. do 7 f_equal.
  unfold rest', rest. rewrite drop_drop. f_equal. unfold blen in *. lia.
Qed.

(** The shape of a sealed record. *)
Lemma seal_Ok_inv ek hdr content ct out out' rec :
  blen (default [] (sh_cid hdr)) < U24 -> blen content < U24 ->
  seal S_ ek hdr content ct out = Ok (out', rec) ->
  exists c t sq,
    let cid := default [] (sh_cid hdr) in
    seal_in_place (ek_keys ek) (unified_header hdr (blen content + 17)) (sh_seq hdr) (content ++ [ct]) = Some (c, t) /\
    rec = (first_byte hdr :: cid) ++ sq ++ be_bytes 2 (blen content + 17) ++ c ++ t /\
    blen sq = seq_bytes (sh_seq_len hdr) /\ blen content + 17 < U16 /\
    blen rec = 20 + blen cid + seq_bytes (sh_seq_len hdr) + blen content /\ blen rec <= blen out /\
    out' = rec ++ drop (length rec) out.
Proof.
  intros Hcid Hcont Hs. rewrite seal_eq in Hs by done. cbn zeta in Hs.
  destruct (Z.ltb_spec (U16 - 1) (blen content + 17)); [done |].
  destruct (Z.ltb_spec (blen out) (3 + blen (default [] (sh_cid hdr)) + seq_bytes (sh_seq_len hdr) + (blen content + 17))); [done |].
  destruct (seal_in_place _ _ _ _) as [[c t] |] eqn:Hsl; [| done].
  pose proof (aead_seal_len _ _ _ _ _ _ Hsl) as [Hc Ht]. rewrite blen_app in Hc. change (blen [ct]) with 1 in Hc.
  pose proof (blen_nonneg content). pose proof (seq_bytes_bound (sh_seq_len hdr)).
  set (sq := mask_seq _ _ _ _) in Hs.
  assert (blen sq = seq_bytes (sh_seq_len hdr)) as Hsq.
  { pose proof (blen_seq_wire (sh_seq_len hdr) (sh_seq hdr)). unfold sq.
    rewrite blen_mask_seq; [done | rewrite blen_take, blen_app; lia | lia]. }
  apply Ok_inj, pair_equal_spec in Hs as [Hout Hrec]. rewrite Hrec in Hout.
  exists c, t, sq. cbn zeta. split; [done |]. split; [by symmetry |]. split; [done |]. split; [lia |].
  assert (blen rec = 20 + blen (default [] (sh_cid hdr)) + seq_bytes (sh_seq_len hdr) + blen content) as Hlr.
  { rewrite <- Hrec, !blen_app, blen_cons, blen_be_bytes. lia. }
  split; [done |]. split; [lia |]. rewrite <- Hout. do 2 f_equal. unfold blen in *. lia.
Qed.
End seal.

(** ** Opening *)

Lemma land_epoch_range e : 0 <= Z.land (as_u8 e) HDR_EPOCH_LOW2 < 4.
Proof.
  change HDR_EPOCH_LOW2 with (Z.ones 2). rewrite Z.land_ones by lia. apply Z.mod_pos_bound. lia.
Qed.

(** The flags of the first byte are read back as they were set. *)
Lemma first_byte_flags hdr :
  let b := first_byte hdr in
  Z.land b UNIFIED_HDR_FIXED_MASK = UNIFIED_HDR_FIXED /\
  negb (Z.land b HDR_CID_PRESENT =? 0) = bool_decide (is_Some (sh_cid hdr)) /\
  (if negb (Z.land b HDR_SEQ_16BIT =? 0) then Two else One) = sh_seq_len hdr /\
  negb (Z.land b HDR_LENGTH_PRESENT =? 0) = true /\
  Z.land b HDR_EPOCH_LOW2 = Z.land (as_u8 (sh_epoch hdr)) HDR_EPOCH_LOW2.
Proof.
  cbn zeta. unfold first_byte. pose proof (land_epoch_range (sh_epoch hdr)) as He.
  generalize dependent (Z.land (as_u8 (sh_epoch hdr)) HDR_EPOCH_LOW2). intros e He.
  assert (e = 0 \/ e = 1 \/ e = 2 \/ e = 3) as [-> | [-> | [-> | ->]]] by lia;
    destruct (bool_decide (is_Some (sh_cid hdr))), (sh_seq_len hdr); done.
Qed.

(** A connection id that is present is not empty. *)
Definition cid_ok (hdr : SealHeader) : Prop := sh_cid hdr <> Some [].

Section open.
Context `{Usize, AeadCipher, RawCiphers, SubtleCt} (S_ : Suite).

Lemma open_header_wire hdr sq body tail :
  cid_ok hdr -> blen sq = seq_bytes (sh_seq_len hdr) -> 17 <= blen body -> is_u16 (blen body) ->
  let cid := default [] (sh_cid hdr) in
  blen cid < U24 ->
  open_header (blen cid) ((first_byte hdr :: cid) ++ sq ++ be_bytes 2 (blen body) ++ body ++ tail)
  = Ok (Z.land (as_u8 (sh_epoch hdr)) HDR_EPOCH_LOW2, sh_seq_len hdr,
        3 + blen cid + seq_bytes (sh_seq_len hdr), blen body).
Proof.
  intros Hcid Hsq Hb Hb16 cid Hc24. unfold open_header.
  destruct (first_byte_flags hdr) as (Hfix & Hcf & Hsf & Hlf & Hef).
  change (at_idx ((first_byte hdr :: cid) ++ _) 0) with (Some (first_byte hdr)). run.
  rewrite Hfix, Z.eqb_refl. cbn [negb]. rewrite Hcf, Hsf, Hlf, Hef.
  assert (bool_decide (is_Some (sh_cid hdr)) = (0 <? blen cid)) as ->.
  { subst cid. destruct (sh_cid hdr) as [[| x l] |] eqn:E; cbn [default from_option id].
    - by unfold cid_ok in Hcid; rewrite E in Hcid.
    - rewrite bool_decide_eq_true_2 by eauto. symmetry. apply Z.ltb_lt. rewrite blen_cons.
      pose proof (blen_nonneg l). lia.
    - by rewrite bool_decide_eq_false_2 by (intros [? ?]; done). }
  rewrite eqb_reflx. cbn [negb].
  pose proof (seq_bytes_bound (sh_seq_len hdr)). pose proof (blen_nonneg cid). pose proof (blen_nonneg tail).
  rewrite !blen_app, blen_cons, Hsq, blen_be_bytes.
  set (sl := seq_bytes (sh_seq_len hdr)) in *.
  destruct (Z.ltb_spec (1 + blen cid + (sl + (Z.of_nat 2 + (blen body + blen tail)))) (1 + blen cid + sl + 2));
    [lia |].
  rewrite (app_assoc (first_byte hdr :: cid) sq).
  set (pre := (first_byte hdr :: cid) ++ sq). assert (blen pre = 1 + blen cid + sl) as Hpre
    by (unfold pre; rewrite blen_app, blen_cons; lia).
  set (b1 := (blen body / 256 ^ 1) mod 256). set (b2 := (blen body / 256 ^ 0) mod 256).
  change (be_bytes 2 (blen body) ++ body ++ tail) with (b1 :: b2 :: body ++ tail).
  rewrite (at_idx_middle pre b1 _ (1 + blen cid + sl)) by lia. run.
  change (pre ++ b1 :: b2 :: body ++ tail) with (pre ++ [b1] ++ b2 :: body ++ tail).
  rewrite (app_assoc pre [b1]), (at_idx_middle (pre ++ [b1]) b2) by
    (rewrite blen_app, Hpre; change (blen [b1]) with 1; lia). run.
  assert (be16 b1 b2 = blen body) as ->.
  { unfold b1, b2. change (256 ^ 1) with 256. change (256 ^ 0) with 1.
    rewrite Z.div_1_r, be16_be_bytes_mod. apply Z.mod_small. done. }
  unfold is_u16, U16, U24 in *. rewrite checked_add_small by (unfold U32; lia). run.
  unfold SN_SAMPLE_LEN, TAG_LEN. 
  destruct (Z.ltb_spec (1 + blen cid + (sl + (Z.of_nat 2 + (blen body + blen tail))))
    (1 + blen cid + sl + 2 + blen body)); [lia |].
  destruct (Z.ltb_spec (blen body) 16); [lia |]. destruct (Z.ltb_spec (blen body) (16 + 1)); [lia |].
  cbn [orb]. do 3 f_equal. lia.
Qed.

Lemma read_seq_wire l seq :
  read_seq (seq_wire l seq) = Ok (seq mod 2 ^ seq_bits l).
Proof.
  destruct l; cbn [seq_wire be_bytes seq_bits].
  - unfold read_seq. cbn. by rewrite Z.div_1_r.
  - unfold read_seq. change (256 ^ Z.of_nat 0) with 1. change (256 ^ Z.of_nat 1) with 256.
    rewrite Z.div_1_r. change (at_idx [?x; ?y] 0) with (Some x).
    run. change (at_idx [?x; ?y] 1) with (Some y). cbn [Z.eqb]. run. f_equal. apply be16_be_bytes_mod.
Qed.

(** Opening what [seal] wrote, up to the split of the inner plaintext. *)
Lemma open_body_sealed ek hdr inner c t tail expected :
  let cid := default [] (sh_cid hdr) in
  let sq := seq_wire (sh_seq_len hdr) (sh_seq hdr) in
  let body := c ++ t in
  let hd := unified_header hdr (blen body) in
  let msq := mask_seq S_ (ek_masker ek) (take 16 body) sq in
  seal_in_place (ek_keys ek) hd (sh_seq hdr) inner = Some (c, t) ->
  is_u64 (sh_seq hdr) -> is_u64 expected ->
  2 * Z.abs (sh_seq hdr - expected) < 2 ^ seq_bits (sh_seq_len hdr) ->
  open_body S_ ek (blen cid) expected
    ((first_byte hdr :: cid) ++ msq ++ be_bytes 2 (blen body) ++ body ++ tail)
    (Z.land (as_u8 (sh_epoch hdr)) HDR_EPOCH_LOW2) (sh_seq_len hdr)
    (3 + blen cid + seq_bytes (sh_seq_len hdr)) (blen body)
  = Ok (hd ++ inner ++ t ++ tail,
        '(content, content_type) ← map_err (fun _ => DrInnerPlaintext) (split_inner_plaintext inner);
        Ok {| op_epoch_low2 := Z.land (as_u8 (sh_epoch hdr)) HDR_EPOCH_LOW2; op_seq := sh_seq hdr;
              op_content_type := content_type; op_content := content;
              op_record_len := 3 + blen cid + seq_bytes (sh_seq_len hdr) + blen body |}).
Proof.
  intros cid sq body hd msq Hs Hseq Hexp Hnear. unfold open_body, SN_SAMPLE_LEN, TAG_LEN.
  pose proof (aead_seal_len _ _ _ _ _ _ Hs) as [Hc Ht]. pose proof (blen_nonneg inner).
  pose proof (blen_nonneg tail). pose proof (blen_nonneg cid).
  assert (blen body = blen inner + 16) as Hbody by (unfold body; rewrite blen_app; lia).
  set (sl := seq_bytes (sh_seq_len hdr)). pose proof (seq_bytes_bound (sh_seq_len hdr)) as Hsl. fold sl in Hsl.
  set (p1 := first_byte hdr :: cid). assert (blen p1 = 1 + blen cid) as Hp1 by apply blen_cons.
  assert (blen sq = sl) as Hsq by apply blen_seq_wire.
  assert (blen (take 16 body) = 16) as Hsample by (rewrite blen_take; lia).
  assert (blen msq = sl) as Hmsq by (unfold msq; rewrite blen_mask_seq; lia).
  set (lb := be_bytes 2 (blen body)). assert (blen lb = 2) as Hlb by done.
  assert (hd = p1 ++ sq ++ lb) as Hhd by done.
  assert (blen hd = 3 + blen cid + sl) as Hh by (rewrite Hhd, !blen_app; lia).
  assert (slice (p1 ++ msq ++ lb ++ body ++ tail) (3 + blen cid + sl) (3 + blen cid + sl + 16)
          = Some (take 16 body)) as ->.
  { rewrite (app_assoc msq), (app_assoc p1), slice_next by (rewrite ?blen_app; lia).
    f_equal. replace (Z.to_nat _) with 16%nat by lia. apply take_app_le. unfold blen in *. lia. }
  run. rewrite (slice_middle p1 msq) by lia. run.
  assert (mask_seq S_ (ek_masker ek) (take 16 body) msq = sq) as ->
    by (apply mask_seq_involutive; lia).
  rewrite (splice_middle p1 msq sq) by lia. run.
  rewrite (read_seq_wire (sh_seq_len hdr) (sh_seq hdr) : read_seq sq = _). run.
  rewrite reconstruct_seq_exact by (done || destruct (sh_seq_len hdr); cbn; lia).
  rewrite (app_assoc sq), (app_assoc p1), <- Hhd.
  rewrite (slice_prefix hd _ 0) by lia. run.
  assert (body ++ tail = c ++ t ++ tail) as -> by (unfold body; by rewrite <- app_assoc).
  rewrite (slice_middle hd c _ (3 + blen cid + sl)) by lia. run.
  assert (slice (hd ++ c ++ t ++ tail) (3 + blen cid + sl + (blen body - 16)) (3 + blen cid + sl + blen body)
          = Some t) as ->.
  { rewrite (app_assoc hd c). apply slice_middle; rewrite ?blen_app; lia. }
  run. unfold open_in_place, run_decrypt. rewrite (aead_open_seal _ _ _ _ _ _ Hs).
  rewrite (splice_middle hd c inner) by lia. run. cbn [negb]. done.
Qed.
End open.

Lemma seal_open_spec `{Usize, AeadCipher, RawCiphers, SubtleCt} (S_ : Suite)
    (ek : EpochKeys) (hdr : SealHeader) (content : bytes) (ct expected : Z) (out out' rec tail : bytes) :
  cid_ok hdr -> blen (default [] (sh_cid hdr)) < U24 ->
  ct <> 0 -> blen content <= TLS_PLAINTEXT_MAX ->
  is_u64 (sh_seq hdr) -> is_u64 expected ->
  2 * Z.abs (sh_seq hdr - expected) < 2 ^ seq_bits (sh_seq_len hdr) ->
  seal S_ ek hdr content ct out = Ok (out', rec) ->
  out' = rec ++ drop (length rec) out /\
  exists opened record',
    open S_ ek (blen (default [] (sh_cid hdr))) expected (rec ++ tail) = (record' ++ tail, Ok opened) /\
    blen record' = blen rec /\
    op_content opened = content /\ op_content_type opened = ct /\
    op_seq opened = sh_seq hdr /\ op_epoch_low2 opened = sh_epoch hdr mod 4 /\
    op_record_len opened = blen rec.
Proof.
  intros Hcid Hc24 Hct Hcont Hseq Hexp Hnear Hseal.
  change TLS_PLAINTEXT_MAX with 16384 in Hcont.
  rewrite seal_eq in Hseal by (unfold U24 in *; lia). cbn zeta in Hseal.
  set (cid := default [] (sh_cid hdr)) in *.
  pose proof (seq_bytes_bound (sh_seq_len hdr)) as Hsl. set (sl := seq_bytes (sh_seq_len hdr)) in *.
  destruct (Z.ltb_spec (U16 - 1) (blen content + 17)) as [| Hb]; [done |].
  destruct (Z.ltb_spec (blen out) (3 + blen cid + sl + (blen content + 17))) as [| Ho]; [done |].
  set (inner := content ++ [ct]) in *.
  assert (blen inner = blen content + 1) as Hi by (unfold inner; by rewrite blen_app).
  destruct (seal_in_place _ _ _ _) as [[c t] |] eqn:Hs; [| done].
  pose proof (aead_seal_len _ _ _ _ _ _ Hs) as [Hcl Htl]. pose proof (blen_nonneg cid).
  pose proof (blen_nonneg content).
  assert (blen (c ++ t) = blen content + 17) as Hbody by (rewrite blen_app; lia).
  rewrite <- Hbody in Hseal, Hs.
  set (msq := mask_seq _ _ _ _) in *.
  assert (blen msq = sl) as Hmsq.
  { pose proof (blen_seq_wire (sh_seq_len hdr) (sh_seq hdr)) as Hq. fold sl in Hq.
    unfold msq. rewrite blen_mask_seq; [done | rewrite blen_take; lia | lia]. }
  apply Ok_inj in Hseal.
  assert (rec = (first_byte hdr :: cid) ++ msq ++ be_bytes 2 (blen (c ++ t)) ++ c ++ t) as Hrec by congruence.
  assert (blen rec = 3 + blen cid + sl + blen (c ++ t)) as Hrl.
  { rewrite Hrec, !blen_app, blen_cons, blen_be_bytes. lia. }
  split.
  { transitivity (rec ++ drop (Z.to_nat (3 + blen cid + sl + blen (c ++ t))) out); [congruence |].
    do 2 f_equal. unfold blen in *. lia. }
  assert (rec ++ tail = (first_byte hdr :: cid) ++ msq ++ be_bytes 2 (blen (c ++ t)) ++ (c ++ t) ++ tail)
    as -> by (rewrite Hrec; by rewrite <- !app_assoc).
  unfold open. subst cid.
  rewrite (open_header_wire hdr msq (c ++ t) tail Hcid) by (done || unfold is_u16, U16 in *; lia).
  subst sl msq.
  rewrite (open_body_sealed S_ ek hdr inner c t tail expected Hs Hseq Hexp Hnear).
  pose proof (split_inner_padded content ct 0 Hct) as Hsp. cbn zeta in Hsp. cbn [replicate] in Hsp.
  unfold inner. rewrite Hsp. fold inner. rewrite Hi. change TLS_CIPHERTEXT_MAX with 16640.
  change TLS_PLAINTEXT_MAX with 16384.
  destruct (Z.ltb_spec 16640 (blen content + 1)); [lia |].
  destruct (Z.ltb_spec 16384 (blen content)); [lia |]. cbn [orb map_err]. run.
  eexists _, (unified_header hdr (blen (c ++ t)) ++ inner ++ t). rewrite <- !app_assoc.
  split; [reflexivity |]. cbn [op_content op_content_type op_seq op_epoch_low2 op_record_len].
  split_and!; [| done.. | |].
  - unfold unified_header. rewrite !blen_app, blen_cons, blen_seq_wire, blen_be_bytes, Hrl, blen_app. lia.
  - change HDR_EPOCH_LOW2 with (Z.ones 2). rewrite Z.land_ones by lia. unfold as_u8, U8.
    rewrite Z.mod_mod_divide; [done | by exists 64].
  - lia.
Qed.

(** C33. DTLS record round trip: what [seal] writes, [open] with the same keys
    opens, as long as the receiver's expected number is within half the on-wire
    window: content, content type, full sequence number and epoch bits come back,
    the reported length is the record's, and the datagram's remaining bytes are
    untouched. *)
Theorem dtls_record_roundtrip `{Usize, AeadCipher, RawCiphers, SubtleCt} (S_ : Suite)
    (ek : EpochKeys) (hdr : SealHeader) (content : bytes) (ct expected : Z) (out out' rec tail : bytes) :
  cid_ok hdr -> blen (default [] (sh_cid hdr)) < U24 ->
  ct <> 0 -> blen content <= TLS_PLAINTEXT_MAX ->
  is_u64 (sh_seq hdr) -> is_u64 expected ->
  2 * Z.abs (sh_seq hdr - expected) < 2 ^ seq_bits (sh_seq_len hdr) ->
  seal S_ ek hdr content ct out = Ok (out', rec) ->
  out' = rec ++ drop (length rec) out /\
  exists opened record',
    open S_ ek (blen (default [] (sh_cid hdr))) expected (rec ++ tail) = (record' ++ tail, Ok opened) /\
    blen record' = blen rec /\
    op_content opened = content /\ op_content_type opened = ct /\
    op_seq opened = sh_seq hdr /\ op_epoch_low2 opened = sh_epoch hdr mod 4 /\
    op_record_len opened = blen rec.
Proof. apply seal_open_spec. Qed.

Definition demo_epoch_keys : EpochKeys :=
  {| ek_keys := {| rk_key := [1]; rk_iv := zeros 12 |}; ek_masker := [3] |}.

Lemma dtls_record_roundtrip_witness :
  exists out' rec record' opened,
    @seal usize32 aead_model raw_ciphers_model ChaCha20Poly1305Sha256 demo_epoch_keys
      {| sh_epoch := 3; sh_seq := 300; sh_seq_len := Two; sh_cid := Some [5] |} [1; 2] 23 (zeros 40)
    = Ok (out', rec) /\
    @open usize32 aead_model raw_ciphers_model subtle_model ChaCha20Poly1305Sha256 demo_epoch_keys
      1 290 (rec ++ [8; 8]) = (record' ++ [8; 8], Ok opened) /\
    op_content opened = [1; 2] /\ op_seq opened = 300.
Proof.
  edestruct (@dtls_record_roundtrip usize32 aead_model raw_ciphers_model subtle_model
    ChaCha20Poly1305Sha256 demo_epoch_keys
    {| sh_epoch := 3; sh_seq := 300; sh_seq_len := Two; sh_cid := Some [5] |} [1; 2] 23 290 (zeros 40))
    with (tail := [8; 8]) as (_ & opened & record' & Ho & _ & Hc & _ & Hsq & _);
    [done | vm_compute; reflexivity | done | vm_compute; congruence | unfold is_u64, U64; cbn; lia
    | unfold is_u64, U64; lia | cbn; lia | vm_compute; reflexivity |].
  eexists _, _, record', opened. split; [vm_compute; reflexivity |].
  split; [exact Ho |]. split; [exact Hc | exact Hsq].
Defined.

(** ** Arbitrary datagrams *)

Section safe.
Context `{Usize, AeadCipher, RawCiphers, SubtleCt} (S_ : Suite).

Lemma open_header_no_panic cid_len record : 0 <= cid_len -> no_panic (open_header cid_len record).
Proof.
  intros Hc. unfold open_header. apply no_panic_bind; [auto with panics |]. intros first _.
  split_guard; [done |]. split_guard; [done |].
  set (sl := if negb (Z.land first HDR_SEQ_16BIT =? 0) then Two else One).
  pose proof (seq_bytes_bound sl).
  destruct (negb (Z.land first HDR_LENGTH_PRESENT =? 0)).
  - destruct (Z.ltb_spec (blen record) (1 + cid_len + seq_bytes sl + 2)); [done |].
    destruct (at_idx_in_range record (1 + cid_len + seq_bytes sl) ltac:(lia)) as [b0 ->].
    destruct (at_idx_in_range record (1 + cid_len + seq_bytes sl + 1) ltac:(lia)) as [b1 ->]. run.
    apply no_panic_bind; [auto with panics |]. intros. by split_guard.
  - destruct (Z.ltb_spec (blen record) (1 + cid_len + seq_bytes sl + 0)); [done |]. run.
    apply no_panic_bind; [auto with panics |]. intros. by split_guard.
Qed.

Lemma open_header_inv cid_len record e sl hl bl :
  0 <= cid_len -> open_header cid_len record = Ok (e, sl, hl, bl) ->
  17 <= bl /\ hl + bl <= blen record /\ 1 + cid_len + seq_bytes sl <= hl.
Proof.
  intros Hc. unfold open_header, SN_SAMPLE_LEN, TAG_LEN. intros Ho. invert_ok.
  split_guard; [done |]. split_guard; [done |].
  destruct (blen record <? _) eqn:Hl; [done |]. invert_ok.
  match goal with Ha : checked_add _ _ = Some _ |- _ => apply checked_add_Some_inv in Ha as [-> _] end.
  match type of Ho with (if ?b then _ else _) = _ => destruct b eqn:Hg1; [done |] end.
  apply Ok_inj in Ho. injection Ho as _ <- <- <-. bool_to_prop.
  repeat match goal with |- context [if ?b then _ else _] => destruct b end; lia.
Qed.

Lemma read_seq_total sq l : blen sq = seq_bytes l -> exists v, read_seq sq = Ok v.
Proof.
  intros Hl. unfold read_seq.
  destruct (at_idx_in_range sq 0) as [b0 E0]; [destruct l; cbn in Hl; lia |]. rewrite E0, Hl. run.
  destruct l; cbn [seq_bytes Z.eqb Pos.eqb] in *; [by eexists |].
  destruct (at_idx_in_range sq 1 ltac:(lia)) as [b1 E1]. rewrite E1. by eexists.
Qed.

(** Everything [open_body] does, as one decomposition of the record. *)
Lemma open_body_inv ek cid_len expected record e sl hl bl :
  0 <= cid_len -> 17 <= bl -> hl + bl <= blen record -> 1 + cid_len + seq_bytes sl <= hl ->
  exists hd0 hd c t rest seq buf ok,
    record = hd0 ++ c ++ t ++ rest /\ blen hd0 = hl /\ blen hd = hl /\
    blen c = bl - 16 /\ blen t = 16 /\ (is_u64 expected -> is_u64 seq) /\
    (bytes_ok record -> bytes_ok hd /\ bytes_ok buf) /\
    open_in_place (ek_keys ek) hd seq c t = (ok, buf) /\
    open_body S_ ek cid_len expected record e sl hl bl
    = Ok (hd ++ buf ++ t ++ rest,
          if negb ok then Err DrAead else
          '(content, content_type) ← map_err (fun _ => DrInnerPlaintext) (split_inner_plaintext buf);
          Ok {| op_epoch_low2 := e; op_seq := seq; op_content_type := content_type;
                op_content := content; op_record_len := hl + bl |}).
Proof.
  intros Hc Hb Hl Hh. pose proof (seq_bytes_bound sl) as Hsl.
  destruct (cut_at record hl ltac:(lia)) as (hd0 & r1 & -> & Hhd0 & Hr1).
  rewrite blen_app in Hl, Hr1.
  destruct (cut_at r1 (bl - 16) ltac:(lia)) as (c & r2 & -> & Hcl & Hr2). rewrite blen_app in Hl, Hr1, Hr2.
  destruct (cut_at r2 16 ltac:(lia)) as (t & rest & -> & Htl & _).
  destruct (cut_at hd0 (1 + cid_len) ltac:(lia)) as (p1 & q1 & -> & Hp1 & Hq1). rewrite blen_app in Hhd0.
  destruct (cut_at q1 (seq_bytes sl) ltac:(lia)) as (q & l2 & -> & Hq & _). rewrite blen_app in Hhd0.
  set (sample := take 16 (c ++ t ++ rest)).
  set (q' := mask_seq S_ (ek_masker ek) sample q).
  assert (blen sample = 16) as Hsample
    by (unfold sample; rewrite blen_take, !blen_app; pose proof (blen_nonneg rest); lia).
  assert (blen q' = seq_bytes sl) as Hq' by (unfold q'; rewrite blen_mask_seq; lia).
  destruct (read_seq_total q' sl Hq') as [v Hv].
  set (seq := reconstruct_seq v (seq_bits sl) expected).
  set (hd := p1 ++ q' ++ l2).
  assert (blen hd = hl) as Hhd by (unfold hd; rewrite !blen_app; lia).
  destruct (open_in_place (ek_keys ek) hd seq c t) as [ok buf] eqn:Hop.
  assert (blen buf = blen c) as Hbuf.
  { pose proof (aead_open_len (rk_key (ek_keys ek)) (aead_nonce (rk_iv (ek_keys ek)) seq) hd c t) as Hlen.
    unfold open_in_place, run_decrypt in Hop. by rewrite Hop in Hlen. }
  exists (p1 ++ q ++ l2), hd, c, t, rest, seq, buf, ok. split_and!; try done; [rewrite !blen_app; lia | | |].
  { intros He. eapply reconstruct_seq_spec; [| exact He | done]. destruct sl; cbn; lia. }
  { intros Hok. rewrite !bytes_ok_app in Hok. destruct Hok as ((Hp1ok & Hqok & Hl2ok) & Hcok & Hrok).
    assert (bytes_ok q') as Hq'ok
      by (apply bytes_ok_mask; [apply Forall_take, bytes_ok_app; by rewrite bytes_ok_app | done]).
    split; [unfold hd; by rewrite !bytes_ok_app |].
    pose proof (aead_open_bytes (rk_key (ek_keys ek)) (aead_nonce (rk_iv (ek_keys ek)) seq) hd c t Hcok) as Hb'.
    unfold open_in_place, run_decrypt in Hop. by rewrite Hop in Hb'. }
  unfold open_body, SN_SAMPLE_LEN, TAG_LEN.
  rewrite (slice_next (p1 ++ q ++ l2) _ hl) by
    (rewrite ?blen_app; pose proof (blen_nonneg rest); lia). run.
  replace (Z.to_nat (hl + 16 - hl)) with 16%nat by lia. fold sample.
  rewrite <- !(app_assoc p1), <- !(app_assoc q).
  rewrite (slice_middle p1 q) by lia. run. fold q'.
  rewrite (splice_middle p1 q q') by lia. run. rewrite Hv. run. fold seq.
  rewrite (app_assoc q' l2), (app_assoc p1). fold hd.
  rewrite (slice_prefix hd _ 0) by lia. run.
  rewrite (slice_middle hd c _ hl) by lia. run.
  assert (slice (hd ++ c ++ t ++ rest) (hl + (bl - 16)) (hl + bl) = Some t) as ->
    by (rewrite (app_assoc hd c); apply slice_middle; rewrite ?blen_app; lia). run.
  rewrite Hop. rewrite (splice_middle hd c buf) by lia. run. done.
Qed.
End safe.

Lemma open_spec `{Usize, AeadCipher, RawCiphers, SubtleCt} (S_ : Suite)
    (ek : EpochKeys) (cid_len expected : Z) (record : bytes) :
  0 <= cid_len ->
  let '(record', res) := open S_ ek cid_len expected record in
  blen record' = blen record /\ (bytes_ok record -> bytes_ok record') /\
  match res with
  | Panic => False
  | Err _ => True
  | Ok o =>
      (is_u64 expected -> is_u64 (op_seq o)) /\ (bytes_ok record -> bytes_ok (op_content o)) /\
      18 <= op_record_len o <= blen record /\
      drop (Z.to_nat (op_record_len o)) record' = drop (Z.to_nat (op_record_len o)) record /\
      exists hd0 hd c t inner rest,
        record = hd0 ++ c ++ t ++ rest /\ blen hd0 = blen hd /\
        seal_in_place (ek_keys ek) hd (op_seq o) inner = Some (c, t) /\
        split_inner_plaintext inner = Ok (op_content o, op_content_type o)
  end.
Proof.
  intros Hc. unfold open. pose proof (open_header_no_panic cid_len record Hc) as Hnp.
  destruct (open_header cid_len record) as [[[[e sl] hl] bl] | |] eqn:Hoh; [| done | done].
  destruct (open_header_inv _ _ _ _ _ _ Hc Hoh) as (Hbl & Hin & Hhl).
  pose proof (seq_bytes_bound sl).
  destruct (open_body_inv S_ ek cid_len expected record e sl hl bl Hc Hbl Hin Hhl)
    as (hd0 & hd & c & t & rest & seq & buf & ok & -> & Hhd0 & Hhd & Hcl & Htl & Hu & Hbo & Hop & ->).
  assert (blen buf = blen c) as Hbuf.
  { pose proof (aead_open_len (rk_key (ek_keys ek)) (aead_nonce (rk_iv (ek_keys ek)) seq) hd c t) as Hlen.
    unfold open_in_place, run_decrypt in Hop. by rewrite Hop in Hlen. }
  split; [rewrite !blen_app; lia |]. split.
  { intros Hok. destruct (Hbo Hok) as [? ?]. rewrite !bytes_ok_app in *. tauto. }
  destruct ok; cbn [negb]; [| done].
  pose proof (split_no_panic buf) as Hsp.
  destruct (split_inner_plaintext buf) as [[content ct] | |] eqn:Hs; cbn; [| done | done].
  rewrite !blen_app in *. split; [done |]. split.
  { intros Hok. destruct (Hbo Hok) as [_ Hb]. apply split_Ok_prefix in Hs as [r ->]. by apply bytes_ok_app in Hb as [? _]. }
  split; [lia |]. split.
  - rewrite !app_assoc, !drop_app_length'; [done | |]; rewrite !length_app; unfold blen in *; lia.
  - exists hd0, hd, c, t, buf, rest. split_and!; [done | lia | | done].
    by apply aead_open_authentic.
Qed.

(** C34. Opening an arbitrary datagram never panics and never changes its length.
    A record is accepted only if it is authentic: the accepted content is the
    inner plaintext of a body that the holder of the epoch's keys sealed under the
    header and sequence number reported; the record lies inside the datagram and
    the bytes after it, where the next coalesced record starts, are unchanged. *)
Theorem dtls_open_safe `{Usize, AeadCipher, RawCiphers, SubtleCt} (S_ : Suite)
    (ek : EpochKeys) (cid_len expected : Z) (record : bytes) :
  0 <= cid_len ->
  let '(record', res) := open S_ ek cid_len expected record in
  blen record' = blen record /\
  match res with
  | Panic => False
  | Err _ => True
  | Ok o =>
      18 <= op_record_len o <= blen record /\
      drop (Z.to_nat (op_record_len o)) record' = drop (Z.to_nat (op_record_len o)) record /\
      exists hd0 hd c t inner rest,
        record = hd0 ++ c ++ t ++ rest /\ blen hd0 = blen hd /\
        seal_in_place (ek_keys ek) hd (op_seq o) inner = Some (c, t) /\
        split_inner_plaintext inner = Ok (op_content o, op_content_type o)
  end.
Proof.
  intros Hc. pose proof (open_spec S_ ek cid_len expected record Hc) as Hs.
  destruct (open S_ ek cid_len expected record) as [record' res]. destruct Hs as (Hl & _ & Hres).
  split; [done |]. destruct res; [apply Hres | done | done].
Qed.

Lemma dtls_open_safe_witness :
  let '(record', res) := @open usize32 aead_model raw_ciphers_model subtle_model
    Aes128GcmSha256 demo_epoch_keys 0 0 [0x2C; 1; 2; 0; 17; 9] in
  blen record' = 6 /\ res = Err DrCiphertextTooShort.
Proof.
  pose proof (@dtls_open_safe usize32 aead_model raw_ciphers_model subtle_model
    Aes128GcmSha256 demo_epoch_keys 0 0 [0x2C; 1; 2; 0; 17; 9] ltac:(lia)) as Hs.
  destruct (@open usize32 aead_model raw_ciphers_model subtle_model
    Aes128GcmSha256 demo_epoch_keys 0 0 [0x2C; 1; 2; 0; 17; 9]) as [r' res] eqn:E.
  split; [apply Hs |]. change res with (r', res).2. rewrite <- E. vm_compute. reflexivity.
Defined.
