(* ===== verification/DtlsHello.v ===== *)
(** * [dtls/handshake.rs]: DTLS ClientHello and ServerHello bodies

    The bounds-checked cursor, the ClientHello writer against its wire form, the
    ServerHello parser and the record-size-limit lookup. *)
From S2P Require Import Prelude Deps Bytecopy Consts Framing DtlsRecord.

(** Limits declared in [dtls/client.rs]. *)
Definition MAX_CID_LEN : Z := 20.
Definition MAX_DATAGRAM : Z := 2048.

Definition EXT_COOKIE : Z := 44.
Definition EXT_CONNECTION_ID : Z := 54.
Definition MAX_INBOUND_HEADER : Z := 1 + MAX_CID_LEN + 2 + 2.
Definition RECORD_SIZE_LIMIT : Z := as_u16 (MAX_DATAGRAM - MAX_INBOUND_HEADER - TAG_LEN).
Definition CLIENT_HELLO_MSG_TYPE : Z := HS_CLIENT_HELLO.

Inductive ClientHelloError := ChBufferTooSmall | ChCidTooLong.
#[export] Instance ClientHelloError_eq_dec : EqDecision ClientHelloError.
Proof. solve_decision. Defined.

(** ** [Cursor] *)

Record Cursor := { buf : bytes; pos : Z; overflow : bool }.

Definition Cursor_new (buf : bytes) : Cursor := {| buf := buf; pos := 0; overflow := false |}.

Definition put (c : Cursor) (bs : bytes) : Cursor :=
  match slice (buf c) (pos c) (pos c + blen bs) with
  | Some _ =>
      {| buf := default (buf c) (splice (buf c) (pos c) bs);
         pos := pos c + blen bs; overflow := overflow c |}
  | None => {| buf := buf c; pos := pos c; overflow := true |}
  end.

Definition put_u8 (c : Cursor) (v : Z) : Cursor := put c [v].
Definition put_u16 (c : Cursor) (v : Z) : Cursor := put c (be_bytes 2 v).

(** Reserves two bytes and returns their offset. *)
Definition reserve_u16 (c : Cursor) : Z * Cursor := (pos c, put_u16 c 0).

Definition patch_u16 (c : Cursor) (at_ v : Z) : Cursor :=
  {| buf := default (buf c) (splice (buf c) at_ (be_bytes 2 v));
     pos := pos c; overflow := overflow c |}.

(** ** [write_client_hello] *)

Section write.
Context (ft : Features).

(** Everything before the extensions. *)
Definition write_ch_head (random : bytes) (cipher_suite : Z) (session_id : option bytes) (c : Cursor)
    : Cursor :=
  let c := put_u16 c DTLS_1_2_LEGACY_VERSION in
  let c := put c random in
  let c := match session_id with
           | Some id => let c := put_u8 c (as_u8 LEGACY_SESSION_ID_LEN) in put c id
           | None => put_u8 c 0
           end in
  let c := put_u8 c 0 in
  let c := put_u16 c 2 in
  let c := put_u16 c cipher_suite in
  let c := put_u8 c 1 in
  put_u8 c 0.

(** supported_versions, supported_groups and record_size_limit. *)
Definition write_ch_fixed_exts (c : Cursor) : Cursor :=
  let c := put_u16 c EXT_SUPPORTED_VERSIONS in
  let c := put_u16 c 3 in
  let c := put_u8 c 2 in
  let c := put_u16 c DTLS_1_3_VERSION in
  let c := put_u16 c EXT_SUPPORTED_GROUPS in
  let c := put_u16 c 4 in
  let c := put_u16 c 2 in
  let c := put_u16 c NAMED_GROUP_X25519 in
  let c := put_u16 c EXT_RECORD_SIZE_LIMIT in
  let c := put_u16 c 2 in
  put_u16 c RECORD_SIZE_LIMIT.

(** signature_algorithms, whose two lengths are backfilled. *)
Definition write_ch_sigalgs (c : Cursor) : Cursor :=
  let c := put_u16 c EXT_SIGNATURE_ALGORITHMS in
  let '(sa_ext_len_at, c) := reserve_u16 c in
  let '(sa_list_len_at, c) := reserve_u16 c in
  let sa_start := pos c in
  let c := put_u16 c SIG_SCHEME_ED25519 in
  let c := if f_ecdsa ft
           then put_u16 (put_u16 c SIG_SCHEME_ECDSA_P256) SIG_SCHEME_ECDSA_P384 else c in
  let c := if f_rsa ft then put_u16 c SIG_SCHEME_RSA_PSS_RSAE_SHA256 else c in
  let sa_list_len := as_u16 (pos c - sa_start) in
  let c := patch_u16 c sa_list_len_at sa_list_len in
  patch_u16 c sa_ext_len_at (sa_list_len + 2).

Definition write_ch_key_share (x25519_pub : bytes) (c : Cursor) : Cursor :=
  let c := put_u16 c EXT_KEY_SHARE in
  let c := put_u16 c (2 + 2 + 2 + 32) in
  let c := put_u16 c (2 + 2 + 32) in
  let c := put_u16 c NAMED_GROUP_X25519 in
  let c := put_u16 c 32 in
  put c x25519_pub.

Definition write_ch_cid (client_cid : option bytes) (c : Cursor) : outcome ClientHelloError Cursor :=
  match client_cid with
  | None => Ok c
  | Some cid =>
      if MAX_CID_LEN <? blen cid then Err ChCidTooLong else
      let c := put_u16 c EXT_CONNECTION_ID in
      let c := put_u16 c (as_u16 (1 + blen cid)) in
      let c := put_u8 c (as_u8 (blen cid)) in
      Ok (put c cid)
  end.

Definition write_ch_cookie (cookie : option bytes) (c : Cursor) : Cursor :=
  match cookie with
  | None => c
  | Some cookie =>
      let c := put_u16 c EXT_COOKIE in
      let c := put_u16 c (as_u16 (2 + blen cookie)) in
      let c := put_u16 c (as_u16 (blen cookie)) in
      put c cookie
  end.

Definition write_client_hello (random x25519_pub : bytes) (cipher_suite : Z)
    (session_id cookie client_cid : option bytes) (out : bytes)
    : outcome ClientHelloError (bytes * Z) :=
  let c := write_ch_head random cipher_suite session_id (Cursor_new out) in
  let '(ext_len_at, c) := reserve_u16 c in
  let ext_start := pos c in
  let c := write_ch_fixed_exts c in
  let c := write_ch_sigalgs c in
  let c := write_ch_key_share x25519_pub c in
  c ← write_ch_cid client_cid c;
  let c := write_ch_cookie cookie c in
  let ext_len := pos c - ext_start in
  let c := patch_u16 c ext_len_at (as_u16 ext_len) in
  if overflow c then Err ChBufferTooSmall else Ok (buf c, pos c).
End write.

(** ** [parse_server_hello] *)

Inductive ParseError := PeMalformed | PeUnexpectedGroup | PeMissingCookie | PeMissingKeyShare.
#[export] Instance ParseError_eq_dec : EqDecision ParseError.
Proof. solve_decision. Defined.

Inductive ServerHelloKind :=
| Retry (selected_suite : Z) (cookie : bytes)
| Hello (selected_suite : Z) (server_key_share : bytes) (server_cid : option bytes).

Definition read_u16 (b : bytes) (at_ : Z) : outcome ParseError Z :=
  bs ← ok_or (slice b at_ (at_ + 2)) PeMalformed;
  b0 ← or_panic (at_idx bs 0);
  b1 ← or_panic (at_idx bs 1);
  Ok (be16 b0 b1).

(** The extensions the loop collects: cookie, key share, connection id. *)
Record ShExts := { sx_cookie : option bytes; sx_key_share : option bytes; sx_cid : option bytes }.

(** The body of the [match et] in the loop. *)
Definition sh_extension (et : Z) (data : bytes) (x : ShExts) : outcome ParseError ShExts :=
  if et =? EXT_COOKIE then
    clen ← read_u16 data 0;
    ck ← ok_or (slice data 2 (2 + clen)) PeMalformed;
    Ok {| sx_cookie := Some ck; sx_key_share := sx_key_share x; sx_cid := sx_cid x |}
  else if et =? EXT_CONNECTION_ID then
    clen ← ok_or (at_idx data 0) PeMalformed;
    cid ← ok_or (slice data 1 (1 + clen)) PeMalformed;
    Ok {| sx_cookie := sx_cookie x; sx_key_share := sx_key_share x; sx_cid := Some cid |}
  else if et =? EXT_KEY_SHARE then
    group ← read_u16 data 0;
    if negb (group =? NAMED_GROUP_X25519) then Err PeUnexpectedGroup else
    klen ← read_u16 data 2;
    key ← ok_or (slice data 4 (4 + klen)) PeMalformed;
    if negb (blen key =? 32) then Err PeUnexpectedGroup else
    Ok {| sx_cookie := sx_cookie x; sx_key_share := Some key; sx_cid := sx_cid x |}
  else Ok x.

(** [while i + 4 <= ext_end]: each round advances [i] by at least four. *)
Fixpoint sh_ext_loop (fuel : nat) (body : bytes) (i ext_end : Z) (x : ShExts)
    : outcome ParseError ShExts :=
  if i + 4 <=? ext_end then
    match fuel with
    | O => Panic
    | S fuel =>
        et ← read_u16 body i;
        el ← read_u16 body (i + 2);
        data ← ok_or (slice body (i + 4) (i + 4 + el)) PeMalformed;
        x ← sh_extension et data x;
        sh_ext_loop fuel body (i + 4 + el) ext_end x
    end
  else Ok x.

Definition parse_server_hello `{Usize} (body : bytes) : outcome ParseError ServerHelloKind :=
  random ← ok_or (slice body 2 (2 + 32)) PeMalformed;
  let is_retry := bool_decide (random = HRR_RANDOM) in
  sid_len ← ok_or (at_idx body 34) PeMalformed;
  let i := 34 + (1 + sid_len) in
  selected_suite ← read_u16 body i;
  let i := i + (2 + 1) in
  ext_len ← read_u16 body i;
  let i := i + 2 in
  ext_end ← ok_or (checked_add i ext_len) PeMalformed;
  if blen body <? ext_end then Err PeMalformed else
  x ← sh_ext_loop (length body) body i ext_end
        {| sx_cookie := None; sx_key_share := None; sx_cid := None |};
  if is_retry then
    cookie ← ok_or (sx_cookie x) PeMissingCookie;
    Ok (Retry selected_suite cookie)
  else
    share ← ok_or (sx_key_share x) PeMissingKeyShare;
    Ok (Hello selected_suite share (sx_cid x)).

(** ** [parse_ee_record_size_limit] *)

Fixpoint ee_limit_loop (fuel : nat) (exts : bytes) (i : Z) : outcome ParseError (option Z) :=
  if i + 4 <=? blen exts then
    match fuel with
    | O => Panic
    | S fuel =>
        t0 ← or_panic (at_idx exts i); t1 ← or_panic (at_idx exts (i + 1));
        l0 ← or_panic (at_idx exts (i + 2)); l1 ← or_panic (at_idx exts (i + 3));
        let et := be16 t0 t1 in
        let el := be16 l0 l1 in
        data ← ok_or (slice exts (i + 4) (i + 4 + el)) PeMalformed;
        if et =? EXT_RECORD_SIZE_LIMIT then
          if negb (blen data =? 2) then Err PeMalformed else
          d0 ← or_panic (at_idx data 0); d1 ← or_panic (at_idx data 1);
          let limit := be16 d0 d1 in
          if limit <? 64 then Err PeMalformed else Ok (Some limit)
        else ee_limit_loop fuel exts (i + 4 + el)
    end
  else Ok None.

Definition parse_ee_record_size_limit (ee_body : bytes) : outcome ParseError (option Z) :=
  b0 ← ok_or (at_idx ee_body 0) PeMalformed;
  b1 ← ok_or (at_idx ee_body 1) PeMalformed;
  let ext_len := be16 b0 b1 in
  exts ← ok_or (slice ee_body 2 (2 + ext_len)) PeMalformed;
  ee_limit_loop (length exts) exts 0.

(** ** The cursor writes its wire form or overflows *)

(** [c] has been asked to write [w]: it holds exactly [w] if that fits in the
    buffer [out], and is in overflow otherwise. *)
Definition cursor_at (out w : bytes) (c : Cursor) : Prop :=
  blen (buf c) = blen out /\
  if blen w <=? blen out
  then buf c = w ++ drop (length w) out /\ pos c = blen w /\ overflow c = false
  else overflow c = true.

Lemma cursor_at_new out : cursor_at out [] (Cursor_new out).
Proof.
  unfold cursor_at. pose proof (blen_nonneg out). rewrite blen_nil.
  by rewrite (proj2 (Z.leb_le 0 (blen out))).
Qed.

Lemma put_at out w bs c : cursor_at out w c -> cursor_at out (w ++ bs) (put c bs).
Proof.
  intros [Hl Hc]. unfold cursor_at, put. rewrite blen_app. pose proof (blen_nonneg bs).
  destruct (Z.leb_spec (blen w) (blen out)) as [Hw | Hw].
  - destruct Hc as (Hb & Hp & Ho). rewrite Hb, Hp.
    destruct (Z.leb_spec (blen w + blen bs) (blen out)) as [Hf | Hf].
    + rewrite slice_next by (rewrite ?blen_drop; unfold blen in *; lia). cbn [buf pos overflow].
      rewrite splice_append by (rewrite ?blen_drop; unfold blen in *; lia).
      cbn [default from_option id]. rewrite drop_drop, length_app. split_and!; try done.
      rewrite !blen_app, blen_drop. unfold blen in *. lia.
    + destruct (slice _ _ _) as [s |] eqn:Hs.
      * exfalso. apply slice_Some_inv in Hs as (_ & _ & Hin & _).
        rewrite blen_app, blen_drop in Hin. unfold blen in *. lia.
      * cbn. rewrite <- Hb. done.
  - destruct (Z.leb_spec (blen w + blen bs) (blen out)); [lia |].
    destruct (slice _ _ _) as [s |] eqn:Hs; cbn [buf pos overflow]; [| done]. split; [| done].
    destruct (splice (buf c) (pos c) bs) eqn:Hsp; cbn; [| done].
    apply splice_Some_inv in Hsp as (_ & _ & -> & _). done.
Qed.

(** Backfilling two reserved bytes. *)
Lemma patch_at out l m r at_ v v' c :
  cursor_at out (l ++ m ++ r) c -> blen m = 2 ->
  (blen (l ++ m ++ r) <= blen out -> at_ = blen l /\ be_bytes 2 v = be_bytes 2 v') ->
  cursor_at out (l ++ be_bytes 2 v' ++ r) (patch_u16 c at_ v).
Proof.
  intros [Hl Hc] Hm Hv. unfold cursor_at, patch_u16 in *. cbn [buf pos overflow].
  assert (blen (l ++ be_bytes 2 v' ++ r) = blen (l ++ m ++ r)) as Heq
    by (rewrite !blen_app, blen_be_bytes; lia).
  assert (length (l ++ be_bytes 2 v' ++ r) = length (l ++ m ++ r)) as Heq' by (unfold blen in Heq; lia).
  rewrite Heq, Heq'. split.
  - destruct (splice (buf c) at_ (be_bytes 2 v)) eqn:Hs; cbn; [| done].
    by apply splice_Some_inv in Hs as (_ & _ & -> & _).
  - destruct (Z.leb_spec (blen (l ++ m ++ r)) (blen out)) as [Hf | Hf]; [| done].
    destruct (Hv Hf) as [-> Hbe]. destruct Hc as (Hb & Hp & Ho). split_and!; [| done..].
    rewrite Hbe, Hb, <- !app_assoc, splice_middle by (rewrite ?blen_be_bytes; lia). done.
Qed.

Lemma cursor_at_pos out w c : cursor_at out w c -> blen w <= blen out -> pos c = blen w.
Proof. intros [_ Hc] Hf. rewrite (proj2 (Z.leb_le _ _) Hf) in Hc. by destruct Hc as (_ & ? & _). Qed.

(** Put after put. *)
Ltac puts Hst :=
  repeat first [ exact Hst | apply put_at ].

(** ** The wire form of the ClientHello body *)


Section wire.
Context (ft : Features).

Definition sig_schemes : list Z :=
  [SIG_SCHEME_ED25519]
  ++ (if f_ecdsa ft then [SIG_SCHEME_ECDSA_P256; SIG_SCHEME_ECDSA_P384] else [])
  ++ (if f_rsa ft then [SIG_SCHEME_RSA_PSS_RSAE_SHA256] else []).

Definition ch_head_wire (random : bytes) (suite : Z) (sid : option bytes) : bytes :=
  be_bytes 2 DTLS_1_2_LEGACY_VERSION ++ random ++ vec8 (default [] sid) ++ vec8 []
  ++ vec16 (be_bytes 2 suite) ++ vec8 [0].

Definition ch_exts_wire (pub : bytes) (cid cookie : option bytes) : bytes :=
  ext EXT_SUPPORTED_VERSIONS (vec8 (be_bytes 2 DTLS_1_3_VERSION))
  ++ ext EXT_SUPPORTED_GROUPS (vec16 (be_bytes 2 NAMED_GROUP_X25519))
  ++ ext EXT_RECORD_SIZE_LIMIT (be_bytes 2 RECORD_SIZE_LIMIT)
  ++ ext EXT_SIGNATURE_ALGORITHMS (vec16 (flat_map (be_bytes 2) sig_schemes))
  ++ ext EXT_KEY_SHARE (vec16 (be_bytes 2 NAMED_GROUP_X25519 ++ vec16 pub))
  ++ match cid with Some cid => ext EXT_CONNECTION_ID (vec8 cid) | None => [] end
  ++ match cookie with Some cookie => ext EXT_COOKIE (vec16 cookie) | None => [] end.

Definition client_hello_wire (random pub : bytes) (suite : Z) (sid cookie cid : option bytes) : bytes :=
  ch_head_wire random suite sid ++ vec16 (ch_exts_wire pub cid cookie).

Lemma cursor_at_eq out w w' c : w = w' -> cursor_at out w c -> cursor_at out w' c.
Proof. by intros ->. Qed.

Lemma write_ch_head_at out w random suite sid c :
  (forall s, sid = Some s -> blen s = 32) ->
  cursor_at out w c ->
  cursor_at out (w ++ ch_head_wire random suite sid) (write_ch_head random suite sid c).
Proof.
  intros Hsid Hst. unfold write_ch_head, ch_head_wire, put_u16, put_u8.
  destruct sid as [s |].
  - specialize (Hsid s eq_refl). eapply cursor_at_eq; [| puts Hst].
    cbn [default from_option id]. unfold vec8 at 1. rewrite Hsid. by rewrite <- !app_assoc.
  - eapply cursor_at_eq; [| puts Hst]. by rewrite <- !app_assoc.
Qed.

Lemma write_ch_fixed_exts_at out w c :
  cursor_at out w c ->
  cursor_at out (w ++ ext EXT_SUPPORTED_VERSIONS (vec8 (be_bytes 2 DTLS_1_3_VERSION))
    ++ ext EXT_SUPPORTED_GROUPS (vec16 (be_bytes 2 NAMED_GROUP_X25519))
    ++ ext EXT_RECORD_SIZE_LIMIT (be_bytes 2 RECORD_SIZE_LIMIT)) (write_ch_fixed_exts c).
Proof.
  intros Hst. unfold write_ch_fixed_exts, put_u16, put_u8. eapply cursor_at_eq; [| puts Hst].
  by rewrite <- !app_assoc.
Qed.

Lemma write_ch_key_share_at out w pub c :
  blen pub = 32 -> cursor_at out w c ->
  cursor_at out (w ++ ext EXT_KEY_SHARE (vec16 (be_bytes 2 NAMED_GROUP_X25519 ++ vec16 pub)))
    (write_ch_key_share pub c).
Proof.
  intros Hp Hst. unfold write_ch_key_share, put_u16. eapply cursor_at_eq; [| puts Hst].
  unfold ext, vec16. rewrite !blen_app, !blen_be_bytes, Hp. by rewrite <- !app_assoc.
Qed.

Lemma write_ch_cookie_at out w cookie c :
  (forall ck, cookie = Some ck -> blen ck < U16 - 2) -> cursor_at out w c ->
  cursor_at out (w ++ match cookie with Some ck => ext EXT_COOKIE (vec16 ck) | None => [] end)
    (write_ch_cookie cookie c).
Proof.
  intros Hck Hst. destruct cookie as [ck |]; cbn [write_ch_cookie]; [| by rewrite app_nil_r].
  specialize (Hck ck eq_refl). pose proof (blen_nonneg ck).
  unfold put_u16, as_u16. rewrite !Z.mod_small by lia. eapply cursor_at_eq; [| puts Hst].
  unfold ext, vec16. rewrite !blen_app, !blen_be_bytes. by rewrite <- !app_assoc.
Qed.

Lemma write_ch_cid_at out w cid c :
  cursor_at out w c ->
  match write_ch_cid cid c with
  | Ok c' => cursor_at out (w ++ match cid with Some x => ext EXT_CONNECTION_ID (vec8 x) | None => [] end) c'
             /\ (forall x, cid = Some x -> blen x <= MAX_CID_LEN)
  | Err e => e = ChCidTooLong /\ exists x, cid = Some x /\ MAX_CID_LEN < blen x
  | Panic => False
  end.
Proof.
  intros Hst. destruct cid as [x |]; cbn [write_ch_cid]; [| by rewrite app_nil_r].
  destruct (Z.ltb_spec MAX_CID_LEN (blen x)) as [Hl | Hl]; [naive_solver |].
  pose proof (blen_nonneg x). unfold MAX_CID_LEN in *. split; [| naive_solver].
  unfold put_u16, put_u8, as_u16, as_u8, U16, U8. rewrite !Z.mod_small by lia.
  eapply cursor_at_eq; [| puts Hst]. unfold ext, vec16, vec8.
  rewrite !blen_app, !blen_be_bytes. rewrite <- !app_assoc. do 3 f_equal.
  cbn [be_bytes]. change (256 ^ Z.of_nat 0) with 1. rewrite Z.div_1_r, Z.mod_small by lia. done.
Qed.

Lemma write_ch_sigalgs_at out w c :
  cursor_at out w c ->
  cursor_at out (w ++ ext EXT_SIGNATURE_ALGORITHMS (vec16 (flat_map (be_bytes 2) sig_schemes)))
    (write_ch_sigalgs ft c).
Proof.
  intros Hst. unfold write_ch_sigalgs, reserve_u16. cbn zeta beta iota.
  set (c1 := put_u16 c EXT_SIGNATURE_ALGORITHMS). set (c2 := put_u16 c1 0). set (c3 := put_u16 c2 0).
  set (S := flat_map (be_bytes 2) sig_schemes).
  set (c4 := if f_rsa ft then _ else _). set (z := be_bytes 2 0).
  assert (cursor_at out (w ++ be_bytes 2 EXT_SIGNATURE_ALGORITHMS) c1) as H1 by (by apply put_at).
  assert (cursor_at out ((w ++ be_bytes 2 EXT_SIGNATURE_ALGORITHMS) ++ z) c2) as H2 by (by apply put_at).
  assert (cursor_at out (((w ++ be_bytes 2 EXT_SIGNATURE_ALGORITHMS) ++ z) ++ z) c3) as H3 by (by apply put_at).
  assert (cursor_at out ((((w ++ be_bytes 2 EXT_SIGNATURE_ALGORITHMS) ++ z) ++ z) ++ S) c4) as H4.
  { clearbody c3 z. unfold c4, S, sig_schemes. destruct (f_ecdsa ft), (f_rsa ft);
      (eapply cursor_at_eq; [| puts H3]); cbn [app flat_map]; by rewrite <- !app_assoc, ?app_nil_r. }
  set (l := w ++ be_bytes 2 EXT_SIGNATURE_ALGORITHMS) in *.
  assert (0 <= blen S < 100) as HS by (unfold S, sig_schemes; destruct (f_ecdsa ft), (f_rsa ft); vm_compute; split; congruence).
  assert (blen z = 2) as Hz by done.
  assert (Hpos : blen (((l ++ z) ++ z) ++ S) <= blen out ->
    pos c1 = blen l /\ pos c2 = blen (l ++ z) /\ pos c4 - pos c3 = blen S).
  { intros Hf. rewrite !blen_app, Hz in Hf.
    rewrite (cursor_at_pos _ _ _ H1), (cursor_at_pos _ _ _ H2), (cursor_at_pos _ _ _ H3),
      (cursor_at_pos _ _ _ H4) by (rewrite ?blen_app, ?Hz; lia).
    rewrite !blen_app. split_and!; [done | done | lia]. }
  assert (cursor_at out ((l ++ z) ++ be_bytes 2 (blen S) ++ S)
    (patch_u16 c4 (pos c2) (as_u16 (pos c4 - pos c3)))) as H5.
  { apply (patch_at _ _ z).
    - by rewrite (app_assoc (l ++ z)).
    - done.
    - intros Hf. rewrite app_assoc in Hf. destruct (Hpos Hf) as (_ & -> & ->).
      split; [done |]. unfold as_u16. rewrite Z.mod_small by (unfold U16; lia). done. }
  eapply (cursor_at_eq _ (l ++ be_bytes 2 (blen S + 2) ++ be_bytes 2 (blen S) ++ S)).
  { unfold l, ext, vec16. rewrite (blen_app (be_bytes 2 (blen S))), blen_be_bytes, <- !app_assoc.
    by replace (Z.of_nat 2 + blen S) with (blen S + 2) by lia. }
  apply (patch_at _ _ z); [by rewrite <- app_assoc in H5 | done |].
  intros Hf. rewrite !blen_app, blen_be_bytes in Hf.
  destruct Hpos as (-> & _ & ->); [rewrite !blen_app, Hz in *; lia |].
  split; [done |]. unfold as_u16. rewrite Z.mod_small by (unfold U16; lia). done.
Qed.
End wire.

Definition cid_too_long (cid : option bytes) : bool :=
  match cid with Some c => MAX_CID_LEN <? blen c | None => false end.

Lemma blen_ch_exts_wire ft pub cid cookie :
  blen pub = 32 -> cid_too_long cid = false ->
  (forall ck, cookie = Some ck -> blen ck < U16 - 256) ->
  0 <= blen (ch_exts_wire ft pub cid cookie) < U16.
Proof.
  intros Hp Hc Hk. split; [apply blen_nonneg |]. unfold ch_exts_wire, ext, vec16, vec8.
  rewrite !blen_app, !blen_be_bytes, Hp.
  assert (blen (flat_map (be_bytes 2) (sig_schemes ft)) <= 8) as HS
    by (unfold sig_schemes; destruct (f_ecdsa ft), (f_rsa ft); vm_compute; congruence).
  assert (match cid with Some c => blen c <= 20 | None => True end) as Hc'.
  { destruct cid; [| done]. cbn in Hc. bool_to_prop. done. }
  assert (match cookie with Some c => blen c < U16 - 256 | None => True end) as Hk'
    by (destruct cookie; auto). clear Hk Hc.
  change (blen (@nil Z)) with 0 in *; destruct cid, cookie; rewrite ?blen_app, ?blen_be_bytes; change (blen (@nil Z)) with 0;
    unfold U16 in *; lia.
Qed.

Lemma write_client_hello_eq (ft : Features) (random pub : bytes) (suite : Z)
    (sid cookie cid : option bytes) (out : bytes) :
  blen pub = 32 -> (forall s, sid = Some s -> blen s = 32) ->
  (forall ck, cookie = Some ck -> blen ck < U16 - 256) ->
  write_client_hello ft random pub suite sid cookie cid out =
  if cid_too_long cid then Err ChCidTooLong else
  let w := client_hello_wire ft random pub suite sid cookie cid in
  if blen w <=? blen out then Ok (w ++ drop (length w) out, blen w) else Err ChBufferTooSmall.
Proof.
  intros Hp Hs Hk. unfold write_client_hello, reserve_u16. cbn zeta beta iota.
  set (c0 := write_ch_head random suite sid (Cursor_new out)).
  set (hw := ch_head_wire random suite sid).
  assert (cursor_at out hw c0) as H0 by (apply (write_ch_head_at out []); [done | apply cursor_at_new]).
  set (c1 := put_u16 c0 0). set (z := be_bytes 2 0).
  assert (cursor_at out (hw ++ z) c1) as H1 by (by apply put_at).
  pose proof (write_ch_key_share_at _ _ pub _ Hp
    (write_ch_sigalgs_at ft _ _ _ (write_ch_fixed_exts_at _ _ _ H1))) as H2.
  set (c2 := write_ch_key_share pub _) in *.
  pose proof (write_ch_cid_at _ _ cid _ H2) as H3.
  destruct (write_ch_cid cid c2) as [c3 | e |] eqn:Hcid; [| | done].
  2:{ destruct H3 as (-> & x & -> & Hx). cbn [cid_too_long]. by rewrite (proj2 (Z.ltb_lt _ _) Hx). }
  destruct H3 as [H3 Hle]. run.
  assert (cid_too_long cid = false) as Hc.
  { destruct cid as [x |]; [| done]. cbn [cid_too_long]. apply Z.ltb_ge. by apply Hle. }
  rewrite Hc. pose proof (blen_ch_exts_wire ft pub cid cookie Hp Hc Hk) as Hel.
  assert (forall ck, cookie = Some ck -> blen ck < U16 - 2) as Hk2
    by (intros ck E; specialize (Hk ck E); lia).
  pose proof (write_ch_cookie_at _ _ cookie _ Hk2 H3) as H4.
  set (c4 := write_ch_cookie cookie c3) in *.
  set (ew := ch_exts_wire ft pub cid cookie) in *.
  assert (cursor_at out (hw ++ z ++ ew) c4) as H5
    by (eapply cursor_at_eq; [| exact H4]; unfold ew, ch_exts_wire; by rewrite <- !app_assoc).
  assert (cursor_at out (hw ++ be_bytes 2 (blen ew) ++ ew)
    (patch_u16 c4 (pos c0) (as_u16 (pos c4 - pos c1)))) as [_ H6].
  { apply (patch_at _ _ z); [done | done |]. intros Hf.
    rewrite (cursor_at_pos _ _ _ H0), (cursor_at_pos _ _ _ H1), (cursor_at_pos _ _ _ H5)
      by (rewrite !blen_app in *; pose proof (blen_nonneg z); lia).
    split; [done |]. rewrite !blen_app.
    replace (blen hw + (blen z + blen ew) - (blen hw + blen z)) with (blen ew) by lia.
    unfold as_u16. by rewrite Z.mod_small. }
  assert (client_hello_wire ft random pub suite sid cookie cid = hw ++ be_bytes 2 (blen ew) ++ ew) as -> by done.
  cbn zeta. destruct (_ <=? blen out).
  - destruct H6 as (-> & -> & ->). done.
  - by rewrite H6.
Qed.

(** C37. The ClientHello writer emits exactly its wire form, for every feature set,
    session id, cookie and connection id: the two-byte lengths it backfills are the
    lengths of what follows them.  It fails only on a connection id over 20 bytes,
    or when the wire form does not fit, and never truncates. *)
Theorem write_client_hello_wire (ft : Features) (random pub : bytes) (suite : Z)
    (sid cookie cid : option bytes) (out : bytes) :
  blen pub = 32 -> (forall s, sid = Some s -> blen s = 32) ->
  (forall ck, cookie = Some ck -> blen ck < U16 - 256) ->
  write_client_hello ft random pub suite sid cookie cid out =
  if cid_too_long cid then Err ChCidTooLong else
  let w := client_hello_wire ft random pub suite sid cookie cid in
  if blen w <=? blen out then Ok (w ++ drop (length w) out, blen w) else Err ChBufferTooSmall.
Proof. apply write_client_hello_eq. Qed.

Lemma write_client_hello_wire_witness :
  write_client_hello demo_features (zeros 32) (zeros 32) 0x1301 None (Some [1; 2]) (Some [7]) (zeros 300)
  = (let w := client_hello_wire demo_features (zeros 32) (zeros 32) 0x1301 None (Some [1; 2]) (Some [7]) in
     if blen w <=? 300 then Ok (w ++ drop (length w) (zeros 300), blen w) else Err ChBufferTooSmall).
Proof.
  refine (write_client_hello_wire demo_features (zeros 32) (zeros 32) 0x1301 None (Some [1; 2]) (Some [7])
    (zeros 300) _ _ _); [reflexivity | done | intros ck [= <-]; reflexivity].
Defined.

(** ** Parsing: totality *)

Lemma read_u16_no_panic b at_ : no_panic (read_u16 b at_).
Proof.
  unfold read_u16. apply no_panic_bind; [auto with panics |]. intros bs Hb. invert_ok.
  apply slice_Some_inv in Hb as (_ & _ & _ & Hl & _).
  destruct (at_idx_in_range bs 0 ltac:(lia)) as [b0 ->].
  destruct (at_idx_in_range bs 1 ltac:(lia)) as [b1 ->]. done.
Qed.

Lemma read_u16_bound b at_ v : bytes_ok b -> read_u16 b at_ = Ok v -> is_u16 v.
Proof.
  unfold read_u16. intros Hb Hv. invert_ok.
  apply be16_bound; eauto using bytes_ok_at_idx, bytes_ok_slice.
Qed.

Lemma sh_extension_no_panic et data x : no_panic (sh_extension et data x).
Proof.
  unfold sh_extension.
  repeat first [ split_guard | apply no_panic_bind; [first [apply read_u16_no_panic | auto with panics] | intros] ];
    auto with panics.
Qed.

Lemma sh_ext_loop_no_panic fuel body i ext_end x :
  bytes_ok body -> ext_end - i < 4 * Z.of_nat fuel + 4 ->
  no_panic (sh_ext_loop fuel body i ext_end x).
Proof.
  intros Hb. revert i x. induction fuel as [| fuel IH]; intros i x Hf; cbn [sh_ext_loop].
  { destruct (Z.leb_spec (i + 4) ext_end); [lia | done]. }
  destruct (Z.leb_spec (i + 4) ext_end); [| done].
  apply no_panic_bind; [apply read_u16_no_panic |]. intros et _.
  apply no_panic_bind; [apply read_u16_no_panic |]. intros el Hel.
  apply (read_u16_bound _ _ _ Hb) in Hel as [? _].
  apply no_panic_bind; [auto with panics |]. intros data _.
  apply no_panic_bind; [apply sh_extension_no_panic |]. intros x' _. apply IH. lia.
Qed.

Lemma ee_limit_loop_no_panic fuel exts i :
  bytes_ok exts -> 0 <= i -> blen exts - i < 4 * Z.of_nat fuel + 4 ->
  no_panic (ee_limit_loop fuel exts i).
Proof.
  intros Hb. revert i. induction fuel as [| fuel IH]; intros i Hi Hf; cbn [ee_limit_loop].
  { destruct (Z.leb_spec (i + 4) (blen exts)); [lia | done]. }
  destruct (Z.leb_spec (i + 4) (blen exts)); [| done].
  destruct (at_idx_in_range exts i ltac:(lia)) as [t0 ->].
  destruct (at_idx_in_range exts (i + 1) ltac:(lia)) as [t1 ->].
  destruct (at_idx_in_range exts (i + 2) ltac:(lia)) as [l0 E2].
  destruct (at_idx_in_range exts (i + 3) ltac:(lia)) as [l1 E3].
  assert (is_u16 (be16 l0 l1)) as [? _] by eauto using be16_bound, bytes_ok_at_idx.
  rewrite E2, E3. run. apply no_panic_bind; [auto with panics |]. intros data _.
  split_guard; [| apply IH; lia]. destruct (Z.eqb_spec (blen data) 2); [| done]. cbn [negb].
  destruct (at_idx_in_range data 0 ltac:(lia)) as [d0 ->].
  destruct (at_idx_in_range data 1 ltac:(lia)) as [d1 ->]. run. by split_guard.
Qed.

Definition share_ok (x : ShExts) : Prop := forall k, sx_key_share x = Some k -> blen k = 32.

Lemma sh_extension_share et data x x' : share_ok x -> sh_extension et data x = Ok x' -> share_ok x'.
Proof.
  intros Hx. unfold sh_extension. intros He. repeat split_guard; try done; invert_ok; try done.
  all: repeat split_guard; try done; invert_ok; repeat split_guard; try done; invert_ok;
    intros k; cbn; try (by apply Hx); intros [= <-]; bool_to_prop; done.
Qed.

Lemma sh_ext_loop_share fuel body i ext_end x x' :
  share_ok x -> sh_ext_loop fuel body i ext_end x = Ok x' -> share_ok x'.
Proof.
  revert i x. induction fuel as [| fuel IH]; intros i x Hx Hl; cbn [sh_ext_loop] in Hl;
    destruct (_ <=? _); [done | by invert_ok | | by invert_ok].
  apply bind_Ok_inv in Hl as (et & _ & Hl). apply bind_Ok_inv in Hl as (el & _ & Hl).
  apply bind_Ok_inv in Hl as (data & _ & Hl). apply bind_Ok_inv in Hl as (x1 & Hx1 & Hl).
  eapply IH; [| exact Hl]. by eapply sh_extension_share.
Qed.

Lemma ee_limit_loop_bound fuel exts i limit :
  bytes_ok exts -> ee_limit_loop fuel exts i = Ok (Some limit) -> 64 <= limit < U16.
Proof.
  intros Hb. revert i. induction fuel as [| fuel IH]; intros i Hl; cbn [ee_limit_loop] in Hl;
    destruct (_ <=? _); try done.
  do 4 (apply bind_Ok_inv in Hl as (? & _ & Hl)). apply bind_Ok_inv in Hl as (data & Hd & Hl).
  invert_ok. split_guard; [| by eapply IH]. split_guard; [done |]. invert_ok.
  split_guard; [done |]. invert_ok. simplify_eq. bool_to_prop.
  match goal with |- 64 <= be16 ?a ?b < _ => assert (is_u16 (be16 a b)) as [? ?] end.
  { apply be16_bound; eauto using bytes_ok_at_idx, bytes_ok_slice. }
  done.
Qed.

Lemma parse_server_hello_no_panic `{Usize} body : bytes_ok body -> no_panic (parse_server_hello body).
Proof.
  intros Hb. unfold parse_server_hello.
  apply no_panic_bind; [auto with panics |]. intros random _.
  apply no_panic_bind; [auto with panics |]. intros sid Hsid.
  apply no_panic_bind; [apply read_u16_no_panic |]. intros suite _.
  apply no_panic_bind; [apply read_u16_no_panic |]. intros el _.
  apply no_panic_bind; [auto with panics |]. intros e He. invert_ok.
  destruct (Z.ltb_spec (blen body) e); [done |].
  apply (bytes_ok_at_idx _ _ _ Hb) in Hsid as [? _].
  apply no_panic_bind; [apply sh_ext_loop_no_panic; [done | unfold blen in *; lia] |]. intros x _.
  split_guard; (apply no_panic_bind; [auto with panics |]; intros; auto with panics).
Qed.

Lemma parse_ee_record_size_limit_no_panic body : bytes_ok body -> no_panic (parse_ee_record_size_limit body).
Proof.
  intros Hb. unfold parse_ee_record_size_limit.
  do 3 (apply no_panic_bind; [auto with panics |]; intros ? ?). invert_ok.
  apply ee_limit_loop_no_panic; [by eapply bytes_ok_slice | lia | unfold blen; lia].
Qed.

Lemma parse_server_hello_Hello_inv `{Usize} body suite share cid :
  bytes_ok body -> parse_server_hello body = Ok (Hello suite share cid) -> blen share = 32 /\ is_u16 suite.
Proof.
  intros Hb Hp. unfold parse_server_hello in Hp.
  apply bind_Ok_inv in Hp as (random & _ & Hp). apply bind_Ok_inv in Hp as (sid & _ & Hp).
  apply bind_Ok_inv in Hp as (s & Hsu & Hp). apply bind_Ok_inv in Hp as (el & _ & Hp).
  apply bind_Ok_inv in Hp as (e & _ & Hp). split_guard; [done |].
  apply bind_Ok_inv in Hp as (x & Hx & Hp).
  assert (share_ok x) as Hsh by (eapply sh_ext_loop_share; [| exact Hx]; by intros k).
  split_guard; invert_ok; simplify_eq. split; [by apply Hsh | by eapply read_u16_bound].
Qed.

(** The two server-message parsers are total: no input panics them, their
    loops end within the fuel given (one round per four bytes at most), a parsed
    key share has 32 bytes, and a parsed record size limit is at least 64. *)
Theorem dtls_parsers_total `{Usize} (body : bytes) :
  bytes_ok body ->
  no_panic (parse_server_hello body) /\ no_panic (parse_ee_record_size_limit body) /\
  (forall suite share cid, parse_server_hello body = Ok (Hello suite share cid) ->
     blen share = 32 /\ is_u16 suite) /\
  (forall limit, parse_ee_record_size_limit body = Ok (Some limit) -> 64 <= limit < U16).
Proof.
  intros Hb. split_and!.
  - by apply parse_server_hello_no_panic.
  - by apply parse_ee_record_size_limit_no_panic.
  - intros suite share cid. by apply parse_server_hello_Hello_inv.
  - intros limit Hp. unfold parse_ee_record_size_limit in Hp. invert_ok.
    eapply ee_limit_loop_bound; [| done]. by eapply bytes_ok_slice.
Qed.

Lemma dtls_parsers_total_witness :
  no_panic (@parse_server_hello usize32 [254; 253; 1; 2; 3]) /\
  @parse_server_hello usize32 [254; 253; 1; 2; 3] = Err PeMalformed.
Proof.
  split; [apply (@dtls_parsers_total usize32); repeat constructor; done | vm_compute; reflexivity].
Defined.


(** ** Parsing a well-formed ServerHello *)

Lemma read_u16_wire pre v rest i :
  is_u16 v -> i = blen pre -> read_u16 (pre ++ be_bytes 2 v ++ rest) i = Ok v.
Proof.
  intros Hv ->. unfold read_u16. rewrite slice_middle by done. run.
  change (at_idx (be_bytes 2 v) 0) with (Some ((v / 256 ^ 1) mod 256)).
  change (at_idx (be_bytes 2 v) 1) with (Some ((v / 256 ^ 0) mod 256)). run.
  change (256 ^ 1) with 256. change (256 ^ 0) with 1. rewrite Z.div_1_r, be16_be_bytes_mod.
  by rewrite Z.mod_small.
Qed.

(** The extensions in order; a later one of the same type wins. *)
Fixpoint sh_fold (exts : list (Z * bytes)) (x : ShExts) : outcome ParseError ShExts :=
  match exts with
  | [] => Ok x
  | (et, data) :: exts => x ← sh_extension et data x; sh_fold exts x
  end.



Lemma sh_ext_loop_wire fuel pre exts tail x :
  exts_ok exts -> (length exts <= fuel)%nat ->
  sh_ext_loop fuel (pre ++ exts_wire exts ++ tail) (blen pre) (blen pre + blen (exts_wire exts)) x
  = sh_fold exts x.
Proof.
  intros Hok. revert fuel pre x. induction Hok as [| [et data] exts [Het Hd] Hok IH]; intros fuel pre x Hf.
  { unfold exts_wire. cbn [flat_map sh_fold].
    change (blen (@nil Z)) with 0. destruct fuel; cbn [sh_ext_loop];
    (destruct (Z.leb_spec (blen pre + 4) (blen pre + 0)); [lia | done]). }
  destruct fuel as [| fuel]; [cbn in Hf; lia |]. cbn [fst snd] in *.
  unfold exts_wire. cbn [flat_map sh_fold sh_ext_loop fst snd]. fold (exts_wire exts).
  rewrite (blen_app (ext et data)), blen_ext. pose proof (blen_nonneg data). pose proof (blen_nonneg (exts_wire exts)).
  destruct (Z.leb_spec (blen pre + 4) (blen pre + (4 + blen data + blen (exts_wire exts)))); [| lia].
  assert (pre ++ (ext et data ++ exts_wire exts) ++ tail
          = pre ++ be_bytes 2 et ++ be_bytes 2 (blen data) ++ data ++ exts_wire exts ++ tail) as Hbody
    by (unfold ext, vec16; by rewrite <- !app_assoc).
  assert (read_u16 (pre ++ (ext et data ++ exts_wire exts) ++ tail) (blen pre) = Ok et) as ->
    by (rewrite Hbody; by apply read_u16_wire). run.
  assert (read_u16 (pre ++ (ext et data ++ exts_wire exts) ++ tail) (blen pre + 2) = Ok (blen data)) as ->.
  { rewrite Hbody, (app_assoc pre). apply read_u16_wire; [done |]. by rewrite blen_app, blen_be_bytes. } run.
  assert (slice (pre ++ (ext et data ++ exts_wire exts) ++ tail) (blen pre + 4) (blen pre + 4 + blen data)
          = Some data) as ->.
  { rewrite Hbody, (app_assoc pre), (app_assoc (pre ++ _)).
    apply slice_middle; rewrite !blen_app, !blen_be_bytes; lia. } run.
  destruct (sh_extension et data x) as [x' | |]; [| done..]. run.
  rewrite <- (IH fuel (pre ++ ext et data) x') by (cbn in Hf; lia).
  rewrite !blen_app, blen_ext, <- !app_assoc. f_equal; lia.
Qed.

Definition server_hello_wire (ver : Z) (random sid : bytes) (suite comp : Z) (exts : list (Z * bytes)) : bytes :=
  be_bytes 2 ver ++ random ++ vec8 sid ++ be_bytes 2 suite ++ [comp] ++ vec16 (exts_wire exts).

(** A well-formed ServerHello is read exactly: the suite on the wire, the
    extensions in order, a HelloRetryRequest precisely when the random is the fixed
    one; a retry needs a cookie and a hello a key share; unknown extensions and
    bytes after the extensions are ignored. *)
Theorem parse_server_hello_wire `{Usize} (ver : Z) (random sid : bytes) (suite comp : Z)
    (exts : list (Z * bytes)) (tail : bytes) :
  blen random = 32 -> is_u8 (blen sid) -> is_u16 suite -> exts_ok exts -> is_u16 (blen (exts_wire exts)) ->
  parse_server_hello (server_hello_wire ver random sid suite comp exts ++ tail) =
  (x ← sh_fold exts {| sx_cookie := None; sx_key_share := None; sx_cid := None |};
   if bool_decide (random = HRR_RANDOM)
   then cookie ← ok_or (sx_cookie x) PeMissingCookie; Ok (Retry suite cookie)
   else share ← ok_or (sx_key_share x) PeMissingKeyShare; Ok (Hello suite share (sx_cid x))).
Proof.
  intros Hr Hs Hsu Hok Hel. unfold parse_server_hello, server_hello_wire. 
  pose proof (blen_nonneg tail). pose proof (blen_nonneg sid). pose proof (blen_nonneg (exts_wire exts)).
  set (ew := exts_wire exts) in *. set (v := be_bytes 2 ver). assert (blen v = 2) as Hv by done.
  set (l1 := be_bytes 1 (blen sid)). assert (blen l1 = 1) as Hl1 by done.
  set (sb := be_bytes 2 suite). assert (blen sb = 2) as Hsb by done.
  set (lb := be_bytes 2 (blen ew)). assert (blen lb = 2) as Hlb by done.
  set (body := (v ++ random ++ vec8 sid ++ sb ++ [comp] ++ vec16 ew) ++ tail).
  assert (body = v ++ random ++ l1 ++ sid ++ sb ++ [comp] ++ lb ++ ew ++ tail) as Hbody
    by (unfold body, vec8, vec16; fold l1 lb; by rewrite <- !app_assoc).
  assert (slice body 2 (2 + 32) = Some random) as -> by (rewrite Hbody; apply slice_middle; lia). run.
  assert (at_idx body 34 = Some (blen sid)) as ->.
  { assert (l1 = [blen sid]) as E.
    { unfold l1. cbn [be_bytes]. change (256 ^ Z.of_nat 0) with 1. unfold is_u8, U8 in Hs.
      by rewrite Z.div_1_r, Z.mod_small by done. }
    rewrite Hbody, E, (app_assoc v). apply at_idx_middle. rewrite blen_app. lia. } run.
  assert (read_u16 body (34 + (1 + blen sid)) = Ok suite) as ->.
  { rewrite Hbody, (app_assoc v), (app_assoc (v ++ random)), (app_assoc ((v ++ random) ++ l1)).
    apply read_u16_wire; [done |]. rewrite !blen_app. lia. } run.
  set (p := v ++ random ++ l1 ++ sid ++ sb ++ [comp]).
  assert (blen p = 38 + blen sid) as Hp by (unfold p; rewrite !blen_app; change (blen [comp]) with 1; lia).
  assert (body = p ++ lb ++ ew ++ tail) as Hbody2 by (rewrite Hbody; unfold p; by rewrite <- !app_assoc).
  assert (read_u16 body (34 + (1 + blen sid) + (2 + 1)) = Ok (blen ew)) as ->.
  { rewrite Hbody2. apply read_u16_wire; [done | lia]. } run.
  unfold is_u16, is_u8, U16, U8 in *. rewrite checked_add_small by (unfold U32; lia). run.
  assert (blen body = blen p + 2 + blen ew + blen tail) as Hbl by (rewrite Hbody2, !blen_app; lia).
  destruct (Z.ltb_spec (blen body) (34 + (1 + blen sid) + (2 + 1) + 2 + blen ew)); [lia |].
  rewrite Hbody2 at 2. rewrite (app_assoc p lb).
  replace (34 + (1 + blen sid) + (2 + 1) + 2) with (blen (p ++ lb)) by (rewrite blen_app; lia).
  unfold ew. rewrite sh_ext_loop_wire; [done | done |].
  assert (4 * Z.of_nat (length exts) <= blen (exts_wire exts)) as Hlen.
  { clear. induction exts as [| [et data] exts IH]; [done |].
    unfold exts_wire. cbn [flat_map length fst snd]. rewrite blen_app, blen_ext. fold (exts_wire exts).
    pose proof (blen_nonneg data). lia. }
  fold ew in Hlen. unfold blen in *. lia.
Qed.

Lemma parse_server_hello_wire_witness :
  @parse_server_hello usize32 (server_hello_wire 0xFEFD (zeros 32) [1] 0x1301 0
    [(EXT_KEY_SHARE, be_bytes 2 0x1D ++ be_bytes 2 32 ++ zeros 32); (EXT_CONNECTION_ID, [1; 9])] ++ [7])
  = Ok (Hello 0x1301 (zeros 32) (Some [9])).
Proof.
  rewrite (@parse_server_hello_wire usize32); [vm_compute; reflexivity | done | done | done | | done].
  repeat constructor; done.
Defined.
