(* ===== verification/TlsHello.v ===== *)
(** * [lib.rs], [errors.rs]: the TLS ClientHello writer and the ServerHello parser

    The features of a build are an argument ([Features]); a field or error that exists
    only under a feature is [None] or unused without it. *)
From S2P Require Import Prelude Deps Consts.

(** [backends/ecdhe.rs] *)
Definition P256_SHARE_BYTES : Z := 65.

(** The sizes of ML-KEM-768 keys and ciphertexts, from the [krabipqc] crate. *)
Class MlKemSizes := {
  MLKEM768_EK_BYTES : Z;
  MLKEM768_CT_BYTES : Z;
  mlkem_ek_bound : 0 <= MLKEM768_EK_BYTES < 8192;
  mlkem_ct_nonneg : 0 <= MLKEM768_CT_BYTES
}.
Definition ml_kem_model : MlKemSizes.
Proof. by refine {| MLKEM768_EK_BYTES := 1184; MLKEM768_CT_BYTES := 1088 |}. Defined.

(** ** [embedded_io::Write]

    [written w] is what the writer has been handed so far; a successful [write_all]
    appends to it. *)
Class Write := {
  W : Type;
  WError : Type;
  write_all : W -> bytes -> W * outcome WError unit;
  written : W -> bytes;
  write_all_total w bs : no_panic (write_all w bs).2;
  write_all_spec w bs w' : write_all w bs = (w', Ok tt) -> written w' = written w ++ bs
}.

(** ** Sizes *)

Section sizes.
Context `{MlKemSizes} (ft : Features).

Definition count (b : bool) : Z := if b then 1 else 0.

Definition EXT_SUPPORTED_VERSIONS_TOTAL : Z := 4 + 3.
Definition SUPPORTED_GROUPS_COUNT : Z := count (f_x25519_kx ft) + count (f_p256_kx ft).
Definition EXT_SUPPORTED_GROUPS_TOTAL : Z := 4 + 2 + 2 * SUPPORTED_GROUPS_COUNT.
Definition SIG_SCHEME_COUNT : Z :=
  1 + count (f_rsa ft) + 3 * count (f_mldsa ft) + 2 * count (f_ecdsa ft).
Definition EXT_SIGNATURE_ALGORITHMS_TOTAL : Z := 4 + 2 + 2 * SIG_SCHEME_COUNT.
Definition KEY_SHARE_GROUP : Z :=
  if f_mlkem ft then NAMED_GROUP_X25519MLKEM768
  else if f_x25519_kx ft then NAMED_GROUP_X25519 else NAMED_GROUP_SECP256R1.
Definition KEY_SHARE_KEY_LEN : Z :=
  if f_mlkem ft then MLKEM768_EK_BYTES + 32 else if f_x25519_kx ft then 32 else P256_SHARE_BYTES.
Definition PRIMARY_PUB_LEN : Z := if f_mlkem ft then 32 else KEY_SHARE_KEY_LEN.
Definition PRIMARY_KEY_SHARE_ENTRY : Z := 4 + KEY_SHARE_KEY_LEN.
Definition second_group : bool := f_p256_kx ft && f_x25519_kx ft.
Definition P256_KX_ENTRY_LEN : Z := if second_group then 4 + 65 else 0.
Definition KEY_SHARE_LIST_LEN : Z := PRIMARY_KEY_SHARE_ENTRY + P256_KX_ENTRY_LEN.
Definition KEY_SHARE_EXT_DATA_LEN : Z := 2 + KEY_SHARE_LIST_LEN.
Definition EXT_KEY_SHARE_TOTAL : Z := 4 + KEY_SHARE_EXT_DATA_LEN.
Definition CH_CIPHER_SUITES_COUNT : Z := count (f_cipher_aes ft) + count (f_chacha20 ft).
Definition EXT_RECORD_SIZE_LIMIT_TOTAL : Z := 4 + 2.
Definition TLS_PLAINTEXT_MAX : Z := Z.shiftl 1 14.

Inductive SuiteList := SlDefault | SlAesOnly | SlChaChaOnly.

Record ClientHelloOptions := {
  co_hostname : option bytes;
  co_record_size_limit : option Z;
  co_session_id : option bytes;
  co_alpn : option (list bytes);
  co_suites : SuiteList;
  co_mlkem_ek : option bytes;
  co_p256_pub : option bytes
}.

Definition CH_EXTENSIONS_FIXED_TOTAL : Z :=
  EXT_SUPPORTED_VERSIONS_TOTAL + EXT_SUPPORTED_GROUPS_TOTAL + EXT_SIGNATURE_ALGORITHMS_TOTAL + EXT_KEY_SHARE_TOTAL.

Definition sni_ext_total (hostname_len : Z) : Z := 9 + hostname_len.

Definition ch_n_suites (suites : SuiteList) : Z :=
  match suites with SlDefault => CH_CIPHER_SUITES_COUNT | SlAesOnly => 1 | SlChaChaOnly => 1 end.

Definition ch_cipher_suites_field_len (suites : SuiteList) : Z := 2 + 2 * ch_n_suites suites.

Fixpoint alpn_names_len (names : list bytes) : Z :=
  match names with [] => 0 | n :: names => 1 + blen n + alpn_names_len names end.
Definition alpn_ext_total (protocols : option (list bytes)) : Z :=
  match protocols with None => 0 | Some names => 4 + 2 + alpn_names_len names end.

Definition ch_extensions_total (sni_host_len : option Z) (has_record_size_limit : bool) (alpn_total : Z) : Z :=
  let sni := match sni_host_len with None => 0 | Some n => sni_ext_total n end in
  let rsl := if has_record_size_limit then EXT_RECORD_SIZE_LIMIT_TOTAL else 0 in
  CH_EXTENSIONS_FIXED_TOTAL + sni + rsl + alpn_total.

Definition ch_body_len (suites : SuiteList) (sni_host_len : option Z)
    (has_record_size_limit has_session_id : bool) (alpn_total : Z) : Z :=
  let session_id := if has_session_id then LEGACY_SESSION_ID_LEN else 0 in
  2 + 32 + (1 + session_id) + ch_cipher_suites_field_len suites + (1 + 1) + 2
  + ch_extensions_total sni_host_len has_record_size_limit alpn_total.

Definition ch_total_len (suites : SuiteList) (sni_host_len : option Z)
    (has_record_size_limit has_session_id : bool) (alpn_total : Z) : Z :=
  5 + 4 + ch_body_len suites sni_host_len has_record_size_limit has_session_id alpn_total.

Definition is_some {A} (o : option A) : bool := match o with Some _ => true | None => false end.

Definition client_hello_len_with (opts : ClientHelloOptions) : Z :=
  ch_total_len (co_suites opts) (blen <$> co_hostname opts) (is_some (co_record_size_limit opts))
    (is_some (co_session_id opts)) (alpn_ext_total (co_alpn opts)).
End sizes.

(** ** The writer *)

Inductive Write24Error (E : Type) := W24Overflow | W24Write (e : E).
Arguments W24Overflow {E}. Arguments W24Write {E} e.

Inductive ClientHelloError (E : Type) :=
| ChHostnameTooLong | ChMessageTooLong | ChIntegerOverflow | ChRecordSizeLimitOutOfRange
| ChAlpnNameLen | ChMissingMlKemKeyShare | ChMissingP256KeyShare | ChWrite (e : E).
Arguments ChHostnameTooLong {E}. Arguments ChMessageTooLong {E}. Arguments ChIntegerOverflow {E}.
Arguments ChRecordSizeLimitOutOfRange {E}. Arguments ChAlpnNameLen {E}.
Arguments ChMissingMlKemKeyShare {E}. Arguments ChMissingP256KeyShare {E}. Arguments ChWrite {E} e.

Section writer.
Context `{MlKemSizes, Write} (ft : Features).
Notation WM := (SM W (ClientHelloError WError)).

Definition put (bs : bytes) : WM unit := fun w => let '(w', r) := write_all w bs in (w', map_err ChWrite r).
Definition write_u8 (n : Z) : WM unit := put [n].
Definition write_u16 (n : Z) : WM unit := put (be_bytes 2 n).

(** [write_u24], with [From<Write24Error>] applied by [?]. *)
Definition write_u24 (n : Z) : WM unit :=
  if 0xFFFFFF <? n then lift (Err ChIntegerOverflow) else put (drop 1 (be_bytes 4 n)).

Definition when (b : bool) (m : WM unit) : WM unit := if b then m else mret tt.

Definition write_names : list bytes -> WM unit :=
  fix go names := match names with
  | [] => mret tt
  | n :: names => _ ← write_u8 (as_u8 (blen n)); _ ← put n; go names
  end.

(** The checks that come before the first byte. *)
Definition check_opts (opts : ClientHelloOptions) : outcome (ClientHelloError WError) unit :=
  if U16 - 1 <? blen (default [] (co_hostname opts)) then Err ChHostnameTooLong else
  if (match co_record_size_limit opts with
      | Some rsl => negb ((64 <=? rsl) && (rsl <=? 16385)) | None => false end)
  then Err ChRecordSizeLimitOutOfRange else
  if (match co_alpn opts with
      | Some protocols => bool_decide (protocols = []) || existsb (fun n => bool_decide (n = []) || (255 <? blen n)) protocols
      | None => false end)
  then Err ChAlpnNameLen else
  if 5 + TLS_PLAINTEXT_MAX <? client_hello_len_with ft opts then Err ChMessageTooLong else Ok tt.

Definition advertise_chacha (s : SuiteList) : bool :=
  f_chacha20 ft && match s with SlAesOnly => false | _ => true end.
Definition advertise_aes (s : SuiteList) : bool :=
  f_cipher_aes ft && (negb (f_chacha20 ft) || match s with SlChaChaOnly => false | _ => true end).

(** Record and handshake headers, version, random, session id and suites. *)
Definition write_head (random : bytes) (opts : ClientHelloOptions) (body_len extensions_total : Z) : WM unit :=
  _ ← write_u8 CT_HANDSHAKE;
  _ ← write_u16 LEGACY_VERSION;
  _ ← write_u16 (as_u16 (4 + body_len));
  _ ← write_u8 HS_CLIENT_HELLO;
  _ ← write_u24 (as_u32 body_len);
  _ ← write_u16 LEGACY_VERSION;
  _ ← put random;
  _ ← match co_session_id opts with
      | None => write_u8 0
      | Some id => _ ← write_u8 (as_u8 LEGACY_SESSION_ID_LEN); put id
      end;
  _ ← write_u16 (as_u16 (2 * ch_n_suites ft (co_suites opts)));
  _ ← when (advertise_chacha (co_suites opts)) (write_u16 CIPHER_CHACHA20_POLY1305_SHA256);
  _ ← when (advertise_aes (co_suites opts)) (write_u16 CIPHER_AES_128_GCM_SHA256);
  _ ← write_u8 1;
  _ ← write_u8 0;
  write_u16 (as_u16 extensions_total).

(** supported_versions, supported_groups and signature_algorithms. *)
Definition write_fixed : WM unit :=
  _ ← write_u16 EXT_SUPPORTED_VERSIONS;
  _ ← write_u16 3;
  _ ← write_u8 2;
  _ ← write_u16 TLS_1_3;
  _ ← write_u16 EXT_SUPPORTED_GROUPS;
  _ ← write_u16 (2 + 2 * SUPPORTED_GROUPS_COUNT ft);
  _ ← write_u16 (2 * SUPPORTED_GROUPS_COUNT ft);
  _ ← write_u16 (KEY_SHARE_GROUP ft);
  _ ← when (second_group ft) (write_u16 NAMED_GROUP_SECP256R1);
  _ ← write_u16 EXT_SIGNATURE_ALGORITHMS;
  _ ← write_u16 (2 + 2 * SIG_SCHEME_COUNT ft);
  _ ← write_u16 (2 * SIG_SCHEME_COUNT ft);
  _ ← write_u16 SIG_SCHEME_ED25519;
  _ ← when (f_ecdsa ft) (_ ← write_u16 SIG_SCHEME_ECDSA_P256; write_u16 SIG_SCHEME_ECDSA_P384);
  _ ← when (f_rsa ft) (write_u16 SIG_SCHEME_RSA_PSS_RSAE_SHA256);
  when (f_mldsa ft)
    (_ ← write_u16 SIG_SCHEME_MLDSA44; _ ← write_u16 SIG_SCHEME_MLDSA65; write_u16 SIG_SCHEME_MLDSA87).

(** server_name, record_size_limit and ALPN, as the options ask. *)
Definition write_optional (opts : ClientHelloOptions) : WM unit :=
  _ ← match co_hostname opts with
      | None => mret tt
      | Some h =>
          let host_len := as_u16 (blen h) in
          let list_len := 1 + 2 + host_len in
          let ext_data_len := 2 + list_len in
          _ ← write_u16 EXT_SERVER_NAME;
          _ ← write_u16 ext_data_len;
          _ ← write_u16 list_len;
          _ ← write_u8 SNI_NAME_TYPE_HOST_NAME;
          _ ← write_u16 host_len;
          put h
      end;
  _ ← match co_record_size_limit opts with
      | None => mret tt
      | Some value => _ ← write_u16 EXT_RECORD_SIZE_LIMIT; _ ← write_u16 2; write_u16 value
      end;
  match co_alpn opts with
  | None => mret tt
  | Some protocols =>
      let list_len := alpn_ext_total (Some protocols) - 6 in
      _ ← write_u16 EXT_ALPN;
      _ ← write_u16 (as_u16 (2 + list_len));
      _ ← write_u16 (as_u16 list_len);
      write_names protocols
  end.

Definition write_key_share (primary_pub : bytes) (opts : ClientHelloOptions) : WM unit :=
  _ ← write_u16 EXT_KEY_SHARE;
  _ ← write_u16 (KEY_SHARE_EXT_DATA_LEN ft);
  _ ← write_u16 (KEY_SHARE_LIST_LEN ft);
  _ ← write_u16 (KEY_SHARE_GROUP ft);
  _ ← write_u16 (KEY_SHARE_KEY_LEN ft);
  _ ← when (f_mlkem ft) (ek ← lift (ok_or (co_mlkem_ek opts) ChMissingMlKemKeyShare); put ek);
  _ ← put primary_pub;
  when (second_group ft)
    (_ ← write_u16 NAMED_GROUP_SECP256R1;
     _ ← write_u16 (as_u16 P256_SHARE_BYTES);
     pub ← lift (ok_or (co_p256_pub opts) ChMissingP256KeyShare); put pub).

Definition write_client_hello_with (random primary_pub : bytes) (opts : ClientHelloOptions) : WM Z :=
  _ ← lift (check_opts opts);
  let total_len := client_hello_len_with ft opts in
  let alpn_total := alpn_ext_total (co_alpn opts) in
  let sni_host_len := blen <$> co_hostname opts in
  let has_rsl := is_some (co_record_size_limit opts) in
  let extensions_total := ch_extensions_total ft sni_host_len has_rsl alpn_total in
  let body_len := ch_body_len ft (co_suites opts) sni_host_len has_rsl (is_some (co_session_id opts)) alpn_total in
  _ ← write_head random opts body_len extensions_total;
  _ ← write_fixed;
  _ ← write_optional opts;
  _ ← write_key_share primary_pub opts;
  mret total_len.
End writer.

(** ** The wire form of the ClientHello *)

Section ch_wire.
Context `{MlKemSizes} (ft : Features).

Definition opt_list {A} (b : bool) (l : list A) : list A := if b then l else [].

Definition advertised_suites (s : SuiteList) : list Z :=
  opt_list (advertise_chacha ft s) [CIPHER_CHACHA20_POLY1305_SHA256]
  ++ opt_list (advertise_aes ft s) [CIPHER_AES_128_GCM_SHA256].

Definition advertised_groups : list Z := KEY_SHARE_GROUP ft :: opt_list (second_group ft) [NAMED_GROUP_SECP256R1].

Definition advertised_schemes : list Z :=
  SIG_SCHEME_ED25519 :: opt_list (f_ecdsa ft) [SIG_SCHEME_ECDSA_P256; SIG_SCHEME_ECDSA_P384]
  ++ opt_list (f_rsa ft) [SIG_SCHEME_RSA_PSS_RSAE_SHA256]
  ++ opt_list (f_mldsa ft) [SIG_SCHEME_MLDSA44; SIG_SCHEME_MLDSA65; SIG_SCHEME_MLDSA87].

(** The key shares: the primary group, then secp256r1 when it is the second. *)
Definition key_shares (pub : bytes) (opts : ClientHelloOptions) : list (Z * bytes) :=
  (KEY_SHARE_GROUP ft, (if f_mlkem ft then default [] (co_mlkem_ek opts) else []) ++ pub)
  :: opt_list (second_group ft) [(NAMED_GROUP_SECP256R1, default [] (co_p256_pub opts))].

Definition of_option {A B} (f : A -> B) (o : option A) : list B :=
  match o with Some a => [f a] | None => [] end.

Definition ch_exts (pub : bytes) (opts : ClientHelloOptions) : list (Z * bytes) :=
  [(EXT_SUPPORTED_VERSIONS, vec8 (u16s [TLS_1_3]));
   (EXT_SUPPORTED_GROUPS, vec16 (u16s advertised_groups));
   (EXT_SIGNATURE_ALGORITHMS, vec16 (u16s advertised_schemes))]
  ++ of_option (fun h => (EXT_SERVER_NAME, vec16 ([SNI_NAME_TYPE_HOST_NAME] ++ vec16 h))) (co_hostname opts)
  ++ of_option (fun v => (EXT_RECORD_SIZE_LIMIT, be_bytes 2 v)) (co_record_size_limit opts)
  ++ of_option (fun names => (EXT_ALPN, vec16 (flat_map vec8 names))) (co_alpn opts)
  ++ [(EXT_KEY_SHARE, vec16 (exts_wire (key_shares pub opts)))].

Definition ch_body (random pub : bytes) (opts : ClientHelloOptions) : bytes :=
  be_bytes 2 LEGACY_VERSION ++ random ++ vec8 (default [] (co_session_id opts))
  ++ vec16 (u16s (advertised_suites (co_suites opts))) ++ vec8 [0] ++ vec16 (exts_wire (ch_exts pub opts)).

Definition client_hello_wire (random pub : bytes) (opts : ClientHelloOptions) : bytes :=
  [CT_HANDSHAKE] ++ be_bytes 2 LEGACY_VERSION ++ vec16 ([HS_CLIENT_HELLO] ++ vec24 (ch_body random pub opts)).

(** What the types of the code guarantee of the arguments: array lengths, the variants
    and fields that the build has, and the key shares the connection layer supplies. *)
Definition opts_ok (random pub : bytes) (opts : ClientHelloOptions) : Prop :=
  blen random = 32 /\ blen pub = PRIMARY_PUB_LEN ft /\
  (forall id, co_session_id opts = Some id -> blen id = LEGACY_SESSION_ID_LEN) /\
  match co_suites opts with
  | SlDefault => True | SlAesOnly => f_cipher_aes ft = true | SlChaChaOnly => f_chacha20 ft = true end /\
  (f_mlkem ft = true -> f_x25519_kx ft = true /\ exists ek, co_mlkem_ek opts = Some ek /\ blen ek = MLKEM768_EK_BYTES) /\
  (second_group ft = true -> exists p, co_p256_pub opts = Some p /\ blen p = P256_SHARE_BYTES) /\
  f_x25519_kx ft || f_p256_kx ft = true.

Lemma blen_opt_list {A} b (l : list A) : blen (opt_list b l) = if b then blen l else 0.
Proof. by destruct b. Qed.

Lemma blen_alpn names : blen (flat_map vec8 names) = alpn_names_len names.
Proof. induction names as [| n names IH]; [done |]. cbn [flat_map alpn_names_len]. rewrite blen_app, blen_vec8. lia. Qed.

Lemma exts_wire_app l m : exts_wire (l ++ m) = exts_wire l ++ exts_wire m.
Proof. apply flat_map_app. Qed.

Lemma alpn_names_nonneg names : 0 <= alpn_names_len names.
Proof. induction names as [| n names]; cbn [alpn_names_len]; [done |]. pose proof (blen_nonneg n). lia. Qed.

(** ** The sizes are those of the wire form *)

Lemma n_suites_eq s :
  match s with SlDefault => True | SlAesOnly => f_cipher_aes ft = true | SlChaChaOnly => f_chacha20 ft = true end ->
  blen (advertised_suites s) = ch_n_suites ft s.
Proof.
  intros Hs. unfold advertised_suites, ch_n_suites, CH_CIPHER_SUITES_COUNT, advertise_chacha, advertise_aes.
  rewrite blen_app, !blen_opt_list. destruct s; destruct (f_cipher_aes ft), (f_chacha20 ft); cbn; done.
Qed.

Lemma groups_len : f_x25519_kx ft || f_p256_kx ft = true -> (f_mlkem ft = true -> f_x25519_kx ft = true) ->
  blen advertised_groups = SUPPORTED_GROUPS_COUNT ft.
Proof.
  unfold advertised_groups, SUPPORTED_GROUPS_COUNT, second_group. rewrite blen_cons, blen_opt_list.
  destruct (f_x25519_kx ft), (f_p256_kx ft); cbn; intros; try done.
Qed.

Lemma schemes_len : blen advertised_schemes = SIG_SCHEME_COUNT ft.
Proof.
  unfold advertised_schemes, SIG_SCHEME_COUNT. rewrite blen_cons, !blen_app, !blen_opt_list.
  destruct (f_ecdsa ft), (f_rsa ft), (f_mldsa ft); cbn; done.
Qed.

Lemma key_shares_len random pub opts :
  opts_ok random pub opts -> blen (exts_wire (key_shares pub opts)) = KEY_SHARE_LIST_LEN ft.
Proof.
  intros (_ & Hp & _ & _ & Hm & Hs & _). unfold key_shares.
  rewrite blen_exts_wire_cons. cbn [snd]. rewrite blen_app, Hp.
  unfold KEY_SHARE_LIST_LEN, PRIMARY_KEY_SHARE_ENTRY, P256_KX_ENTRY_LEN, PRIMARY_PUB_LEN, KEY_SHARE_KEY_LEN.
  destruct (second_group ft) eqn:Hsg; cbn [opt_list].
  - destruct (Hs eq_refl) as (p & Hp2 & Hl). rewrite Hp2, blen_exts_wire_cons. cbn [snd default from_option id].
    rewrite Hl. change (blen (exts_wire [])) with 0. unfold P256_SHARE_BYTES.
    destruct (f_mlkem ft); [destruct (Hm eq_refl) as (_ & ek & -> & He); cbn [default from_option]; unfold id; lia |].
    rewrite blen_nil. destruct (f_x25519_kx ft); unfold P256_SHARE_BYTES; lia.
  - change (blen (exts_wire [])) with 0.
    destruct (f_mlkem ft); [destruct (Hm eq_refl) as (_ & ek & -> & He); cbn [default from_option]; unfold id; lia |].
    rewrite blen_nil. destruct (f_x25519_kx ft); unfold P256_SHARE_BYTES; lia.
Qed.

Lemma exts_len random pub opts :
  opts_ok random pub opts ->
  blen (exts_wire (ch_exts pub opts))
  = ch_extensions_total ft (blen <$> co_hostname opts) (is_some (co_record_size_limit opts)) (alpn_ext_total (co_alpn opts)).
Proof.
  intros Hok. pose proof (key_shares_len _ _ _ Hok) as Hk. destruct Hok as (_ & _ & _ & _ & Hm & _ & Hg).
  assert (f_mlkem ft = true -> f_x25519_kx ft = true) as Hm' by (intros Hx; by apply Hm).
  pose proof (groups_len Hg Hm') as Hgl. pose proof schemes_len as Hsl.
  unfold ch_exts. rewrite !exts_wire_app, !blen_app, !blen_exts_wire_cons. cbn [snd].
  rewrite !blen_vec16, blen_vec8, !blen_u16s, Hgl, Hsl, Hk. change (blen (exts_wire [])) with 0.
  change (blen [TLS_1_3]) with 1.
  unfold ch_extensions_total, CH_EXTENSIONS_FIXED_TOTAL, EXT_SUPPORTED_VERSIONS_TOTAL, EXT_SUPPORTED_GROUPS_TOTAL,
    EXT_SIGNATURE_ALGORITHMS_TOTAL, EXT_KEY_SHARE_TOTAL, KEY_SHARE_EXT_DATA_LEN, sni_ext_total, EXT_RECORD_SIZE_LIMIT_TOTAL.
  destruct (co_hostname opts) as [h |]; destruct (co_record_size_limit opts) as [v |]; destruct (co_alpn opts) as [names |];
    cbn [of_option fmap option_fmap option_map is_some alpn_ext_total];
    rewrite ?blen_exts_wire_cons; cbn [snd];
    rewrite ?blen_vec16, ?blen_be_bytes, ?blen_app, ?blen_vec16, ?blen_alpn; change (blen (exts_wire [])) with 0;
    change (blen [SNI_NAME_TYPE_HOST_NAME]) with 1; lia.
Qed.

Lemma body_len_eq random pub opts :
  opts_ok random pub opts ->
  blen (ch_body random pub opts)
  = ch_body_len ft (co_suites opts) (blen <$> co_hostname opts) (is_some (co_record_size_limit opts))
      (is_some (co_session_id opts)) (alpn_ext_total (co_alpn opts)).
Proof.
  intros Hok. pose proof (exts_len _ _ _ Hok) as He. destruct Hok as (Hr & _ & Hsid & Hs & _).
  unfold ch_body, ch_body_len, ch_cipher_suites_field_len.
  rewrite !blen_app, !blen_vec16, !blen_vec8, blen_u16s, n_suites_eq, He, Hr, blen_be_bytes by done.
  change (blen [0]) with 1. destruct (co_session_id opts) as [i |]; cbn [is_some].
  - change (default [] (Some i)) with i. rewrite (Hsid i eq_refl). lia.
  - change (blen (default [] None)) with 0. lia.
Qed.

Lemma total_len_eq random pub opts :
  opts_ok random pub opts -> blen (client_hello_wire random pub opts) = client_hello_len_with ft opts.
Proof.
  intros Hok. unfold client_hello_wire, client_hello_len_with, ch_total_len.
  rewrite <- (body_len_eq _ _ _ Hok), !blen_app, blen_vec16, blen_app, blen_vec24, blen_be_bytes.
  change (blen [CT_HANDSHAKE]) with 1. change (blen [HS_CLIENT_HELLO]) with 1. lia.
Qed.
End ch_wire.

(** ** The writer emits it *)

Section writer_specs.
Context `{MlKemSizes, Write} (ft : Features).
Notation WM := (SM W (ClientHelloError WError)).

(** [puts m bs]: [m] hands the writer exactly [bs], or stops on the writer's own error. *)
Definition puts {A} (m : WM A) (bs : bytes) : Prop :=
  forall w, match m w with
            | (w', Ok _) => written w' = written w ++ bs
            | (_, Err e) => exists x, e = ChWrite x
            | (_, Panic) => False
            end.

Lemma puts_put bs : puts (put bs) bs.
Proof.
  intros w. unfold put. destruct (write_all w bs) as [w' r] eqn:Hw.
  pose proof (write_all_total w bs) as Ht. rewrite Hw in Ht. destruct r as [[] | e |]; cbn; [by apply write_all_spec | eauto | done].
Qed.

Lemma puts_ret {A} (a : A) : puts (mret a) [].
Proof. intros w. cbn. by rewrite app_nil_r. Qed.

Lemma puts_bind {A B} (m : WM A) (k : A -> WM B) b1 b2 : puts m b1 -> (forall a, puts (k a) b2) -> puts (m ≫= k) (b1 ++ b2).
Proof.
  intros Hm Hk w. unfold mbind, SM_bind. pose proof (Hm w) as Hw. destruct (m w) as [w1 [a | e |]]; [| done..].
  pose proof (Hk a w1) as Hw1. destruct (k a w1) as [w2 [b | e |]]; [| done..]. by rewrite Hw1, Hw, app_assoc.
Qed.

Lemma puts_some {A B} (o : option A) a e (k : A -> WM B) bs : o = Some a -> puts (k a) bs -> puts (lift (ok_or o e) ≫= k) bs.
Proof. intros ->. done. Qed.

Lemma puts_when b m bs : (b = true -> puts m bs) -> puts (when b m) (opt_list b bs).
Proof. intros Hm. destruct b; [by apply Hm | apply puts_ret]. Qed.

Lemma puts_eq {A} (m : WM A) b1 b2 : puts m b1 -> b1 = b2 -> puts m b2.
Proof. by intros Hm <-. Qed.

Lemma puts_u24 n : n < U24 -> 0 <= n -> puts (write_u24 n) (be_bytes 3 n).
Proof.
  intros Hn Hz. unfold write_u24. rewrite (proj2 (Z.ltb_ge _ n)) by (unfold U24 in *; lia). apply puts_put.
Qed.

Lemma puts_names names :
  Forall (fun n => blen n <= 255) names -> puts (write_names names) (flat_map vec8 names).
Proof.
  induction 1 as [| n names Hn _ IH]; [apply puts_ret |]. cbn [flat_map].
  eapply puts_eq; [eapply puts_bind; [apply puts_put |]; intros _; eapply puts_bind; [apply puts_put |]; intros _; apply IH |].
  unfold vec8 at 2. rewrite <- app_assoc. f_equal. unfold as_u8. rewrite Z.mod_small by (pose proof (blen_nonneg n); unfold U8; lia).
  cbn [be_bytes]. change (256 ^ Z.of_nat 0) with 1. rewrite Z.div_1_r, Z.mod_small by (pose proof (blen_nonneg n); lia). done.
Qed.

(** One write after the other, to the bytes they produce. *)
Ltac puts_seq :=
  eapply puts_eq;
  [ repeat first [ eapply puts_bind; [| intros _] | apply puts_put | apply puts_ret
                 | apply puts_when; intros ? ] |].

(** The guards that let the writer start. *)
Definition opts_valid (opts : ClientHelloOptions) : Prop :=
  blen (default [] (co_hostname opts)) < U16 /\
  (forall rsl, co_record_size_limit opts = Some rsl -> 64 <= rsl <= 16385) /\
  (forall names, co_alpn opts = Some names -> names <> [] /\ Forall (fun n => 1 <= blen n <= 255) names) /\
  client_hello_len_with ft opts <= 5 + 16384.

Lemma existsb_names names :
  existsb (fun n : bytes => bool_decide (n = []) || (255 <? blen n)) names = false
  <-> Forall (fun n => 1 <= blen n <= 255) names.
Proof.
  induction names as [| n names IH]; [by split |]. cbn [existsb]. rewrite orb_false_iff, Forall_cons, IH.
  apply and_iff_compat_r. rewrite orb_false_iff, bool_decide_eq_false, Z.ltb_ge.
  destruct n as [| b n]; [rewrite blen_nil; naive_solver lia |]. rewrite blen_cons. pose proof (blen_nonneg n). naive_solver lia.
Qed.

Lemma check_opts_spec opts : no_panic (check_opts ft opts) /\ (check_opts ft opts = Ok tt <-> opts_valid opts).
Proof.
  unfold check_opts, opts_valid. change TLS_PLAINTEXT_MAX with 16384.
  destruct (Z.ltb_spec (U16 - 1) (blen (default [] (co_hostname opts)))).
  { split; [done |]. split; [done |]. intros [Hx _]. lia. }
  destruct (match co_record_size_limit opts with Some _ => _ | None => false end) eqn:Hr.
  { split; [done |]. split; [done |]. intros (_ & Hx & _). destruct (co_record_size_limit opts) as [rsl |]; [| done].
    specialize (Hx rsl eq_refl). apply negb_true_iff, andb_false_iff in Hr as [Hr | Hr]; bool_to_prop; lia. }
  destruct (match co_alpn opts with Some _ => _ | None => false end) eqn:Ha.
  { split; [done |]. split; [done |]. intros (_ & _ & Hx & _). destruct (co_alpn opts) as [names |]; [| done].
    destruct (Hx names eq_refl) as [Hn Hn']. apply existsb_names in Hn'. rewrite Hn', orb_false_r in Ha.
    by apply bool_decide_eq_true in Ha. }
  destruct (Z.ltb_spec (5 + 16384) (client_hello_len_with ft opts)).
  { split; [done |]. split; [done |]. intros (_ & _ & _ & Hx). lia. }
  split; [done |]. split; [| done]. intros _. split_and!; [lia | | | lia].
  - intros rsl Hrsl. rewrite Hrsl in Hr. bool_to_prop. lia.
  - intros names Hn. rewrite Hn in Ha. apply orb_false_iff in Ha as [Ha1%bool_decide_eq_false Ha2%existsb_names]. done.
Qed.

Lemma be1_byte n : 0 <= n < 256 -> be_bytes 1 n = [n].
Proof. intros. cbn [be_bytes]. change (256 ^ Z.of_nat 0) with 1. by rewrite Z.div_1_r, Z.mod_small. Qed.

Lemma as_u16_small n : 0 <= n < U16 -> as_u16 n = n.
Proof. intros. by apply Z.mod_small. Qed.

Lemma suites_bound s : 0 <= blen (advertised_suites ft s) <= 2.
Proof.
  unfold advertised_suites. rewrite blen_app, !blen_opt_list.
  destruct (advertise_chacha ft s), (advertise_aes ft s); by vm_compute.
Qed.

(** The bytes before the extensions. *)
Definition head_wire (random : bytes) (opts : ClientHelloOptions) (body_len ext_total : Z) : bytes :=
  [CT_HANDSHAKE] ++ be_bytes 2 LEGACY_VERSION ++ be_bytes 2 (4 + body_len) ++ [HS_CLIENT_HELLO] ++ be_bytes 3 body_len
  ++ be_bytes 2 LEGACY_VERSION ++ random ++ vec8 (default [] (co_session_id opts))
  ++ vec16 (u16s (advertised_suites ft (co_suites opts))) ++ vec8 [0] ++ be_bytes 2 ext_total.

Lemma puts_session_id opts :
  (forall i, co_session_id opts = Some i -> blen i = LEGACY_SESSION_ID_LEN) ->
  puts (match co_session_id opts with
        | None => write_u8 0
        | Some id => _ ← write_u8 (as_u8 LEGACY_SESSION_ID_LEN); put id end) (vec8 (default [] (co_session_id opts))).
Proof.
  intros Hsid. destruct (co_session_id opts) as [i |]; [| apply puts_put].
  change (default [] (Some i)) with i. puts_seq. unfold vec8. by rewrite (Hsid i eq_refl).
Qed.

Lemma puts_head random opts body_len ext_total :
  (forall i, co_session_id opts = Some i -> blen i = LEGACY_SESSION_ID_LEN) ->
  blen (advertised_suites ft (co_suites opts)) = ch_n_suites ft (co_suites opts) ->
  0 <= body_len < 4096 * 5 -> 0 <= ext_total < U16 ->
  puts (write_head ft random opts body_len ext_total) (head_wire random opts body_len ext_total).
Proof.
  intros Hsid Hs Hb He. unfold write_head, head_wire.
  rewrite !as_u16_small, (Z.mod_small body_len U32 : _ -> as_u32 body_len = body_len) by
    (pose proof (suites_bound (co_suites opts)); unfold U16, U32 in *; lia).
  eapply puts_eq; [repeat first [ eapply puts_bind; [first [apply puts_put | by apply puts_session_id
      | apply puts_u24; unfold U24; lia | apply puts_when; intros ?; apply puts_put] | intros _] | apply puts_put] |].
  rewrite <- Hs, <- blen_u16s. unfold vec16, advertised_suites at 3. rewrite u16s_app. unfold vec8 at 3.
  rewrite <- !app_assoc. change (blen [0]) with 1. rewrite (be1_byte 1) by lia.
  by destruct (advertise_chacha ft (co_suites opts)), (advertise_aes ft (co_suites opts)).
Qed.

Lemma puts_fixed :
  f_x25519_kx ft || f_p256_kx ft = true -> (f_mlkem ft = true -> f_x25519_kx ft = true) ->
  puts (write_fixed ft) (exts_wire [(EXT_SUPPORTED_VERSIONS, vec8 (u16s [TLS_1_3]));
    (EXT_SUPPORTED_GROUPS, vec16 (u16s (advertised_groups ft)));
    (EXT_SIGNATURE_ALGORITHMS, vec16 (u16s (advertised_schemes ft)))]).
Proof.
  intros Hg Hm. pose proof (groups_len ft Hg Hm) as Hgl. pose proof (schemes_len ft) as Hsl.
  unfold write_fixed. puts_seq. unfold exts_wire. cbn [flat_map fst snd]. unfold ext.
  unfold vec16 at 1 2 4. rewrite !blen_vec16, blen_vec8, !blen_u16s, Hgl, Hsl. unfold vec16. rewrite !blen_u16s, Hgl, Hsl.
  unfold advertised_groups, advertised_schemes. rewrite app_nil_r, <- !app_assoc.
  destruct (second_group ft), (f_ecdsa ft), (f_rsa ft), (f_mldsa ft); cbn [opt_list app u16s flat_map];
    rewrite <- ?app_assoc, ?app_nil_r; reflexivity.
Qed.

Lemma puts_sni (o : option bytes) :
  blen (default [] o) < U16 - 8 ->
  puts (match o with
        | None => mret tt
        | Some h =>
            let host_len := as_u16 (blen h) in
            let list_len := 1 + 2 + host_len in
            let ext_data_len := 2 + list_len in
            _ ← write_u16 EXT_SERVER_NAME;
            _ ← write_u16 ext_data_len;
            _ ← write_u16 list_len;
            _ ← write_u8 SNI_NAME_TYPE_HOST_NAME;
            _ ← write_u16 host_len;
            put h
        end)
    (exts_wire (of_option (fun h => (EXT_SERVER_NAME, vec16 ([SNI_NAME_TYPE_HOST_NAME] ++ vec16 h))) o)).
Proof.
  destruct o as [h |]; [| intros _; apply puts_ret]. change (default [] (Some h)) with h. intros Hl. cbv zeta.
  rewrite as_u16_small by (pose proof (blen_nonneg h); lia). puts_seq.
  unfold of_option, exts_wire. cbn [flat_map fst snd]. unfold ext, vec16. rewrite app_nil_r.
  rewrite !blen_app, !blen_be_bytes. change (blen [SNI_NAME_TYPE_HOST_NAME]) with 1. rewrite <- ?app_assoc.
  cbn [app]. wire_eq.
Qed.

Lemma puts_alpn (o : option (list bytes)) :
  (forall names, o = Some names -> Forall (fun n => 1 <= blen n <= 255) names) -> alpn_ext_total o < U16 ->
  puts (match o with
        | None => mret tt
        | Some protocols =>
            let list_len := alpn_ext_total (Some protocols) - 6 in
            _ ← write_u16 EXT_ALPN;
            _ ← write_u16 (as_u16 (2 + list_len));
            _ ← write_u16 (as_u16 list_len);
            write_names protocols
        end)
    (exts_wire (of_option (fun names => (EXT_ALPN, vec16 (flat_map vec8 names))) o)).
Proof.
  destruct o as [names |]; [| intros _ _; apply puts_ret]. intros Hn Ht. specialize (Hn names eq_refl). cbv zeta.
  cbn [alpn_ext_total] in *. pose proof (alpn_names_nonneg names).
  rewrite !as_u16_small by lia.
  assert (puts (write_names names) (flat_map vec8 names)) as Hp by
    (apply puts_names; eapply Forall_impl; [exact Hn |]; cbn; lia).
  eapply puts_eq; [repeat first [eapply puts_bind; [apply puts_put | intros _] | exact Hp] |].
  unfold of_option, exts_wire. cbn [flat_map fst snd]. unfold ext. rewrite app_nil_r.
  unfold vec16. rewrite !blen_app, blen_be_bytes, blen_alpn, <- ?app_assoc. wire_eq.
Qed.

Lemma puts_rsl (o : option Z) :
  puts (match o with
        | None => mret tt
        | Some value => _ ← write_u16 EXT_RECORD_SIZE_LIMIT; _ ← write_u16 2; write_u16 value
        end)
    (exts_wire (of_option (fun v => (EXT_RECORD_SIZE_LIMIT, be_bytes 2 v)) o)).
Proof.
  destruct o as [v |]; [| apply puts_ret]. puts_seq. unfold of_option, exts_wire. cbn [flat_map fst snd].
  unfold ext, vec16. by rewrite app_nil_r, blen_be_bytes, <- ?app_assoc.
Qed.

Lemma puts_needed (o : option bytes) e : is_Some o -> puts (x ← lift (ok_or o e); put x) (default [] o).
Proof. intros [x ->]. eapply puts_some; [done |]. apply puts_put. Qed.

Lemma puts_key_share random pub opts :
  opts_ok ft random pub opts ->
  puts (write_key_share ft pub opts) (exts_wire [(EXT_KEY_SHARE, vec16 (exts_wire (key_shares ft pub opts)))]).
Proof.
  intros Hok. pose proof (key_shares_len ft _ _ _ Hok) as Hkl.
  destruct Hok as (_ & Hpub & _ & _ & Hm & Hs & _). unfold write_key_share.
  eapply puts_eq.
  { do 5 (eapply puts_bind; [apply puts_put | intros _]).
    eapply puts_bind; [apply puts_when; intros Hx; apply puts_needed; destruct (Hm Hx) as (_ & ek & -> & _); by eexists |].
    intros _. eapply puts_bind; [apply puts_put | intros _].
    apply puts_when. intros Hx. do 2 (eapply puts_bind; [apply puts_put | intros _]).
    apply puts_needed. destruct (Hs Hx) as (p & -> & _). by eexists. }
  unfold exts_wire at 1. cbn [flat_map fst snd]. unfold ext at 1. rewrite app_nil_r.
  unfold vec16 at 1. rewrite blen_vec16. unfold vec16 at 1. rewrite Hkl.
  unfold key_shares, exts_wire. cbn [flat_map fst snd]. unfold ext at 1, vec16 at 1.
  assert (blen ((if f_mlkem ft then default [] (co_mlkem_ek opts) else []) ++ pub) = KEY_SHARE_KEY_LEN ft) as ->.
  { rewrite blen_app, Hpub. unfold PRIMARY_PUB_LEN, KEY_SHARE_KEY_LEN. destruct (f_mlkem ft); [| done].
    destruct (Hm eq_refl) as (_ & ek & -> & <-). done. }
  rewrite <- ?app_assoc. do 5 f_equal. unfold opt_list at 1. do 2 f_equal.
  destruct (second_group ft); [| done]. cbn [opt_list flat_map fst snd].
  destruct (Hs eq_refl) as (p & -> & Hl). unfold ext, vec16. rewrite app_nil_r.
  change (default [] (Some p)) with p. rewrite Hl. by rewrite <- ?app_assoc.
Qed.

Lemma puts_optional random pub opts :
  opts_ok ft random pub opts -> opts_valid opts ->
  puts (write_optional opts)
    (exts_wire (of_option (fun h => (EXT_SERVER_NAME, vec16 ([SNI_NAME_TYPE_HOST_NAME] ++ vec16 h))) (co_hostname opts)
     ++ of_option (fun v => (EXT_RECORD_SIZE_LIMIT, be_bytes 2 v)) (co_record_size_limit opts)
     ++ of_option (fun names => (EXT_ALPN, vec16 (flat_map vec8 names))) (co_alpn opts))).
Proof.
  intros Hok (Hh & _ & Ha & Ht). rewrite <- (total_len_eq ft _ _ _ Hok) in Ht.
  unfold client_hello_wire, ch_body in Ht.
  rewrite blen_app, blen_app, blen_vec16, blen_app, blen_vec24, !blen_app, !blen_vec16, !blen_vec8, !blen_be_bytes in Ht.
  rewrite (exts_len _ _ _ _ Hok) in Ht. unfold ch_extensions_total in Ht. cbv zeta in Ht.
  change (blen [CT_HANDSHAKE]) with 1 in Ht. change (blen [HS_CLIENT_HELLO]) with 1 in Ht.
  pose proof (blen_nonneg random). pose proof (blen_nonneg (default [] (co_session_id opts))).
  pose proof (blen_nonneg (u16s (advertised_suites ft (co_suites opts)))). change (blen [0]) with 1 in Ht.
  assert (0 <= CH_EXTENSIONS_FIXED_TOTAL ft).
  { pose proof (groups_len ft) as Hg. pose proof (schemes_len ft) as Hs. destruct Hok as (_ & _ & _ & _ & Hm & _ & Hx).
    pose proof (blen_nonneg (advertised_groups ft)). pose proof (blen_nonneg (advertised_schemes ft)).
    unfold CH_EXTENSIONS_FIXED_TOTAL, EXT_SUPPORTED_VERSIONS_TOTAL, EXT_SUPPORTED_GROUPS_TOTAL,
      EXT_SIGNATURE_ALGORITHMS_TOTAL, EXT_KEY_SHARE_TOTAL, KEY_SHARE_EXT_DATA_LEN, KEY_SHARE_LIST_LEN,
      PRIMARY_KEY_SHARE_ENTRY, KEY_SHARE_KEY_LEN, P256_KX_ENTRY_LEN, P256_SHARE_BYTES.
    pose proof mlkem_ek_bound. rewrite <- Hg, <- Hs by naive_solver.
    destruct (f_mlkem ft), (f_x25519_kx ft), (second_group ft); lia. }
  assert (0 <= alpn_ext_total (co_alpn opts)).
  { destruct (co_alpn opts) as [n |]; cbn [alpn_ext_total]; [pose proof (alpn_names_nonneg n) |]; lia. }
  assert (0 <= match blen <$> co_hostname opts with None => 0 | Some n => sni_ext_total n end /\
    (blen (default [] (co_hostname opts)) <= match blen <$> co_hostname opts with None => 0 | Some n => sni_ext_total n end)) as [? ?].
  { destruct (co_hostname opts) as [h |]; [| by vm_compute]. change (default [] (Some h)) with h.
    cbn [fmap option_fmap option_map]. unfold sni_ext_total. pose proof (blen_nonneg h). lia. }
  assert (0 <= if is_some (co_record_size_limit opts) then EXT_RECORD_SIZE_LIMIT_TOTAL else 0) by
    (destruct (is_some _); by vm_compute).
  unfold write_optional. rewrite !exts_wire_app.
  eapply puts_bind; [apply puts_sni; unfold U16; lia | intros _].
  eapply puts_bind; [apply puts_rsl | intros _]. apply puts_alpn; [naive_solver | unfold U16; lia].
Qed.

Lemma hs_record_wire ty body : vec16 ([ty] ++ vec24 body) = be_bytes 2 (4 + blen body) ++ [ty] ++ be_bytes 3 (blen body) ++ body.
Proof.
  unfold vec16. rewrite blen_app, blen_vec24. change (blen [ty]) with 1. by rewrite Z.add_assoc.
Qed.

Lemma write_client_hello_spec random pub opts w :
  opts_ok ft random pub opts ->
  match write_client_hello_with ft random pub opts w with
  | (w', Ok n) => opts_valid opts /\ n = blen (client_hello_wire ft random pub opts) /\
      n <= 5 + 16384 /\ written w' = written w ++ client_hello_wire ft random pub opts
  | (w', Err e) => (opts_valid opts /\ exists x, e = ChWrite x)
      \/ (~ opts_valid opts /\ w' = w /\ check_opts ft opts = Err e)
  | (_, Panic) => False
  end.
Proof.
  intros Hok. destruct (check_opts_spec opts) as [Hnp Hv]. unfold write_client_hello_with.
  unfold mbind at 1, SM_bind at 1, lift at 1. destruct (check_opts ft opts) as [[] | e |]; [| | done].
  2: { right. split_and!; [by intros ?%Hv | done | done]. }
  assert (opts_valid opts) as Hval by by apply Hv. clear Hv Hnp.
  pose proof Hval as (_ & _ & _ & Ht). pose proof (total_len_eq ft _ _ _ Hok) as Hlen.
  pose proof Hok as (Hr & _ & Hsid & Hsu & Hm & _ & Hg).
  match goal with |- match ?m w with _ => _ end => set (M := m) end.
  assert (puts M (client_hello_wire ft random pub opts)) as Hp.
  { unfold M. eapply puts_eq.
    - eapply puts_bind; [apply puts_head; [done | by apply n_suites_eq | |] |].
      + rewrite <- (body_len_eq ft random pub) by done. rewrite <- Hlen in Ht. unfold client_hello_wire in Ht.
        rewrite !blen_app, blen_vec16, blen_app, blen_vec24, blen_be_bytes in Ht.
        pose proof (blen_nonneg (ch_body ft random pub opts)).
        change (blen [CT_HANDSHAKE]) with 1 in Ht. change (blen [HS_CLIENT_HELLO]) with 1 in Ht. lia.
      + rewrite <- (exts_len ft random pub) by done. rewrite <- Hlen in Ht. unfold client_hello_wire, ch_body in Ht.
        rewrite blen_app, blen_app, blen_vec16, blen_app, blen_vec24, !blen_app, !blen_vec16, !blen_vec8, !blen_be_bytes in Ht.
        pose proof (blen_nonneg (exts_wire (ch_exts ft pub opts))). pose proof (blen_nonneg random).
        pose proof (blen_nonneg (default [] (co_session_id opts))).
        pose proof (blen_nonneg (u16s (advertised_suites ft (co_suites opts)))).
        change (blen [CT_HANDSHAKE]) with 1 in Ht. change (blen [HS_CLIENT_HELLO]) with 1 in Ht.
        change (blen [0]) with 1 in Ht. unfold U16. lia.
      + intros _. eapply puts_bind; [apply puts_fixed; naive_solver | intros _].
        eapply puts_bind; [by eapply puts_optional | intros _].
        eapply puts_bind; [by eapply puts_key_share | intros _]. apply puts_ret.
    - rewrite <- (body_len_eq ft random pub), <- (exts_len ft random pub) by done.
      rewrite app_nil_r, <- !exts_wire_app, <- !app_assoc. fold (ch_exts ft pub opts). unfold head_wire, client_hello_wire.
      rewrite hs_record_wire. unfold ch_body at 4, vec16 at 2. by rewrite <- !app_assoc. }
  specialize (Hp w).
  destruct (M w) as [w' [n | e |]] eqn:Hw; [| by left | done].
  assert (n = client_hello_len_with ft opts) as ->.
  { clear -Hw. unfold M, mbind, SM_bind in Hw.
    repeat match type of Hw with context [match ?x with _ => _ end] => destruct x as [? [[] | |]] end; try done.
    unfold mret, SM_ret in Hw. congruence. }
  split_and!; [done | done | lia | done].
Qed.
End writer_specs.

(** C25. [write_client_hello_with] hands the writer exactly the wire form of the ClientHello
    that the options describe and returns its length, which is what
    [client_hello_len_with] announced and fits one TLS record; the only other outcomes are
    the writer's own error, and, when a limit is broken (hostname, record_size_limit, ALPN
    names, record size), that limit's error with nothing written. It never panics and the
    overflow and missing-share errors are not reachable. *)
Theorem tls_client_hello_exact `{MlKemSizes, Write} (ft : Features) (random pub : bytes) (opts : ClientHelloOptions) (w : W) :
  opts_ok ft random pub opts ->
  match write_client_hello_with ft random pub opts w with
  | (w', Ok n) => opts_valid ft opts /\ n = blen (client_hello_wire ft random pub opts) /\
      n = client_hello_len_with ft opts /\ n <= 5 + 16384 /\
      written w' = written w ++ client_hello_wire ft random pub opts
  | (w', Err e) => (opts_valid ft opts /\ exists x, e = ChWrite x)
      \/ (~ opts_valid ft opts /\ w' = w /\ check_opts ft opts = Err e)
  | (_, Panic) => False
  end.
Proof.
  intros Hok. pose proof (write_client_hello_spec ft random pub opts w Hok) as Hs.
  destruct (write_client_hello_with ft random pub opts w) as [w' [n | e |]]; [| done..].
  destruct Hs as (Hv & -> & Hle & Hw). by rewrite (total_len_eq ft _ _ _ Hok) in *.
Qed.

(** A writer over a buffer of a fixed capacity. *)
Definition buffer_writer : Write.
Proof.
  refine {| W := Z * bytes; WError := unit;
    write_all w bs := if blen (w.2 ++ bs) <=? w.1 then ((w.1, w.2 ++ bs), Ok tt) else (w, Err tt);
    written := snd |}.
  - intros w bs. by destruct (_ <=? _).
  - intros w bs w' Hw. destruct (_ <=? _); [| done]. by apply pair_equal_spec in Hw as [<- _].
Defined.

Definition demo_opts : ClientHelloOptions := {|
  co_hostname := Some [104; 105]; co_record_size_limit := Some 1024; co_session_id := None;
  co_alpn := Some [[104; 50]]; co_suites := SlDefault; co_mlkem_ek := None; co_p256_pub := Some (zeros 65) |}.

Section writer_witness.
#[local] Existing Instances ml_kem_model buffer_writer.

Definition demo_w : @W buffer_writer := (600, []).

Lemma tls_client_hello_exact_witness :
  match write_client_hello_with demo_features (zeros 32) (zeros 32) demo_opts demo_w with
  | (w', Ok n) => n = 222 /\ blen (written w') = 222
  | (_, Err _) => False
  | (_, Panic) => False
  end.
Proof.
  assert (opts_ok demo_features (zeros 32) (zeros 32) demo_opts) as Hok.
  { split_and!; [by vm_compute | by vm_compute | intros ? [=] | done | discriminate | intros _; by eexists | done]. }
  pose proof (tls_client_hello_exact demo_features (zeros 32) (zeros 32) demo_opts demo_w Hok) as Hs.
  destruct (write_client_hello_with demo_features (zeros 32) (zeros 32) demo_opts demo_w) as [w' [n | e |]] eqn:Hw.
  - destruct Hs as (_ & -> & _ & _ & ->). vm_compute. exact (conj eq_refl eq_refl).
  - vm_compute in Hw. discriminate Hw.
  - exact Hs.
Defined.
End writer_witness.

(** ** The ServerHello parser *)

Inductive ParseError :=
| PeTruncated | PeUnexpectedContentType (b : Z) | PeUnexpectedHandshakeType (b : Z) | PeUnexpectedLegacyVersion (v : Z)
| PeUnsupportedCipherSuite (v : Z) | PeUnexpectedCompressionMethod (b : Z) | PeBadSupportedVersions | PeBadKeyShare
| PeTrailingBytes | PeLengthMismatch | PeUnknownExtension (t : Z) | PeDuplicateExtension (t : Z)
| PeUnexpectedSessionIdEcho | PeHelloRetryRequested | PeDowngradeDetected | PeDhAllZero.

Record ServerHelloView := {
  sh_random : bytes;
  sh_session_id_echo : bytes;
  sh_cipher_suite : Z;
  sh_selected_version : Z;
  sh_selected_group : Z;
  sh_x25519_share : option bytes;
  sh_hybrid_share : option bytes;
  sh_p256_share : option bytes
}.

(** *** [struct Reader]: the buffer, and the position in it *)

Record Reader := { rd_buf : bytes; rd_pos : Z }.

Definition Reader_new (buf : bytes) : Reader := {| rd_buf := buf; rd_pos := 0 |}.
Definition remaining (r : Reader) : Z := blen (rd_buf r) - rd_pos r.
Definition at_end (r : Reader) : bool := rd_pos r =? blen (rd_buf r).

(** A method that takes [&mut self]: its result, and the reader it leaves. *)
Notation RM := (outcome ParseError).

Definition take_n (r : Reader) (n : Z) : RM (bytes * Reader) :=
  if remaining r <? n then Err PeTruncated else
  s ← or_panic (slice (rd_buf r) (rd_pos r) (rd_pos r + n));
  Ok (s, {| rd_buf := rd_buf r; rd_pos := rd_pos r + n |}).

Definition take_array (N : Z) (r : Reader) : RM (bytes * Reader) :=
  '(s, r) ← take_n r N;
  if blen s =? N then Ok (s, r) else Err PeTruncated.

Definition rd_u8 (r : Reader) : RM (Z * Reader) :=
  '(s, r) ← take_n r 1;
  b ← or_panic (at_idx s 0);
  Ok (b, r).

Definition rd_u16 (r : Reader) : RM (Z * Reader) :=
  '(s, r) ← take_n r 2;
  b0 ← or_panic (at_idx s 0);
  b1 ← or_panic (at_idx s 1);
  Ok (be16 b0 b1, r).

Definition rd_u24 (r : Reader) : RM (Z * Reader) :=
  '(s, r) ← take_n r 3;
  b0 ← or_panic (at_idx s 0);
  b1 ← or_panic (at_idx s 1);
  b2 ← or_panic (at_idx s 2);
  Ok (be24 b0 b1 b2, r).

Definition vec_u8 (r : Reader) : RM (bytes * Reader) := '(n, r) ← rd_u8 r; take_n r n.
Definition vec_u16 (r : Reader) : RM (bytes * Reader) := '(n, r) ← rd_u16 r; take_n r n.
Definition vec_u24 `{Usize} (r : Reader) : RM (bytes * Reader) :=
  '(n, r) ← rd_u24 r;
  if usize_max <? n then Err PeTruncated else take_n r n.

(** *** [parse_server_hello] *)

(** The locals that the extension loop fills. *)
Record ShSel := {
  sel_version : option Z;
  sel_group : option Z;
  sel_x25519 : option bytes;
  sel_hybrid : option bytes;
  sel_p256 : option bytes
}.
Definition ShSel_new : ShSel :=
  {| sel_version := None; sel_group := None; sel_x25519 := None; sel_hybrid := None; sel_p256 := None |}.

Section parser.
Context `{Usize, MlKemSizes} (ft : Features).

(** [split_at_checked(MLKEM768_CT_BYTES)] and the [[u8; 32]] conversion of the tail. *)
Definition hybrid_tail (key : bytes) : RM bytes :=
  if MLKEM768_CT_BYTES <=? blen key then
    let x := drop (Z.to_nat MLKEM768_CT_BYTES) key in
    if blen x =? 32 then Ok x else Err PeBadKeyShare
  else Err PeBadKeyShare.

Definition as_array (N : Z) (key : bytes) : RM bytes := if blen key =? N then Ok key else Err PeBadKeyShare.

(** The shares of a key_share entry, by the group it names. *)
Definition sh_share (group : Z) (key : bytes) (x : ShSel) : RM ShSel :=
  if group =? KEY_SHARE_GROUP ft then
    if f_mlkem ft then
      k ← hybrid_tail key;
      Ok {| sel_version := sel_version x; sel_group := Some group; sel_x25519 := Some k; sel_hybrid := Some key; sel_p256 := sel_p256 x |}
    else if f_x25519_kx ft then
      k ← as_array 32 key;
      Ok {| sel_version := sel_version x; sel_group := Some group; sel_x25519 := Some k; sel_hybrid := sel_hybrid x; sel_p256 := sel_p256 x |}
    else
      k ← as_array P256_SHARE_BYTES key;
      Ok {| sel_version := sel_version x; sel_group := Some group; sel_x25519 := sel_x25519 x; sel_hybrid := sel_hybrid x; sel_p256 := Some k |}
  else if second_group ft && (group =? NAMED_GROUP_SECP256R1) then
    k ← as_array P256_SHARE_BYTES key;
    Ok {| sel_version := sel_version x; sel_group := Some group; sel_x25519 := sel_x25519 x; sel_hybrid := sel_hybrid x; sel_p256 := Some k |}
  else Err PeBadKeyShare.

Definition sh_extension (ext_type : Z) (ext_data : bytes) (x : ShSel) : RM ShSel :=
  if ext_type =? EXT_SUPPORTED_VERSIONS then
    if is_some (sel_version x) then Err (PeDuplicateExtension ext_type) else
    if negb (blen ext_data =? 2) then Err PeBadSupportedVersions else
    d0 ← or_panic (at_idx ext_data 0);
    d1 ← or_panic (at_idx ext_data 1);
    let v := be16 d0 d1 in
    if negb (v =? TLS_1_3) then Err PeBadSupportedVersions else
    Ok {| sel_version := Some v; sel_group := sel_group x; sel_x25519 := sel_x25519 x; sel_hybrid := sel_hybrid x; sel_p256 := sel_p256 x |}
  else if ext_type =? EXT_KEY_SHARE then
    if is_some (sel_group x) then Err (PeDuplicateExtension ext_type) else
    '(group, kr) ← rd_u16 (Reader_new ext_data);
    '(key, kr) ← vec_u16 kr;
    if negb (at_end kr) then Err PeBadKeyShare else
    sh_share group key x
  else Err (PeUnknownExtension ext_type).

(** [while !e.at_end()]; every turn reads at least four bytes. *)
Fixpoint sh_ext_loop (fuel : nat) (e : Reader) (x : ShSel) : RM ShSel :=
  match fuel with
  | O => Panic
  | S fuel =>
      if at_end e then Ok x else
      '(ext_type, e) ← rd_u16 e;
      '(ext_data, e) ← vec_u16 e;
      x ← sh_extension ext_type ext_data x;
      sh_ext_loop fuel e x
  end.

Definition downgraded (random : bytes) : bool :=
  bool_decide (drop 24 random = DOWNGRADE_TLS12) || bool_decide (drop 24 random = DOWNGRADE_TLS11_OR_BELOW).

Definition suite_accepted (cipher_suite : Z) : bool :=
  (cipher_suite =? CIPHER_AES_128_GCM_SHA256) || (f_chacha20 ft && (cipher_suite =? CIPHER_CHACHA20_POLY1305_SHA256)).

Definition parse_server_hello (input : bytes) : RM ServerHelloView :=
  '(content_type, r) ← rd_u8 (Reader_new input);
  if negb (content_type =? CT_HANDSHAKE) then Err (PeUnexpectedContentType content_type) else
  '(record_version, r) ← rd_u16 r;
  if negb (record_version =? LEGACY_VERSION) then Err (PeUnexpectedLegacyVersion record_version) else
  '(record_body, r) ← vec_u16 r;
  if negb (at_end r) then Err PeTrailingBytes else
  '(hs_type, hr) ← rd_u8 (Reader_new record_body);
  if negb (hs_type =? HS_SERVER_HELLO) then Err (PeUnexpectedHandshakeType hs_type) else
  '(hs_body, hr) ← vec_u24 hr;
  if negb (at_end hr) then Err PeLengthMismatch else
  '(legacy_version, b) ← rd_u16 (Reader_new hs_body);
  if negb (legacy_version =? LEGACY_VERSION) then Err (PeUnexpectedLegacyVersion legacy_version) else
  '(random, b) ← take_array 32 b;
  if bool_decide (random = HRR_RANDOM) then Err PeHelloRetryRequested else
  if downgraded random then Err PeDowngradeDetected else
  '(session_id_echo, b) ← vec_u8 b;
  if LEGACY_SESSION_ID_LEN <? blen session_id_echo then Err PeUnexpectedSessionIdEcho else
  '(cipher_suite, b) ← rd_u16 b;
  if negb (suite_accepted cipher_suite) then Err (PeUnsupportedCipherSuite cipher_suite) else
  '(compression, b) ← rd_u8 b;
  if negb (compression =? 0) then Err (PeUnexpectedCompressionMethod compression) else
  '(ext_body, b) ← vec_u16 b;
  if negb (at_end b) then Err PeTrailingBytes else
  x ← sh_ext_loop (S (length ext_body)) (Reader_new ext_body) ShSel_new;
  selected_group ← ok_or (sel_group x) PeBadKeyShare;
  if (selected_group =? KEY_SHARE_GROUP ft) && negb (is_some (if f_x25519_kx ft then sel_x25519 x else sel_p256 x))
  then Err PeBadKeyShare else
  selected_version ← ok_or (sel_version x) PeBadSupportedVersions;
  Ok {| sh_random := random; sh_session_id_echo := session_id_echo; sh_cipher_suite := cipher_suite;
        sh_selected_version := selected_version; sh_selected_group := selected_group;
        sh_x25519_share := sel_x25519 x; sh_hybrid_share := sel_hybrid x; sh_p256_share := sel_p256 x |}.
End parser.

(** *** The reader, by what it has left *)

Definition reader_at (r : Reader) (l : bytes) : Prop := exists pre, rd_buf r = pre ++ l /\ rd_pos r = blen pre.

Lemma reader_at_new l : reader_at (Reader_new l) l.
Proof. by exists []. Qed.

Lemma at_end_at r l : reader_at r l -> at_end r = bool_decide (l = []).
Proof.
  intros (pre & Hb & Hp). unfold at_end. rewrite Hb, Hp, blen_app. destruct l as [| b l].
  - by rewrite bool_decide_eq_true_2, blen_nil, Z.add_0_r, Z.eqb_refl.
  - rewrite bool_decide_eq_false_2 by done. apply Z.eqb_neq. rewrite blen_cons. pose proof (blen_nonneg l). lia.
Qed.

(** A read of [n] bytes: they are there, or the read fails. *)
Lemma take_n_at r l n :
  reader_at r l -> 0 <= n ->
  (exists s l' r', l = s ++ l' /\ blen s = n /\ take_n r n = Ok (s, r') /\ reader_at r' l') \/
  (blen l < n /\ take_n r n = Err PeTruncated).
Proof.
  intros (pre & Hb & Hp) Hn. unfold take_n, remaining. rewrite Hb, Hp, blen_app.
  replace (blen pre + blen l - blen pre) with (blen l) by lia. destruct (Z.ltb_spec (blen l) n); [by right |]. left.
  destruct (cut_at l n) as (s & l' & -> & Hs & _); [lia |]. exists s, l', {| rd_buf := pre ++ s ++ l'; rd_pos := blen pre + n |}.
  split_and!; [done | done | by rewrite (slice_middle pre s l') by lia |].
  exists (pre ++ s). cbn. by rewrite <- app_assoc, blen_app, Hs.
Qed.

(** [reads m enc]: [m] reads some [a] off the front, encoded as [enc a], or fails because
    the front is no such encoding. *)
Definition reads {A} (m : Reader -> RM (A * Reader)) (enc : A -> bytes) (ok : A -> Prop) : Prop :=
  forall r l, reader_at r l -> bytes_ok l ->
    (exists a l' r', l = enc a ++ l' /\ ok a /\ bytes_ok l' /\ m r = Ok (a, r') /\ reader_at r' l') \/
    ((forall a l', ok a -> l <> enc a ++ l') /\ m r = Err PeTruncated).

Lemma short_no_enc {A} (enc : A -> bytes) (ok : A -> Prop) l n :
  blen l < n -> (forall a, ok a -> n <= blen (enc a)) -> forall a l', ok a -> l <> enc a ++ l'.
Proof. intros Hl He a l' Ha ->. rewrite blen_app in Hl. specialize (He a Ha). pose proof (blen_nonneg l'). lia. Qed.

(** A method that takes [n] bytes and converts them. *)
Lemma reads_of_take {A} n (k : bytes -> Reader -> RM (A * Reader)) enc ok :
  0 <= n -> (forall a, ok a -> n <= blen (enc a)) ->
  (forall s r, bytes_ok s -> blen s = n -> exists a, k s r = Ok (a, r) /\ enc a = s /\ ok a) ->
  reads (fun r => '(s, r) ← take_n r n; k s r) enc ok.
Proof.
  intros Hn He Hk r l Hr Hok. destruct (take_n_at r l n Hr Hn) as [(s & l' & r' & -> & Hs & -> & Hr') | [Hs ->]].
  - apply bytes_ok_app in Hok as [Hsok Hok]. destruct (Hk s r' Hsok Hs) as (a & Ha & <- & Ho). left. exists a, l', r'. by split_and!.
  - right. split; [| done]. by eapply short_no_enc.
Qed.

Lemma reads_array N : 0 <= N -> reads (take_array N) (fun s => s) (fun s => blen s = N).
Proof. intros HN. apply reads_of_take; [done | lia |]. intros s r _ Hs. exists s. by rewrite (proj2 (Z.eqb_eq _ _) Hs). Qed.

Lemma reads_u8 : reads rd_u8 (be_bytes 1) is_u8.
Proof.
  apply reads_of_take; [lia | by intros; rewrite blen_be_bytes |]. intros [| a [| ? s]] r Hok Hs; [done | | rewrite !blen_cons in Hs; pose proof (blen_nonneg s); lia].
  apply Forall_inv in Hok. exists a. rewrite be1_byte by (unfold is_u8, U8 in *; lia). by split_and!.
Qed.

Lemma reads_u16 : reads rd_u16 (be_bytes 2) is_u16.
Proof.
  apply reads_of_take; [lia | by intros; rewrite blen_be_bytes |].
  intros [| a [| b [| ? s]]] r Hok Hs; [done.. | | rewrite !blen_cons in Hs; pose proof (blen_nonneg s); lia].
  apply Forall_cons in Hok as [Ha Hb%Forall_inv]. exists (be16 a b). rewrite be_bytes_be16 by done.
  split_and!; [done.. | by apply be16_bound].
Qed.

Lemma reads_u24 : reads rd_u24 (be_bytes 3) is_u24.
Proof.
  apply reads_of_take; [lia | by intros; rewrite blen_be_bytes |].
  intros [| a [| b [| c [| ? s]]]] r Hok Hs; [done.. | | rewrite !blen_cons in Hs; pose proof (blen_nonneg s); lia].
  apply Forall_cons in Hok as [Ha [Hb Hc%Forall_inv]%Forall_cons]. exists (be24 a b c). rewrite be_bytes_be24 by done.
  split_and!; [done.. | by apply be24_bound].
Qed.

(** A length, then as many bytes. *)
Lemma reads_vec (m : Reader -> RM (Z * Reader)) w ok :
  (forall n, ok n -> 0 <= n) -> (forall a b l l', ok a -> ok b -> be_bytes w a ++ l = be_bytes w b ++ l' -> a = b /\ l = l') ->
  reads m (be_bytes w) ok ->
  reads (fun r => '(n, r) ← m r; take_n r n) (fun s => be_bytes w (blen s) ++ s) (fun s => ok (blen s)).
Proof.
  intros Hpos Hinj Hm r l Hr Hok. destruct (Hm r l Hr Hok) as [(n & l' & r' & -> & Hn & Hok' & -> & Hr') | [Hno ->]].
  - cbn [mbind outcome_bind]. destruct (take_n_at r' l' n Hr' (Hpos n Hn)) as [(s & l2 & r2 & -> & Hs & -> & Hr2) | [Hs ->]].
    + left. exists s, l2, r2. apply bytes_ok_app in Hok' as [_ Hok']. rewrite Hs, <- app_assoc. by split_and!.
    + right. split; [| done]. intros s l2 Hs2 Heq. rewrite <- app_assoc in Heq.
      apply Hinj in Heq as [-> ->]; [| done..]. rewrite blen_app in Hs. pose proof (blen_nonneg l2). lia.
  - right. split; [| done]. intros s l2 Hs Heq. apply (Hno (blen s) (s ++ l2) Hs). by rewrite app_assoc.
Qed.

Lemma be_bytes_prefix_inj w a b (l l' : bytes) :
  0 <= a < 256 ^ Z.of_nat w -> 0 <= b < 256 ^ Z.of_nat w -> be_bytes w a ++ l = be_bytes w b ++ l' -> a = b /\ l = l'.
Proof.
  intros Ha Hb Heq. apply app_inj_blen in Heq as [Heq ->]; [| by rewrite !blen_be_bytes].
  split; [| done]. rewrite <- (from_be_be_bytes_small w a), <- (from_be_be_bytes_small w b) by done. by rewrite Heq.
Qed.

Lemma reads_vec8 : reads vec_u8 vec8 (fun s => is_u8 (blen s)).
Proof. apply (reads_vec rd_u8 1 is_u8); [by intros ? [] | exact (be_bytes_prefix_inj 1) | apply reads_u8]. Qed.
Lemma reads_vec16 : reads vec_u16 vec16 (fun s => is_u16 (blen s)).
Proof. apply (reads_vec rd_u16 2 is_u16); [by intros ? [] | exact (be_bytes_prefix_inj 2) | apply reads_u16]. Qed.

Lemma reads_vec24 `{Usize} : reads vec_u24 vec24 (fun s => is_u24 (blen s)).
Proof.
  intros r l Hr Hok. pose proof (reads_vec rd_u24 3 is_u24) as Hv.
  specialize (Hv ltac:(by intros ? []) (be_bytes_prefix_inj 3) reads_u24 r l Hr Hok).
  assert (vec_u24 r = ('(n, r) ← rd_u24 r; take_n r n)) as ->; [| exact Hv]. unfold vec_u24.
  destruct (reads_u24 r l Hr Hok) as [(n & l' & r' & -> & Hn & _ & -> & _) | [_ ->]]; [| done]. cbn [mbind outcome_bind].
  rewrite (proj2 (Z.ltb_ge _ _)); [done |]. pose proof usize_max_ge. unfold is_u24, U24, U32 in *. lia.
Qed.

(** Encodings that are recognised from the front. *)
Definition prefix_code {A} (enc : A -> bytes) (ok : A -> Prop) : Prop :=
  forall a b l l', ok a -> ok b -> enc a ++ l = enc b ++ l' -> a = b /\ l = l'.

Lemma prefix_u8 : prefix_code (be_bytes 1) is_u8. Proof. exact (be_bytes_prefix_inj 1). Qed.
Lemma prefix_u16 : prefix_code (be_bytes 2) is_u16. Proof. exact (be_bytes_prefix_inj 2). Qed.
Lemma prefix_array N : prefix_code (fun s : bytes => s) (fun s => blen s = N).
Proof. intros a b l l' Ha Hb Heq. apply app_inj_blen in Heq; [done | by rewrite Ha, Hb]. Qed.

Lemma prefix_vec w (ok : Z -> Prop) :
  prefix_code (be_bytes w) ok -> prefix_code (fun s : bytes => be_bytes w (blen s) ++ s) (fun s => ok (blen s)).
Proof.
  intros Hp a b l l' Ha Hb Heq. rewrite <- !app_assoc in Heq. apply Hp in Heq as [Hl Heq]; [| done..]. by apply app_inj_blen in Heq.
Qed.
Lemma prefix_vec8 : prefix_code vec8 (fun s => is_u8 (blen s)). Proof. exact (prefix_vec 1 is_u8 prefix_u8). Qed.
Lemma prefix_vec16 : prefix_code vec16 (fun s => is_u16 (blen s)). Proof. exact (prefix_vec 2 is_u16 prefix_u16). Qed.
Lemma prefix_vec24 : prefix_code vec24 (fun s => is_u24 (blen s)).
Proof. exact (prefix_vec 3 is_u24 (be_bytes_prefix_inj 3)). Qed.

(** What was written is what is read. *)
Lemma reads_fwd {A} (m : Reader -> RM (A * Reader)) enc ok r a l :
  reads m enc ok -> prefix_code enc ok -> reader_at r (enc a ++ l) -> bytes_ok (enc a ++ l) -> ok a ->
  exists r', m r = Ok (a, r') /\ reader_at r' l /\ bytes_ok l.
Proof.
  intros Hm Hp Hr Hok Ha. destruct (Hm r _ Hr Hok) as [(b & l' & r' & Heq & Hb & Hok' & -> & Hr') | [Hno _]].
  - apply Hp in Heq as [-> ->]; [| done..]. by exists r'.
  - by destruct (Hno a l Ha).
Qed.

(** Read one field, in an [ensures] goal (any outcome) or towards a known result. *)
Ltac read_field L a l' r' Ha Hr Hok :=
  match goal with
  | Hr0 : reader_at ?r ?l, Hok0 : bytes_ok ?l |- ensures (?m ?r ≫= _) _ =>
      destruct (L r l Hr0 Hok0) as [(a & l' & r' & -> & Ha & Hok & -> & Hr) | [_ ->]]; [cbn [mbind outcome_bind] | exact I]
  end.

(** *** The extensions *)

Section parser_specs.
Context `{Usize, MlKemSizes} (ft : Features).

(** What a key_share entry for [group] gives: the shares of [x'] from [x]. *)
Definition share_rel (group : Z) (key : bytes) (x x' : ShSel) : Prop :=
  sel_version x' = sel_version x /\ sel_group x' = Some group /\
  if group =? KEY_SHARE_GROUP ft then
    if f_mlkem ft then
      (exists ct k, key = ct ++ k /\ blen ct = MLKEM768_CT_BYTES /\ blen k = 32 /\ sel_x25519 x' = Some k)
      /\ sel_hybrid x' = Some key /\ sel_p256 x' = sel_p256 x
    else if f_x25519_kx ft then
      blen key = 32 /\ sel_x25519 x' = Some key /\ sel_hybrid x' = sel_hybrid x /\ sel_p256 x' = sel_p256 x
    else blen key = 65 /\ sel_x25519 x' = sel_x25519 x /\ sel_hybrid x' = sel_hybrid x /\ sel_p256 x' = Some key
  else second_group ft = true /\ group = NAMED_GROUP_SECP256R1 /\
    blen key = 65 /\ sel_x25519 x' = sel_x25519 x /\ sel_hybrid x' = sel_hybrid x /\ sel_p256 x' = Some key.

Lemma sel_eq x y :
  sel_version x = sel_version y -> sel_group x = sel_group y -> sel_x25519 x = sel_x25519 y ->
  sel_hybrid x = sel_hybrid y -> sel_p256 x = sel_p256 y -> x = y.
Proof. destruct x, y. cbn. by intros -> -> -> -> ->. Qed.

Lemma as_array_iff N key k : as_array N key = Ok k <-> k = key /\ blen key = N.
Proof.
  unfold as_array. destruct (Z.eqb_spec (blen key) N); [| by split; [| intros [_ ?]]].
  split; [intros ?%Ok_inj; by subst | by intros [-> _]].
Qed.

Lemma hybrid_tail_iff key k :
  hybrid_tail key = Ok k <-> exists ct, key = ct ++ k /\ blen ct = MLKEM768_CT_BYTES /\ blen k = 32.
Proof.
  unfold hybrid_tail. pose proof mlkem_ct_nonneg. split.
  - destruct (Z.leb_spec MLKEM768_CT_BYTES (blen key)); [| done]. destruct (Z.eqb_spec (blen (drop (Z.to_nat MLKEM768_CT_BYTES) key)) 32); [| done].
    intros <-%Ok_inj. exists (take (Z.to_nat MLKEM768_CT_BYTES) key). split_and!; [by rewrite take_drop | rewrite blen_take; lia | done].
  - intros (ct & -> & Hct & Hk). rewrite (proj2 (Z.leb_le _ _)) by (rewrite blen_app; pose proof (blen_nonneg k); lia).
    rewrite <- Hct, to_nat_blen, drop_app_length. by rewrite (proj2 (Z.eqb_eq _ _)).
Qed.

Lemma no_panic_as_array N key : no_panic (as_array N key).
Proof. unfold as_array. by destruct (_ =? _). Qed.

Lemma sh_share_no_panic group key x : no_panic (sh_share ft group key x).
Proof.
  unfold sh_share. repeat split_guard; try done; apply no_panic_bind; try done; try apply no_panic_as_array.
  unfold hybrid_tail. by repeat split_guard.
Qed.

Lemma sh_share_iff group key x x' : sh_share ft group key x = Ok x' <-> share_rel group key x x'.
Proof.
  unfold sh_share, share_rel. destruct (group =? KEY_SHARE_GROUP ft).
  - destruct (f_mlkem ft); [| destruct (f_x25519_kx ft)].
    + split.
      * intros (k & Hk & <-%Ok_inj)%bind_Ok_inv. apply hybrid_tail_iff in Hk as (ct & ? & ? & ?). cbn. eauto 10.
      * intros (Hv & Hg & (ct & k & Hk & Hct & Hk32 & Hx) & Hh & Hp).
        rewrite (proj2 (hybrid_tail_iff key k)) by eauto. cbn. f_equal. by apply sel_eq.
    + split.
      * intros (k & Hk & <-%Ok_inj)%bind_Ok_inv. apply as_array_iff in Hk as [-> Hk]. by cbn.
      * intros (Hv & Hg & Hk & Hx & Hh & Hp). rewrite (proj2 (as_array_iff 32 key key)) by done. cbn. f_equal. by apply sel_eq.
    + split.
      * intros (k & Hk & <-%Ok_inj)%bind_Ok_inv. apply as_array_iff in Hk as [-> Hk]. by cbn.
      * intros (Hv & Hg & Hk & Hx & Hh & Hp). rewrite (proj2 (as_array_iff P256_SHARE_BYTES key key)) by done. cbn. f_equal. by apply sel_eq.
  - destruct (second_group ft); cbn [andb]; [| by split; [| intros (_ & _ & ? & _)]].
    destruct (Z.eqb_spec group NAMED_GROUP_SECP256R1); [| by split; [| intros (_ & _ & _ & ? & _)]].
    split.
    + intros (k & Hk & <-%Ok_inj)%bind_Ok_inv. apply as_array_iff in Hk as [-> Hk]. by cbn.
    + intros (Hv & Hg & _ & _ & Hk & Hx & Hh & Hp). rewrite (proj2 (as_array_iff P256_SHARE_BYTES key key)) by done. cbn. f_equal. by apply sel_eq.
Qed.

(** An extension of the ServerHello, and what it does to the locals. *)
Definition ext_rel (et : Z) (data : bytes) (x x' : ShSel) : Prop :=
  (et = EXT_SUPPORTED_VERSIONS /\ sel_version x = None /\ data = be_bytes 2 TLS_1_3 /\
   x' = {| sel_version := Some TLS_1_3; sel_group := sel_group x; sel_x25519 := sel_x25519 x;
           sel_hybrid := sel_hybrid x; sel_p256 := sel_p256 x |}) \/
  (et = EXT_KEY_SHARE /\ sel_group x = None /\ exists g k, is_u16 g /\ is_u16 (blen k) /\
   data = be_bytes 2 g ++ vec16 k /\ share_rel g k x x').

Lemma sh_extension_ok et data x :
  bytes_ok data -> ensures (sh_extension ft et data x) (fun x' => ext_rel et data x x').
Proof.
  intros Hok. unfold sh_extension, ext_rel.
  destruct (Z.eqb_spec et EXT_SUPPORTED_VERSIONS) as [-> | Hsv].
  - destruct (sel_version x); [exact I |]. cbn [is_some].
    destruct (Z.eqb_spec (blen data) 2) as [Hl |]; [| exact I]. cbn [negb].
    destruct data as [| a [| b [| ? d]]]; [done.. | | rewrite !blen_cons in Hl; pose proof (blen_nonneg d); lia].
    change (at_idx [a; b] 0) with (Some a). change (at_idx [a; b] 1) with (Some b). cbn [or_panic mbind outcome_bind].
    apply Forall_cons in Hok as [Ha Hb%Forall_inv]. destruct (Z.eqb_spec (be16 a b) TLS_1_3) as [Hv |]; [| exact I].
    left. split_and!; [done | done | by rewrite <- Hv, be_bytes_be16 | by rewrite Hv].
  - destruct (Z.eqb_spec et EXT_KEY_SHARE) as [-> | _]; [| exact I].
    destruct (sel_group x); [exact I |]. cbn [is_some]. pose proof (reader_at_new data) as Hr.
    read_field reads_u16 g l1 r1 Hg Hr1 Hok1. read_field reads_vec16 k l2 r2 Hk Hr2 Hok2.
    rewrite (at_end_at _ _ Hr2). destruct (bool_decide (l2 = [])) eqn:Hl2; [| exact I]. apply bool_decide_eq_true in Hl2 as ->. cbn [negb].
    apply ensures_intro; [apply sh_share_no_panic |]. intros x' Hx%sh_share_iff. right. rewrite app_nil_r. by eauto 10.
Qed.

Lemma sh_extension_complete et data x x' :
  bytes_ok data -> ext_rel et data x x' -> sh_extension ft et data x = Ok x'.
Proof.
  intros Hok [(-> & Hv & -> & ->) | (-> & Hg & g & k & Hgu & Hku & -> & Hx)]; unfold sh_extension.
  - rewrite Z.eqb_refl, Hv. reflexivity.
  - change (EXT_KEY_SHARE =? EXT_SUPPORTED_VERSIONS) with false. rewrite Z.eqb_refl, Hg. cbn [is_some].
    destruct (reads_fwd _ _ _ _ g (vec16 k) reads_u16 prefix_u16 (reader_at_new _) Hok Hgu) as (r1 & -> & Hr1 & Hok1). cbn [mbind outcome_bind].
    rewrite <- (app_nil_r (vec16 k)) in Hr1, Hok1.
    destruct (reads_fwd _ _ _ _ k [] reads_vec16 prefix_vec16 Hr1 Hok1 Hku) as (r2 & -> & Hr2 & _). cbn [mbind outcome_bind].
    rewrite (at_end_at _ _ Hr2). cbn. by apply sh_share_iff.
Qed.

(** The extensions in the order they come. *)
Inductive exts_rel : list (Z * bytes) -> ShSel -> ShSel -> Prop :=
| exts_nil x : exts_rel [] x x
| exts_cons et d exts x x1 x2 : ext_rel et d x x1 -> exts_rel exts x1 x2 -> exts_rel ((et, d) :: exts) x x2.

Lemma sh_ext_loop_ok fuel e l x :
  reader_at e l -> bytes_ok l -> (length l < fuel)%nat ->
  ensures (sh_ext_loop ft fuel e x) (fun x' => exists exts, l = exts_wire exts /\ exts_ok exts /\ exts_rel exts x x').
Proof.
  revert e l x. induction fuel as [| fuel IH]; intros e l x Hr Hok Hf; [lia |]. cbn [sh_ext_loop].
  rewrite (at_end_at _ _ Hr). destruct (bool_decide (l = [])) eqn:Hl.
  { apply bool_decide_eq_true in Hl as ->. exists []. split_and!; [done | constructor | constructor]. }
  read_field reads_u16 et l1 r1 Het Hr1 Hok1. read_field reads_vec16 d l2 r2 Hd Hr2 Hok2.
  apply bytes_ok_app in Hok as [_ [Hokd _]%bytes_ok_app]. unfold vec16 in Hokd. apply bytes_ok_app in Hokd as [_ Hokd].
  eapply ensures_bind; [by apply sh_extension_ok |]. intros x1 Hx1.
  eapply ensures_weaken; [apply (IH r2 l2); [done | done |] |].
  - rewrite !length_app, length_be_bytes in Hf. lia.
  - intros x' (exts & -> & Hexts & Hrel). exists ((et, d) :: exts). split_and!; [| by constructor | by econstructor].
    unfold exts_wire. cbn [flat_map fst snd]. unfold ext. by rewrite <- app_assoc.
Qed.

Lemma sh_ext_loop_complete fuel e exts x x' :
  reader_at e (exts_wire exts) -> bytes_ok (exts_wire exts) -> exts_ok exts -> (length (exts_wire exts) < fuel)%nat ->
  exts_rel exts x x' -> sh_ext_loop ft fuel e x = Ok x'.
Proof.
  intros Hr Hok Hexts Hf Hrel. revert fuel e Hr Hok Hexts Hf. induction Hrel as [x | et d exts x x1 x2 Hx _ IH]; intros fuel e Hr Hok Hexts Hf.
  - destruct fuel; [lia |]. cbn [sh_ext_loop]. by rewrite (at_end_at _ _ Hr).
  - destruct fuel as [| fuel]; [lia |]. cbn [sh_ext_loop]. apply Forall_cons in Hexts as [[Het Hd] Hexts]. cbn [fst snd] in *.
    unfold exts_wire in Hr, Hok, Hf. cbn [flat_map fst snd] in Hr, Hok, Hf. fold (exts_wire exts) in Hr, Hok, Hf.
    unfold ext in Hr, Hok, Hf. rewrite (at_end_at _ _ Hr). rewrite bool_decide_eq_false_2.
    2: { intros Hn%(f_equal length). rewrite !length_app, length_be_bytes in Hn. cbn in Hn. lia. }
    rewrite <- app_assoc in Hr, Hok.
    destruct (reads_fwd _ _ _ _ et _ reads_u16 prefix_u16 Hr Hok Het) as (r1 & -> & Hr1 & Hok1). cbn [mbind outcome_bind].
    destruct (reads_fwd _ _ _ _ d _ reads_vec16 prefix_vec16 Hr1 Hok1 Hd) as (r2 & -> & Hr2 & Hok2). cbn [mbind outcome_bind].
    unfold vec16 in Hok1. apply bytes_ok_app in Hok1 as [[_ Hokd]%bytes_ok_app _].
    rewrite (sh_extension_complete et d x x1) by done. cbn [mbind outcome_bind].
    apply IH; [done.. |]. rewrite !length_app, length_be_bytes in Hf. lia.
Qed.

(** Starting from nothing, the two mandatory extensions come once each, in some order. *)
Definition sv_ext : Z * bytes := (EXT_SUPPORTED_VERSIONS, be_bytes 2 TLS_1_3).
Definition ks_ext (g : Z) (k : bytes) : Z * bytes := (EXT_KEY_SHARE, be_bytes 2 g ++ vec16 k).

Lemma exts_rel_full exts x x' :
  exts_rel exts x x' -> is_Some (sel_version x) -> is_Some (sel_group x) -> exts = [] /\ x' = x.
Proof.
  intros Hr [v Hv] [g Hg]. destruct Hr as [x | et d exts x x1 x2 Hx _]; [done |].
  destruct Hx as [(_ & Hx & _) | (_ & Hx & _)]; congruence.
Qed.

Lemma exts_rel_inv exts x' :
  exts_rel exts ShSel_new x' -> is_Some (sel_group x') -> is_Some (sel_version x') ->
  exists g k, is_u16 g /\ is_u16 (blen k) /\ (exts = [sv_ext; ks_ext g k] \/ exts = [ks_ext g k; sv_ext]) /\
    sel_version x' = Some TLS_1_3 /\ share_rel g k {| sel_version := sel_version x'; sel_group := None; sel_x25519 := None; sel_hybrid := None; sel_p256 := None |} x'.
Proof.
  intros Hr Hg Hv. destruct Hg as [g0 Hg]. destruct Hv as [v0 Hv].
  inversion Hr as [? | et d exts1 ? x1 ? Hx Hr1]; subst; [done |].
  destruct Hx as [(-> & _ & -> & ->) | (-> & _ & g & k & Hgu & Hku & -> & Hx)].
  - inversion Hr1 as [? | et d exts2 ? x2 ? Hx Hr2]; subst; [done |].
    destruct Hx as [(_ & ? & _) | (-> & _ & g & k & Hgu & Hku & -> & Hx)]; [done |].
    pose proof Hx as (Hx1 & Hx2 & _). destruct (exts_rel_full _ _ _ Hr2) as [-> ->]; [by rewrite Hx1 | by rewrite Hx2 |].
    exists g, k. split_and!; [done | done | by left | done | by rewrite Hx1].
  - pose proof Hx as (Hx1 & Hx2 & _). inversion Hr1 as [? | et d exts2 ? x2 ? Hy Hr2]; subst; [rewrite Hx1 in Hv; done |].
    destruct Hy as [(-> & _ & -> & ->) | (_ & Hy & _)]; [| rewrite Hx2 in Hy; done].
    destruct (exts_rel_full _ _ _ Hr2) as [-> ->]; [done | by rewrite Hx2 |].
    exists g, k. split_and!; [done | done | by right | done |]. destruct Hx as (_ & _ & Hx). by split_and!.
Qed.

(** *** The whole record *)

Definition sh_body_wire (random sid : bytes) (suite : Z) (exts : list (Z * bytes)) : bytes :=
  be_bytes 2 LEGACY_VERSION ++ random ++ vec8 sid ++ be_bytes 2 suite ++ be_bytes 1 0 ++ vec16 (exts_wire exts).
Definition server_hello_wire (random sid : bytes) (suite : Z) (exts : list (Z * bytes)) : bytes :=
  be_bytes 1 CT_HANDSHAKE ++ be_bytes 2 LEGACY_VERSION
  ++ vec16 (be_bytes 1 HS_SERVER_HELLO ++ vec24 (sh_body_wire random sid suite exts)).

(** What the profile accepts, and how the view reflects it. *)
Definition sh_accepts (v : ServerHelloView) (input : bytes) : Prop :=
  blen (sh_random v) = 32 /\ sh_random v <> HRR_RANDOM /\
  drop 24 (sh_random v) <> DOWNGRADE_TLS12 /\ drop 24 (sh_random v) <> DOWNGRADE_TLS11_OR_BELOW /\
  blen (sh_session_id_echo v) <= 32 /\
  (sh_cipher_suite v = CIPHER_AES_128_GCM_SHA256 \/ f_chacha20 ft = true /\ sh_cipher_suite v = CIPHER_CHACHA20_POLY1305_SHA256) /\
  sh_selected_version v = TLS_1_3 /\
  exists key exts,
    is_u16 (sh_selected_group v) /\ is_u16 (blen key) /\
    share_rel (sh_selected_group v) key ShSel_new
      {| sel_version := None; sel_group := Some (sh_selected_group v); sel_x25519 := sh_x25519_share v;
         sel_hybrid := sh_hybrid_share v; sel_p256 := sh_p256_share v |} /\
    (exts = [sv_ext; ks_ext (sh_selected_group v) key] \/ exts = [ks_ext (sh_selected_group v) key; sv_ext]) /\
    input = server_hello_wire (sh_random v) (sh_session_id_echo v) (sh_cipher_suite v) exts /\
    blen input <= 5 + 65535.

Lemma downgraded_false random : downgraded random = false <-> drop 24 random <> DOWNGRADE_TLS12 /\ drop 24 random <> DOWNGRADE_TLS11_OR_BELOW.
Proof. unfold downgraded. by rewrite orb_false_iff, !bool_decide_eq_false. Qed.

Lemma suite_accepted_iff s :
  suite_accepted ft s = true <-> s = CIPHER_AES_128_GCM_SHA256 \/ f_chacha20 ft = true /\ s = CIPHER_CHACHA20_POLY1305_SHA256.
Proof. unfold suite_accepted. by rewrite orb_true_iff, andb_true_iff, !Z.eqb_eq. Qed.

Lemma parse_server_hello_ok input :
  bytes_ok input -> ensures (parse_server_hello ft input) (fun v => sh_accepts v input).
Proof.
  intros Hok0. unfold parse_server_hello. pose proof (reader_at_new input) as Hr0.
  read_field reads_u8 ct l1 r1 Hct Hr1 Hok1. destruct (Z.eqb_spec ct CT_HANDSHAKE) as [-> |]; [| exact I]. cbn [negb].
  read_field reads_u16 rv l2 r2 Hrv Hr2 Hok2. destruct (Z.eqb_spec rv LEGACY_VERSION) as [-> |]; [| exact I]. cbn [negb].
  read_field reads_vec16 rb l3 r3 Hrb Hr3 Hok3. rewrite (at_end_at _ _ Hr3).
  destruct (bool_decide (l3 = [])) eqn:Hl3; [| exact I]. apply bool_decide_eq_true in Hl3 as ->. cbn [negb].
  assert (bytes_ok rb) as Hokb by (unfold vec16 in Hok2; by apply bytes_ok_app in Hok2 as [[_ Hx]%bytes_ok_app _]).
  clear Hr0 Hr1 Hr2 Hr3. pose proof (reader_at_new rb) as Hr0.
  read_field reads_u8 hst l4 r4 Hhst Hr4 Hok4. destruct (Z.eqb_spec hst HS_SERVER_HELLO) as [-> |]; [| exact I]. cbn [negb].
  read_field reads_vec24 hb l5 r5 Hhb Hr5 Hok5. rewrite (at_end_at _ _ Hr5).
  destruct (bool_decide (l5 = [])) eqn:Hl5; [| exact I]. apply bool_decide_eq_true in Hl5 as ->. cbn [negb].
  assert (bytes_ok hb) as Hokh by (unfold vec24 in Hok4; by apply bytes_ok_app in Hok4 as [[_ Hx]%bytes_ok_app _]).
  clear Hr0 Hr4 Hr5. pose proof (reader_at_new hb) as Hr0.
  read_field reads_u16 lv l6 r6 Hlv Hr6 Hok6. destruct (Z.eqb_spec lv LEGACY_VERSION) as [-> |]; [| exact I]. cbn [negb].
  read_field (reads_array 32 ltac:(done)) random l7 r7 Hrand Hr7 Hok7.
  destruct (bool_decide (random = HRR_RANDOM)) eqn:Hhrr; [exact I |]. apply bool_decide_eq_false in Hhrr.
  destruct (downgraded random) eqn:Hdg; [exact I |]. apply downgraded_false in Hdg as [Hd1 Hd2].
  read_field reads_vec8 sid l8 r8 Hsid Hr8 Hok8. destruct (Z.ltb_spec LEGACY_SESSION_ID_LEN (blen sid)); [exact I |].
  read_field reads_u16 cs l9 r9 Hcs Hr9 Hok9. destruct (suite_accepted ft cs) eqn:Hacc; [| exact I]. cbn [negb]. apply suite_accepted_iff in Hacc.
  read_field reads_u8 comp l10 r10 Hcomp Hr10 Hok10. destruct (Z.eqb_spec comp 0) as [-> |]; [| exact I]. cbn [negb].
  read_field reads_vec16 eb l11 r11 Heb Hr11 Hok11. rewrite (at_end_at _ _ Hr11).
  destruct (bool_decide (l11 = [])) eqn:Hl11; [| exact I]. apply bool_decide_eq_true in Hl11 as ->. cbn [negb].
  assert (bytes_ok eb) as Hoke by (unfold vec16 in Hok10; by apply bytes_ok_app in Hok10 as [[_ Hx]%bytes_ok_app _]).
  eapply ensures_bind; [apply sh_ext_loop_ok; [apply reader_at_new | done | lia] |].
  intros x (exts & -> & Hexts & Hrel).
  eapply ensures_bind; [apply ensures_ok_or_eq |]. intros g Hg.
  destruct (_ && _); [exact I |]. eapply ensures_bind; [apply ensures_ok_or_eq |]. intros ver Hver. cbn [ensures].
  destruct (exts_rel_inv exts x Hrel) as (g' & k & Hgu & Hku & He & Hv & Hs); [by rewrite Hg | by rewrite Hver |].
  pose proof Hs as (_ & Hg' & Hs'). assert (g' = g) as -> by congruence. rewrite Hver in Hv. apply (inj Some) in Hv as ->.
  unfold sh_accepts. cbn [sh_random sh_session_id_echo sh_cipher_suite sh_selected_version sh_selected_group sh_x25519_share sh_hybrid_share sh_p256_share].
  split_and!; try done. exists k, exts. split_and!; try done.
  - unfold server_hello_wire, sh_body_wire. by rewrite !app_nil_r.
  - set (rb := be_bytes 1 HS_SERVER_HELLO ++ _) in *. rewrite blen_app, blen_app, blen_app, blen_vec16, !blen_be_bytes, blen_nil.
    unfold is_u16, U16 in Hrb. lia.
Qed.

(** Read the field that the input is known to start with. *)
Ltac read_known a L P :=
  match goal with
  | Hr : reader_at ?r (_ ++ _), Hok : bytes_ok (_ ++ _) |- _ =>
      let r' := fresh "r" in let Hr' := fresh "Hr" in let Hok' := fresh "Hok" in
      destruct (reads_fwd _ _ _ _ a _ L P Hr Hok) as (r' & -> & Hr' & Hok');
      [| clear Hr Hok; cbn [mbind outcome_bind] ]
  end.

Lemma start_reader l : bytes_ok l -> exists r, r = Reader_new l /\ reader_at r l /\ bytes_ok l.
Proof. intros. exists (Reader_new l). split_and!; [done | apply reader_at_new | done]. Qed.

Lemma exts_rel_intro v g key exts :
  is_u16 g -> is_u16 (blen key) ->
  share_rel g key ShSel_new
    {| sel_version := None; sel_group := Some g; sel_x25519 := sh_x25519_share v; sel_hybrid := sh_hybrid_share v; sel_p256 := sh_p256_share v |} ->
  exts = [sv_ext; ks_ext g key] \/ exts = [ks_ext g key; sv_ext] ->
  exts_rel exts ShSel_new
    {| sel_version := Some TLS_1_3; sel_group := Some g; sel_x25519 := sh_x25519_share v; sel_hybrid := sh_hybrid_share v; sel_p256 := sh_p256_share v |}.
Proof.
  intros Hg Hk (_ & _ & Hs) [-> | ->].
  - eapply exts_cons; [by left; split_and! |]. eapply exts_cons; [| apply exts_nil]. right.
    split_and!; [done | done |]. exists g, key. by split_and!.
  - eapply (exts_cons _ _ _ _ {| sel_version := None; sel_group := Some g; sel_x25519 := sh_x25519_share v;
       sel_hybrid := sh_hybrid_share v; sel_p256 := sh_p256_share v |}).
    + right. split_and!; [done | done |]. exists g, key. by split_and!.
    + eapply exts_cons; [by left; split_and! |]. apply exts_nil.
Qed.

Lemma sh_exts_ok g key exts :
  blen (exts_wire exts) < U16 -> exts = [sv_ext; ks_ext g key] \/ exts = [ks_ext g key; sv_ext] -> exts_ok exts.
Proof.
  intros Hlen He. assert (blen (be_bytes 2 g ++ vec16 key) = 4 + blen key) as Hl by (rewrite blen_app, blen_vec16, blen_be_bytes; lia).
  assert (is_u16 (sv_ext.1) /\ is_u16 (blen (sv_ext.2))) as Hsv by (by vm_compute).
  assert (is_u16 (ks_ext g key).1 /\ is_u16 (blen (ks_ext g key).2)) as Hks.
  { split; [done |]. cbn [ks_ext snd]. rewrite Hl. pose proof (blen_nonneg key). unfold is_u16.
    destruct He as [-> | ->]; rewrite !blen_exts_wire_cons in Hlen; cbn [snd ks_ext sv_ext] in Hlen; rewrite Hl in Hlen;
      change (blen (exts_wire [])) with 0 in Hlen; rewrite blen_be_bytes in Hlen; lia. }
  destruct He as [-> | ->]; (apply Forall_cons; split; [done |]); (apply Forall_cons; split; [done | apply Forall_nil_2]).
Qed.

Lemma sh_sizes random sid suite exts :
  blen (server_hello_wire random sid suite exts) <= 5 + 65535 ->
  is_u16 (blen (be_bytes 1 HS_SERVER_HELLO ++ vec24 (sh_body_wire random sid suite exts))) /\
  is_u24 (blen (sh_body_wire random sid suite exts)) /\ is_u16 (blen (exts_wire exts)).
Proof.
  unfold server_hello_wire. rewrite blen_app, blen_app, blen_vec16, !(blen_app (be_bytes 1 _)), blen_vec24, !blen_be_bytes.
  pose proof (blen_nonneg (exts_wire exts)).
  assert (blen (exts_wire exts) <= blen (sh_body_wire random sid suite exts)).
  { unfold sh_body_wire. rewrite !blen_app, !blen_vec16, !blen_be_bytes.
    pose proof (blen_nonneg random). pose proof (blen_nonneg (vec8 sid)). lia. }
  unfold is_u16, is_u24, U16, U24. lia.
Qed.

Lemma parse_server_hello_complete v input :
  (f_mlkem ft = true -> f_x25519_kx ft = true) ->
  bytes_ok input -> sh_accepts v input -> parse_server_hello ft input = Ok v.
Proof.
  intros Hfeat Hok0 (Hrand & Hhrr & Hd1 & Hd2 & Hsid & Hcs & Hver & key & exts & Hg & Hk & Hs & He & -> & Hlen).
  pose proof (exts_rel_intro v _ _ _ Hg Hk Hs He) as Hrel.
  destruct (sh_sizes _ _ _ _ Hlen) as (Hm & HB & HW).
  pose proof (sh_exts_ok _ _ _ ltac:(apply HW) He) as Hexts. clear He Hlen.
  unfold parse_server_hello. destruct (start_reader _ Hok0) as (r0 & <- & Hr0 & Hokr0). clear Hok0.
  unfold server_hello_wire in Hr0, Hokr0. rewrite <- (app_nil_r (vec16 (_ ++ _))) in Hr0, Hokr0.
  read_known CT_HANDSHAKE reads_u8 prefix_u8; [done |]. rewrite Z.eqb_refl. cbn [negb].
  read_known LEGACY_VERSION reads_u16 prefix_u16; [done |]. rewrite Z.eqb_refl. cbn [negb].
  match goal with Hok : bytes_ok (vec16 ?rb ++ _) |- _ =>
    assert (bytes_ok rb) as Hokb by (by apply bytes_ok_app in Hok as [[_ Hx]%bytes_ok_app _]) end.
  read_known (be_bytes 1 HS_SERVER_HELLO ++ vec24 (sh_body_wire (sh_random v) (sh_session_id_echo v) (sh_cipher_suite v) exts)) reads_vec16 prefix_vec16; [done |].
  erewrite at_end_at by done. rewrite bool_decide_eq_true_2 by done. cbn [negb].
  destruct (start_reader _ Hokb) as (r4 & <- & Hr4 & Hokr4). rewrite <- (app_nil_r (vec24 _)) in Hr4, Hokr4.
  read_known HS_SERVER_HELLO reads_u8 prefix_u8; [done |]. rewrite Z.eqb_refl. cbn [negb].
  set (B := sh_body_wire _ _ _ _) in *. match goal with Hok : bytes_ok (vec24 B ++ _) |- _ =>
    assert (bytes_ok B) as HokB by (by apply bytes_ok_app in Hok as [[_ Hx]%bytes_ok_app _]) end.
  read_known B reads_vec24 prefix_vec24; [done |].
  erewrite at_end_at by done. rewrite bool_decide_eq_true_2 by done. cbn [negb].
  destruct (start_reader _ HokB) as (rb & <- & Hrb & Hokrb). unfold B, sh_body_wire in Hrb, Hokrb. rewrite <- (app_nil_r (vec16 _)) in Hrb, Hokrb.
  read_known LEGACY_VERSION reads_u16 prefix_u16; [done |]. rewrite Z.eqb_refl. cbn [negb].
  read_known (sh_random v) (reads_array 32 ltac:(done)) (prefix_array 32); [done |].
  rewrite bool_decide_eq_false_2 by exact Hhrr. rewrite (proj2 (downgraded_false _) (conj Hd1 Hd2)).
  read_known (sh_session_id_echo v) reads_vec8 prefix_vec8; [unfold is_u8, U8; pose proof (blen_nonneg (sh_session_id_echo v)); lia |].
  rewrite (proj2 (Z.ltb_ge _ _)) by done.
  read_known (sh_cipher_suite v) reads_u16 prefix_u16; [by destruct Hcs as [-> | [_ ->]] |].
  rewrite (proj2 (suite_accepted_iff _)) by done. cbn [negb].
  read_known 0 reads_u8 prefix_u8; [done |]. rewrite Z.eqb_refl. cbn [negb].
  match goal with Hok : bytes_ok (vec16 ?eb ++ _) |- _ =>
    assert (bytes_ok eb) as HokW by (by apply bytes_ok_app in Hok as [[_ Hx]%bytes_ok_app _]) end.
  read_known (exts_wire exts) reads_vec16 prefix_vec16; [done |].
  erewrite at_end_at by done. rewrite bool_decide_eq_true_2 by done. cbn [negb].
  erewrite sh_ext_loop_complete; [| apply reader_at_new | done | done | lia | done].
  cbn [mbind outcome_bind ok_or sel_group sel_version sel_x25519 sel_hybrid sel_p256].
  assert ((sh_selected_group v =? KEY_SHARE_GROUP ft) && negb (is_some (if f_x25519_kx ft then sh_x25519_share v else sh_p256_share v)) = false) as ->.
  { destruct Hs as (_ & _ & Hs). destruct (_ =? _); [| done]. cbn [andb].
    destruct (f_mlkem ft); [rewrite Hfeat by done; destruct Hs as [(ct & x & _ & _ & _ & Hx) _]; cbn in Hx; by rewrite Hx |].
    destruct (f_x25519_kx ft); cbn in Hs; [destruct Hs as (_ & -> & _) | destruct Hs as (_ & _ & _ & ->)]; done. }
  rewrite <- Hver. by destruct v.
Qed.
End parser_specs.

(** C24. [parse_server_hello] returns a view exactly for the records the profile accepts: one
    complete handshake record with one ServerHello whose random is neither the
    HelloRetryRequest value nor carries a downgrade sentinel, with an offered suite, a
    session id of at most 32 bytes, and exactly supported_versions (TLS 1.3) and one
    key_share of an advertised group and of that group's length, in either order, and
    nothing after any of them; and the view holds that record's fields. Any other input is
    an error, never a panic. *)
Theorem tls_server_hello_exact `{Usize, MlKemSizes} (ft : Features) (input : bytes) :
  (f_mlkem ft = true -> f_x25519_kx ft = true) -> bytes_ok input ->
  no_panic (parse_server_hello ft input) /\
  forall v, parse_server_hello ft input = Ok v <-> sh_accepts ft v input.
Proof.
  intros Hfeat Hok. pose proof (parse_server_hello_ok ft input Hok) as He. split; [by eapply ensures_no_panic |].
  intros v. split; [| by apply parse_server_hello_complete]. intros Hv. by rewrite Hv in He.
Qed.

Section parser_witness.
#[local] Existing Instances usize32 ml_kem_model.

(** key_share before supported_versions. *)
Definition demo_server_hello : bytes :=
  server_hello_wire (zeros 32) (zeros 32) CIPHER_AES_128_GCM_SHA256 [ks_ext NAMED_GROUP_X25519 (be_bytes 32 77); sv_ext].
Definition demo_view : ServerHelloView := {|
  sh_random := zeros 32; sh_session_id_echo := zeros 32; sh_cipher_suite := CIPHER_AES_128_GCM_SHA256;
  sh_selected_version := TLS_1_3; sh_selected_group := NAMED_GROUP_X25519;
  sh_x25519_share := Some (be_bytes 32 77); sh_hybrid_share := None; sh_p256_share := None |}.

Lemma tls_server_hello_exact_witness : sh_accepts demo_features demo_view demo_server_hello.
Proof.
  assert (bytes_ok demo_server_hello) as Hok by (apply bytes_okb_sound; vm_compute; reflexivity).
  apply (tls_server_hello_exact demo_features demo_server_hello ltac:(discriminate) Hok).
  vm_compute. reflexivity.
Defined.
End parser_witness.
