(* ===== verification/Cert.v ===== *)
(** * [traits/cert.rs], [traits/verify_provider.rs], [traits/verify_strategy.rs]

    Parsed certificates, the per-algorithm signature backends as an interface with
    the contract the stack relies on, the prepared verifier with its SPKI
    cross-check, and the chain verification of [SafeStrategy].  A build without a
    cargo feature is the part of the model in which the feature's constructors do
    not occur. *)
From S2P Require Import Prelude Deps.

(** ** [traits/cert.rs] *)

Inductive RsaCertSigAlg := Pkcs1v15Sha256 | PssSha256.

Inductive CertView :=
| CvEd25519 (tbs signature pubkey : bytes) (san : option bytes) (validity_der : bytes)
| CvRsa (tbs signature : bytes) (outer_sig_alg : option RsaCertSigAlg) (modulus : bytes)
    (exponent : Z) (san : option bytes) (validity_der : bytes)
| CvMlDsa (tbs signature pubkey : bytes) (san : option bytes) (validity_der : bytes)
| CvEcdsaP256 (tbs signature pubkey : bytes) (outer_sig_alg : option RsaCertSigAlg)
    (san : option bytes) (validity_der : bytes)
| CvEcdsaP384 (tbs signature pubkey : bytes) (outer_sig_alg : option RsaCertSigAlg)
    (san : option bytes) (validity_der : bytes).

Definition cv_tbs (v : CertView) : bytes :=
  match v with
  | CvEd25519 tbs _ _ _ _ | CvRsa tbs _ _ _ _ _ _ | CvMlDsa tbs _ _ _ _
  | CvEcdsaP256 tbs _ _ _ _ _ | CvEcdsaP384 tbs _ _ _ _ _ => tbs
  end.

Definition cv_san (v : CertView) : option bytes :=
  match v with
  | CvEd25519 _ _ _ san _ | CvRsa _ _ _ _ _ san _ | CvMlDsa _ _ _ san _
  | CvEcdsaP256 _ _ _ _ san _ | CvEcdsaP384 _ _ _ _ san _ => san
  end.

Definition cv_validity_der (v : CertView) : bytes :=
  match v with
  | CvEd25519 _ _ _ _ d | CvRsa _ _ _ _ _ _ d | CvMlDsa _ _ _ _ d
  | CvEcdsaP256 _ _ _ _ _ d | CvEcdsaP384 _ _ _ _ _ d => d
  end.

(** The signature slice, as [verify_link] projects it. *)
Definition cv_signature (v : CertView) : bytes :=
  match v with
  | CvEd25519 _ s _ _ _ | CvRsa _ s _ _ _ _ _ | CvMlDsa _ s _ _ _
  | CvEcdsaP256 _ s _ _ _ _ | CvEcdsaP384 _ s _ _ _ _ => s
  end.

(** The array types of the Ed25519 variant. *)
Definition view_ok (v : CertView) : Prop :=
  match v with
  | CvEd25519 _ s k _ _ => blen s = 64 /\ blen k = 32
  | _ => True
  end.

Inductive CertParseError :=
| CpMalformed | CpUnhandledCriticalExtension | CpWrongPubkeyLength | CpWrongSignatureLength
| CpBitStringHasUnusedBits | CpTrailingBytes | CpWrongAlgorithmOid | CpAlgorithmHasParameters
| CpSignatureAlgorithmMismatch | CpUnsupportedCertVersion | CpBadRsaPubkey
| CpUnsupportedRsaKeySize | CpWrongMlDsaPubkeyLength | CpWrongEcdsaPubkey.

Record CaConstraints := { is_ca : bool; path_len : option Z; key_cert_sign : option bool }.

(** The slices of a view are slices of bytes. *)
Definition view_bytes_ok (v : CertView) : Prop := bytes_ok (cv_tbs v) /\ bytes_ok (cv_signature v).

(** [trait CertParser] *)
Class CertParser := {
  parse : bytes -> outcome CertParseError CertView;
  parse_ca_constraints : bytes -> outcome CertParseError CaConstraints;
  spki_der : bytes -> outcome CertParseError bytes;
  parse_view_ok d v : parse d = Ok v -> view_ok v;
  (** A view borrows from the certificate. *)
  parse_san d v san : bytes_ok d -> parse d = Ok v -> cv_san v = Some san -> bytes_ok san /\ blen san <= blen d;
  parse_bytes d v : bytes_ok d -> parse d = Ok v -> view_bytes_ok v;
  parse_total d : bytes_ok d -> no_panic (parse d);
  parse_ca_total d : bytes_ok d -> no_panic (parse_ca_constraints d);
  spki_total d : bytes_ok d -> no_panic (spki_der d)
}.

(** ** [traits/verify_provider.rs] *)

Inductive SigAlgo := AlgEd25519 | AlgRsa | AlgEcdsaP256 | AlgEcdsaP384 | AlgMlDsa.

Record RsaKeyMaterial := { rk_modulus : bytes; rk_exponent : Z }.
Record RsaSig := { rs_scheme : RsaCertSigAlg; rs_bytes : bytes }.

(** The associated types [Pubkey], [KeyMat] and [Sig]. *)
Definition Pubkey (a : SigAlgo) : Type :=
  match a with AlgRsa => RsaKeyMaterial | _ => bytes end.
Definition Sig (a : SigAlgo) : Type :=
  match a with AlgRsa => RsaSig | _ => bytes end.

(** [trait SigVerifierProvider<A>] with the contract of [VerifierKeyMaterial]: a
    verifier remembers the key it was built from, [matches] compares that key, and
    [verify] accepts only signatures valid under it. *)
Class SigVerifierProvider (a : SigAlgo) := {
  Verifier : Type;
  prepare : Pubkey a -> option Verifier;
  verify : Verifier -> bytes -> Sig a -> bool;
  matches : Verifier -> Pubkey a -> bool;
  key_of : Verifier -> Pubkey a;
  valid_sig : Pubkey a -> bytes -> Sig a -> Prop;
  prepare_key k v : prepare k = Some v -> key_of v = k;
  verify_valid v m s : verify v m s = true -> valid_sig (key_of v) m s;
  matches_key v k : matches v k = true <-> key_of v = k
}.
Arguments Verifier a {_}.
Arguments prepare a {_} _.
Arguments verify a {_} _ _ _.
Arguments matches a {_} _ _.
Arguments key_of a {_} _.
Arguments valid_sig a {_} _ _ _.

(** [trait VerifierBackend]: one provider per algorithm. *)
Class VerifierBackend := { provider :: forall a, SigVerifierProvider a }.

(** ** [PreparedVerifier] *)

Section prepared.
Context `{VerifierBackend}.

Inductive PreparedVerifier :=
| PvEd25519 (v : Verifier AlgEd25519)
| PvRsa (v : Verifier AlgRsa)
| PvMlDsa (v : Verifier AlgMlDsa)
| PvEcdsaP256 (v : Verifier AlgEcdsaP256)
| PvEcdsaP384 (v : Verifier AlgEcdsaP384).

Definition matches_cert (pv : PreparedVerifier) (view : CertView) : bool :=
  match pv, view with
  | PvEd25519 v, CvEd25519 _ _ pubkey _ _ => matches AlgEd25519 v pubkey
  | PvRsa v, CvRsa _ _ _ modulus exponent _ _ =>
      matches AlgRsa v {| rk_modulus := modulus; rk_exponent := exponent |}
  | PvMlDsa v, CvMlDsa _ _ pubkey _ _ => matches AlgMlDsa v pubkey
  | PvEcdsaP256 v, CvEcdsaP256 _ _ pubkey _ _ _ =>
      if blen pubkey =? 65 then matches AlgEcdsaP256 v pubkey else false
  | PvEcdsaP384 v, CvEcdsaP384 _ _ pubkey _ _ _ =>
      if blen pubkey =? 97 then matches AlgEcdsaP384 v pubkey else false
  | _, _ => false
  end.

Inductive PrepareLeafErr := PlEd25519 | PlRsa | PlMlDsa | PlEcdsa.

Definition prepare_leaf (leaf : CertView) : outcome PrepareLeafErr PreparedVerifier :=
  match leaf with
  | CvEd25519 _ _ pubkey _ _ =>
      v ← ok_or (prepare AlgEd25519 pubkey) PlEd25519; Ok (PvEd25519 v)
  | CvRsa _ _ _ modulus exponent _ _ =>
      v ← ok_or (prepare AlgRsa {| rk_modulus := modulus; rk_exponent := exponent |}) PlRsa;
      Ok (PvRsa v)
  | CvMlDsa _ _ pubkey _ _ => v ← ok_or (prepare AlgMlDsa pubkey) PlMlDsa; Ok (PvMlDsa v)
  | CvEcdsaP256 _ _ pubkey _ _ _ =>
      if negb (blen pubkey =? 65) then Err PlEcdsa else
      v ← ok_or (prepare AlgEcdsaP256 pubkey) PlEcdsa; Ok (PvEcdsaP256 v)
  | CvEcdsaP384 _ _ pubkey _ _ _ =>
      if negb (blen pubkey =? 97) then Err PlEcdsa else
      v ← ok_or (prepare AlgEcdsaP384 pubkey) PlEcdsa; Ok (PvEcdsaP384 v)
  end.

Inductive LinkErr :=
| LkLinkSignatureInvalid | LkUnknownLinkSigAlg | LkRsaVerifierInvalid | LkMlDsaVerifierInvalid.

(** [Verifier::verify] followed by [map_err]. *)
Definition check {E} (b : bool) (e : E) : outcome E unit := if b then Ok tt else Err e.

(** The child's outer RSA padding scheme, when it carries one. *)
Definition link_rsa_alg (child : CertView) : outcome LinkErr RsaCertSigAlg :=
  match child with
  | CvRsa _ _ alg _ _ _ _ => ok_or alg LkUnknownLinkSigAlg
  | CvEcdsaP256 _ _ _ alg _ _ | CvEcdsaP384 _ _ _ alg _ _ => ok_or alg LkUnknownLinkSigAlg
  | _ => Err LkUnknownLinkSigAlg
  end.

Definition verify_link (child parent : CertView) : outcome LinkErr unit :=
  let child_tbs := cv_tbs child in
  let child_sig := cv_signature child in
  match parent with
  | CvEd25519 _ _ pubkey _ _ =>
      v ← ok_or (prepare AlgEd25519 pubkey) LkLinkSignatureInvalid;
      if negb (blen child_sig =? 64) then Err LkLinkSignatureInvalid else
      check (verify AlgEd25519 v child_tbs child_sig) LkLinkSignatureInvalid
  | CvMlDsa _ _ pubkey _ _ =>
      v ← ok_or (prepare AlgMlDsa pubkey) LkMlDsaVerifierInvalid;
      check (verify AlgMlDsa v child_tbs child_sig) LkLinkSignatureInvalid
  | CvRsa _ _ _ modulus exponent _ _ =>
      alg ← link_rsa_alg child;
      v ← ok_or (prepare AlgRsa {| rk_modulus := modulus; rk_exponent := exponent |})
            LkRsaVerifierInvalid;
      check (verify AlgRsa v child_tbs {| rs_scheme := alg; rs_bytes := child_sig |})
        LkLinkSignatureInvalid
  | CvEcdsaP256 _ _ pubkey _ _ _ =>
      if negb (blen pubkey =? 65) then Err LkLinkSignatureInvalid else
      v ← ok_or (prepare AlgEcdsaP256 pubkey) LkLinkSignatureInvalid;
      check (verify AlgEcdsaP256 v child_tbs child_sig) LkLinkSignatureInvalid
  | CvEcdsaP384 _ _ pubkey _ _ _ =>
      if negb (blen pubkey =? 97) then Err LkLinkSignatureInvalid else
      v ← ok_or (prepare AlgEcdsaP384 pubkey) LkLinkSignatureInvalid;
      check (verify AlgEcdsaP384 v child_tbs child_sig) LkLinkSignatureInvalid
  end.
End prepared.

(** ** [SafeStrategy] *)

(** [trait Clock] *)
Class Clock := { check_validity : CertView -> bool }.

(** [NoClock] *)
Definition NoClock : Clock := {| check_validity _ := true |}.

(** [trait TrustRootDecision] *)
Record TrustRootDecision (TE : Type) := {
  anchors_at_leaf : bool;
  accept_chain : list CertView -> outcome TE unit
}.
Arguments anchors_at_leaf {TE} _.
Arguments accept_chain {TE} _ _.

Inductive SafeStrategyError (TE : Type) :=
| SsParse (e : CertParseError)
| SsChainTooLong | SsEmptyChain | SsLinkSignatureInvalid | SsEd25519VerifierInvalid
| SsUnknownLinkSigAlg | SsRsaVerifierInvalid | SsMlDsaVerifierInvalid | SsEcdsaVerifierInvalid
| SsDecision (e : TE)
| SsValidity.
Arguments SsParse {TE} _.
Arguments SsChainTooLong {TE}.
Arguments SsEmptyChain {TE}.
Arguments SsLinkSignatureInvalid {TE}.
Arguments SsEd25519VerifierInvalid {TE}.
Arguments SsUnknownLinkSigAlg {TE}.
Arguments SsRsaVerifierInvalid {TE}.
Arguments SsMlDsaVerifierInvalid {TE}.
Arguments SsEcdsaVerifierInvalid {TE}.
Arguments SsDecision {TE} _.
Arguments SsValidity {TE}.

Definition safe_of_prepare {TE} (e : PrepareLeafErr) : SafeStrategyError TE :=
  match e with
  | PlEd25519 => SsEd25519VerifierInvalid
  | PlRsa => SsRsaVerifierInvalid
  | PlMlDsa => SsMlDsaVerifierInvalid
  | PlEcdsa => SsEcdsaVerifierInvalid
  end.

Definition safe_of_link {TE} (e : LinkErr) : SafeStrategyError TE :=
  match e with
  | LkLinkSignatureInvalid => SsLinkSignatureInvalid
  | LkUnknownLinkSigAlg => SsUnknownLinkSigAlg
  | LkRsaVerifierInvalid => SsRsaVerifierInvalid
  | LkMlDsaVerifierInvalid => SsMlDsaVerifierInvalid
  end.

Definition SAFE_STRATEGY_CHAIN_CAP : Z := 8.

Section safe_strategy.
Context `{HeaplessVec, VerifierBackend, CertParser, Clock} {TE : Type}.

(** The parse loop, pushing each view. *)
Fixpoint parse_loop (to_parse : list bytes) (views : list CertView)
    : outcome (SafeStrategyError TE) (list CertView) :=
  match to_parse with
  | [] => Ok views
  | cert_der :: to_parse =>
      view ← map_err SsParse (parse cert_der);
      views ← ok_or (vec_push SAFE_STRATEGY_CHAIN_CAP views view) SsChainTooLong;
      parse_loop to_parse views
  end.

(** [for i in 0..views.len().saturating_sub(1)] *)
Fixpoint link_loop (n : nat) (i : Z) (views : list CertView)
    : outcome (SafeStrategyError TE) unit :=
  match n with
  | O => Ok tt
  | S n =>
      c ← or_panic (at_idx views i);
      p ← or_panic (at_idx views (i + 1));
      _ ← map_err safe_of_link (verify_link c p);
      link_loop n (i + 1) views
  end.

Fixpoint validity_loop (views : list CertView) : outcome (SafeStrategyError TE) unit :=
  match views with
  | [] => Ok tt
  | v :: views => _ ← check (check_validity v) SsValidity; validity_loop views
  end.

(** [SafeStrategy::verify_chain]: the prepared verifier written to the slot. *)
Definition safe_verify_chain (decision : TrustRootDecision TE) (certs : list bytes)
    : outcome (SafeStrategyError TE) PreparedVerifier :=
  if blen certs =? 0 then Err SsEmptyChain else
  if SAFE_STRATEGY_CHAIN_CAP <? blen certs then Err SsChainTooLong else
  let leaf_only := anchors_at_leaf decision in
  to_parse ← (if leaf_only then or_panic (slice certs 0 1) else Ok certs);
  views ← parse_loop to_parse [];
  _ ← (if leaf_only then Ok tt
       else link_loop (Z.to_nat (saturating_sub (blen views) 1)) 0 views);
  _ ← map_err SsDecision (accept_chain decision views);
  leaf ← or_panic (at_idx views 0);
  _ ← (if leaf_only then check (check_validity leaf) SsValidity
       else validity_loop views);
  map_err safe_of_prepare (prepare_leaf leaf).
End safe_strategy.

(** ** What a link and a prepared verifier mean *)

Section meaning.
Context `{VerifierBackend}.

(** [child]'s signature over its TBS bytes is valid under [parent]'s key. *)
Definition link_signed (child parent : CertView) : Prop :=
  let tbs := cv_tbs child in
  let sig := cv_signature child in
  match parent with
  | CvEd25519 _ _ k _ _ => blen sig = 64 /\ valid_sig AlgEd25519 k tbs sig
  | CvMlDsa _ _ k _ _ => valid_sig AlgMlDsa k tbs sig
  | CvRsa _ _ _ n e _ _ =>
      exists alg, link_rsa_alg child = Ok alg /\
        valid_sig AlgRsa {| rk_modulus := n; rk_exponent := e |} tbs
          {| rs_scheme := alg; rs_bytes := sig |}
  | CvEcdsaP256 _ _ k _ _ _ => blen k = 65 /\ valid_sig AlgEcdsaP256 k tbs sig
  | CvEcdsaP384 _ _ k _ _ _ => blen k = 97 /\ valid_sig AlgEcdsaP384 k tbs sig
  end.

(** The verifier holds the certified key of [view]. *)
Definition prepared_for (pv : PreparedVerifier) (view : CertView) : Prop :=
  match pv, view with
  | PvEd25519 v, CvEd25519 _ _ k _ _ => key_of AlgEd25519 v = k
  | PvRsa v, CvRsa _ _ _ n e _ _ => key_of AlgRsa v = {| rk_modulus := n; rk_exponent := e |}
  | PvMlDsa v, CvMlDsa _ _ k _ _ => key_of AlgMlDsa v = k
  | PvEcdsaP256 v, CvEcdsaP256 _ _ k _ _ _ => blen k = 65 /\ key_of AlgEcdsaP256 v = k
  | PvEcdsaP384 v, CvEcdsaP384 _ _ k _ _ _ => blen k = 97 /\ key_of AlgEcdsaP384 v = k
  | _, _ => False
  end.

Lemma check_Ok_inv {E} b (e : E) u : check b e = Ok u <-> b = true.
Proof. destruct b, u; cbn; naive_solver. Qed.

Lemma verify_key (a : SigAlgo) (v : Verifier a) k m s :
  prepare a k = Some v -> verify a v m s = true -> valid_sig a k m s.
Proof. intros Hp Hv. rewrite <- (prepare_key _ _ Hp). by apply verify_valid. Qed.

Lemma verify_link_sound child parent : verify_link child parent = Ok tt -> link_signed child parent.
Proof.
  unfold verify_link, link_signed.
  destruct parent; intros Hv; repeat case_match; invert_ok; try done;
    rewrite ?check_Ok_inv in *; bool_to_prop; subst.
  all: match goal with
       | Hp : prepare _ _ = Some _, Hv : verify _ _ _ _ = true |- _ =>
           pose proof (verify_key _ _ _ _ _ Hp Hv)
       end; eauto.
Qed.

Lemma verify_link_total child parent : no_panic (verify_link child parent).
Proof.
  unfold verify_link, link_rsa_alg, check.
  destruct parent, child; repeat case_match; eauto with panics;
    repeat (apply no_panic_bind; intros; repeat case_match; eauto with panics).
Qed.

Lemma matches_cert_spec pv view : matches_cert pv view = true <-> prepared_for pv view.
Proof.
  destruct pv, view; cbn; rewrite ?matches_key; try done;
    (case_match; rewrite ?matches_key; bool_to_prop; naive_solver).
Qed.

Lemma prepare_leaf_for leaf pv : prepare_leaf leaf = Ok pv -> prepared_for pv leaf.
Proof.
  destruct leaf; cbn; intros Hp; repeat case_match; invert_ok; bool_to_prop;
    match goal with Hp : prepare _ _ = Some _ |- _ => apply prepare_key in Hp end; done.
Qed.

Lemma prepare_leaf_total leaf : no_panic (prepare_leaf leaf).
Proof.
  destruct leaf; cbn; repeat case_match; eauto with panics;
    apply no_panic_bind; intros; eauto with panics.
Qed.
End meaning.

(** ** The loops of [SafeStrategy] *)

Definition chain_links (R : CertView -> CertView -> Prop) (views : list CertView) : Prop :=
  forall i c p, views !! i = Some c -> views !! S i = Some p -> R c p.

Section loops.
Context `{HeaplessVec, VerifierBackend, CertParser, Clock} {TE : Type}.

Notation parses := (Forall2 (fun d v => parse d = Ok v)).

Lemma parse_loop_ok (ds : list bytes) (acc views : list CertView) :
  blen acc + blen ds <= SAFE_STRATEGY_CHAIN_CAP ->
  parse_loop (TE := TE) ds acc = Ok views <-> exists vs, parses ds vs /\ views = acc ++ vs.
Proof.
  revert acc. induction ds as [| d ds IH]; intros acc Hc; cbn [parse_loop].
  - split; [intros [= <-]; exists []; rewrite app_nil_r; auto |].
    intros (vs & ->%Forall2_nil_inv_l & ->). by rewrite app_nil_r.
  - rewrite blen_cons in Hc. pose proof (blen_nonneg ds). rewrite bind_Ok_inv. split.
    + intros (v & Hv & Hr). invert_ok.
      match goal with Hp : vec_push _ _ _ = Some _ |- _ => apply vec_push_Some_inv in Hp as [? ->] end.
      apply IH in Hr as (vs & Hvs & ->); [| rewrite blen_app; change (blen [v]) with 1; lia].
      exists (v :: vs). rewrite <- app_assoc. split; [by constructor | done].
    + intros (vs & Hvs & ->). inversion Hvs as [| ? v ? vs' Hv Hvs']; subst.
      exists v. rewrite Hv. split; [done |]. rewrite vec_push_spec.
      destruct (Z.ltb_spec (blen acc) SAFE_STRATEGY_CHAIN_CAP); [run | lia].
      rewrite IH by (rewrite blen_app; change (blen [v]) with 1; lia).
      exists vs'. by rewrite <- app_assoc.
Qed.

Lemma parse_loop_total (ds : list bytes) (acc : list CertView) :
  Forall bytes_ok ds -> no_panic (parse_loop (TE := TE) ds acc).
Proof.
  intros Hds. revert acc. induction Hds as [| d ds Hd Hds IH]; intros acc; cbn; [done |].
  apply no_panic_bind; [by apply no_panic_map_err, parse_total |].
  intros v _. apply no_panic_bind; eauto with panics.
Qed.

Lemma at_idx_nat (views : list CertView) (k : nat) : at_idx views (Z.of_nat k) = views !! k.
Proof. unfold at_idx. destruct (Z.leb_spec 0 (Z.of_nat k)); [| lia]. by rewrite Nat2Z.id. Qed.

Lemma link_loop_ok n (k : nat) (views : list CertView) :
  (k + n < length views)%nat ->
  link_loop (TE := TE) n (Z.of_nat k) views = Ok tt <->
  forall i c p, (k <= i < k + n)%nat -> views !! i = Some c -> views !! S i = Some p ->
    verify_link c p = Ok tt.
Proof.
  revert k. induction n as [| n IH]; intros k Hk; cbn [link_loop].
  { split; [intros; lia | done]. }
  destruct (lookup_lt_is_Some_2 views k) as [c Hc]; [lia |].
  destruct (lookup_lt_is_Some_2 views (S k)) as [p Hp]; [lia |].
  replace (Z.of_nat k + 1) with (Z.of_nat (S k)) by lia. rewrite !at_idx_nat, Hc, Hp. run.
  rewrite bind_Ok_inv. pose proof (IH (S k) ltac:(lia)) as IHk. split.
  - intros ([] & Hv%map_err_Ok_inv & Hr) i c' p' Hi Hc' Hp'.
    destruct (decide (i = k)) as [-> |]; [congruence |].
    apply (proj1 IHk Hr i); [lia | done | done].
  - intros Hall. exists tt. split; [apply map_err_Ok_inv; by apply (Hall k); [lia | |] |].
    apply IHk. intros i c' p' Hi. apply Hall. lia.
Qed.

Lemma link_loop_total n (k : nat) (views : list CertView) :
  (k + n < length views)%nat -> no_panic (link_loop (TE := TE) n (Z.of_nat k) views).
Proof.
  revert k. induction n as [| n IH]; intros k Hk; cbn [link_loop]; [done |].
  destruct (lookup_lt_is_Some_2 views k) as [c Hc]; [lia |].
  destruct (lookup_lt_is_Some_2 views (S k)) as [p Hp]; [lia |].
  replace (Z.of_nat k + 1) with (Z.of_nat (S k)) by lia. rewrite !at_idx_nat, Hc, Hp. run.
  apply no_panic_bind; [apply no_panic_map_err, verify_link_total |]. intros _ _. apply IH. lia.
Qed.

Lemma validity_loop_ok (views : list CertView) :
  validity_loop (TE := TE) views = Ok tt <-> Forall (fun v => check_validity v = true) views.
Proof.
  induction views as [| v views IH]; cbn [validity_loop]; [by split |].
  rewrite bind_Ok_inv, Forall_cons, <- IH. split.
  - intros (u & Hv%check_Ok_inv & Hr). done.
  - intros [Hv Hr]. exists tt. by rewrite check_Ok_inv.
Qed.

Lemma validity_loop_total (views : list CertView) : no_panic (validity_loop (TE := TE) views).
Proof.
  induction views as [| v views IH]; cbn; [done |].
  apply no_panic_bind; [unfold check; case_match; done | auto].
Qed.

(** The certificates the strategy looks at. *)
Definition presented (decision : TrustRootDecision TE) (certs : list bytes) : list bytes :=
  if anchors_at_leaf decision then take 1 certs else certs.

Lemma presented_eq decision certs :
  1 <= blen certs ->
  (if anchors_at_leaf decision then or_panic (slice certs 0 1) else Ok certs)
  = Ok (E := SafeStrategyError TE) (presented decision certs).
Proof.
  intros Hc. unfold presented. destruct (anchors_at_leaf decision); [| done].
  destruct certs as [| d ds]; [rewrite blen_nil in Hc; lia |].
  by rewrite (slice_prefix [d] ds) by done.
Qed.

(** The verdict is Ok exactly when every stage accepts. *)
Lemma safe_verify_chain_exact decision certs pv :
  safe_verify_chain decision certs = Ok pv <->
  1 <= blen certs <= SAFE_STRATEGY_CHAIN_CAP /\
  exists leaf uppers, let views := leaf :: uppers in
    parses (presented decision certs) views /\
    (anchors_at_leaf decision = false -> chain_links (fun c p => verify_link c p = Ok tt) views) /\
    accept_chain decision views = Ok tt /\
    Forall (fun v => check_validity v = true) views /\
    prepare_leaf leaf = Ok pv.
Proof.
  unfold safe_verify_chain.
  destruct (Z.eqb_spec (blen certs) 0) as [He | He].
  { split; [done | lia]. }
  destruct (Z.ltb_spec SAFE_STRATEGY_CHAIN_CAP (blen certs)) as [Hl | Hl].
  { split; [done | lia]. }
  pose proof (blen_nonneg certs). rewrite presented_eq by lia. run.
  assert (blen (presented decision certs) <= SAFE_STRATEGY_CHAIN_CAP) as Hp.
  { unfold presented. case_match; [| done]. rewrite blen_take. lia. }
  assert (1 <= blen (presented decision certs)) as Hp1.
  { unfold presented. case_match; [| lia]. rewrite blen_take. lia. }
  rewrite bind_Ok_inv. setoid_rewrite parse_loop_ok; [| by rewrite blen_nil].
  split.
  - intros (views & (vs & Hvs & ->) & Hr). cbn [app] in *.
    apply bind_Ok_inv in Hr as ([] & Hlk & Hr). apply bind_Ok_inv in Hr as ([] & Hac & Hr).
    apply bind_Ok_inv in Hr as (l & Hl0 & Hr). apply bind_Ok_inv in Hr as ([] & Hval & Hr).
    apply map_err_Ok_inv in Hac, Hr. apply or_panic_Ok_inv in Hl0.
    apply Forall2_length in Hvs as Hlen.
    destruct vs as [| leaf uppers]; [unfold blen in Hp1; cbn in *; lia |]. injection Hl0 as <-.
    split; [lia |]. exists leaf, uppers.
    destruct (anchors_at_leaf decision) eqn:Hal.
    + rewrite check_Ok_inv in Hval. split_and!; try done.
      constructor; [done |]. unfold presented in Hlen. rewrite Hal, length_take in Hlen.
      destruct uppers; [done | cbn [length] in Hlen; lia].
    + rewrite validity_loop_ok in Hval. split_and!; try done. intros _ i c p Hc Hpp.
      change 0 with (Z.of_nat 0) in Hlk. pose proof (lookup_lt_Some _ _ _ Hpp) as Hlt.
      rewrite link_loop_ok in Hlk by (unfold saturating_sub, blen; cbn; lia).
      apply (Hlk i); try done. unfold saturating_sub, blen. cbn in *. lia.
  - intros (Hb & leaf & uppers & Hvs & Hlk & Hac & Hval & Hprep).
    exists (leaf :: uppers). split; [by exists (leaf :: uppers) |].
    destruct (anchors_at_leaf decision) eqn:Hal; run.
    + rewrite Hac. run. change (at_idx (leaf :: uppers) 0) with (Some leaf). run.
      apply Forall_cons in Hval as [-> _]. cbn. by rewrite Hprep.
    + assert (link_loop (TE := TE) (Z.to_nat (saturating_sub (blen (leaf :: uppers)) 1)) 0
                (leaf :: uppers) = Ok tt) as ->.
      { change 0 with (Z.of_nat 0). apply link_loop_ok; [unfold saturating_sub, blen; cbn; lia |].
        intros i c p _. by apply Hlk. }
      run. rewrite Hac. run. change (at_idx (leaf :: uppers) 0) with (Some leaf). run.
      rewrite (proj2 (validity_loop_ok _) Hval). run. by rewrite Hprep.
Qed.
End loops.

(** The certificate chain the client accepts. *)
Section strategy.
Context `{HeaplessVec, VerifierBackend, CertParser, Clock} {TE : Type}.
Implicit Types (decision : TrustRootDecision TE).

Lemma chain_links_impl (R S : CertView -> CertView -> Prop) views :
  (forall c p, R c p -> S c p) -> chain_links R views -> chain_links S views.
Proof. intros HRS HR i c p Hc Hp. eapply HRS, HR; done. Qed.

(** What an accepted chain is vouched for: [pv] holds the key of its leaf. *)
Definition safe_vouched decision (certs : list bytes) (pv : PreparedVerifier) : Prop :=
  1 <= blen certs <= SAFE_STRATEGY_CHAIN_CAP /\
  exists leaf uppers, let views := leaf :: uppers in
    Forall2 (fun d v => parse d = Ok v) (presented decision certs) views /\
    (anchors_at_leaf decision = false -> chain_links link_signed views) /\
    accept_chain decision views = Ok tt /\
    Forall (fun v => check_validity v = true) views /\
    prepared_for pv leaf /\ matches_cert pv leaf = true.

Lemma safe_verify_chain_total decision (certs : list bytes) :
  (forall views, Forall view_bytes_ok views -> no_panic (accept_chain decision views)) -> Forall bytes_ok certs ->
  no_panic (safe_verify_chain decision certs).
Proof.
  intros Htot Hbs. unfold safe_verify_chain. destruct (Z.eqb_spec (blen certs) 0); [done |].
  destruct (Z.ltb_spec SAFE_STRATEGY_CHAIN_CAP (blen certs)); [done |].
  pose proof (blen_nonneg certs). rewrite presented_eq by lia. run.
  assert (Forall bytes_ok (presented decision certs)) as Hpb by (unfold presented; case_match; [by apply Forall_take | done]).
  apply no_panic_bind; [by apply parse_loop_total |]. intros views Hv.
  rewrite parse_loop_ok in Hv; swap 1 2.
  { rewrite blen_nil. unfold presented. case_match; [rewrite blen_take |]; lia. }
  destruct Hv as (vs & Hvs & ->). cbn [app].
  assert (Forall view_bytes_ok vs) as Hvb.
  { clear -Hvs Hpb. induction Hvs as [| d v ds vs Hd _ IH]; [done |]. apply Forall_cons in Hpb as [? ?].
    constructor; [by eapply parse_bytes | by apply IH]. }
  apply Forall2_length in Hvs.
  assert (1 <= blen (presented decision certs)) as Hp1.
  { unfold presented. case_match; [rewrite blen_take |]; lia. }
  apply no_panic_bind.
  { case_match; [done |]. change 0 with (Z.of_nat 0). apply link_loop_total.
    unfold saturating_sub, blen in *. lia. }
  intros _ _. apply no_panic_bind; [by apply no_panic_map_err, Htot |]. intros _ _.
  destruct vs as [| leaf uppers]; [unfold blen in Hp1; cbn in *; lia |].
  change (at_idx (leaf :: uppers) 0) with (Some leaf). run.
  apply no_panic_bind; [case_match; [unfold check; by case_match | apply validity_loop_total] |].
  intros _ _. apply no_panic_map_err, prepare_leaf_total.
Qed.

Lemma safe_verify_chain_vouched decision (certs : list bytes) (pv : PreparedVerifier) :
  safe_verify_chain decision certs = Ok pv -> safe_vouched decision certs pv.
Proof.
  intros (Hb & leaf & uppers & Hvs & Hlk & Hac & Hval & Hprep)%safe_verify_chain_exact.
  split; [done |]. exists leaf, uppers.
  pose proof (prepare_leaf_for _ _ Hprep) as Hfor. split_and!; try done; [| by apply matches_cert_spec].
  intros Hal. eapply chain_links_impl; [apply verify_link_sound | auto].
Qed.

(** C11. A chain accepted by [SafeStrategy] has one to eight certificates; those in
    scope (only the leaf for a leaf-anchored decision) all parse, lie in their
    validity windows and satisfy the trust decision; unless the decision anchors at
    the leaf every certificate carries a valid signature under the key of the next
    one; and the verifier handed back holds exactly the leaf's key, so the SPKI
    cross-check accepts it.  The strategy never panics. *)
Theorem safe_strategy_sound decision (certs : list bytes) (pv : PreparedVerifier) :
  (forall views, Forall view_bytes_ok views -> no_panic (accept_chain decision views)) -> Forall bytes_ok certs ->
  no_panic (safe_verify_chain decision certs) /\
  (safe_verify_chain decision certs = Ok pv ->
   1 <= blen certs <= SAFE_STRATEGY_CHAIN_CAP /\
   exists leaf uppers, let views := leaf :: uppers in
     Forall2 (fun d v => parse d = Ok v) (presented decision certs) views /\
     (anchors_at_leaf decision = false -> chain_links link_signed views) /\
     accept_chain decision views = Ok tt /\
     Forall (fun v => check_validity v = true) views /\
     prepared_for pv leaf /\ matches_cert pv leaf = true).
Proof. intros Htot Hbs. split; [by apply safe_verify_chain_total | apply safe_verify_chain_vouched]. Qed.
End strategy.

(** ** A concrete backend, for evaluating examples *)

(** A verifier is the key; a signature is valid when it repeats the message's
    length. *)
Definition toy_sig_bytes (a : SigAlgo) : Sig a -> bytes :=
  match a with AlgRsa => rs_bytes | _ => fun s => s end.

#[export] Instance Pubkey_eq_dec a : EqDecision (Pubkey a).
Proof.
  destruct a; cbn; try apply _; intros [m e] [m' e'];
  (destruct (decide (m = m')), (decide (e = e')); [left; by subst | right; congruence..]).
Defined.

Definition toy_provider (a : SigAlgo) : SigVerifierProvider a.
Proof.
  refine {| Verifier := Pubkey a; prepare k := Some k;
            verify _ m s := from_be (toy_sig_bytes a s) =? blen m;
            matches v k := bool_decide (v = k); key_of v := v;
            valid_sig _ m s := from_be (toy_sig_bytes a s) = blen m |}.
  - naive_solver.
  - intros. by apply Z.eqb_eq.
  - intros. apply bool_decide_eq_true.
Defined.

Definition backend_model : VerifierBackend := {| provider := toy_provider |}.

(** A certificate is its TBS bytes: key [k], signature of the TBS length. *)
Definition toy_view (d : bytes) : CertView :=
  CvEd25519 d (be_bytes 64 (blen d)) (be_bytes 32 (from_be d)) (Some d) [].

Definition cert_model : CertParser.
Proof.
  refine {| parse d := if blen d =? 0 then Err CpMalformed else Ok (toy_view d);
            parse_ca_constraints d :=
              Ok {| is_ca := true; path_len := None; key_cert_sign := Some true |};
            spki_der d := Ok d |}; try done.
  - intros d v. destruct (blen d =? 0); [done |]. intros [= <-]. split; apply blen_be_bytes.
  - intros d v san Hd. destruct (blen d =? 0); [done |]. intros [= <-] [= <-]. split; [done | lia].
  - intros d v Hd. destruct (blen d =? 0); [done |]. intros [= <-]. split; [done | apply bytes_ok_be_bytes].
  - intros d. by destruct (blen d =? 0).
Defined.

Definition accept_any : TrustRootDecision unit :=
  {| anchors_at_leaf := false; accept_chain _ := Ok tt |}.

Lemma safe_strategy_sound_witness :
  let pv := @PvEd25519 backend_model (be_bytes 32 (from_be [5; 6])) in
  exists leaf uppers,
    chain_links (@link_signed backend_model) (leaf :: uppers) /\
    Forall2 (fun d v => @parse cert_model d = Ok v) [[5; 6]; [7]] (leaf :: uppers) /\
    @matches_cert backend_model pv leaf = true.
Proof.
  intros pv.
  destruct (@safe_strategy_sound heapless_model backend_model cert_model NoClock _ accept_any
              [[5; 6]; [7]] pv) as [_ Hs]; [intros; discriminate | repeat constructor; done |].
  destruct Hs as (_ & leaf & uppers & Hp & Hl & _ & _ & _ & Hm); [vm_compute; reflexivity |].
  exists leaf, uppers. split; [exact (Hl eq_refl) |]. split; [exact Hp | exact Hm].
Defined.
