(* ===== verification/Kx.v ===== *)
(** * [traits/kx.rs], [traits/verify_strategy.rs]: the pluggable parties of a handshake

    The key-exchange group with its fixed-capacity buffers, and the chain-verification
    strategy, as interfaces: what a handshake may rely on.  [SafeStrategy] is an
    instance of the second. *)
From S2P Require Import Prelude Deps Cert.

(** ** Fixed-capacity buffers *)

(** [MAX_CLIENT_SHARE_LEN] depends on the enabled groups, so it is a parameter. *)
Definition MAX_SHARED_SECRET_LEN : Z := 64.

Record ClientShareBuf := { cs_buf : bytes; cs_len : Z }.

Definition ClientShareBuf_new (cap : Z) : ClientShareBuf := {| cs_buf := zeros cap; cs_len := 0 |}.

Inductive KxCapacityError := KxCapacity.

Definition extend_from_slice `{Usize} (c : ClientShareBuf) (bs : bytes)
    : outcome KxCapacityError ClientShareBuf :=
  end_ ← ok_or (checked_add (cs_len c) (blen bs)) KxCapacity;
  if blen (cs_buf c) <? end_ then Err KxCapacity else
  buf ← or_panic (splice (cs_buf c) (cs_len c) bs);
  Ok {| cs_buf := buf; cs_len := end_ |}.

Definition client_share_slice {E} (c : ClientShareBuf) : outcome E bytes :=
  or_panic (slice (cs_buf c) 0 (cs_len c)).

Record SharedSecretBuf := { ss_buf : bytes; ss_len : Z }.

Definition SharedSecretBuf_from_slice {E} (bs : bytes) : outcome E SharedSecretBuf :=
  let len := Z.min (blen bs) MAX_SHARED_SECRET_LEN in
  src ← or_panic (slice bs 0 len);
  buf ← or_panic (splice (zeros MAX_SHARED_SECRET_LEN) 0 src);
  Ok {| ss_buf := buf; ss_len := len |}.

Definition shared_secret_slice {E} (c : SharedSecretBuf) : outcome E bytes :=
  or_panic (slice (ss_buf c) 0 (ss_len c)).

Definition share_ok (c : ClientShareBuf) : Prop :=
  0 <= cs_len c <= blen (cs_buf c) /\ bytes_ok (cs_buf c).
Definition secret_ok (c : SharedSecretBuf) : Prop := 0 <= ss_len c <= blen (ss_buf c).

(** What a share buffer holds. *)
Definition share_bytes (c : ClientShareBuf) : bytes := take (Z.to_nat (cs_len c)) (cs_buf c).

(** ** The random source ([rand_core::TryCryptoRng])

    A draw may fail; it moves the source either way. *)
Class CryptoRng := {
  Rng : Type;
  fill_bytes : Rng -> Z -> Rng * outcome unit bytes;
  fill_bytes_total r n : no_panic (fill_bytes r n).2;
  fill_bytes_ok r n bs : (fill_bytes r n).2 = Ok bs -> blen bs = n /\ bytes_ok bs
}.

(** ** [trait KxGroup]

    A secret is used once: [kx_generate] draws one, [kx_derive] consumes it. *)
Class KxGroup `{CryptoRng} := {
  NAMED_GROUP : Z;
  CLIENT_SHARE_LEN : Z;
  SHARED_SECRET_LEN : Z;
  KxSecret : Type;
  KxError : Type;
  kx_generate : Rng -> Rng * outcome KxError (KxSecret * ClientShareBuf);
  kx_derive : KxSecret -> bytes -> outcome KxError SharedSecretBuf;
  kx_generate_total r : no_panic (kx_generate r).2;
  kx_generate_ok r s c : (kx_generate r).2 = Ok (s, c) -> share_ok c;
  kx_derive_total s sh : no_panic (kx_derive s sh);
  kx_derive_ok s sh c : kx_derive s sh = Ok c -> secret_ok c
}.

(** ** [trait VerifyStrategy]

    [vouched chain pv] is what a strategy's acceptance means. *)
Class VerifyStrategy `{VerifierBackend} := {
  StrategyError : Type;
  verify_chain : list bytes -> outcome StrategyError PreparedVerifier;
  vouched : list bytes -> PreparedVerifier -> Prop;
  verify_chain_vouched chain pv : verify_chain chain = Ok pv -> vouched chain pv;
  verify_chain_total chain : Forall bytes_ok chain -> no_panic (verify_chain chain)
}.

(** [SafeStrategy] keeps the contract, for any decision that returns. *)
Definition safe_strategy `{HeaplessVec, VerifierBackend, CertParser, Clock} {TE : Type}
    (decision : TrustRootDecision TE) (Htot : forall views, Forall view_bytes_ok views -> no_panic (accept_chain decision views))
    : VerifyStrategy :=
  {| StrategyError := SafeStrategyError TE;
     verify_chain := safe_verify_chain decision;
     vouched := safe_vouched decision;
     verify_chain_vouched chain pv := safe_verify_chain_vouched decision chain pv;
     verify_chain_total chain := safe_verify_chain_total decision chain Htot |}.

(** ** The buffers hold what was put in them *)

Section buffers.
Context `{Usize}.

(** The bytes put into a share buffer, in order, or a refusal when they do not fit. *)
Lemma extend_from_slice_eq c bs :
  share_ok c -> cs_len c + blen bs < U32 -> bytes_ok bs ->
  if blen (cs_buf c) <? cs_len c + blen bs
  then extend_from_slice c bs = Err KxCapacity
  else exists c', extend_from_slice c bs = Ok c' /\ share_ok c' /\ blen (cs_buf c') = blen (cs_buf c) /\
         share_bytes c' = share_bytes c ++ bs.
Proof.
  intros [Hl Hok] Hu Hbs. unfold extend_from_slice. pose proof (blen_nonneg bs).
  rewrite checked_add_small by lia. run.
  destruct (Z.ltb_spec (blen (cs_buf c)) (cs_len c + blen bs)); [done |].
  destruct (cut_at (cs_buf c) (cs_len c)) as (l & r & Hb & Hll & Hrl); [lia |].
  rewrite Hb, blen_app in *. rewrite (splice_append l bs r) by lia. run.
  assert (blen ((l ++ bs) ++ drop (length bs) r) = blen l + blen r) as Hlen
    by (rewrite !blen_app, blen_drop; unfold blen in *; lia).
  apply bytes_ok_app in Hok as [Hlo Hro]. eexists. split; [done |]. unfold share_ok, share_bytes. cbn [cs_buf cs_len].
  split; [| split; [lia |]].
  - split; [lia |]. rewrite !bytes_ok_app. split_and!; [done | done | by apply Forall_drop].
  - rewrite Hb. rewrite !take_app_length' by (rewrite ?length_app; unfold blen in *; lia). done.
Qed.

Lemma share_slice_eq {E} c : share_ok c -> client_share_slice (E := E) c = Ok (share_bytes c).
Proof.
  intros [Hl _]. unfold client_share_slice. destruct (slice_in_range (cs_buf c) 0 (cs_len c)) as [s Hs]; [lia.. |].
  rewrite Hs. apply slice_Some_inv in Hs as (_ & _ & _ & _ & ->). run. unfold share_bytes.
  by rewrite Z.sub_0_r.
Qed.

Lemma secret_slice_eq {E} c :
  secret_ok c -> shared_secret_slice (E := E) c = Ok (take (Z.to_nat (ss_len c)) (ss_buf c)).
Proof.
  intros Hl. unfold secret_ok in Hl. unfold shared_secret_slice.
  destruct (slice_in_range (ss_buf c) 0 (ss_len c)) as [s Hs]; [lia.. |].
  rewrite Hs. apply slice_Some_inv in Hs as (_ & _ & _ & _ & ->). run. by rewrite Z.sub_0_r.
Qed.

(** A derived secret is kept whole up to 64 bytes, and clamped there. *)
Lemma secret_from_slice_eq {E} bs :
  exists c, SharedSecretBuf_from_slice (E := E) bs = Ok c /\ secret_ok c /\
    take (Z.to_nat (ss_len c)) (ss_buf c) = take 64 bs.
Proof.
  unfold SharedSecretBuf_from_slice, secret_ok, MAX_SHARED_SECRET_LEN. pose proof (blen_nonneg bs).
  destruct (slice_in_range bs 0 (Z.min (blen bs) 64)) as [s Hs]; [lia.. |]. rewrite Hs. run.
  pose proof Hs as (_ & _ & _ & Hl & Hse)%slice_Some_inv.
  rewrite (splice_append [] s (zeros 64)) by (done || unfold zeros; rewrite ?blen_replicate; lia).
  run. eexists. split; [done |]. cbn [ss_buf ss_len app]. split.
  - rewrite blen_app, blen_drop. unfold zeros. rewrite blen_replicate. unfold blen in *. lia.
  - rewrite take_app_length' by (unfold blen in *; lia). rewrite Hse. rewrite Z.sub_0_r, drop_0.
    destruct (Z.min_spec (blen bs) 64) as [[? ->] | [? ->]]; [| done].
    rewrite to_nat_blen, !take_ge by (unfold blen in *; lia). done.
Qed.
End buffers.

(** ** A concrete group *)

(** A counter for a random source. *)
Definition rng_model : CryptoRng.
Proof.
  refine {| Rng := Z; fill_bytes r n := (r + 1, if 0 <=? n then Ok (be_bytes (Z.to_nat n) r) else Err tt) |}.
  - intros r n. cbn [snd]. by destruct (0 <=? n).
  - intros r n bs. cbn [snd]. destruct (Z.leb_spec 0 n); [| done]. intros <-%Ok_inj.
    split; [rewrite blen_be_bytes; lia | apply bytes_ok_be_bytes].
Defined.

(** The share repeats the secret; the shared secret adds the two. *)
Definition kx_model : @KxGroup rng_model.
Proof.
  refine (@Build_KxGroup rng_model 0x1D 32 32 Z unit
    (fun r : Z => (r + 1, Ok (r, {| cs_buf := be_bytes 32 r; cs_len := 32 |})))
    (fun s sh => Ok {| ss_buf := be_bytes 64 ((s + from_be sh) * 2 ^ 256); ss_len := 32 |}) _ _ _ _); try done.
  - intros r s c Hc. apply Ok_inj, pair_equal_spec in Hc as [_ <-].
    split; cbn [cs_len cs_buf]; [rewrite blen_be_bytes; lia | apply bytes_ok_be_bytes].
  - intros s sh c Hc. apply Ok_inj in Hc as <-. unfold secret_ok. cbn [ss_len ss_buf].
    rewrite blen_be_bytes. lia.
Defined.
