(* ===== verification/KxGroups.v ===== *)
(** * [backends/ecdhe.rs], [ecdhe_x25519.rs], [mlkem.rs], [rustcrypto.rs]: the key-exchange groups

    X25519, P-256 and the X25519MLKEM768 hybrid over third-party key encapsulation, as
    instances of the interface [KxGroup] of the handshakes, and the layout of the hybrid. *)
From S2P Require Import Prelude Deps Consts Cert TlsHello Kx.

(** ** The third-party crates *)

(** A Diffie-Hellman exchange in the form of the [kem] traits: a decapsulation key with its
    encapsulation key (the public point), and decapsulation of a peer's point, which may
    refuse it. *)
Class DhKem `{CryptoRng} := {
  DecapKey : Type;
  try_generate_from_rng : Rng -> Rng * option DecapKey;
  encapsulation_key : DecapKey -> bytes;
  try_decapsulate : DecapKey -> bytes -> option bytes;
  encapsulation_key_ok k : bytes_ok (encapsulation_key k);
  (** Both sides compute the same point. *)
  dh_agree a b : try_decapsulate a (encapsulation_key b) = try_decapsulate b (encapsulation_key a)
}.

(** ML-KEM-768 of [krabipqc], and the encapsulation of a server. *)
Class MlKemCrate `{CryptoRng} := {
  MlKemDk : Type;
  EK_BYTES : Z; CT_BYTES : Z; SHARED_SECRET_BYTES : Z;
  keygen : Rng -> Rng * option (bytes * MlKemDk);
  decaps : MlKemDk -> bytes -> option bytes;
  encaps : bytes -> Rng -> bytes * bytes;
  mlkem_sizes : 32 <= EK_BYTES < 2 ^ 16 /\ 0 <= CT_BYTES /\ SHARED_SECRET_BYTES = 32;
  keygen_ok r ek dk : (keygen r).2 = Some (ek, dk) -> blen ek = EK_BYTES /\ bytes_ok ek;
  decaps_len dk ct ss : decaps dk ct = Some ss -> blen ss = SHARED_SECRET_BYTES;
  encaps_len ek r : blen (encaps ek r).1 = CT_BYTES;
  (** FIPS 203: decapsulating an encapsulation gives its secret. *)
  decaps_encaps r ek dk r' : (keygen r).2 = Some (ek, dk) -> decaps dk (encaps ek r').1 = Some (encaps ek r').2
}.

(** ** [ecdhe_x25519.rs], [ecdhe.rs] *)

Inductive EcdheError := Ecdhe.

(** [out.copy_from_slice(bytes)] into an array of [n]. *)
Definition copy_into {E} (n : Z) (bs : bytes) : outcome E bytes :=
  if negb (blen bs =? n) then Panic else or_panic (splice (zeros n) 0 bs).

Section dh.
Context `{DhKem}.

(** [generate] and [agree] of a group with shares of [n] octets and secrets of 32. *)
Definition ecdhe_generate (n : Z) (rng : Rng) : Rng * outcome EcdheError (DecapKey * bytes) :=
  let '(rng, secret) := try_generate_from_rng rng in
  (rng,
   secret ← ok_or secret Ecdhe;
   let pk := encapsulation_key secret in
   if negb (blen pk =? n) then Err Ecdhe else
   out ← copy_into n pk;
   Ok (secret, out)).

Definition ecdhe_agree (secret : DecapKey) (peer_share : bytes) : outcome EcdheError bytes :=
  shared ← ok_or (try_decapsulate secret peer_share) Ecdhe;
  if negb (blen shared =? 32) then Err Ecdhe else copy_into 32 shared.

Definition X25519_SHARE_BYTES : Z := 32.
Definition EcdheX25519_generate (rng : Rng) := ecdhe_generate X25519_SHARE_BYTES rng.
Definition EcdheX25519_agree := ecdhe_agree.
Definition EcdheP256_generate (rng : Rng) := ecdhe_generate P256_SHARE_BYTES rng.
Definition EcdheP256_agree := ecdhe_agree.
End dh.

(** ** [mlkem.rs] *)
Section mlkem.
Context `{MlKemCrate}.

Inductive MlKem768Error := MlKem768Err.

Definition MlKem768_generate (rng : Rng) : Rng * outcome MlKem768Error (MlKemDk * bytes) :=
  let '(rng, k) := keygen rng in
  (rng, '(ek, dk) ← ok_or k MlKem768Err; Ok (dk, ek)).
Definition MlKem768_decapsulate (dk : MlKemDk) (ciphertext : bytes) : outcome MlKem768Error bytes :=
  ok_or (decaps dk ciphertext) MlKem768Err.
End mlkem.

(** ** [rustcrypto.rs]: the groups *)

Definition MAX_CLIENT_SHARE_LEN `{MlKemCrate} (ft : Features) : Z :=
  if f_mlkem ft then EK_BYTES + 32 else if f_p256_kx ft then P256_SHARE_BYTES else 32.

(** [server_share.try_into()] into an array of [n]. *)
Definition try_array {E} (n : Z) (bs : bytes) (e : E) : outcome E bytes := if blen bs =? n then Ok bs else Err e.

Section groups.
Context `{Usize, CryptoRng, !MlKemCrate} (ft : Features).

Section classical.
Context `{!DhKem}.

Definition classical_generate (n : Z) (rng : Rng) : Rng * outcome EcdheError (DecapKey * ClientShareBuf) :=
  let '(rng, g) := ecdhe_generate n rng in
  (rng,
   '(secret, pubkey) ← g;
   share ← map_err (fun _ => Ecdhe) (extend_from_slice (ClientShareBuf_new (MAX_CLIENT_SHARE_LEN ft)) pubkey);
   Ok (secret, share)).

Definition classical_derive (n : Z) (secret : DecapKey) (server_share : bytes) : outcome EcdheError SharedSecretBuf :=
  peer ← try_array n server_share Ecdhe;
  ss ← ecdhe_agree secret peer;
  SharedSecretBuf_from_slice ss.

Definition X25519Group_generate := classical_generate X25519_SHARE_BYTES.
Definition X25519Group_derive := classical_derive X25519_SHARE_BYTES.
Definition P256Group_generate := classical_generate P256_SHARE_BYTES.
Definition P256Group_derive := classical_derive P256_SHARE_BYTES.

(** [X25519MlKem768Group] *)
Record X25519MlKem768Secret := { hs_x25519 : DecapKey; hs_mlkem : MlKemDk }.
Inductive X25519MlKem768Error := HyX25519 | HyMlKem | HyMalformed.

Definition hybrid_generate (rng : Rng) : Rng * outcome X25519MlKem768Error (X25519MlKem768Secret * ClientShareBuf) :=
  let '(rng, x) := EcdheX25519_generate rng in
  match map_err (fun _ => HyX25519) x with
  | Err e => (rng, Err e)
  | Panic => (rng, Panic)
  | Ok (x25519, x25519_pub) =>
      let '(rng, k) := MlKem768_generate rng in
      (rng,
       '(mlkem, ek) ← map_err (fun _ => HyMlKem) k;
       share ← map_err (fun _ => HyMalformed) (extend_from_slice (ClientShareBuf_new (MAX_CLIENT_SHARE_LEN ft)) ek);
       share ← map_err (fun _ => HyMalformed) (extend_from_slice share x25519_pub);
       Ok ({| hs_x25519 := x25519; hs_mlkem := mlkem |}, share))
  end.

(** X25519 first: a bad point aborts before the decapsulation. *)
Definition hybrid_derive (secret : X25519MlKem768Secret) (server_share : bytes) : outcome X25519MlKem768Error SharedSecretBuf :=
  ct ← ok_or (slice server_share 0 CT_BYTES) HyMalformed;
  x ← ok_or (slice_from server_share CT_BYTES) HyMalformed;
  ct ← try_array CT_BYTES ct HyMalformed;
  x ← try_array X25519_SHARE_BYTES x HyMalformed;
  x25519_ss ← map_err (fun _ => HyX25519) (EcdheX25519_agree (hs_x25519 secret) x);
  mlkem_ss ← map_err (fun _ => HyMlKem) (MlKem768_decapsulate (hs_mlkem secret) ct);
  let ikm := zeros (SHARED_SECRET_BYTES + 32) in
  ikm ← or_panic (splice ikm 0 mlkem_ss);
  ikm ← or_panic (splice ikm SHARED_SECRET_BYTES x25519_ss);
  SharedSecretBuf_from_slice ikm.
End classical.
End groups.

(** ** What the groups produce *)

(** The bytes of a derived secret. *)
Definition secret_bytes (c : SharedSecretBuf) : bytes := take (Z.to_nat (ss_len c)) (ss_buf c).

Lemma splice_whole n (bs : bytes) : blen bs = n -> splice (zeros n) 0 bs = Some bs.
Proof.
  intros <-. pose proof (splice_append [] bs (zeros (blen bs)) 0) as Hs. cbn [app] in Hs. rewrite Hs.
  - unfold zeros, blen. by rewrite drop_ge, app_nil_r by (rewrite length_replicate; lia).
  - done.
  - unfold zeros. rewrite blen_replicate. pose proof (blen_nonneg bs). lia.
Qed.

Lemma copy_into_ok {E} n bs : blen bs = n -> copy_into (E := E) n bs = Ok bs.
Proof. intros Hl. unfold copy_into. rewrite (proj2 (Z.eqb_eq _ _) Hl). cbn [negb]. by rewrite splice_whole. Qed.

Lemma secret_of_spec {E} bs : blen bs <= 64 -> ensures (E := E) (SharedSecretBuf_from_slice bs) (fun c => secret_ok c /\ secret_bytes c = bs).
Proof.
  intros Hl. destruct (secret_from_slice_eq (E := E) bs) as (c & -> & Hok & Ht). cbn. split; [done |].
  unfold secret_bytes. rewrite Ht. apply take_ge. unfold blen in Hl. lia.
Qed.

Section specs.
Context `{Usize, CryptoRng, !DhKem}.

Lemma new_share_ok cap : share_ok (ClientShareBuf_new cap) /\ share_bytes (ClientShareBuf_new cap) = [].
Proof.
  unfold share_ok, share_bytes, ClientShareBuf_new. cbn [cs_len cs_buf]. pose proof (blen_nonneg (zeros cap)).
  split; [| done]. split; [lia |]. by apply Forall_replicate.
Qed.

(** An append either fits and is kept, or is refused. *)
Lemma extend_spec c bs :
  share_ok c -> cs_len c <= 2 ^ 16 -> blen bs <= 2 ^ 16 -> bytes_ok bs ->
  ensures (extend_from_slice c bs) (fun c' => share_ok c' /\ cs_len c' = cs_len c + blen bs /\ share_bytes c' = share_bytes c ++ bs).
Proof.
  intros Hok Hl Hb Hbs. pose proof (extend_from_slice_eq c bs Hok ltac:(unfold U32; lia) Hbs) as Heq.
  destruct (blen (cs_buf c) <? cs_len c + blen bs) eqn:Hlt; [by rewrite Heq |]. bool_to_prop.
  destruct Heq as (c' & Hc & Hok' & Hbl & Hs). rewrite Hc. cbn. split; [done |]. split; [| done].
  apply (f_equal blen) in Hs. unfold share_bytes in Hs. rewrite blen_app, !blen_take in Hs. destruct Hok, Hok'. lia.
Qed.

Lemma ecdhe_generate_spec n rng :
  ensures (ecdhe_generate n rng).2 (fun '(k, out) => out = encapsulation_key k /\ blen out = n).
Proof.
  unfold ecdhe_generate. destruct (try_generate_from_rng rng) as [rng' [k |]]; cbn [snd ok_or]; [rewrite bind_Ok | done].
  destruct (Z.eqb_spec (blen (encapsulation_key k)) n) as [Hl |]; cbn [negb]; [| done]. by rewrite copy_into_ok.
Qed.

Lemma ecdhe_agree_spec k peer : ensures (ecdhe_agree k peer) (fun ss => try_decapsulate k peer = Some ss /\ blen ss = 32).
Proof.
  unfold ecdhe_agree. destruct (try_decapsulate k peer) as [ss |]; cbn [ok_or]; [rewrite bind_Ok | done].
  destruct (Z.eqb_spec (blen ss) 32) as [Hl |]; cbn [negb]; [| done]. by rewrite copy_into_ok.
Qed.

Lemma try_array_spec {E} n bs (e : E) : ensures (try_array n bs e) (fun a => a = bs /\ blen bs = n).
Proof. unfold try_array. by destruct (Z.eqb_spec (blen bs) n). Qed.

Context `{!MlKemCrate} (ft : Features).

Lemma classical_generate_spec n rng :
  0 <= n <= 2 ^ 16 -> ensures (classical_generate ft n rng).2 (fun '(k, c) => share_ok c /\ share_bytes c = encapsulation_key k /\ blen (encapsulation_key k) = n).
Proof.
  intros Hn. unfold classical_generate. pose proof (ecdhe_generate_spec n rng) as Hg.
  destruct (ecdhe_generate n rng) as [rng' g]. cbn [snd] in *. eapply ensures_bind; [done |]. intros [k out] [-> Hl].
  destruct (new_share_ok (MAX_CLIENT_SHARE_LEN ft)) as [Hok Hs].
  eapply ensures_bind; [apply ensures_map_err, extend_spec; [done | cbn; lia | lia | apply encapsulation_key_ok] |].
  intros c (Hc & _ & Hb). cbn. rewrite Hs in Hb. done.
Qed.

Lemma classical_derive_spec n k sh :
  ensures (classical_derive n k sh) (fun c => secret_ok c /\ blen sh = n /\ try_decapsulate k sh = Some (secret_bytes c)).
Proof.
  unfold classical_derive. eapply ensures_bind; [apply try_array_spec |]. intros peer [-> Hl].
  eapply ensures_bind; [apply ecdhe_agree_spec |]. intros ss [Hss Hsl].
  eapply ensures_weaken; [apply secret_of_spec; lia |]. intros c [? ->]. done.
Qed.

Lemma hybrid_generate_spec rng :
  ensures (hybrid_generate ft rng).2 (fun '(s, c) => share_ok c /\ exists ek r0, (keygen r0).2 = Some (ek, hs_mlkem s) /\
    share_bytes c = ek ++ encapsulation_key (hs_x25519 s) /\ blen (encapsulation_key (hs_x25519 s)) = 32).
Proof.
  unfold hybrid_generate. pose proof (ecdhe_generate_spec X25519_SHARE_BYTES rng) as Hg. unfold EcdheX25519_generate.
  destruct (ecdhe_generate X25519_SHARE_BYTES rng) as [rng1 x]. cbn [snd] in Hg.
  destruct x as [[k pub] | |]; cbn [map_err ensures] in *; [| done..]. destruct Hg as [-> Hl].
  unfold MlKem768_generate. destruct (keygen rng1) as [rng2 [[ek dk] |]] eqn:Hk; cbn [snd ok_or]; [rewrite bind_Ok | done].
  cbn [map_err]. rewrite bind_Ok. destruct (keygen_ok rng1 ek dk (f_equal snd Hk)) as [Hel Heo]. pose proof mlkem_sizes as (Hsz & _).
  destruct (new_share_ok (MAX_CLIENT_SHARE_LEN ft)) as [Hok Hs].
  eapply ensures_bind; [apply ensures_map_err, extend_spec; [done | cbn; lia | lia | done] |]. intros c1 (Hc1 & Hl1 & Hb1).
  eapply ensures_bind; [apply ensures_map_err, extend_spec; [done | cbn in Hl1; lia | unfold X25519_SHARE_BYTES in Hl; lia | apply encapsulation_key_ok] |].
  intros c2 (Hc2 & _ & Hb2). cbn. split; [done |]. exists ek, rng1. rewrite Hk. split_and!; [done | | done].
  by rewrite Hb2, Hb1, Hs.
Qed.

(** The secret of the hybrid is the ML-KEM secret and then the X25519 one. *)
Lemma hybrid_derive_spec s sh :
  ensures (hybrid_derive s sh) (fun c => secret_ok c /\ exists ct x kss xss, sh = ct ++ x /\ blen ct = CT_BYTES /\ blen x = 32 /\
    decaps (hs_mlkem s) ct = Some kss /\ try_decapsulate (hs_x25519 s) x = Some xss /\ secret_bytes c = kss ++ xss).
Proof.
  pose proof mlkem_sizes as (_ & Hct & Hss). unfold hybrid_derive.
  eapply ensures_bind; [apply ensures_ok_or_eq |]. intros ct (_ & _ & Hle & Hl & Hcte)%slice_Some_inv.
  destruct (cut_at sh CT_BYTES) as (ct' & x' & -> & Hct' & Hx'); [lia |].
  unfold slice_from. rewrite slice_suffix by (rewrite ?blen_app; lia). run.
  assert (ct = ct') as ->.
  { rewrite Hcte. rewrite Z.sub_0_r. cbn [Z.to_nat drop]. apply take_app_length'. unfold blen in Hct'. lia. }
  eapply ensures_bind; [apply try_array_spec |]. intros _ct [-> _].
  eapply ensures_bind; [apply try_array_spec |]. intros _x [-> Hxl].
  eapply ensures_bind; [apply ensures_map_err, ecdhe_agree_spec |]. intros xss [Hxss Hxsl].
  unfold MlKem768_decapsulate. destruct (decaps (hs_mlkem s) ct') as [kss |] eqn:Hk; cbn [ok_or map_err]; [rewrite bind_Ok | done].
  pose proof (decaps_len _ _ _ Hk) as Hkl. rewrite Hss in *.
  assert (length kss = 32%nat /\ length xss = 32%nat) as [Hk32 Hx32] by (unfold blen in *; lia).
  assert (splice (zeros (32 + 32)) 0 kss = Some (kss ++ zeros 32)) as ->.
  { pose proof (splice_append [] kss (zeros (32 + 32)) 0) as Hsp. cbn [app] in Hsp.
    rewrite Hsp; [by rewrite Hk32 | done | change (blen (zeros (32 + 32))) with 64; lia]. }
  run. assert (splice (kss ++ zeros 32) 32 xss = Some (kss ++ xss)) as ->.
  { rewrite (splice_append kss xss (zeros 32)); [| lia | change (blen (zeros 32)) with 32; lia].
    rewrite Hx32. change (drop 32 (zeros 32)) with (@nil Z). by rewrite app_nil_r. }
  run. eapply ensures_weaken; [apply secret_of_spec; rewrite blen_app; lia |]. intros c [? Hc]. split; [done |].
  exists ct', x', kss, xss. unfold X25519_SHARE_BYTES in Hxl. done.
Qed.
End specs.

(** ** The groups as instances *)
Section instances.
Context `{Usize, CryptoRng, !DhKem, !MlKemCrate} (ft : Features).

Definition classical_group (id n : Z) (Hn : 0 <= n <= 2 ^ 16) : KxGroup.
Proof.
  refine (Build_KxGroup _ id n 32 DecapKey EcdheError (classical_generate ft n) (classical_derive n) _ _ _ _).
  - intros r. eapply ensures_no_panic, classical_generate_spec, Hn.
  - intros r s c Hc. pose proof (classical_generate_spec ft n r Hn) as Hs. rewrite Hc in Hs. by destruct Hs.
  - intros s sh. eapply ensures_no_panic, classical_derive_spec.
  - intros s sh c Hc. pose proof (classical_derive_spec n s sh) as Hs. rewrite Hc in Hs. by destruct Hs.
Defined.

Definition X25519Group : KxGroup := classical_group NAMED_GROUP_X25519 X25519_SHARE_BYTES ltac:(done).
Definition P256Group : KxGroup := classical_group NAMED_GROUP_SECP256R1 P256_SHARE_BYTES ltac:(done).

Definition X25519MlKem768Group : KxGroup.
Proof.
  refine (Build_KxGroup _ NAMED_GROUP_X25519MLKEM768 (EK_BYTES + 32) (SHARED_SECRET_BYTES + 32)
    X25519MlKem768Secret X25519MlKem768Error (hybrid_generate ft) hybrid_derive _ _ _ _).
  - intros r. eapply ensures_no_panic, hybrid_generate_spec.
  - intros r s c Hc. pose proof (hybrid_generate_spec ft r) as Hs. rewrite Hc in Hs. by destruct Hs.
  - intros s sh. eapply ensures_no_panic, hybrid_derive_spec.
  - intros s sh c Hc. pose proof (hybrid_derive_spec s sh) as Hs. rewrite Hc in Hs. by destruct Hs.
Defined.

Lemma hybrid_derive_complete s ct x kss xss :
  blen ct = CT_BYTES -> blen x = 32 -> decaps (hs_mlkem s) ct = Some kss -> try_decapsulate (hs_x25519 s) x = Some xss -> blen xss = 32 ->
  exists c, hybrid_derive s (ct ++ x) = Ok c /\ secret_bytes c = kss ++ xss.
Proof.
  intros Hct Hx Hk Hd Hl. pose proof (hybrid_derive_spec s (ct ++ x)) as Hspec.
  destruct (hybrid_derive s (ct ++ x)) as [c | e |] eqn:Hr; [| exfalso | done].
  - destruct Hspec as (_ & ct' & x' & k & d & Heq & Hct' & _ & Hk' & Hd' & Hs). exists c. split; [done |].
    apply app_inj_1 in Heq as [<- <-]; [| unfold blen in *; lia]. rewrite Hk in Hk'. rewrite Hd in Hd'. congruence.
  - clear Hspec. revert Hr. unfold hybrid_derive. rewrite slice_prefix by done. run. unfold slice_from.
    rewrite slice_suffix by (rewrite ?blen_app; lia). run. unfold try_array, X25519_SHARE_BYTES.
    rewrite (proj2 (Z.eqb_eq _ _) Hct), (proj2 (Z.eqb_eq _ _) Hx). run. unfold EcdheX25519_agree, ecdhe_agree. rewrite Hd. run.
    rewrite (proj2 (Z.eqb_eq _ _) Hl). cbn [negb]. rewrite copy_into_ok by done. run. unfold MlKem768_decapsulate. rewrite Hk. run.
    intros He. destruct (splice _ 0 kss) as [i1 |]; cbn [or_panic] in He; [rewrite bind_Ok in He | done].
    destruct (splice i1 _ xss) as [i2 |]; cbn [or_panic] in He; [rewrite bind_Ok in He | done].
    by destruct (secret_from_slice_eq (E := X25519MlKem768Error) i2) as (c & Hc & _); rewrite Hc in He.
Qed.

(** C18. The hybrid X25519MLKEM768 exchange agrees: for the share the client sent (the ML-KEM
    encapsulation key and then the X25519 point), a server that encapsulates to the one and
    uses its own point with the other computes the secret the client derives from the
    server's share, ML-KEM secret first.  Deriving never panics, and a share of any other
    length is refused. *)
Theorem hybrid_agreement (rng : Rng) (s : X25519MlKem768Secret) (c : ClientShareBuf) :
  (hybrid_generate ft rng).2 = Ok (s, c) ->
  (exists ek pub, share_bytes c = ek ++ pub /\ blen ek = EK_BYTES /\ blen pub = 32 /\
     forall (y : DecapKey) (r : Rng) xss,
       blen (encapsulation_key y) = 32 -> try_decapsulate y pub = Some xss -> blen xss = 32 ->
       exists c', hybrid_derive s ((encaps ek r).1 ++ encapsulation_key y) = Ok c' /\
         secret_bytes c' = (encaps ek r).2 ++ xss) /\
  (forall sh, no_panic (hybrid_derive s sh) /\ (blen sh <> CT_BYTES + 32 -> is_ok (hybrid_derive s sh) = false)).
Proof.
  intros Hg. pose proof (hybrid_generate_spec ft rng) as Hs. rewrite Hg in Hs. destruct Hs as (_ & ek & r0 & Hk & Hb & Hpl). split.
  - destruct (keygen_ok r0 ek (hs_mlkem s) Hk) as [Hel _]. exists ek, (encapsulation_key (hs_x25519 s)). split_and!; [done.. |].
    intros y r xss Hy Hd Hx. apply hybrid_derive_complete; [apply encaps_len | done | by eapply decaps_encaps | | done].
    by rewrite dh_agree.
  - intros sh. pose proof (hybrid_derive_spec s sh) as Hd. split; [by eapply ensures_no_panic |].
    intros Hne. destruct (hybrid_derive s sh) as [c' | |]; [exfalso | done..].
    destruct Hd as (_ & ct & x & _ & _ & -> & ? & ? & _). apply Hne. rewrite blen_app. lia.
Qed.
End instances.

(** ** Concrete exchanges, for evaluating examples *)

(** The point repeats the key, and two points combine by addition. *)
Definition dh_model : @DhKem rng_model.
Proof.
  refine (@Build_DhKem rng_model Z (fun r : Z => (r + 1, Some r)) (fun k => be_bytes 32 k)
    (fun k p => Some (be_bytes 32 (from_be (be_bytes 32 k) + from_be p))) _ _).
  - intros k. apply bytes_ok_be_bytes.
  - intros a b. by rewrite Z.add_comm.
Defined.

(** The secret is in the clear. *)
Definition mlkem_model : @MlKemCrate rng_model.
Proof.
  refine (@Build_MlKemCrate rng_model unit 40 33 32 (fun r : Z => (r + 1, Some (be_bytes 40 r, tt)))
    (fun _ ct => if blen ct =? 33 then Some (take 32 ct) else None) (fun _ (r : Z) => (be_bytes 32 r ++ [0], be_bytes 32 r)) _ _ _ _ _); try done.
  - intros r ek dk Hk. cbn [snd] in Hk. assert (ek = be_bytes 40 r) as -> by congruence. split; [by rewrite blen_be_bytes | apply bytes_ok_be_bytes].
  - intros dk ct ss. destruct (Z.eqb_spec (blen ct) 33) as [Hl |]; [| done]. intros [= <-]. rewrite blen_take. lia.
Defined.

Definition mlkem_features : Features := {|
  f_chacha20 := true; f_cipher_aes := true; f_rsa := false; f_mldsa := false;
  f_ecdsa := false; f_mlkem := true; f_x25519_kx := true; f_p256_kx := false |}.

Notation demo_hybrid := (@hybrid_generate usize32 rng_model mlkem_model mlkem_features dh_model 5).
Definition demo_secret : @X25519MlKem768Secret rng_model mlkem_model dh_model :=
  {| hs_x25519 := 5 : @DecapKey rng_model dh_model; hs_mlkem := tt : @MlKemDk rng_model mlkem_model |}.
Definition demo_share : ClientShareBuf := {| cs_buf := be_bytes 40 6 ++ be_bytes 32 5; cs_len := 72 |}.

Lemma hybrid_agreement_witness :
  demo_hybrid.2 = Ok (demo_secret, demo_share) /\
  exists ek pub, share_bytes demo_share = ek ++ pub /\ blen ek = 40 /\ blen pub = 32.
Proof.
  assert (demo_hybrid.2 = Ok (demo_secret, demo_share)) as Hd by reflexivity. split; [exact Hd |].
  destruct (proj1 (@hybrid_agreement usize32 rng_model dh_model mlkem_model mlkem_features 5 demo_secret demo_share Hd)) as (ek & pub & Hb & He & Hp & _).
  by exists ek, pub.
Defined.
