(* ===== verification/PinnedRoots.v ===== *)
(** * [backends/pinned_roots.rs]: chain validation against a pinned ledger

    The walk from the leaf to the first pinned certificate or to a stored anchor,
    the issuer checks on the way, and what an accepted chain has been shown to be. *)
From S2P Require Import Prelude Deps Cert.

(** [sha2::Sha256::digest] *)
Class Sha2 := {
  sha2_digest : bytes -> bytes;
  sha2_digest_len m : blen (sha2_digest m) = 32
}.

Definition sha2_model : Sha2.
Proof.
  refine {| sha2_digest m := be_bytes 32 (from_be (1 :: m)) |}. intros. apply blen_be_bytes.
Defined.

Inductive Anchor :=
| AnFingerprint (fp : bytes) | AnSpkiFingerprint (fp : bytes) | AnCert (der : bytes).

(** The strategy value; its clock is the [Clock] instance, its depth cap an argument. *)
Record PinnedRoots := { pr_anchors : list Anchor; pr_enforce_anchor_expiry : bool }.

Definition pinned_roots_new (anchors : list Anchor) : PinnedRoots :=
  {| pr_anchors := anchors; pr_enforce_anchor_expiry := false |}.
Definition enforce_anchor_expiry (pr : PinnedRoots) (on : bool) : PinnedRoots :=
  {| pr_anchors := pr_anchors pr; pr_enforce_anchor_expiry := on |}.

Definition DEFAULT_CHAIN_DEPTH : Z := 8.

Inductive PinnedRootsError :=
| PrEmptyChain | PrChainTooLong | PrParse (e : CertParseError)
| PrLinkSignatureInvalid | PrUnknownLinkSigAlg | PrRsaVerifierInvalid | PrMlDsaVerifierInvalid
| PrIssuerNotCa | PrIssuerKeyUsageForbidsCertSign | PrPathLenExceeded
| PrUntrustedRoot | PrValidity | PrLeafVerifierInvalid.

Definition pinned_of_link (e : LinkErr) : PinnedRootsError :=
  match e with
  | LkLinkSignatureInvalid => PrLinkSignatureInvalid
  | LkUnknownLinkSigAlg => PrUnknownLinkSigAlg
  | LkRsaVerifierInvalid => PrRsaVerifierInvalid
  | LkMlDsaVerifierInvalid => PrMlDsaVerifierInvalid
  end.

Definition pinned_of_prepare (e : PrepareLeafErr) : PinnedRootsError := PrLeafVerifierInvalid.

Definition is_fingerprint (a : Anchor) : bool :=
  match a with AnFingerprint _ => true | _ => false end.
Definition is_spki_fingerprint (a : Anchor) : bool :=
  match a with AnSpkiFingerprint _ => true | _ => false end.

Section pinned_roots.
Context `{SubtleCt, VerifierBackend, CertParser, Clock, Sha2}.

Definition fingerprint_hit (full : bytes) (a : Anchor) : bool :=
  match a with AnFingerprint fp => ct_eq full fp | _ => false end.
Definition spki_hit (spki : bytes) (a : Anchor) : bool :=
  match a with AnSpkiFingerprint fp => ct_eq spki fp | _ => false end.

Definition anchor_matches (pr : PinnedRoots) (cert_der : bytes) : outcome PinnedRootsError bool :=
  if existsb is_fingerprint (pr_anchors pr)
     && existsb (fingerprint_hit (sha2_digest cert_der)) (pr_anchors pr)
  then Ok true else
  if existsb is_spki_fingerprint (pr_anchors pr) then
    der ← map_err PrParse (spki_der cert_der);
    Ok (existsb (spki_hit (sha2_digest der)) (pr_anchors pr))
  else Ok false.

Definition is_stored_cert_anchor (pr : PinnedRoots) (cert_der : bytes) : bool :=
  existsb (fun a => match a with AnCert d => bool_decide (d = cert_der) | _ => false end)
    (pr_anchors pr).

Definition check_validity_of (pr : PinnedRoots) (cert_der : bytes) (view : CertView)
    : outcome PinnedRootsError unit :=
  if pr_enforce_anchor_expiry pr || negb (is_stored_cert_anchor pr cert_der)
  then check (check_validity view) PrValidity else Ok tt.

Definition require_issuer_ca (issuer_der : bytes) (intermediates_below : Z)
    : outcome PinnedRootsError unit :=
  ca ← map_err PrParse (parse_ca_constraints issuer_der);
  if negb (is_ca ca) then Err PrIssuerNotCa else
  if bool_decide (key_cert_sign ca = Some false) then Err PrIssuerKeyUsageForbidsCertSign else
  match path_len ca with
  | Some p => if p <? intermediates_below then Err PrPathLenExceeded else Ok tt
  | None => Ok tt
  end.

(** The [while i < certs.len()] walk: whether a pin was reached, the index it
    stopped at and the view there. *)
Fixpoint walk (fuel : nat) (pr : PinnedRoots) (certs : list bytes) (i : Z) (child : CertView)
    : outcome PinnedRootsError (bool * Z * CertView) :=
  match fuel with
  | O => Panic
  | S fuel =>
      if negb (i <? blen certs) then Ok (false, i, child) else
      cert ← or_panic (at_idx certs i);
      hit ← anchor_matches pr cert;
      _ ← check_validity_of pr cert child;
      if (hit : bool) then Ok (true, i, child) else
      if i + 1 =? blen certs then Ok (false, i, child) else
      parent_der ← or_panic (at_idx certs (i + 1));
      parent ← map_err PrParse (parse parent_der);
      _ ← map_err pinned_of_link (verify_link child parent);
      _ ← require_issuer_ca parent_der i;
      walk fuel pr certs (i + 1) parent
  end.

(** One stored anchor vouching for the top certificate; every step is fail-soft. *)
Definition anchor_vouches (pr : PinnedRoots) (i : Z) (child : CertView) (a : Anchor) : bool :=
  match a with
  | AnCert anchor_der =>
      match parse anchor_der with
      | Ok anchor_view =>
          is_ok (require_issuer_ca anchor_der i)
          && is_ok (verify_link child anchor_view)
          && is_ok (check_validity_of pr anchor_der anchor_view)
      | _ => false
      end
  | _ => false
  end.

Definition pinned_verify_chain (CAP : Z) (pr : PinnedRoots) (certs : list bytes)
    : outcome PinnedRootsError PreparedVerifier :=
  if blen certs =? 0 then Err PrEmptyChain else
  if CAP <? blen certs then Err PrChainTooLong else
  leaf_der ← or_panic (at_idx certs 0);
  leaf_view ← map_err PrParse (parse leaf_der);
  '(anchored, i, child) ← walk (S (length certs)) pr certs 0 leaf_view;
  if (anchored : bool) || existsb (anchor_vouches pr i child) (pr_anchors pr)
  then map_err pinned_of_prepare (prepare_leaf leaf_view)
  else Err PrUntrustedRoot.
End pinned_roots.

(** ** What the checks establish *)

Section meaning.
Context `{SubtleCt, VerifierBackend, CertParser, Clock, Sha2} (pr : PinnedRoots).

(** A CA, allowed to sign certificates, with room for the CAs below it. *)
Definition issuer_ok (der : bytes) (below : Z) : Prop :=
  exists ca, parse_ca_constraints der = Ok ca /\ is_ca ca = true /\
    key_cert_sign ca <> Some false /\ forall p, path_len ca = Some p -> below <= p.

(** The certificate document or its key is in the ledger. *)
Definition pinned (der : bytes) : Prop :=
  AnFingerprint (sha2_digest der) ∈ pr_anchors pr \/
  exists spki, spki_der der = Ok spki /\ AnSpkiFingerprint (sha2_digest spki) ∈ pr_anchors pr.

(** Inside its window, or a stored anchor exempt from it. *)
Definition valid_now (der : bytes) (view : CertView) : Prop :=
  check_validity view = true \/
  (pr_enforce_anchor_expiry pr = false /\ AnCert der ∈ pr_anchors pr).

Definition vouched (below : Z) (top : CertView) : Prop :=
  exists der view, AnCert der ∈ pr_anchors pr /\ parse der = Ok view /\
    issuer_ok der below /\ link_signed top view /\ valid_now der view.

Lemma require_issuer_ca_spec der below : require_issuer_ca der below = Ok tt -> issuer_ok der below.
Proof.
  unfold require_issuer_ca, issuer_ok. intros Hr. apply bind_Ok_inv in Hr as (ca & Hca%map_err_Ok_inv & Hr).
  exists ca. split; [done |]. repeat case_match; try done; bool_to_prop.
  all: repeat match goal with H : bool_decide _ = false |- _ => apply bool_decide_eq_false in H end.
  all: split_and!; try done; try congruence; intros; simplify_eq; lia.
Qed.

Lemma is_stored_spec der : is_stored_cert_anchor pr der = true <-> AnCert der ∈ pr_anchors pr.
Proof.
  unfold is_stored_cert_anchor. rewrite existsb_exists. split.
  - intros ([] & Hin%list_elem_of_In & Ha); try done. apply bool_decide_eq_true in Ha. by subst.
  - intros Hin. exists (AnCert der). rewrite bool_decide_eq_true. split; [by apply list_elem_of_In | done].
Qed.

Lemma check_validity_of_spec der view : check_validity_of pr der view = Ok tt <-> valid_now der view.
Proof.
  unfold check_validity_of, valid_now. rewrite <- is_stored_spec.
  destruct (pr_enforce_anchor_expiry pr), (is_stored_cert_anchor pr der); cbn [orb negb];
    rewrite ?check_Ok_inv; naive_solver.
Qed.

Lemma anchor_matches_sound der : anchor_matches pr der = Ok true -> pinned der.
Proof.
  unfold anchor_matches, pinned. case_match eqn:Hf.
  - intros _. left. apply andb_true_iff in Hf as [_ Hf]. apply existsb_exists in Hf as ([] & Hin & Ha); try done.
    apply ct_eq_spec in Ha. subst. by apply list_elem_of_In.
  - case_match; [| done]. intros Ha. invert_ok. right.
    match goal with Hs : spki_der _ = Ok ?s |- _ => exists s; split; [done |] end.
    apply existsb_exists in Ha as ([] & Hin & Ha); try done.
    apply ct_eq_spec in Ha. subst. by apply list_elem_of_In.
Qed.

Lemma anchor_vouches_spec i child a :
  a ∈ pr_anchors pr -> anchor_vouches pr i child a = true -> vouched i child.
Proof.
  unfold anchor_vouches, vouched. intros Hin Ha. destruct a as [| | der]; try done.
  destruct (parse der) as [view | |] eqn:Hp; try done. bool_to_prop.
  exists der, view. split_and!; try done.
  - destruct (require_issuer_ca der i) as [[] | |] eqn:Hr; try done. by apply require_issuer_ca_spec.
  - destruct (verify_link child view) as [[] | |] eqn:Hr; try done. by apply verify_link_sound.
  - destruct (check_validity_of pr der view) as [[] | |] eqn:Hr; try done. by apply check_validity_of_spec.
Qed.

Lemma check_validity_of_total der view : no_panic (check_validity_of pr der view).
Proof. unfold check_validity_of, check. by repeat case_match. Qed.

Lemma require_issuer_ca_total der below : bytes_ok der -> no_panic (require_issuer_ca der below).
Proof.
  intros Hd. unfold require_issuer_ca. apply no_panic_bind; [by apply no_panic_map_err, parse_ca_total |].
  intros. by repeat case_match.
Qed.

Lemma anchor_matches_total der : bytes_ok der -> no_panic (anchor_matches pr der).
Proof.
  intros Hd. unfold anchor_matches. repeat case_match; try done.
  apply no_panic_bind; [by apply no_panic_map_err, spki_total | done].
Qed.
End meaning.

(** ** The trusted paths of a ledger *)

Section path.
Context `{SubtleCt, VerifierBackend, CertParser, Clock, Sha2} (pr : PinnedRoots).

(** [trusted_path (d :: above) i v]: the certificate [d], parsed as [v], with [i]
    certificates below it on the path, is trusted: it is pinned, or it is the last
    one presented and a stored anchor vouches for it, or it is signed by the next
    certificate, an eligible issuer that is itself trusted. *)
Inductive trusted_path : list bytes -> Z -> CertView -> Prop :=
| tp_pinned d above i v : pinned pr d -> valid_now pr d v -> trusted_path (d :: above) i v
| tp_stored d i v : valid_now pr d v -> vouched pr i v -> trusted_path [d] i v
| tp_link d p above i v w :
    valid_now pr d v -> parse p = Ok w -> link_signed v w -> issuer_ok p i ->
    trusted_path (p :: above) (i + 1) w -> trusted_path (d :: p :: above) i v.

Lemma walk_sound fuel (done_ : list bytes) (d : bytes) (above : list bytes) child anchored k top :
  (length above < fuel)%nat ->
  walk fuel pr (done_ ++ d :: above) (blen done_) child = Ok (anchored, k, top) ->
  anchored || existsb (anchor_vouches pr k top) (pr_anchors pr) = true ->
  trusted_path (d :: above) (blen done_) child.
Proof.
  revert done_ d above child. induction fuel as [| fuel IH]; intros dn d above child Hf; [lia |].
  cbn [walk]. rewrite blen_app, blen_cons. pose proof (blen_nonneg above).
  destruct (Z.ltb_spec (blen dn) (blen dn + (1 + blen above))); [cbn [negb] | lia].
  rewrite (at_idx_middle dn d above (blen dn)) by done. run. intros Hw Hacc.
  apply bind_Ok_inv in Hw as (hit & Hm & Hw). apply bind_Ok_inv in Hw as ([] & Hval & Hw).
  apply check_validity_of_spec in Hval.
  destruct hit.
  { injection Hw as <- <- <-. apply tp_pinned; [by apply anchor_matches_sound | done]. }
  destruct (Z.eqb_spec (blen dn + 1) (blen dn + (1 + blen above))) as [He | He].
  { injection Hw as <- <- <-. cbn [orb] in Hacc.
    rewrite (blen_zero_nil above) by lia. apply tp_stored; [done |].
    apply existsb_exists in Hacc as (a & Hin & Ha). eapply anchor_vouches_spec; [| done].
    by apply list_elem_of_In. }
  destruct above as [| p above]; [rewrite blen_nil in He; lia |].
  replace (dn ++ d :: p :: above) with ((dn ++ [d]) ++ p :: above) in * by (by rewrite <- app_assoc).
  replace (blen dn + 1) with (blen (dn ++ [d])) in * by (by rewrite blen_app).
  rewrite (at_idx_middle (dn ++ [d]) p above) in Hw by done. cbn [or_panic] in Hw. rewrite bind_Ok in Hw.
  apply bind_Ok_inv in Hw as (w & Hpw%map_err_Ok_inv & Hw).
  apply bind_Ok_inv in Hw as ([] & Hlk%map_err_Ok_inv & Hw).
  apply bind_Ok_inv in Hw as ([] & Hca & Hw).
  eapply tp_link; [done | done | by apply verify_link_sound | by apply require_issuer_ca_spec |].
  replace (blen dn + 1) with (blen (dn ++ [d])) by (by rewrite blen_app).
  eapply IH; [cbn in Hf; lia | exact Hw | exact Hacc].
Qed.

Lemma walk_total fuel (done_ : list bytes) (d : bytes) (above : list bytes) child :
  (length above < fuel)%nat -> Forall bytes_ok (d :: above) -> no_panic (walk fuel pr (done_ ++ d :: above) (blen done_) child).
Proof.
  revert done_ d above child. induction fuel as [| fuel IH]; intros dn d above child Hf Hbs; [lia |]. pose proof Hbs as [Hd Hab]%Forall_cons.
  cbn [walk]. rewrite blen_app, blen_cons. pose proof (blen_nonneg above).
  case_match; [done |]. rewrite (at_idx_middle dn d above (blen dn)) by done. run.
  apply no_panic_bind; [by apply anchor_matches_total |]. intros hit _.
  apply no_panic_bind; [apply check_validity_of_total |]. intros _ _.
  destruct hit; [done |].
  destruct (Z.eqb_spec (blen dn + 1) (blen dn + (1 + blen above))) as [| He]; [done |].
  destruct above as [| p above]; [rewrite blen_nil in He; lia |].
  replace (dn ++ d :: p :: above) with ((dn ++ [d]) ++ p :: above) by (by rewrite <- app_assoc).
  replace (blen dn + 1) with (blen (dn ++ [d])) by (by rewrite blen_app).
  rewrite (at_idx_middle (dn ++ [d]) p above) by done. run.
  pose proof Hab as [Hp _]%Forall_cons. apply no_panic_bind; [by apply no_panic_map_err, parse_total |]. intros w _.
  apply no_panic_bind; [apply no_panic_map_err, verify_link_total |]. intros _ _.
  apply no_panic_bind; [by apply require_issuer_ca_total |]. intros _ _.
  apply IH; [cbn in Hf; lia | done].
Qed.

(** C22. [PinnedRoots] never panics, and an accepted chain is within the depth cap,
    is a trusted path of the ledger — every certificate up to the anchor is in its
    validity window, correctly signed by the next one, and every issuer on the path
    is a CA allowed to sign with room for the CAs below it — and the verifier handed
    back holds the leaf's key. *)
Theorem pinned_roots_sound (CAP : Z) (certs : list bytes) (pv : PreparedVerifier) :
  (Forall bytes_ok certs -> no_panic (pinned_verify_chain CAP pr certs)) /\
  (pinned_verify_chain CAP pr certs = Ok pv ->
   exists leaf_der above leaf, certs = leaf_der :: above /\ blen certs <= CAP /\
     parse leaf_der = Ok leaf /\ trusted_path certs 0 leaf /\
     prepared_for pv leaf /\ matches_cert pv leaf = true).
Proof.
  unfold pinned_verify_chain. destruct certs as [| d above]; [done |].
  destruct (Z.eqb_spec (blen (d :: above)) 0) as [He | _].
  { rewrite blen_cons in He. pose proof (blen_nonneg above). lia. }
  destruct (Z.ltb_spec CAP (blen (d :: above))); [done |].
  change (at_idx (d :: above) 0) with (Some d). cbn [or_panic]. rewrite bind_Ok.
  pose proof (walk_total (S (length (d :: above))) [] d above) as Hwt.
  pose proof (walk_sound (S (length (d :: above))) [] d above) as Hws.
  cbn [app] in Hwt, Hws. rewrite blen_nil in Hwt, Hws. split.
  - intros Hbs. pose proof Hbs as [Hd _]%Forall_cons. apply no_panic_bind; [by apply no_panic_map_err, parse_total |]. intros leaf _.
    apply no_panic_bind; [apply Hwt; [cbn; lia | done] |]. intros [[anchored k] top] _.
    case_match; [apply no_panic_map_err, prepare_leaf_total | done].
  - intros Hv. apply bind_Ok_inv in Hv as (leaf & Hleaf%map_err_Ok_inv & Hv).
    apply bind_Ok_inv in Hv as ([[anchored k] top] & Hw & Hv).
    destruct (anchored || _) eqn:Hacc; [| done]. apply map_err_Ok_inv, prepare_leaf_for in Hv.
    exists d, above, leaf. split_and!; try done; [| by apply matches_cert_spec].
    eapply Hws; [cbn; lia | done | done].
Qed.
End path.

(** ** The order of the ledger is irrelevant *)

Section order.
Context `{SubtleCt, VerifierBackend, CertParser, Clock, Sha2}.

Lemma existsb_perm {A} (f : A -> bool) (l m : list A) : l ≡ₚ m -> existsb f l = existsb f m.
Proof.
  intros Hp. apply eq_true_iff_eq. rewrite !existsb_exists.
  split; intros (x & Hin & Hx); exists x; (split; [| done]);
    apply list_elem_of_In; apply list_elem_of_In in Hin; by rewrite Hp in Hin || rewrite Hp.
Qed.

Lemma existsb_ext_all {A} (f g : A -> bool) (l : list A) :
  (forall x, f x = g x) -> existsb f l = existsb g l.
Proof. intros Hfg. induction l as [| x l IH]; cbn; [done |]. by rewrite Hfg, IH. Qed.

Definition same_ledger (pr pr' : PinnedRoots) : Prop :=
  pr_anchors pr ≡ₚ pr_anchors pr' /\ pr_enforce_anchor_expiry pr = pr_enforce_anchor_expiry pr'.

Context (pr pr' : PinnedRoots) (Hsame : same_ledger pr pr').

Lemma anchor_matches_perm der : anchor_matches pr der = anchor_matches pr' der.
Proof.
  destruct Hsame as [Hp _]. unfold anchor_matches.
  rewrite !(existsb_perm _ _ _ Hp). case_match; [done |]. case_match; [| done].
  destruct (map_err PrParse (spki_der der)); run; [| done..]. by rewrite (existsb_perm _ _ _ Hp).
Qed.

Lemma check_validity_of_perm der view : check_validity_of pr der view = check_validity_of pr' der view.
Proof.
  destruct Hsame as [Hp He]. unfold check_validity_of, is_stored_cert_anchor.
  by rewrite He, (existsb_perm _ _ _ Hp).
Qed.

Lemma walk_perm fuel certs i child : walk fuel pr certs i child = walk fuel pr' certs i child.
Proof.
  revert i child. induction fuel as [| fuel IH]; intros i child; [done |]. cbn [walk].
  case_match; [done |]. destruct (at_idx certs i); run; [| done].
  rewrite anchor_matches_perm. destruct (anchor_matches pr' _); run; [| done..].
  rewrite check_validity_of_perm. destruct (check_validity_of pr' _ _); run; [| done..].
  repeat (case_match; [done |]). destruct (at_idx certs (i + 1)); run; [| done].
  destruct (parse _); run; [| done..]. destruct (verify_link _ _); run; [| done..].
  destruct (require_issuer_ca _ _); run; [apply IH | done..].
Qed.

Lemma vouches_perm i child :
  existsb (anchor_vouches pr i child) (pr_anchors pr)
  = existsb (anchor_vouches pr' i child) (pr_anchors pr').
Proof.
  destruct Hsame as [Hp _]. rewrite (existsb_perm _ _ _ Hp). apply existsb_ext_all. intros a.
  unfold anchor_vouches. repeat (case_match; try done). by rewrite check_validity_of_perm.
Qed.
End order.

(** The verdict — the verifier or the exact error — does not depend on the order
    of the anchors in the ledger, even when some stored anchors are malformed. *)
Theorem pinned_roots_order_independent
    `{SubtleCt, VerifierBackend, CertParser, Clock, Sha2}
    (CAP : Z) (pr pr' : PinnedRoots) (certs : list bytes) :
  same_ledger pr pr' -> pinned_verify_chain CAP pr certs = pinned_verify_chain CAP pr' certs.
Proof.
  intros Hs. unfold pinned_verify_chain. repeat (case_match; [done |]).
  destruct (at_idx certs 0); run; [| done]. destruct (parse _); run; [| done..].
  rewrite (walk_perm pr pr' Hs). destruct (walk _ _ _ _ _) as [[[anchored i] child] | |]; run; [| done..].
  by rewrite (vouches_perm pr pr' Hs).
Qed.

Section witnesses.
#[local] Existing Instances subtle_model backend_model cert_model NoClock sha2_model.

Definition demo_ledger : PinnedRoots :=
  pinned_roots_new [AnCert []; AnFingerprint (sha2_digest [7])].

Lemma pinned_roots_sound_witness :
  let pv := PvEd25519 (be_bytes 32 (from_be [5; 6])) in
  exists leaf, parse [5; 6] = Ok leaf /\ trusted_path demo_ledger [[5; 6]; [7]; [8; 8]] 0 leaf /\
    prepared_for pv leaf.
Proof.
  intros pv. destruct (pinned_roots_sound demo_ledger 8 [[5; 6]; [7]; [8; 8]] pv) as [_ Hs].
  destruct Hs as (d & above & leaf & Hc & _ & Hp & Ht & Hf & _); [vm_compute; reflexivity |].
  injection Hc as <- _. exists leaf. split; [exact Hp |]. split; [exact Ht | exact Hf].
Defined.

Lemma pinned_roots_order_independent_witness :
  pinned_verify_chain 8 demo_ledger [[5; 6]; [7]]
  = pinned_verify_chain 8 (pinned_roots_new [AnFingerprint (sha2_digest [7]); AnCert []]) [[5; 6]; [7]].
Proof.
  apply pinned_roots_order_independent. split; [apply Permutation_swap | reflexivity].
Defined.
End witnesses.
