(* ===== verification/Identity.v ===== *)
(** * [backends/tlv.rs], [identity.rs]: DER framing and hostname binding

    The TLV walker against the canonical DER encoding, the SubjectAltName
    iterators, the wildcard rule and [verify_hostname] with the standard library's
    IP-address parsers. *)
From S2P Require Import Prelude Cert.

(** ** [backends/tlv.rs] *)

Inductive TlvError := TlvErr.

Record Tlv := { tlv_tag : Z; tlv_header_len : Z; tlv_body : bytes; tlv_rest : bytes }.

Section tlv.
Context `{Usize}.

(** [usize::checked_shl(8)]: only the shift amount is checked, high bits are lost. *)
Definition usize_shl8 (x : Z) : Z := (x * 256) mod (usize_max + 1).

(** The long-form length octets. *)
Fixpoint tlv_len_loop (bs : bytes) (len : Z) : outcome TlvError Z :=
  match bs with
  | [] => Ok len
  | b :: bs => len ← ok_or (checked_add (usize_shl8 len) b) TlvErr; tlv_len_loop bs len
  end.

(** The header length and body length. *)
Definition tlv_lengths (buf : bytes) (len_first : Z) : outcome TlvError (Z * Z) :=
  if Z.land len_first 0x80 =? 0 then Ok (2, len_first) else
  let n := Z.land len_first 0x7F in
  if (n =? 0) || (4 <? n) then Err TlvErr else
  if blen buf <? 2 + n then Err TlvErr else
  lb ← or_panic (slice buf 2 (2 + n));
  len ← tlv_len_loop lb 0;
  b2 ← or_panic (at_idx buf 2);
  if (len <? 0x80) || (b2 =? 0) then Err TlvErr else Ok (2 + n, len).

Definition read_tlv (buf : bytes) : outcome TlvError Tlv :=
  if blen buf =? 0 then Err TlvErr else
  tag ← or_panic (at_idx buf 0);
  if Z.land tag 0x1F =? 0x1F then Err TlvErr else
  if blen buf <? 2 then Err TlvErr else
  len_first ← or_panic (at_idx buf 1);
  '(header_len, body_len) ← tlv_lengths buf len_first;
  end_ ← ok_or (checked_add header_len body_len) TlvErr;
  if blen buf <? end_ then Err TlvErr else
  body ← or_panic (slice buf header_len end_);
  rest ← or_panic (slice_from buf end_);
  Ok {| tlv_tag := tag; tlv_header_len := header_len; tlv_body := body; tlv_rest := rest |}.

Definition tag_ctx_primitive (n : Z) : Z := Z.lor 0x80 (Z.land n 0x1F).
End tlv.

(** ** [identity.rs] *)

Inductive IdentityError :=
| IdNoSan | IdHostnameMismatch | IdMalformedSan | IdPinMismatch | IdPinAlgorithmMismatch.

Definition DNS_NAME_TAG : Z := tag_ctx_primitive 2.
Definition IP_ADDRESS_TAG : Z := tag_ctx_primitive 7.

Definition ascii_lower (b : Z) : Z := if (65 <=? b) && (b <=? 90) then b + 32 else b.

(** [eq_ignore_ascii_case] *)
Definition ascii_eq_ignore_case (a b : bytes) : bool :=
  bool_decide (ascii_lower <$> a = ascii_lower <$> b).

Definition byte_mem (x : Z) (l : bytes) : bool := existsb (Z.eqb x) l.

(** [strip_prefix] and [strip_suffix] with one byte *)
Fixpoint strip_prefix (p l : bytes) : option bytes :=
  match p, l with
  | [], _ => Some l
  | x :: p, y :: l => if x =? y then strip_prefix p l else None
  | _ :: _, [] => None
  end.
Definition strip_suffix_byte (x : Z) (l : bytes) : option bytes :=
  if bool_decide (last l = Some x) then Some (take (length l - 1) l) else None.

Definition dns_name_matches (pattern hostname : bytes) : outcome IdentityError bool :=
  match strip_prefix [42; 46] pattern with
  | Some suffix =>
      if (blen suffix =? 0) || byte_mem 42 suffix then Ok false else
      if blen hostname <=? blen suffix + 1 then Ok false else
      let split_at := blen hostname - blen suffix in
      label_with_dot ← or_panic (slice hostname 0 split_at);
      tail ← or_panic (slice_from hostname split_at);
      if negb (ascii_eq_ignore_case tail suffix) then Ok false else
      if negb (bool_decide (last label_with_dot = Some 46)) then Ok false else
      lbl ← or_panic (slice label_with_dot 0 (blen label_with_dot - 1));
      if (blen lbl =? 0) || byte_mem 46 lbl then Ok false else Ok true
  | None => if byte_mem 42 pattern then Ok false else Ok (ascii_eq_ignore_case pattern hostname)
  end.

Definition is_ascii_digit (b : Z) : bool := (48 <=? b) && (b <=? 57).

(** The byte loop of [looks_like_ip_literal]. *)
Fixpoint ip_literal_loop (bs : bytes) (saw_dot all_digit_or_dot : bool) : bool * bool * bool :=
  match bs with
  | [] => (false, saw_dot, all_digit_or_dot)
  | b :: bs =>
      if b =? 58 then (true, saw_dot, all_digit_or_dot) else
      if b =? 46 then ip_literal_loop bs true all_digit_or_dot
      else ip_literal_loop bs saw_dot (all_digit_or_dot && is_ascii_digit b)
  end.

Definition looks_like_ip_literal (hostname : bytes) : bool :=
  if bool_decide (head hostname = Some 91) then true else
  let '(colon, saw_dot, all_digit_or_dot) := ip_literal_loop hostname false true in
  colon || (negb (blen hostname =? 0) && all_digit_or_dot && saw_dot).

Section identity.
Context `{Usize} (ip_host : bool).

(** [SanEntryWalker::next]: the item, if any, and the remaining bytes. *)
Fixpoint san_next (fuel : nat) (target_tag : Z) (rest : bytes)
    : option (outcome IdentityError bytes) * bytes :=
  match fuel with
  | O => (Some Panic, rest)
  | S fuel =>
      if blen rest =? 0 then (None, rest) else
      match read_tlv rest with
      | Err _ => (Some (Err IdMalformedSan), [])
      | Panic => (Some Panic, rest)
      | Ok t =>
          if tlv_tag t =? target_tag then
            if ip_host && (target_tag =? IP_ADDRESS_TAG)
               && negb (blen (tlv_body t) =? 4) && negb (blen (tlv_body t) =? 16)
            then (Some (Err IdMalformedSan), tlv_rest t)
            else (Some (Ok (tlv_body t)), tlv_rest t)
          else san_next fuel target_tag (tlv_rest t)
      end
  end.

(** The two [for entry in ..] loops, with the predicate of each. *)
Fixpoint san_search (fuel : nat) (target_tag : Z) (accept : bytes -> outcome IdentityError bool)
    (rest : bytes) : outcome IdentityError unit :=
  match fuel with
  | O => Panic
  | S fuel =>
      match san_next (S (length rest)) target_tag rest with
      | (None, _) => Err IdHostnameMismatch
      | (Some item, rest') =>
          entry ← item;
          m ← accept entry;
          if (m : bool) then Ok tt else san_search fuel target_tag accept rest'
      end
  end.

Definition match_ip_address (san expected : bytes) : outcome IdentityError unit :=
  san_search (S (length san)) IP_ADDRESS_TAG (fun e => Ok (bool_decide (e = expected))) san.

(** *** [core::net]: [Ipv4Addr] and [Ipv6Addr] from text *)

Definition to_digit (radix b : Z) : option Z :=
  let d := if is_ascii_digit b then b - 48
           else if (97 <=? b) && (b <=? 122) then b - 87
           else if (65 <=? b) && (b <=? 90) then b - 55 else radix in
  if d <? radix then Some d else None.

Fixpoint digits_loop (radix max_digits : Z) (s : bytes) (result count : Z) : option (Z * Z * bytes) :=
  match s with
  | b :: s' =>
      match to_digit radix b with
      | Some d => if max_digits <? count + 1 then None
                  else digits_loop radix max_digits s' (result * radix + d) (count + 1)
      | None => Some (result, count, s)
      end
  | [] => Some (result, count, s)
  end.

Definition read_number (radix max_digits : Z) (allow_zero_prefix : bool) (limit : Z) (s : bytes)
    : option (Z * bytes) :=
  match digits_loop radix max_digits s 0 0 with
  | None => None
  | Some (v, count, s') =>
      if count =? 0 then None else
      if negb allow_zero_prefix && bool_decide (head s = Some 48) && (1 <? count) then None else
      if v <? limit then Some (v, s') else None
  end.

Definition read_given_char (c : Z) (s : bytes) : option bytes :=
  match s with b :: s' => if b =? c then Some s' else None | [] => None end.

(** [read_separator(sep, index, ..)]: the separator precedes every item but the first. *)
Definition read_sep {A} (sep index : Z) (f : bytes -> option (A * bytes)) (s : bytes)
    : option (A * bytes) :=
  if 0 <? index then match read_given_char sep s with Some s' => f s' | None => None end else f s.

Definition read_octet (i : Z) (s : bytes) : option (Z * bytes) :=
  read_sep 46 i (read_number 10 3 false 256) s.

Definition read_ipv4_addr (s : bytes) : option (bytes * bytes) :=
  match read_octet 0 s with None => None | Some (a, s) =>
  match read_octet 1 s with None => None | Some (b, s) =>
  match read_octet 2 s with None => None | Some (c, s) =>
  match read_octet 3 s with None => None | Some (d, s) => Some ([a; b; c; d], s)
  end end end end.

(** [read_groups]: the octets of the groups read, whether an embedded IPv4 address
    ended them, and the rest of the text. *)
Fixpoint read_groups (n : nat) (i limit : Z) (groups : bytes) (s : bytes) : bytes * bool * bytes :=
  match n with
  | O => (groups, false, s)
  | S n =>
      match (if i <? limit - 1 then read_sep 58 i read_ipv4_addr s else None) with
      | Some (v4, s') => (groups ++ v4, true, s')
      | None =>
          match read_sep 58 i (read_number 16 4 true U16) s with
          | Some (g, s') => read_groups n (i + 1) limit (groups ++ be_bytes 2 g) s'
          | None => (groups, false, s)
          end
      end
  end.

Definition read_ipv6_addr (s : bytes) : option (bytes * bytes) :=
  let '(head_, head_ipv4, s) := read_groups 8 0 8 [] s in
  if blen head_ =? 16 then Some (head_, s) else
  if (head_ipv4 : bool) then None else
  match read_given_char 58 s with None => None | Some s =>
  match read_given_char 58 s with None => None | Some s =>
    let limit := 8 - (blen head_ / 2 + 1) in
    let '(tail, _, s) := read_groups (Z.to_nat limit) 0 limit [] s in
    Some (head_ ++ zeros (16 - blen head_ - blen tail) ++ tail, s)
  end end.

(** [str::parse]: the parser must consume everything. *)
Definition parse_all (f : bytes -> option (bytes * bytes)) (s : bytes) : option bytes :=
  match f s with Some (a, []) => Some a | _ => None end.

Definition parse_ipv4 (s : bytes) : option bytes :=
  if 15 <? blen s then None else parse_all read_ipv4_addr s.
Definition parse_ipv6 (s : bytes) : option bytes := parse_all read_ipv6_addr s.

(** [strip_prefix('[').and_then(strip_suffix(']')).unwrap_or(hostname)] *)
Definition unbracket (hostname : bytes) : bytes :=
  default hostname (strip_prefix [91] hostname ≫= strip_suffix_byte 93).

(** The octets an IP-literal host name denotes. *)
Definition host_octets (hostname : bytes) : option bytes :=
  if ip_host then
    match parse_ipv4 (unbracket hostname) with
    | Some v4 => Some v4
    | None => parse_ipv6 (unbracket hostname)
    end
  else None.

Definition verify_hostname (cert_view : CertView) (hostname : bytes) : outcome IdentityError unit :=
  san ← ok_or (cv_san cert_view) IdNoSan;
  if looks_like_ip_literal hostname then
    match host_octets hostname with
    | Some octets => match_ip_address san octets
    | None => Err IdHostnameMismatch
    end
  else san_search (S (length san)) DNS_NAME_TAG (fun e => dns_name_matches e hostname) san.
End identity.

(** ** The canonical encoding *)

Definition len_octets (n : Z) : nat :=
  if n <? 256 then 1 else if n <? U16 then 2 else if n <? U24 then 3 else 4.

Definition der_len (n : Z) : bytes :=
  if n <? 128 then [n] else (128 + Z.of_nat (len_octets n)) :: be_bytes (len_octets n) n.

Definition tlv_encode (tag : Z) (body : bytes) : bytes := tag :: der_len (blen body) ++ body.

Lemma byte_forall (P : Z -> bool) x : forallb P (seqZ 0 256) = true -> is_u8 x -> P x = true.
Proof.
  rewrite forallb_forall. intros HP Hx. apply HP, list_elem_of_In, elem_of_seqZ.
  unfold is_u8, U8 in Hx. lia.
Qed.

(** The two forms of the first length octet. *)
Lemma len_first_cases x :
  is_u8 x ->
  if Z.land x 0x80 =? 0 then x < 128 else 128 <= x /\ Z.land x 0x7F = x - 128.
Proof.
  intros Hx.
  pose proof (byte_forall (fun x => if Z.land x 0x80 =? 0 then x <? 128
                else (128 <=? x) && (Z.land x 0x7F =? x - 128)) x eq_refl Hx) as Hc.
  cbn beta in Hc. destruct (Z.land x 0x80 =? 0); bool_to_prop; auto.
Qed.

Section tlv_lemmas.
Context `{Usize}.

Lemma tlv_len_loop_ok bs len :
  bytes_ok bs -> 0 <= len -> len * 256 ^ blen bs + from_be bs < U32 ->
  tlv_len_loop bs len = Ok (len * 256 ^ blen bs + from_be bs).
Proof.
  revert len. induction bs as [| b bs IH]; intros len Hok Hl Hlt; cbn [tlv_len_loop].
  { rewrite blen_nil. cbn. f_equal. lia. }
  apply Forall_cons in Hok as [Hb Hok]. pose proof (from_be_bound bs Hok) as Hbd.
  pose proof (blen_nonneg bs) as Hn. pose proof usize_max_ge.
  rewrite blen_cons, Z.pow_add_r in * by lia. cbn [from_be] in *.
  assert (1 <= 256 ^ blen bs) by (pose proof (Z.pow_pos_nonneg 256 (blen bs)); lia).
  unfold is_u8, U8 in Hb.
  assert (len * 256 + b < U32) by nia.
  unfold usize_shl8. rewrite Z.mod_small by (unfold U32 in *; lia).
  rewrite checked_add_small by done. run. rewrite IH; [f_equal; lia | done | lia | lia].
Qed.

(** A leading non-zero octet fixes the number of octets. *)
Lemma len_octets_from_be b bs :
  is_u8 b -> bytes_ok bs -> b <> 0 -> (length bs <= 3)%nat -> len_octets (from_be (b :: bs)) = S (length bs).
Proof.
  intros Hb Hbs Hb0 Hl. pose proof (from_be_bound bs Hbs) as Hbd. unfold is_u8, U8 in Hb.
  unfold len_octets, U16, U24. cbn [from_be]. unfold blen in *.
  destruct (length bs) as [| [| [| [| n]]]]; [..| lia]; cbn in Hbd |- *;
    repeat match goal with |- context [?x <? ?y] => destruct (Z.ltb_spec x y) end; lia.
Qed.

Lemma len_octets_bound n :
  128 <= n < U32 -> (1 <= len_octets n <= 4)%nat /\
  256 ^ (Z.of_nat (len_octets n) - 1) <= n < 256 ^ Z.of_nat (len_octets n).
Proof.
  unfold len_octets, U16, U24, U32. intros Hn.
  repeat match goal with |- context [?x <? ?y] => destruct (Z.ltb_spec x y) end; cbn; lia.
Qed.

Lemma be_bytes_head n v :
  (1 <= n)%nat -> 256 ^ (Z.of_nat n - 1) <= v < 256 ^ Z.of_nat n ->
  exists b bs, be_bytes n v = b :: bs /\ b <> 0.
Proof.
  destruct n as [| n]; [lia |]. intros _ Hv. cbn [be_bytes]. eexists _, _. split; [done |].
  replace (Z.of_nat (S n) - 1) with (Z.of_nat n) in Hv by lia.
  replace (Z.of_nat (S n)) with (1 + Z.of_nat n) in Hv by lia. rewrite Z.pow_add_r in Hv by lia.
  pose proof (Z.pow_pos_nonneg 256 (Z.of_nat n)).
  assert (1 <= v / 256 ^ Z.of_nat n) by (apply Z.div_le_lower_bound; lia).
  assert (v / 256 ^ Z.of_nat n < 256) by (apply Z.div_lt_upper_bound; lia).
  rewrite Z.mod_small; lia.
Qed.

(** The length octets read back. *)
Lemma tlv_lengths_encode tag n tail :
  0 <= n < U32 ->
  tlv_lengths (tag :: der_len n ++ tail) (default 0 (head (der_len n)))
  = Ok (1 + blen (der_len n), n).
Proof.
  intros Hn. unfold der_len. destruct (Z.ltb_spec n 128) as [Hs | Hs]; cbn [head default from_option id].
  { unfold tlv_lengths. pose proof (len_first_cases n) as Hc.
    destruct (Z.eqb_spec (Z.land n 0x80) 0); [done |]. destruct Hc; unfold is_u8, U8; lia. }
  destruct (len_octets_bound n) as [Hk Hb]; [lia |].
  set (k := len_octets n) in *. unfold tlv_lengths.
  pose proof (len_first_cases (128 + Z.of_nat k)) as Hc.
  destruct (Z.eqb_spec (Z.land (128 + Z.of_nat k) 0x80) 0).
  { assert (128 + Z.of_nat k < 128) by (apply Hc; unfold is_u8, U8; lia). lia. }
  destruct Hc as [_ ->]; [unfold is_u8, U8; lia |].
  replace (128 + Z.of_nat k - 128) with (Z.of_nat k) by lia.
  destruct (Z.eqb_spec (Z.of_nat k) 0); [lia |]. destruct (Z.ltb_spec 4 (Z.of_nat k)); [lia |]. cbn [orb].
  assert (blen (be_bytes k n) = Z.of_nat k) as Hkl by apply blen_be_bytes.
  pose proof (blen_nonneg tail).
  cbn [app]. rewrite !blen_cons, blen_app, Hkl.
  destruct (Z.ltb_spec (1 + (1 + (Z.of_nat k + blen tail))) (2 + Z.of_nat k)); [lia |].
  change (tag :: 128 + Z.of_nat k :: be_bytes k n ++ tail) with
    ([tag; 128 + Z.of_nat k] ++ be_bytes k n ++ tail).
  rewrite (slice_middle [tag; 128 + Z.of_nat k] (be_bytes k n) tail) by
    (rewrite ?Hkl; change (blen [tag; 128 + Z.of_nat k]) with 2; lia).
  cbn [or_panic]. rewrite bind_Ok.
  assert (from_be (be_bytes k n) = n) as Hfn by (apply from_be_be_bytes_small; lia).
  rewrite tlv_len_loop_ok; [| apply bytes_ok_be_bytes | lia | lia].
  rewrite bind_Ok, Hfn, Z.mul_0_l, Z.add_0_l.
  destruct (be_bytes_head k n) as (b & bs & Hbb & Hb0); [lia | lia |]. rewrite Hbb.
  change (at_idx ([tag; 128 + Z.of_nat k] ++ (b :: bs) ++ tail) 2) with (Some b). run.
  destruct (Z.ltb_spec n 0x80); [lia |]. destruct (Z.eqb_spec b 0); [done |]. cbn [orb].
  do 2 f_equal. lia.
Qed.

Lemma tlv_lengths_inv tag l0 tail hl n :
  is_u8 l0 -> bytes_ok tail -> tlv_lengths (tag :: l0 :: tail) l0 = Ok (hl, n) ->
  0 <= n < U32 /\ hl = 1 + blen (der_len n) /\ exists tail', l0 :: tail = der_len n ++ tail'.
Proof.
  intros H0 Hok. unfold tlv_lengths. pose proof (len_first_cases l0 H0) as Hc.
  destruct (Z.eqb_spec (Z.land l0 0x80) 0).
  { intros [= <- <-]. unfold der_len, is_u8, U8, U32 in *.
    rewrite (proj2 (Z.ltb_lt _ _)) by lia. split_and!; [lia | lia | done | by exists tail]. }
  destruct Hc as [Hge Hn]. rewrite Hn. set (k := l0 - 128) in *.
  destruct (Z.eqb_spec k 0); [done |]. destruct (Z.ltb_spec 4 k); [done |]. cbn [orb].
  rewrite !blen_cons. destruct (Z.ltb_spec (1 + (1 + blen tail)) (2 + k)); [done |].
  destruct (cut_at tail k) as (lb & tl & -> & Hlb & Htl); [lia |].
  apply bytes_ok_app in Hok as [Hlbo _].
  change (tag :: l0 :: lb ++ tl) with ([tag; l0] ++ lb ++ tl).
  rewrite (slice_middle [tag; l0] lb tl) by (change (blen [tag; l0]) with 2; lia). run.
  pose proof (from_be_bound lb Hlbo) as Hbd.
  assert (256 ^ blen lb <= U32).
  { rewrite Hlb. change U32 with (256 ^ 4). apply Z.pow_le_mono_r; lia. }
  rewrite tlv_len_loop_ok by (try done; lia). run. rewrite Z.mul_0_l, Z.add_0_l.
  destruct lb as [| b lb]; [rewrite blen_nil in Hlb; lia |].
  change (at_idx ([tag; l0] ++ (b :: lb) ++ tl) 2) with (Some b). run.
  destruct (Z.ltb_spec (from_be (b :: lb)) 0x80); [done |]. destruct (Z.eqb_spec b 0); [done |].
  cbn [orb]. intros Hq%Ok_inj. assert (hl = 2 + k) as -> by congruence.
  assert (n = from_be (b :: lb)) as -> by congruence. split; [lia |].
  apply Forall_cons in Hlbo as [Hb Hlbo].
  assert (len_octets (from_be (b :: lb)) = length (b :: lb)) as Hlo.
  { apply len_octets_from_be; try done. unfold blen in *. cbn in *. lia. }
  unfold der_len. rewrite (proj2 (Z.ltb_ge _ _)) by lia.
  rewrite Hlo, be_bytes_from_be; [| by constructor | done].
  rewrite blen_cons. split; [lia |]. exists tl. cbn [app]. f_equal. unfold blen in Hlb. lia.
Qed.

(** The reading of an encoding. *)
Definition tlv_of (tag : Z) (body rest : bytes) : Tlv :=
  {| tlv_tag := tag; tlv_header_len := 1 + blen (der_len (blen body)); tlv_body := body; tlv_rest := rest |}.

Definition low_tag (tag : Z) : Prop := Z.land tag 0x1F <> 0x1F.

(** What is read is an encoding. *)
Lemma read_tlv_sound (buf : bytes) (t : Tlv) :
  bytes_ok buf -> read_tlv buf = Ok t ->
  low_tag (tlv_tag t) /\ blen (tlv_body t) < U32 /\
  tlv_header_len t = 1 + blen (der_len (blen (tlv_body t))) /\
  buf = tlv_encode (tlv_tag t) (tlv_body t) ++ tlv_rest t.
Proof.
  intros Hok.
  unfold read_tlv. destruct buf as [| tag [| l0 tail]]; [done | change (blen [tag]) with 1; change (at_idx [tag] 0) with (Some tag); run; by destruct (Z.land tag 0x1F =? 0x1F) |].
  apply Forall_cons in Hok as [_ Hok]. apply Forall_cons in Hok as [H0 Hok].
  rewrite !blen_cons in *. pose proof (blen_nonneg tail).
  destruct (Z.eqb_spec (1 + (1 + blen tail)) 0); [lia |].
  change (at_idx (tag :: l0 :: tail) 0) with (Some tag).
  change (at_idx (tag :: l0 :: tail) 1) with (Some l0). run.
  destruct (Z.eqb_spec (Z.land tag 0x1F) 0x1F); [done |].
  destruct (Z.ltb_spec (1 + (1 + blen tail)) 2); [lia |].
  destruct (tlv_lengths _ l0) as [[hl nb] | |] eqn:Hl; run; [| done..].
  apply tlv_lengths_inv in Hl as (Hn & -> & tail' & Ht); [| done..].
  destruct (checked_add _ nb) as [e |] eqn:He; run; [| done].
  apply checked_add_Some_inv in He as [-> _].
  rewrite Ht. assert (blen (l0 :: tail) = blen (der_len nb ++ tail')) as Hbl by (by rewrite Ht).
  rewrite blen_cons, blen_app in Hbl. pose proof (blen_nonneg (der_len nb)).
  destruct (Z.ltb_spec (1 + (1 + blen tail)) (1 + blen (der_len nb) + nb)); [done |].
  destruct (cut_at tail' nb) as (body & rest & -> & Hb & Hr); [lia |].
  change (tag :: der_len nb ++ body ++ rest) with ((tag :: der_len nb) ++ body ++ rest).
  rewrite (slice_middle (tag :: der_len nb) body rest) by (rewrite blen_cons; lia). run.
  unfold slice_from. rewrite app_assoc, (slice_suffix ((tag :: der_len nb) ++ body) rest) by
    (rewrite ?blen_app, ?blen_cons; lia). run.
  intros [= <-]. cbn [tlv_tag tlv_body tlv_header_len tlv_rest]. rewrite Hb.
  split_and!; [done | lia | done | unfold tlv_encode; rewrite Hb; by cbn; rewrite <- !app_assoc].
Qed.

(** An encoding is read back. *)
Lemma read_tlv_encode (tag : Z) (body rest : bytes) :
  low_tag tag -> blen body < U32 -> blen (tlv_encode tag body) <= usize_max ->
  read_tlv (tlv_encode tag body ++ rest) = Ok (tlv_of tag body rest).
Proof.
  intros Htag Hb Hmax. unfold tlv_encode in *. cbn [app] in *.
  pose proof (blen_nonneg body). pose proof (blen_nonneg rest).
  pose proof (tlv_lengths_encode tag (blen body) (body ++ rest)) as Hl. rewrite app_assoc in Hl.
  pose proof (blen_nonneg (der_len (blen body))).
  assert (exists l0 lt, der_len (blen body) = l0 :: lt) as (l0 & lt & Hdl).
  { unfold der_len. case_match; by eexists _, _. }
  unfold read_tlv. rewrite blen_cons, !blen_app in *.
  destruct (Z.eqb_spec (1 + (blen (der_len (blen body)) + blen body + blen rest)) 0); [lia |].
  change (at_idx (tag :: _) 0) with (Some tag). run.
  destruct (Z.eqb_spec (Z.land tag 0x1F) 0x1F); [done |].
  assert (1 <= blen (der_len (blen body))) by
    (rewrite Hdl, blen_cons; pose proof (blen_nonneg lt); lia).
  destruct (Z.ltb_spec (1 + (blen (der_len (blen body)) + blen body + blen rest)) 2); [lia |].
  assert (at_idx (tag :: (der_len (blen body) ++ body) ++ rest) 1 = Some l0) as -> by (by rewrite Hdl).
  run. rewrite Hdl in Hl at 2. cbn [head default from_option id] in Hl. rewrite Hl by lia. run.
  unfold checked_add. rewrite (proj2 (Z.leb_le _ _)) by lia. run.
  rewrite (proj2 (Z.ltb_ge _ _)) by lia.
  rewrite <- app_assoc. change (tag :: der_len (blen body) ++ body ++ rest) with
    ((tag :: der_len (blen body)) ++ body ++ rest).
  rewrite (slice_middle (tag :: der_len (blen body)) body rest) by (rewrite blen_cons; lia). run.
  unfold slice_from. rewrite app_assoc, (slice_suffix ((tag :: der_len (blen body)) ++ body) rest) by
    (rewrite ?blen_app, ?blen_cons; lia). done.
Qed.

(** Decoding inverts encoding, and accepts nothing else. *)
Lemma read_tlv_exact (buf : bytes) (t : Tlv) :
  bytes_ok buf -> blen buf <= usize_max ->
  read_tlv buf = Ok t <->
  low_tag (tlv_tag t) /\ blen (tlv_body t) < U32 /\
  tlv_header_len t = 1 + blen (der_len (blen (tlv_body t))) /\
  buf = tlv_encode (tlv_tag t) (tlv_body t) ++ tlv_rest t.
Proof.
  intros Hok Hmax. split; [by apply read_tlv_sound |].
  destruct t as [tag hl body rest]; cbn [tlv_tag tlv_body tlv_header_len tlv_rest].
  intros (Htag & Hb & -> & ->). rewrite blen_app in Hmax. pose proof (blen_nonneg rest).
  apply read_tlv_encode; [done | done | lia].
Qed.

Lemma read_tlv_total (buf : bytes) : bytes_ok buf -> no_panic (read_tlv buf).
Proof.
  intros Hok. unfold read_tlv. destruct buf as [| tag [| l0 tail]]; [done | change (blen [tag]) with 1; change (at_idx [tag] 0) with (Some tag); run; by destruct (Z.land tag 0x1F =? 0x1F) |].
  apply Forall_cons in Hok as [_ Hok]. apply Forall_cons in Hok as [H0 Hok].
  rewrite !blen_cons. pose proof (blen_nonneg tail).
  case_match; [done |]. change (at_idx (tag :: l0 :: tail) 0) with (Some tag).
  change (at_idx (tag :: l0 :: tail) 1) with (Some l0). run. do 2 (case_match; [done |]).
  apply no_panic_bind.
  - unfold tlv_lengths. pose proof (len_first_cases l0 H0) as Hc. repeat (case_match; [done |]).
    bool_to_prop. rewrite !blen_cons in *. destruct Hc as [? Hn]. rewrite Hn in *.
    destruct (cut_at tail (l0 - 128)) as (lb & tl & -> & Hlb & Htl); [lia |].
    apply bytes_ok_app in Hok as [Hlbo _].
    change (tag :: l0 :: lb ++ tl) with ([tag; l0] ++ lb ++ tl).
    rewrite (slice_middle [tag; l0] lb tl) by (change (blen [tag; l0]) with 2; lia). run.
    pose proof (from_be_bound lb Hlbo) as Hbd.
    assert (256 ^ blen lb <= U32).
    { rewrite Hlb. change U32 with (256 ^ 4). apply Z.pow_le_mono_r; lia. }
    rewrite tlv_len_loop_ok by (try done; lia). run.
    destruct lb as [| b lb]; [rewrite blen_nil in Hlb; lia |].
    change (at_idx ([tag; l0] ++ (b :: lb) ++ tl) 2) with (Some b). run. by case_match.
  - intros [hl n] Hl. apply tlv_lengths_inv in Hl as (Hn & -> & tail' & Ht); [| done..].
    destruct (checked_add _ n) as [e |] eqn:He; run; [| done].
    apply checked_add_Some_inv in He as [-> _]. case_match eqn:Hlt; [done |]. bool_to_prop.
    assert (1 + (1 + blen tail) = blen (tag :: l0 :: tail)) as Hbl by (rewrite !blen_cons; lia).
    destruct (slice_in_range (tag :: l0 :: tail) (1 + blen (der_len n)) (1 + blen (der_len n) + n))
      as [body ->]; [pose proof (blen_nonneg (der_len n)); lia.. |]. run.
    unfold slice_from. destruct (slice_in_range (tag :: l0 :: tail) (1 + blen (der_len n) + n)
      (blen (tag :: l0 :: tail))) as [rest ->]; [pose proof (blen_nonneg (der_len n)); lia.. |]. done.
Qed.
End tlv_lemmas.

(** The TLV reader never panics and accepts exactly the canonical DER encoding:
    a low-number tag, the minimal length octets, the body, then the rest. *)
Theorem read_tlv_canonical `{Usize} (buf : bytes) (t : Tlv) :
  bytes_ok buf -> blen buf <= usize_max ->
  no_panic (read_tlv buf) /\
  (read_tlv buf = Ok t <->
   low_tag (tlv_tag t) /\ blen (tlv_body t) < U32 /\
   tlv_header_len t = 1 + blen (der_len (blen (tlv_body t))) /\
   buf = tlv_encode (tlv_tag t) (tlv_body t) ++ tlv_rest t).
Proof. intros Hok Hmax. split; [by apply read_tlv_total | by apply read_tlv_exact]. Qed.

Lemma read_tlv_canonical_witness :
  @read_tlv usize32 [4; 0x81; 128] = Err TlvErr /\
  @read_tlv usize32 (tlv_encode 4 (zeros 200) ++ [9])
  = Ok {| tlv_tag := 4; tlv_header_len := 3; tlv_body := zeros 200; tlv_rest := [9] |}.
Proof.
  split; [vm_compute; reflexivity |].
  apply (@read_tlv_canonical usize32 (tlv_encode 4 (zeros 200) ++ [9])
    {| tlv_tag := 4; tlv_header_len := 3; tlv_body := zeros 200; tlv_rest := [9] |}).
  - unfold tlv_encode. rewrite bytes_ok_app. split; [| repeat constructor; done].
    constructor; [done |]. apply bytes_ok_app. split; [repeat constructor; done |].
    apply Forall_replicate. done.
  - vm_compute. discriminate.
  - split_and!; [discriminate | reflexivity | reflexivity | reflexivity].
Defined.

(** ** The dNSName rule *)

(** An exact name, or one wildcard label in front of a wildcard-free suffix. *)
Definition dns_matches (p h : bytes) : Prop :=
  (42 ∉ p /\ ascii_lower <$> p = ascii_lower <$> h) \/
  (exists suffix lbl tail, p = 42 :: 46 :: suffix /\ suffix <> [] /\ 42 ∉ suffix /\
     h = lbl ++ 46 :: tail /\ lbl <> [] /\ 46 ∉ lbl /\
     ascii_lower <$> tail = ascii_lower <$> suffix).

Lemma byte_mem_spec x l : byte_mem x l = true <-> x ∈ l.
Proof.
  unfold byte_mem. rewrite existsb_exists. split.
  - intros (y & Hy%list_elem_of_In & ->%Z.eqb_eq). done.
  - intros Hx. exists x. rewrite Z.eqb_eq. split; [by apply list_elem_of_In | done].
Qed.

Lemma byte_mem_false x l : byte_mem x l = false <-> x ∉ l.
Proof. rewrite <- byte_mem_spec. destruct (byte_mem x l); naive_solver. Qed.

Lemma strip_prefix_spec p l r : strip_prefix p l = Some r <-> l = p ++ r.
Proof.
  revert l. induction p as [| x p IH]; intros [| y l]; cbn; try naive_solver.
  destruct (Z.eqb_spec x y); [rewrite IH |]; naive_solver.
Qed.

Lemma ascii_eq_spec a b : ascii_eq_ignore_case a b = true <-> ascii_lower <$> a = ascii_lower <$> b.
Proof. apply bool_decide_eq_true. Qed.

Lemma ascii_eq_blen a b : ascii_eq_ignore_case a b = true -> blen a = blen b.
Proof.
  intros Hab%ascii_eq_spec. apply (f_equal length) in Hab. rewrite !length_fmap in Hab.
  unfold blen. lia.
Qed.

Lemma last_snoc_inv (l : bytes) x : last l = Some x -> exists l', l = l' ++ [x].
Proof. intros Hl. by apply last_Some in Hl. Qed.

(** The wildcard branch, on a host name cut at the suffix's length. *)
Lemma dns_wildcard suffix h :
  (let r := dns_name_matches (42 :: 46 :: suffix) h in
   exists b, r = Ok b /\
   (b = true <-> suffix <> [] /\ 42 ∉ suffix /\ exists lbl tail, h = lbl ++ 46 :: tail /\
      lbl <> [] /\ 46 ∉ lbl /\ ascii_lower <$> tail = ascii_lower <$> suffix)).
Proof.
  cbn zeta. unfold dns_name_matches. cbn [strip_prefix Z.eqb Pos.eqb].
  destruct (Z.eqb_spec (blen suffix) 0) as [Hz | Hz].
  { exists false. split; [done |]. split; [done |]. intros [Hs _]. by apply blen_zero_nil in Hz. }
  destruct (byte_mem 42 suffix) eqn:Hm; cbn [orb].
  { exists false. split; [done |]. split; [done |]. intros (_ & Hn & _). by apply byte_mem_spec in Hm. }
  apply byte_mem_false in Hm.
  destruct (Z.leb_spec (blen h) (blen suffix + 1)) as [Hl | Hl].
  { exists false. split; [done |]. split; [done |]. intros (_ & _ & lbl & tail & -> & Hlbl & _ & Heq).
    apply ascii_eq_spec, ascii_eq_blen in Heq. rewrite blen_app, blen_cons in Hl.
    destruct lbl; [done |]. rewrite blen_cons in Hl. pose proof (blen_nonneg lbl). lia. }
  pose proof (blen_nonneg suffix).
  destruct (cut_at h (blen h - blen suffix)) as (hd & tail & -> & Hhd & Htl); [lia |].
  rewrite blen_app in *. assert (blen tail = blen suffix) as Hts by lia.
  replace (blen hd + blen tail - blen suffix) with (blen hd) in * by lia.
  rewrite (slice_prefix hd tail 0 (blen hd)) by done. cbn [or_panic]. rewrite bind_Ok.
  unfold slice_from. rewrite (slice_suffix hd tail) by (rewrite ?blen_app; lia).
  cbn [or_panic]. rewrite bind_Ok.
  assert (forall lbl tl, hd ++ tail = lbl ++ 46 :: tl -> ascii_lower <$> tl = ascii_lower <$> suffix ->
            hd = lbl ++ [46] /\ tail = tl) as Hsplit.
  { intros lbl tl Heq Hlow%ascii_eq_spec%ascii_eq_blen.
    change (46 :: tl) with ([46] ++ tl) in Heq. rewrite app_assoc in Heq.
    apply app_inj_2 in Heq; [done |]. unfold blen in *. lia. }
  destruct (ascii_eq_ignore_case tail suffix) eqn:He; cbn [negb].
  2: { exists false. split; [done |]. split; [done |]. intros (_ & _ & lbl & tl & Heq & _ & _ & Hlow).
       destruct (Hsplit _ _ Heq Hlow) as [_ ->]. apply ascii_eq_spec in Hlow. congruence. }
  case_bool_decide as Hlast; cbn [negb].
  2: { exists false. split; [done |]. split; [done |]. intros (_ & _ & lbl & tl & Heq & _ & _ & Hlow).
       destruct (Hsplit _ _ Heq Hlow) as [-> _]. destruct Hlast. by rewrite last_snoc. }
  apply last_snoc_inv in Hlast as [lbl ->]. rewrite blen_app. change (blen [46]) with 1.
  rewrite (slice_prefix lbl [46] 0) by lia. cbn [or_panic]. rewrite bind_Ok.
  apply ascii_eq_spec in He.
  assert (forall lbl' tl, (lbl ++ [46]) ++ tail = lbl' ++ 46 :: tl ->
            ascii_lower <$> tl = ascii_lower <$> suffix -> lbl = lbl') as Hlb.
  { intros lbl' tl Heq Hlow. destruct (Hsplit _ _ Heq Hlow) as [Hx _].
    by apply app_inj_tail in Hx as [Hx _]. }
  destruct (Z.eqb_spec (blen lbl) 0) as [Hlz | Hlz]; cbn [orb].
  { exists false. split; [done |]. split; [done |]. intros (_ & _ & lbl' & tl & Heq & Hne & _ & Hlow).
    destruct Hne. rewrite <- (Hlb _ _ Heq Hlow). by apply blen_zero_nil. }
  destruct (byte_mem 46 lbl) eqn:Hdot.
  { exists false. split; [done |]. split; [done |]. intros (_ & _ & lbl' & tl & Heq & _ & Hn & Hlow).
    destruct Hn. rewrite <- (Hlb _ _ Heq Hlow). by apply byte_mem_spec. }
  exists true. split; [done |]. split; [| done]. intros _.
  split; [by intros -> | split; [done |]]. exists lbl, tail. rewrite <- app_assoc.
  split_and!; [done | by intros -> | by apply byte_mem_false | done].
Qed.

Lemma dns_name_matches_spec p h :
  exists b, dns_name_matches p h = Ok b /\ (b = true <-> dns_matches p h).
Proof.
  destruct (strip_prefix [42; 46] p) as [suffix |] eqn:Hp.
  - apply strip_prefix_spec in Hp as ->. cbn [app].
    destruct (dns_wildcard suffix h) as (b & -> & Hb). exists b. split; [done |]. rewrite Hb.
    unfold dns_matches. split.
    + intros (Hs & Hm & lbl & tail & Hr). right. exists suffix, lbl, tail. tauto.
    + intros [[Hn _] | (s & lbl & tail & [= <-] & Hs & Hm & Hr)]; [destruct Hn; by left |].
      split_and!; [done | done | by exists lbl, tail].
  - unfold dns_name_matches. rewrite Hp. unfold dns_matches.
    assert (forall s, p <> 42 :: 46 :: s) as Hne.
    { intros s ->. assert (strip_prefix [42; 46] (42 :: 46 :: s) = Some s) by by apply strip_prefix_spec.
      congruence. }
    destruct (byte_mem 42 p) eqn:Hm.
    + exists false. split; [done |]. split; [done |]. apply byte_mem_spec in Hm.
      intros [[] | (s & ? & ? & -> & _)]; [done | by destruct (Hne s)].
    + exists (ascii_eq_ignore_case p h). split; [done |]. rewrite ascii_eq_spec. apply byte_mem_false in Hm.
      split; [by left |]. intros [[_ He] | (s & ? & ? & -> & _)]; [done | by destruct (Hne s)].
Qed.

(** ** The SubjectAltName scan *)

Section san.
Context `{Usize} (ip_host : bool).

(** The entries of a GeneralNames body up to the end or the first malformed TLV. *)
Inductive san_scan : bytes -> list (Z * bytes) -> bool -> Prop :=
| ss_end : san_scan [] [] true
| ss_bad buf e : buf <> [] -> read_tlv buf = Err e -> san_scan buf [] false
| ss_entry buf t es wf :
    read_tlv buf = Ok t -> san_scan (tlv_rest t) es wf ->
    san_scan buf ((tlv_tag t, tlv_body t) :: es) wf.

Lemma read_tlv_shrinks buf t :
  bytes_ok buf -> blen buf <= usize_max -> read_tlv buf = Ok t ->
  (length (tlv_rest t) < length buf)%nat /\ bytes_ok (tlv_rest t) /\ blen (tlv_rest t) <= usize_max.
Proof.
  intros Hok Hmax Ht. apply read_tlv_exact in Ht as (_ & _ & _ & Hb); [| done..].
  rewrite Hb in Hok, Hmax |- *. apply bytes_ok_app in Hok as [_ Hok].
  unfold tlv_encode in *. cbn [app] in *. rewrite blen_cons, !blen_app in Hmax.
  rewrite length_cons, !length_app. pose proof (blen_nonneg (der_len (blen (tlv_body t)))).
  pose proof (blen_nonneg (tlv_body t)). split_and!; [lia | done | lia].
Qed.

Lemma san_scan_exists buf : bytes_ok buf -> blen buf <= usize_max -> exists es wf, san_scan buf es wf.
Proof.
  remember (length buf) as n eqn:Hn. revert buf Hn.
  induction n as [n IH] using lt_wf_ind. intros buf -> Hok Hmax.
  destruct buf as [| b buf']; [exists [], true; constructor |]. set (buf := b :: buf') in *.
  destruct (read_tlv buf) as [t | e |] eqn:Ht.
  - destruct (read_tlv_shrinks buf t) as (Hl & Ho & Hm); [done.. |].
    destruct (IH _ Hl (tlv_rest t) eq_refl Ho Hm) as (es & wf & Hs).
    exists ((tlv_tag t, tlv_body t) :: es), wf. by apply ss_entry.
  - exists [], false. by apply (ss_bad _ e).
  - by destruct (read_tlv_total buf).
Qed.

Definition ip_checked (target : Z) : bool := ip_host && (target =? IP_ADDRESS_TAG).

(** One step of the iterator against the scan. *)
Lemma san_next_scan fuel target buf es wf :
  (length buf < fuel)%nat -> bytes_ok buf -> blen buf <= usize_max -> san_scan buf es wf ->
  (san_next ip_host fuel target buf = (None, []) /\ wf = true /\ Forall (fun e => e.1 <> target) es) \/
  (san_next ip_host fuel target buf = (Some (Err IdMalformedSan), []) /\ wf = false /\
     Forall (fun e => e.1 <> target) es) \/
  (exists pre body es' rest, es = pre ++ (target, body) :: es' /\ Forall (fun e => e.1 <> target) pre /\
     san_scan rest es' wf /\ (length rest < length buf)%nat /\ bytes_ok rest /\ blen rest <= usize_max /\
     (san_next ip_host fuel target buf = (Some (Ok body), rest) \/
      ip_checked target = true /\ san_next ip_host fuel target buf = (Some (Err IdMalformedSan), rest))).
Proof.
  intros Hf Hok Hmax Hs. revert fuel Hf Hok Hmax.
  induction Hs as [| buf e Hne He | buf t es wf Ht Hs IH]; intros [| fuel] Hf Hok Hmax; try lia.
  - left. done.
  - right. left. cbn [san_next]. destruct (Z.eqb_spec (blen buf) 0) as [Hz |].
    { by apply blen_zero_nil in Hz. }
    by rewrite He.
  - destruct (read_tlv_shrinks buf t) as (Hl & Ho & Hm); [done.. |].
    cbn [san_next]. destruct (Z.eqb_spec (blen buf) 0) as [Hz |].
    { apply blen_zero_nil in Hz as ->. done. }
    rewrite Ht. destruct (Z.eqb_spec (tlv_tag t) target) as [<- | Hne].
    + right. right. exists [], (tlv_body t), es, (tlv_rest t). cbn [app].
      split_and!; try done. unfold ip_checked.
      destruct ip_host; cbn [andb]; [| by left].
      destruct (tlv_tag t =? IP_ADDRESS_TAG); cbn [andb]; [| by left].
      destruct (negb (blen (tlv_body t) =? 4) && negb (blen (tlv_body t) =? 16)); [by right | by left].
    + destruct (IH fuel) as [(-> & -> & Hall) | [(-> & -> & Hall) | Hex]]; [lia | done | done |..].
      * left. split_and!; try done. by constructor.
      * right. left. split_and!; try done. by constructor.
      * right. right. destruct Hex as (pre & body & es' & rest & -> & Hpre & Hsr & Hlr & Hr).
        exists ((tlv_tag t, tlv_body t) :: pre), body, es', rest.
        split_and!; try done; [by constructor | lia | apply Hr..].
Qed.

Lemma none_tagged target (es : list (Z * bytes)) body :
  Forall (fun e => e.1 <> target) es -> (target, body) ∉ es.
Proof. intros Hall Hin. rewrite Forall_forall in Hall. by apply (Hall _ Hin). Qed.

Lemma san_search_scan fuel target accept (f : bytes -> bool) buf es wf :
  (forall e, accept e = Ok (f e)) ->
  (length buf < fuel)%nat -> bytes_ok buf -> blen buf <= usize_max -> san_scan buf es wf ->
  let r := san_search ip_host fuel target accept buf in
  (r = Ok tt /\ exists body, (target, body) ∈ es /\ f body = true) \/
  (r = Err IdMalformedSan /\ ip_checked target = true) \/
  (r = Err (if wf then IdHostnameMismatch else IdMalformedSan) /\
   forall body, (target, body) ∈ es -> f body = false).
Proof.
  intros Hacc. cbn zeta. revert buf es. induction fuel as [| fuel IH]; intros buf es Hf Hok Hmax Hs; [lia |].
  cbn [san_search].
  destruct (san_next_scan (S (length buf)) target buf es wf)
    as [(-> & -> & Hall) | [(-> & -> & Hall) | Hex]]; [lia | done.. | | |].
  - right. right. split; [done |]. intros body Hin. by destruct (none_tagged target es body).
  - right. right. split; [done |]. intros body Hin. by destruct (none_tagged target es body).
  - destruct Hex as (pre & body & es' & rest & -> & Hpre & Hsr & Hlr & Hokr & Hmr & [-> | [Hip ->]]);
      [| right; left; done].
    run. rewrite Hacc. run. destruct (f body) eqn:Hfb.
    { left. split; [done |]. exists body. split; [| done]. apply elem_of_app. right. by left. }
    destruct (IH rest es') as [(-> & b & Hin & Hb) | [(-> & Hip) | (-> & Hno)]]; [lia | done.. | | |].
    + left. split; [done |]. exists b. split; [| done]. apply elem_of_app. right. by right.
    + right. left. done.
    + right. right. split; [done |]. intros b [Hin | Hin]%elem_of_app.
      * by destruct (none_tagged target pre b).
      * apply elem_of_cons in Hin as [[= ->] | Hin]; [done | by apply Hno].
Qed.
End san.

Lemma verify_hostname_spec `{Usize} (ip_host : bool) (view : CertView) (host san : bytes) :
  cv_san view = Some san -> bytes_ok san -> blen san <= usize_max ->
  exists es wf, san_scan san es wf /\
    (looks_like_ip_literal host = false ->
       (verify_hostname ip_host view host = Ok tt <->
        exists body, (DNS_NAME_TAG, body) ∈ es /\ dns_matches body host) /\
       (verify_hostname ip_host view host <> Ok tt ->
        verify_hostname ip_host view host = Err (if wf then IdHostnameMismatch else IdMalformedSan))) /\
    (looks_like_ip_literal host = true ->
       no_panic (verify_hostname ip_host view host) /\
       (verify_hostname ip_host view host = Ok tt ->
        exists octets, host_octets ip_host host = Some octets /\ (IP_ADDRESS_TAG, octets) ∈ es)).
Proof.
  intros Hsan Hok Hmax. destruct (san_scan_exists san Hok Hmax) as (es & wf & Hs).
  exists es, wf. split; [done |]. unfold verify_hostname. rewrite Hsan. run. split; intros ->.
  - set (f := fun e => match dns_name_matches e host with Ok b => b | _ => false end).
    assert (forall e, dns_name_matches e host = Ok (f e)) as Hf.
    { intros e. unfold f. destruct (dns_name_matches_spec e host) as (b & -> & _). done. }
    assert (forall e, f e = true <-> dns_matches e host) as Hfm.
    { intros e. unfold f. destruct (dns_name_matches_spec e host) as (b & -> & Hb). done. }
    destruct (san_search_scan ip_host (S (length san)) DNS_NAME_TAG _ f san es wf Hf)
      as [(-> & body & Hin & Hb) | [(-> & Hip) | (-> & Hno)]]; [lia | done.. | | |].
    + split; [| done]. split; [| done]. intros _. exists body. split; [done | by apply Hfm].
    + unfold ip_checked in Hip. by rewrite andb_false_r in Hip.
    + split; [| done]. split; [by destruct wf |]. intros (body & Hin & Hb%Hfm).
      rewrite Hno in Hb; done.
  - destruct (host_octets ip_host host) as [octets |] eqn:Ho; [| split; [done | done]].
    unfold match_ip_address.
    destruct (san_search_scan ip_host (S (length san)) IP_ADDRESS_TAG _
      (fun e => bool_decide (e = octets)) san es wf (fun e => eq_refl))
      as [(-> & body & Hin & Hb) | [(-> & Hip) | (-> & Hno)]]; [lia | done.. | | by split |].
    + split; [done |]. intros _. exists octets. split; [done |].
      apply bool_decide_eq_true in Hb as ->. done.
    + split; [by destruct wf | by destruct wf].
Qed.

(** C23. Hostname binding.  For a DNS name the check succeeds exactly when the SAN,
    read up to its first malformed entry, has a dNSName that matches; otherwise it
    reports a mismatch, or a malformed SAN when the scan broke off.  A host that
    looks like an IP address is never matched against dNSName entries: success
    requires an iPAddress entry with exactly the octets it denotes. *)
Theorem verify_hostname_binding `{Usize} (ip_host : bool) (view : CertView) (host san : bytes) :
  cv_san view = Some san -> bytes_ok san -> blen san <= usize_max ->
  exists es wf, san_scan san es wf /\
    (looks_like_ip_literal host = false ->
       (verify_hostname ip_host view host = Ok tt <->
        exists body, (DNS_NAME_TAG, body) ∈ es /\ dns_matches body host) /\
       (verify_hostname ip_host view host <> Ok tt ->
        verify_hostname ip_host view host = Err (if wf then IdHostnameMismatch else IdMalformedSan))) /\
    (looks_like_ip_literal host = true ->
       no_panic (verify_hostname ip_host view host) /\
       (verify_hostname ip_host view host = Ok tt ->
        exists octets, host_octets ip_host host = Some octets /\ (IP_ADDRESS_TAG, octets) ∈ es)).
Proof. apply verify_hostname_spec. Qed.

Lemma verify_hostname_total `{Usize} (ip_host : bool) (view : CertView) (host : bytes) :
  (forall san, cv_san view = Some san -> bytes_ok san /\ blen san <= usize_max) ->
  no_panic (verify_hostname ip_host view host).
Proof.
  intros Hsan. destruct (cv_san view) as [san |] eqn:Hs; [| unfold verify_hostname; by rewrite Hs].
  destruct (Hsan san eq_refl) as [Hok Hmax].
  destruct (verify_hostname_spec ip_host view host san Hs Hok Hmax) as (es & wf & _ & Hdns & Hip).
  destruct (looks_like_ip_literal host) eqn:Hl; [by apply Hip |].
  destruct (Hdns eq_refl) as [_ Herr].
  destruct (verify_hostname ip_host view host) as [[] | e |]; [done | done |]. by specialize (Herr ltac:(done)).
Qed.

(** The wildcard rule: a pattern matches a host name exactly when they are equal
    up to ASCII case and free of wildcards, or the pattern is one leading "*." label
    and the host has exactly one non-empty label in its place. *)
Theorem dns_name_matches_exact (p h : bytes) :
  no_panic (dns_name_matches p h) /\ (dns_name_matches p h = Ok true <-> dns_matches p h).
Proof.
  destruct (dns_name_matches_spec p h) as (b & -> & Hb). split; [done |].
  rewrite <- Hb. split; [apply Ok_inj | by intros ->].
Qed.

(** SAN [dNSName "a.b"], host ["A.b"]. *)
Lemma verify_hostname_binding_witness :
  let san := tlv_encode DNS_NAME_TAG [97; 46; 98] in
  exists es wf, @san_scan usize32 san es wf /\
    (@verify_hostname usize32 false (CvEd25519 [] [] [] (Some san) []) [65; 46; 98] = Ok tt <->
     exists body, (DNS_NAME_TAG, body) ∈ es /\ dns_matches body [65; 46; 98]) /\
    @verify_hostname usize32 false (CvEd25519 [] [] [] (Some san) []) [65; 46; 98] = Ok tt.
Proof.
  intros san.
  destruct (@verify_hostname_binding usize32 false (CvEd25519 [] [] [] (Some san) []) [65; 46; 98] san)
    as (es & wf & Hs & Hd & _).
  - reflexivity.
  - repeat constructor; done.
  - vm_compute. discriminate.
  - exists es, wf. destruct (Hd eq_refl) as [Hiff _].
    split; [exact Hs | split; [exact Hiff | vm_compute; reflexivity]].
Defined.
