(* ===== verification/TlvCert.v ===== *)
(** * [backends/tlv_cert.rs]: the in-tree X.509 parser

    The certificate parser over the TLV walker, its three walks ([parse], [spki_der] and
    [parse_ca_constraints]), and the grammar of the certificates it accepts.  It is an
    instance of the interface [CertParser] that the trust strategies rely on. *)
From S2P Require Import Prelude Deps Consts Cert Identity.

(** ** Tags and object identifiers ([backends/tlv.rs]) *)

Definition TAG_BOOLEAN : Z := 0x01.
Definition TAG_INTEGER : Z := 0x02.
Definition TAG_BIT_STRING : Z := 0x03.
Definition TAG_OCTET_STRING : Z := 0x04.
Definition TAG_NULL : Z := 0x05.
Definition TAG_OID : Z := 0x06.
Definition TAG_SEQUENCE : Z := 0x30.
Definition tag_ctx_constructed (n : Z) : Z := Z.lor 0xA0 (Z.land n 0x1F).
Definition peek_tag (buf : bytes) : outcome TlvError Z := ok_or (head buf) TlvErr.

Definition ED25519_OID : bytes := [0x2B; 0x65; 0x70].
Definition ML_DSA_44_OID : bytes := [0x60; 0x86; 0x48; 0x01; 0x65; 0x03; 0x04; 0x03; 0x11].
Definition ML_DSA_65_OID : bytes := [0x60; 0x86; 0x48; 0x01; 0x65; 0x03; 0x04; 0x03; 0x12].
Definition ML_DSA_87_OID : bytes := [0x60; 0x86; 0x48; 0x01; 0x65; 0x03; 0x04; 0x03; 0x13].
Definition EC_PUBLIC_KEY_OID : bytes := [0x2A; 0x86; 0x48; 0xCE; 0x3D; 0x02; 0x01].
Definition SECP256R1_OID : bytes := [0x2A; 0x86; 0x48; 0xCE; 0x3D; 0x03; 0x01; 0x07].
Definition SECP384R1_OID : bytes := [0x2B; 0x81; 0x04; 0x00; 0x22].
Definition P256_SEC1_LEN : Z := 65.
Definition P384_SEC1_LEN : Z := 97.
Definition SAN_OID : bytes := [0x55; 0x1D; 0x11].
Definition BASIC_CONSTRAINTS_OID : bytes := [0x55; 0x1D; 0x13].
Definition KEY_USAGE_OID : bytes := [0x55; 0x1D; 0x0F].
Definition X509_V3 : Z := 2.
Definition RSA_ENCRYPTION_OID : bytes := [0x2A; 0x86; 0x48; 0x86; 0xF7; 0x0D; 0x01; 0x01; 0x01].
Definition SHA256_WITH_RSA_OID : bytes := [0x2A; 0x86; 0x48; 0x86; 0xF7; 0x0D; 0x01; 0x01; 0x0B].
Definition RSASSA_PSS_OID : bytes := [0x2A; 0x86; 0x48; 0x86; 0xF7; 0x0D; 0x01; 0x01; 0x0A].

(** The public-key sizes of [krabipqc], and the features that only the parser reads. *)
Class MlDsaKeySizes := { ml_dsa_44_PK_BYTES : Z; ml_dsa_65_PK_BYTES : Z; ml_dsa_87_PK_BYTES : Z }.
Record RsaFeatures := { f_rsa_pss_only : bool; f_rsa_1024 : bool; f_rsa_3072 : bool; f_rsa_4096 : bool }.

Inductive SpkiKind := SkEd25519 | SkRsa | SkMlDsa (pk_len : Z) | SkEcdsaP256 | SkEcdsaP384.

Section tlv_cert.
Context `{Usize, MlDsaKeySizes} (ft : Features) (rf : RsaFeatures).
Notation CP := (outcome CertParseError).

(** ** Cursors

    [take_tlv(&mut cursor)] leaves the cursor at the [tlv_rest] of its result. *)

Definition malformed {E} (_ : E) : CertParseError := CpMalformed.

Definition read_expected (buf : bytes) (expected_tag : Z) : CP Tlv :=
  t ← map_err malformed (read_tlv buf);
  if negb (tlv_tag t =? expected_tag) then Err CpMalformed else Ok t.

Definition take_tlv (cursor : bytes) : CP Tlv := map_err malformed (read_tlv cursor).
Definition take_expected (cursor : bytes) (expected_tag : Z) : CP Tlv := read_expected cursor expected_tag.

(** The content of a BIT STRING, and the cursor. *)
Definition take_bit_string (cursor : bytes) : CP (bytes * bytes) :=
  t ← take_tlv cursor;
  if negb (tlv_tag t =? TAG_BIT_STRING) then Err CpMalformed else
  match tlv_body t with
  | [] => Err CpMalformed
  | unused :: content => if negb (unused =? 0) then Err CpBitStringHasUnusedBits else Ok (content, tlv_rest t)
  end.

(** [&buf[..t.header_len + t.body.len()]] *)
Definition full_tlv (buf : bytes) (t : Tlv) : CP bytes := or_panic (slice buf 0 (tlv_header_len t + blen (tlv_body t))).

(** ** Extensions *)

Record Extension := { ext_oid : bytes; ext_critical : bool; ext_value : bytes }.

(** One extension and the cursor: the OID, an optional BOOLEAN, the OCTET STRING. *)
Definition take_extension (exts_r : bytes) : CP (Extension * bytes) :=
  ext_tlv ← take_tlv exts_r;
  if negb (tlv_tag ext_tlv =? TAG_SEQUENCE) then Err CpMalformed else
  oid_tlv ← take_tlv (tlv_body ext_tlv);
  if negb (tlv_tag oid_tlv =? TAG_OID) then Err CpMalformed else
  next_tag ← map_err malformed (peek_tag (tlv_rest oid_tlv));
  '(critical, ext_r) ←
    (if next_tag =? TAG_BOOLEAN then
       b ← take_tlv (tlv_rest oid_tlv);
       Ok (match head (tlv_body b) with Some v => negb (v =? 0) | None => false end, tlv_rest b)
     else Ok (false, tlv_rest oid_tlv));
  value ← take_tlv ext_r;
  if negb (tlv_tag value =? TAG_OCTET_STRING) then Err CpMalformed else
  Ok ({| ext_oid := tlv_body oid_tlv; ext_critical := critical; ext_value := tlv_body value |}, tlv_rest ext_tlv).

(** The walk over the extensions; every round takes one. *)
Fixpoint san_loop (fuel : nat) (exts_r : bytes) : CP (option bytes) :=
  match fuel with
  | O => Panic
  | S fuel =>
      if blen exts_r =? 0 then Ok None else
      '(ext, exts_r) ← take_extension exts_r;
      if bool_decide (ext_oid ext = SAN_OID) then
        san_seq ← read_expected (ext_value ext) TAG_SEQUENCE;
        Ok (Some (tlv_body san_seq))
      else san_loop fuel exts_r
  end.

Fixpoint walk_san (fuel : nat) (tbs_r : bytes) : CP (option bytes) :=
  match fuel with
  | O => Panic
  | S fuel =>
      if blen tbs_r =? 0 then Ok None else
      tag ← map_err malformed (peek_tag tbs_r);
      if (tag =? tag_ctx_primitive 1) || (tag =? tag_ctx_constructed 1) || (tag =? tag_ctx_primitive 2) || (tag =? tag_ctx_constructed 2) then
        t ← take_tlv tbs_r; walk_san fuel (tlv_rest t)
      else if tag =? tag_ctx_constructed 3 then
        exts_explicit ← take_tlv tbs_r;
        exts_seq ← read_expected (tlv_body exts_explicit) TAG_SEQUENCE;
        san_loop (S (length (tlv_body exts_seq))) (tlv_body exts_seq)
      else t ← take_tlv tbs_r; walk_san fuel (tlv_rest t)
  end.
Definition walk_extensions_for_san (tbs_r : bytes) : CP (option bytes) := walk_san (S (length tbs_r)) tbs_r.

Definition CaConstraints_default : CaConstraints := {| is_ca := false; path_len := None; key_cert_sign := None |}.

(** [|acc, b| (acc << 8) | b as u32], on [u32]. *)
Definition u32_fold (bs : bytes) : Z := foldl (fun acc b => Z.lor (Z.shiftl acc 8 mod U32) b) 0 bs.

Definition int_to_u32 (bytes : bytes) : CP Z :=
  if (match head bytes with Some b => negb (Z.land b 0x80 =? 0) | None => false end) then Err CpMalformed else
  let sig := match bytes with 0 :: rest => rest | _ => bytes end in
  if 4 <? blen sig then Err CpMalformed else Ok (u32_fold sig).

Definition parse_basic_constraints (bytes : bytes) (out : CaConstraints) : CP CaConstraints :=
  seq ← read_expected bytes TAG_SEQUENCE;
  if negb (blen (tlv_rest seq) =? 0) then Err CpMalformed else
  '(out, r) ←
    (match head (tlv_body seq) with
     | Some tag => if tag =? TAG_BOOLEAN then
                     b ← take_tlv (tlv_body seq);
                     Ok ({| is_ca := match head (tlv_body b) with Some v => negb (v =? 0) | None => false end;
                            path_len := path_len out; key_cert_sign := key_cert_sign out |}, tlv_rest b)
                   else Ok (out, tlv_body seq)
     | None => Ok (out, tlv_body seq)
     end);
  match head r with
  | Some tag => if tag =? TAG_INTEGER then
                  int ← take_tlv r;
                  n ← int_to_u32 (tlv_body int);
                  Ok {| is_ca := is_ca out; path_len := Some n; key_cert_sign := key_cert_sign out |}
                else Ok out
  | None => Ok out
  end.

Definition key_usage_cert_sign (bytes : bytes) : CP bool :=
  bs ← read_expected bytes TAG_BIT_STRING;
  if negb (blen (tlv_rest bs) =? 0) then Err CpMalformed else
  Ok (match at_idx (tlv_body bs) 1 with Some b => negb (Z.land b 0x04 =? 0) | None => false end).

Definition ca_step (ext : Extension) (out : CaConstraints) : CP CaConstraints :=
  if bool_decide (ext_oid ext = BASIC_CONSTRAINTS_OID) then parse_basic_constraints (ext_value ext) out
  else if bool_decide (ext_oid ext = KEY_USAGE_OID) then
    k ← key_usage_cert_sign (ext_value ext);
    Ok {| is_ca := is_ca out; path_len := path_len out; key_cert_sign := Some k |}
  else if ext_critical ext then Err CpUnhandledCriticalExtension else Ok out.

Fixpoint ca_loop (fuel : nat) (exts_r : bytes) (out : CaConstraints) : CP CaConstraints :=
  match fuel with
  | O => Panic
  | S fuel =>
      if blen exts_r =? 0 then Ok out else
      '(ext, exts_r) ← take_extension exts_r;
      out ← ca_step ext out;
      ca_loop fuel exts_r out
  end.

Fixpoint walk_ca (fuel : nat) (tbs_r : bytes) : CP CaConstraints :=
  match fuel with
  | O => Panic
  | S fuel =>
      if blen tbs_r =? 0 then Ok CaConstraints_default else
      tag ← map_err malformed (peek_tag tbs_r);
      if tag =? tag_ctx_constructed 3 then
        exts_explicit ← take_tlv tbs_r;
        exts_seq ← read_expected (tlv_body exts_explicit) TAG_SEQUENCE;
        ca_loop (S (length (tlv_body exts_seq))) (tlv_body exts_seq) CaConstraints_default
      else t ← take_tlv tbs_r; walk_ca fuel (tlv_rest t)
  end.
Definition walk_extensions_for_ca (tbs_r : bytes) : CP CaConstraints := walk_ca (S (length tbs_r)) tbs_r.

(** ** Keys and algorithms *)

Definition ec_sec1_point (pk_bytes : bytes) (expect_len : Z) : CP unit :=
  if negb (blen pk_bytes =? expect_len) || negb (bool_decide (head pk_bytes = Some 0x04)) then Err CpWrongEcdsaPubkey else Ok tt.

Definition require_explicit_null_params (r : bytes) : CP unit :=
  if blen r =? 0 then Err CpAlgorithmHasParameters else
  null_tlv ← take_tlv r;
  if negb (tlv_tag null_tlv =? TAG_NULL) || negb (blen (tlv_body null_tlv) =? 0) then Err CpAlgorithmHasParameters else
  if negb (blen (tlv_rest null_tlv) =? 0) then Err CpAlgorithmHasParameters else Ok tt.

Definition ml_dsa_pk_len (oid : bytes) : option Z :=
  if bool_decide (oid = ML_DSA_44_OID) then Some ml_dsa_44_PK_BYTES
  else if bool_decide (oid = ML_DSA_65_OID) then Some ml_dsa_65_PK_BYTES
  else if bool_decide (oid = ML_DSA_87_OID) then Some ml_dsa_87_PK_BYTES
  else None.

Definition classify_spki_algorithm (alg_id_bytes : bytes) : CP SpkiKind :=
  outer ← read_expected alg_id_bytes TAG_SEQUENCE;
  oid_tlv ← take_tlv (tlv_body outer);
  let r := tlv_rest oid_tlv in
  if negb (tlv_tag oid_tlv =? TAG_OID) then Err CpMalformed else
  let oid := tlv_body oid_tlv in
  if bool_decide (oid = ED25519_OID) then
    if negb (blen r =? 0) then Err CpAlgorithmHasParameters else Ok SkEd25519
  else if f_rsa ft && bool_decide (oid = RSA_ENCRYPTION_OID) then
    _ ← require_explicit_null_params r; Ok SkRsa
  else
    match (if f_mldsa ft then ml_dsa_pk_len oid else None) with
    | Some pk_len => if negb (blen r =? 0) then Err CpAlgorithmHasParameters else Ok (SkMlDsa pk_len)
    | None =>
        if f_ecdsa ft && bool_decide (oid = EC_PUBLIC_KEY_OID) then
          curve_tlv ← take_tlv r;
          if negb (tlv_tag curve_tlv =? TAG_OID) || negb (blen (tlv_rest curve_tlv) =? 0) then Err CpAlgorithmHasParameters else
          if bool_decide (tlv_body curve_tlv = SECP256R1_OID) then Ok SkEcdsaP256 else
          if bool_decide (tlv_body curve_tlv = SECP384R1_OID) then Ok SkEcdsaP384 else
          Err CpWrongAlgorithmOid
        else Err CpWrongAlgorithmOid
    end.

Definition classify_rsa_outer_sig_alg (alg_id_bytes : bytes) : CP (option RsaCertSigAlg) :=
  outer ← read_expected alg_id_bytes TAG_SEQUENCE;
  oid_tlv ← take_tlv (tlv_body outer);
  let r := tlv_rest oid_tlv in
  if negb (tlv_tag oid_tlv =? TAG_OID) then Err CpMalformed else
  if negb (f_rsa_pss_only rf) && bool_decide (tlv_body oid_tlv = SHA256_WITH_RSA_OID) then
    _ ← require_explicit_null_params r; Ok (Some Pkcs1v15Sha256)
  else if bool_decide (tlv_body oid_tlv = RSASSA_PSS_OID) then
    if blen r =? 0 then Ok (Some PssSha256) else
    params ← take_tlv r;
    if negb (blen (tlv_rest params) =? 0) then Err CpMalformed else Ok (Some PssSha256)
  else Ok None.

(** A DER INTEGER without the zero that keeps it positive. *)
Definition strip_sign (raw : bytes) : bytes :=
  match raw with
  | 0 :: b :: rest => if negb (Z.land b 0x80 =? 0) then b :: rest else raw
  | _ => raw
  end.

Definition modulus_ok (n : Z) : bool :=
  (f_rsa_1024 rf && (n =? 128)) || (n =? 256) || (f_rsa_3072 rf && (n =? 384)) || (f_rsa_4096 rf && (n =? 512)).

Definition bad_rsa {E} (_ : E) : CertParseError := CpBadRsaPubkey.

Definition parse_rsa_pubkey (bit_string : bytes) : CP (bytes * Z) :=
  outer ← map_err bad_rsa (read_tlv bit_string);
  if negb (tlv_tag outer =? TAG_SEQUENCE) then Err CpBadRsaPubkey else
  modulus_tlv ← map_err bad_rsa (read_tlv (tlv_body outer));
  if negb (tlv_tag modulus_tlv =? TAG_INTEGER) then Err CpBadRsaPubkey else
  let modulus := strip_sign (tlv_body modulus_tlv) in
  if (match modulus with [] => true | b :: _ => b =? 0 end) then Err CpBadRsaPubkey else
  if negb (modulus_ok (blen modulus)) then Err CpUnsupportedRsaKeySize else
  exponent_tlv ← map_err bad_rsa (read_tlv (tlv_rest modulus_tlv));
  if negb (tlv_tag exponent_tlv =? TAG_INTEGER) then Err CpBadRsaPubkey else
  let exp_bytes := strip_sign (tlv_body exponent_tlv) in
  if (match exp_bytes with [] => true | b :: _ => (4 <? blen exp_bytes) || (b =? 0) end) then Err CpBadRsaPubkey else
  let exponent := u32_fold exp_bytes in
  if (exponent <? 3) || (Z.land exponent 1 =? 0) then Err CpBadRsaPubkey else
  if negb (blen (tlv_rest exponent_tlv) =? 0) then Err CpBadRsaPubkey else
  Ok (modulus, exponent).

(** [outer_sig_alg] of an ECDSA view, a field of builds with RSA. *)
Definition ecdsa_outer_sig_alg (outer_sig_alg_bytes : bytes) : CP (option RsaCertSigAlg) :=
  if f_rsa ft then classify_rsa_outer_sig_alg outer_sig_alg_bytes else Ok None.

(** The view, by the kind of the key. *)
Definition view_of (kind : SpkiKind) (tbs sig pk outer_alg : bytes) (san : option bytes) (validity : bytes) : CP CertView :=
  match kind with
  | SkEd25519 =>
      if negb (blen pk =? 32) then Err CpWrongPubkeyLength else
      if negb (blen sig =? 64) then Err CpWrongSignatureLength else
      Ok (CvEd25519 tbs sig pk san validity)
  | SkRsa =>
      '(modulus, exponent) ← parse_rsa_pubkey pk;
      outer_sig_alg ← classify_rsa_outer_sig_alg outer_alg;
      Ok (CvRsa tbs sig outer_sig_alg modulus exponent san validity)
  | SkMlDsa pk_len =>
      if negb (blen pk =? pk_len) then Err CpWrongMlDsaPubkeyLength else Ok (CvMlDsa tbs sig pk san validity)
  | SkEcdsaP256 =>
      _ ← ec_sec1_point pk P256_SEC1_LEN;
      outer_sig_alg ← ecdsa_outer_sig_alg outer_alg;
      Ok (CvEcdsaP256 tbs sig pk outer_sig_alg san validity)
  | SkEcdsaP384 =>
      _ ← ec_sec1_point pk P384_SEC1_LEN;
      outer_sig_alg ← ecdsa_outer_sig_alg outer_alg;
      Ok (CvEcdsaP384 tbs sig pk outer_sig_alg san validity)
  end.

(** ** [impl CertParser for DerCert] *)

Definition der_parse (cert_der : bytes) : CP CertView :=
  outer ← read_expected cert_der TAG_SEQUENCE;
  let body := tlv_body outer in
  tbs_tlv ← take_tlv body;
  if negb (tlv_tag tbs_tlv =? TAG_SEQUENCE) then Err CpMalformed else
  tbs_full ← full_tlv body tbs_tlv;
  let body := tlv_rest tbs_tlv in
  outer_alg_tlv ← take_tlv body;
  if negb (tlv_tag outer_alg_tlv =? TAG_SEQUENCE) then Err CpMalformed else
  outer_sig_alg_bytes ← full_tlv body outer_alg_tlv;
  let body := tlv_rest outer_alg_tlv in
  '(sig_bytes, body) ← take_bit_string body;
  if negb (blen body =? 0) then Err CpTrailingBytes else
  let tbs_r := tlv_body tbs_tlv in
  first_tag ← map_err malformed (peek_tag tbs_r);
  if negb (first_tag =? tag_ctx_constructed 0) then Err CpUnsupportedCertVersion else
  version_tlv ← take_tlv tbs_r;
  let tbs_r := tlv_rest version_tlv in
  int_tlv ← read_expected (tlv_body version_tlv) TAG_INTEGER;
  if negb (blen (tlv_body int_tlv) =? 1) then Err CpMalformed else
  v ← or_panic (at_idx (tlv_body int_tlv) 0);
  if negb (v =? X509_V3) then Err CpUnsupportedCertVersion else
  if negb (blen (tlv_rest int_tlv) =? 0) then Err CpMalformed else
  serial ← take_expected tbs_r TAG_INTEGER;
  let tbs_r := tlv_rest serial in
  tbs_alg_tlv ← read_expected tbs_r TAG_SEQUENCE;
  tbs_sig_alg_bytes ← full_tlv tbs_r tbs_alg_tlv;
  let tbs_r := tlv_rest tbs_alg_tlv in
  if negb (bool_decide (tbs_sig_alg_bytes = outer_sig_alg_bytes)) then Err CpSignatureAlgorithmMismatch else
  issuer ← take_expected tbs_r TAG_SEQUENCE;
  let tbs_r := tlv_rest issuer in
  validity_tlv ← read_expected tbs_r TAG_SEQUENCE;
  validity_der ← full_tlv tbs_r validity_tlv;
  let tbs_r := tlv_rest validity_tlv in
  subject ← take_expected tbs_r TAG_SEQUENCE;
  let tbs_r := tlv_rest subject in
  spki_tlv ← read_expected tbs_r TAG_SEQUENCE;
  let tbs_r := tlv_rest spki_tlv in
  spki_alg_tlv ← take_tlv (tlv_body spki_tlv);
  spki_alg_bytes ← full_tlv (tlv_body spki_tlv) spki_alg_tlv;
  '(pk_bytes, spki_r) ← take_bit_string (tlv_rest spki_alg_tlv);
  if negb (blen spki_r =? 0) then Err CpTrailingBytes else
  san_bytes ← walk_extensions_for_san tbs_r;
  kind ← classify_spki_algorithm spki_alg_bytes;
  view_of kind tbs_full sig_bytes pk_bytes outer_sig_alg_bytes san_bytes validity_der.

(** [for _ in 0..n { take_tlv(&mut tbs_r)?; }] *)
Fixpoint skip_tlvs (n : nat) (tbs_r : bytes) : CP bytes :=
  match n with O => Ok tbs_r | S n => t ← take_tlv tbs_r; skip_tlvs n (tlv_rest t) end.

(** The TBS past its optional version. *)
Definition tbs_after_version (cert_der : bytes) : CP bytes :=
  outer ← read_expected cert_der TAG_SEQUENCE;
  tbs ← take_tlv (tlv_body outer);
  if negb (tlv_tag tbs =? TAG_SEQUENCE) then Err CpMalformed else
  tag ← map_err malformed (peek_tag (tlv_body tbs));
  if tag =? tag_ctx_constructed 0 then v ← take_tlv (tlv_body tbs); Ok (tlv_rest v) else Ok (tlv_body tbs).

Definition extensions_slice (cert_der : bytes) : CP bytes :=
  tbs_r ← tbs_after_version cert_der; skip_tlvs 6 tbs_r.

Definition der_parse_ca_constraints (cert_der : bytes) : CP CaConstraints :=
  tbs_r ← extensions_slice cert_der; walk_extensions_for_ca tbs_r.

Definition der_spki_der (cert_der : bytes) : CP bytes :=
  tbs_r ← tbs_after_version cert_der;
  tbs_r ← skip_tlvs 5 tbs_r;
  spki ← take_tlv tbs_r;
  full_tlv tbs_r spki.

End tlv_cert.
