(* ===== verification/TlvCertSpec.v ===== *)
(** * [backends/tlv_cert.rs]: the certificates the parser accepts

    The grammar of the accepted certificates as encodings ([tlv_encode]), the exactness of
    [parse] against it, what a CA certificate carries, the agreement of the three walks, and
    the parser as an instance of [CertParser]. *)
From stdpp Require Import sets.
From S2P Require Import Prelude Deps Consts Cert Identity TlvCert.

#[local] Arguments tlv_encode : simpl never.
#[local] Arguments take_tlv : simpl never.
#[local] Arguments peek_tag : simpl never.
#[local] Arguments read_expected : simpl never.

(** ** Encodings and cursors *)
Section cursors.
Context `{Usize}.

(** A body whose encoding a [usize] can measure. *)
Definition tlv_fits (body : bytes) : Prop := blen body < U32 /\ blen (tlv_encode 0 body) <= usize_max.

Lemma blen_tlv_encode tag body : blen (tlv_encode tag body) = 1 + blen (der_len (blen body)) + blen body.
Proof. unfold tlv_encode. rewrite blen_cons, blen_app. lia. Qed.

Lemma blen_der_len n : 0 <= n -> blen (der_len n) = if n <? 128 then 1 else 1 + Z.of_nat (len_octets n).
Proof. intros. unfold der_len. case_match; [done |]. by rewrite blen_cons, blen_be_bytes. Qed.

Lemma der_len_mono m n : 0 <= m <= n -> blen (der_len m) <= blen (der_len n).
Proof.
  intros. rewrite !blen_der_len by lia. unfold len_octets, U16, U24.
  repeat match goal with |- context [?x <? ?y] => destruct (Z.ltb_spec x y) end; lia.
Qed.

Lemma tlv_fits_mono b b' : tlv_fits b' -> blen b <= blen b' -> tlv_fits b.
Proof.
  intros [? Hm] ?. unfold tlv_fits in *. rewrite blen_tlv_encode in *. pose proof (blen_nonneg b).
  pose proof (der_len_mono (blen b) (blen b')). lia.
Qed.

Lemma tlv_fits_of tag body rest : blen body < U32 -> blen (tlv_encode tag body ++ rest) <= usize_max -> tlv_fits body.
Proof. unfold tlv_fits. rewrite blen_app, !blen_tlv_encode. pose proof (blen_nonneg rest). lia. Qed.

Lemma bytes_ok_tlv_encode tag body : bytes_ok (tlv_encode tag body) -> bytes_ok body.
Proof. unfold tlv_encode. intros Hok. apply Forall_cons in Hok as [_ Hok]. by apply bytes_ok_app in Hok as [_ ?]. Qed.

Lemma bytes_ok_prefix (l m : bytes) : bytes_ok (l ++ m) -> bytes_ok l.
Proof. by intros [? _]%bytes_ok_app. Qed.

(** The head of an encoding is its tag. *)
Lemma peek_encode tag body rest : peek_tag (tlv_encode tag body ++ rest) = Ok tag.
Proof. done. Qed.

Lemma head_encode tag body rest tg : head (tlv_encode tag body ++ rest) = Some tg -> tag = tg.
Proof. by intros [= ->]. Qed.

Lemma take_encode tag body rest :
  low_tag tag -> tlv_fits body -> take_tlv (tlv_encode tag body ++ rest) = Ok (tlv_of tag body rest).
Proof.
  intros Ht [Hb Hm]. unfold take_tlv. rewrite read_tlv_encode; [done | done | done |].
  rewrite blen_tlv_encode in *. lia.
Qed.

Lemma take_encode_all tag body :
  low_tag tag -> tlv_fits body -> take_tlv (tlv_encode tag body) = Ok (tlv_of tag body []).
Proof. intros. rewrite <- (app_nil_r (tlv_encode tag body)). by apply take_encode. Qed.

Lemma expected_take buf tag t : take_tlv buf = Ok t -> tlv_tag t = tag -> read_expected buf tag = Ok t.
Proof.
  unfold take_tlv, read_expected. intros -> Ht. run. by rewrite Ht, Z.eqb_refl.
Qed.

Lemma expected_encode tag body rest :
  low_tag tag -> tlv_fits body -> read_expected (tlv_encode tag body ++ rest) tag = Ok (tlv_of tag body rest).
Proof. intros. apply expected_take; [by apply take_encode | done]. Qed.

Lemma expected_encode_all tag body :
  low_tag tag -> tlv_fits body -> read_expected (tlv_encode tag body) tag = Ok (tlv_of tag body []).
Proof. intros. apply expected_take; [by apply take_encode_all | done]. Qed.

Lemma full_tlv_encode tag body rest : full_tlv (tlv_encode tag body ++ rest) (tlv_of tag body rest) = Ok (tlv_encode tag body).
Proof.
  unfold full_tlv, tlv_of. cbn [tlv_header_len tlv_body].
  rewrite slice_prefix; [done | done |]. by rewrite blen_tlv_encode.
Qed.

(** What a cursor reads, of any slice. *)
Definition read_from (buf : bytes) (t : Tlv) : Prop :=
  exists tag body rest, t = tlv_of tag body rest /\ low_tag tag /\ blen body < U32 /\
    bytes_ok body /\ bytes_ok rest /\ buf = tlv_encode tag body ++ rest.

Lemma read_tlv_spec buf : bytes_ok buf -> ensures (read_tlv buf) (read_from buf).
Proof.
  intros Hok. apply ensures_intro; [by apply read_tlv_total |]. intros t Ht.
  apply read_tlv_sound in Ht as (Htag & Hb & Hh & Heq); [| done].
  exists (tlv_tag t), (tlv_body t), (tlv_rest t). rewrite Heq in Hok. apply bytes_ok_app in Hok as [Hok ?].
  split_and!; [| done | done | by apply bytes_ok_tlv_encode in Hok | done | done].
  destruct t; unfold tlv_of; cbn in *; congruence.
Qed.

Lemma take_spec buf : bytes_ok buf -> ensures (take_tlv buf) (read_from buf).
Proof. intros. by apply ensures_map_err, read_tlv_spec. Qed.

Lemma expected_spec buf tag :
  bytes_ok buf -> ensures (read_expected buf tag) (fun t => exists body rest,
    t = tlv_of tag body rest /\ blen body < U32 /\ bytes_ok body /\ bytes_ok rest /\ buf = tlv_encode tag body ++ rest).
Proof.
  intros Hok. unfold read_expected. eapply ensures_bind; [by apply ensures_map_err, read_tlv_spec |].
  intros _ (tg & body & rest & -> & ? & ? & ? & ? & ->). cbn [tlv_tag tlv_of].
  destruct (Z.eqb_spec tg tag) as [-> |]; cbn; [naive_solver | done].
Qed.

Lemma peek_tag_spec buf : ensures (map_err malformed (peek_tag buf)) (fun tg => head buf = Some tg).
Proof. unfold peek_tag. by destruct (head buf). Qed.

Lemma full_spec tag body rest :
  ensures (full_tlv (tlv_encode tag body ++ rest) (tlv_of tag body rest)) (fun full => full = tlv_encode tag body).
Proof. by rewrite full_tlv_encode. Qed.

Lemma bit_string_spec buf :
  bytes_ok buf -> ensures (take_bit_string buf) (fun '(content, rest) =>
    buf = tlv_encode TAG_BIT_STRING (0 :: content) ++ rest /\ blen content < U32 /\ bytes_ok content /\ bytes_ok rest).
Proof.
  intros Hok. unfold take_bit_string. eapply ensures_bind; [by apply take_spec |].
  intros _ (tg & body & rest & -> & ? & Hb & Hk & ? & ->). cbn [tlv_tag tlv_body tlv_rest tlv_of].
  destruct (Z.eqb_spec tg TAG_BIT_STRING) as [-> |]; cbn [negb]; [| done].
  destruct body as [| u content]; [done |]. destruct (Z.eqb_spec u 0) as [-> |]; cbn; [| done].
  rewrite blen_cons in Hb. apply Forall_cons in Hk as [_ Hk]. split_and!; [done | lia | done..].
Qed.

Lemma bit_string_encode content rest :
  tlv_fits (0 :: content) -> take_bit_string (tlv_encode TAG_BIT_STRING (0 :: content) ++ rest) = Ok (content, rest).
Proof. intros. unfold take_bit_string. by rewrite take_encode. Qed.
End cursors.

(** Reading one element in an [ensures] goal, with the fields as fresh variables. *)
Ltac tlv_fields := cbn [tlv_tag tlv_body tlv_rest tlv_of negb].
Ltac tlv_subst E := try (match type of E with ?x = _ => is_var x; subst x end).
Ltac tlv_next :=
  match goal with
  | |- ensures (read_expected _ _ ≫= _) _ =>
      eapply ensures_bind; [by apply expected_spec |];
      let b := fresh "body" in let r := fresh "rest" in let E := fresh "E" in
      intros ? (b & r & -> & ? & ? & ? & E); tlv_subst E; tlv_fields
  | |- ensures (_ ≫= _) _ =>
      eapply ensures_bind; [first [by apply take_spec | by apply ensures_map_err, read_tlv_spec] |];
      let tg := fresh "tag" in let b := fresh "body" in let r := fresh "rest" in let E := fresh "E" in
      intros ? (tg & b & r & -> & ? & ? & ? & ? & E); tlv_subst E; tlv_fields
  | |- ensures (if negb (?x =? ?y) then _ else _) _ =>
      let E := fresh "E" in destruct (Z.eqb_spec x y) as [E |]; cbn [negb]; [tlv_subst E | done]
  end.

(** The whole of the element just read. *)
Ltac full_next := eapply ensures_bind; [by apply full_spec |]; intros ? ->.

(** Nothing follows. *)
Ltac empty_rest r := destruct (Z.eqb_spec (blen r) 0) as [->%blen_zero_nil |]; cbn [negb]; [rewrite ?app_nil_r | done].

(** Every length in the goal is non-negative. *)
Ltac blen_pos :=
  repeat match goal with
  | |- context [blen ?l] => lazymatch goal with K : 0 <= blen l |- _ => fail | _ => pose proof (blen_nonneg l) end
  end.

(** A body inside one that fits. *)
Ltac fit H :=
  apply (tlv_fits_mono _ _ H); rewrite ?blen_app, ?blen_cons, ?blen_nil, ?blen_tlv_encode, ?blen_app, ?blen_cons, ?blen_nil;
  blen_pos; lia.

(** ** The extension block *)

(** One extension: its identifier, an optional BOOLEAN of which any non-zero first octet is
    true, its value; what follows inside the SEQUENCE is ignored. *)
Definition flag_of (b : bytes) : bool := match head b with Some v => negb (v =? 0) | None => false end.

Inductive ext_enc : Extension -> bytes -> Prop :=
| ext_plain oid value more :
    ext_enc {| ext_oid := oid; ext_critical := false; ext_value := value |}
      (tlv_encode TAG_OID oid ++ tlv_encode TAG_OCTET_STRING value ++ more)
| ext_flagged oid b value more :
    ext_enc {| ext_oid := oid; ext_critical := flag_of b; ext_value := value |}
      (tlv_encode TAG_OID oid ++ tlv_encode TAG_BOOLEAN b ++ tlv_encode TAG_OCTET_STRING value ++ more).

(** Extensions, and the bytes after them. *)
Inductive ext_seq : bytes -> list Extension -> bytes -> Prop :=
| es_done rest : ext_seq rest [] rest
| es_more e body buf es rest :
    ext_enc e body -> blen body < U32 -> ext_seq buf es rest ->
    ext_seq (tlv_encode TAG_SEQUENCE body ++ buf) (e :: es) rest.

(** The names of the first SubjectAltName. *)
Inductive exts_san (exts : bytes) : option bytes -> Prop :=
| xs_none es : ext_seq exts es [] -> SAN_OID ∉ ext_oid <$> es -> exts_san exts None
| xs_some es e rest names more :
    ext_seq exts (es ++ [e]) rest -> SAN_OID ∉ ext_oid <$> es -> ext_oid e = SAN_OID ->
    ext_value e = tlv_encode TAG_SEQUENCE names ++ more -> blen names < U32 -> exts_san exts (Some names).

(** The fields after the key: unique identifiers and unknown ones up to the first [3], whose
    Extensions SEQUENCE is the block. *)
Inductive tail_exts : bytes -> option bytes -> Prop :=
| te_end : tail_exts [] None
| te_skip tag body tail o :
    low_tag tag -> tag <> tag_ctx_constructed 3 -> blen body < U32 ->
    tail_exts tail o -> tail_exts (tlv_encode tag body ++ tail) o
| te_exts exts more tail :
    blen (tlv_encode TAG_SEQUENCE exts ++ more) < U32 -> blen exts < U32 ->
    tail_exts (tlv_encode (tag_ctx_constructed 3) (tlv_encode TAG_SEQUENCE exts ++ more) ++ tail) (Some exts).

Inductive tail_san (tail : bytes) : option bytes -> Prop :=
| ts_none : tail_exts tail None -> tail_san tail None
| ts_exts exts san : tail_exts tail (Some exts) -> exts_san exts san -> tail_san tail san.

Section exts.
Context `{Usize}.

Lemma take_extension_spec buf :
  bytes_ok buf -> ensures (take_extension buf) (fun '(e, rest) =>
    exists body, ext_enc e body /\ blen body < U32 /\ bytes_ok body /\ bytes_ok rest /\ buf = tlv_encode TAG_SEQUENCE body ++ rest).
Proof.
  intros Hok. unfold take_extension. do 4 tlv_next.
  unfold peek_tag. destruct (head rest0) as [b0 |] eqn:Hhd; cbn [ok_or map_err]; [rewrite bind_Ok | done].
  destruct (Z.eqb_spec b0 TAG_BOOLEAN) as [-> | _].
  - rewrite bind_assoc. tlv_next. apply head_encode in Hhd as ->.
    rewrite bind_Ok. do 2 tlv_next. cbn. eexists. split_and!; [apply ext_flagged | done..].
  - rewrite bind_Ok. do 2 tlv_next. cbn. eexists. split_and!; [apply ext_plain | done..].
Qed.

Lemma take_extension_encode e body rest :
  ext_enc e body -> tlv_fits body -> take_extension (tlv_encode TAG_SEQUENCE body ++ rest) = Ok (e, rest).
Proof.
  intros He Hf. unfold take_extension. rewrite take_encode by done. run. cbn.
  destruct He as [oid value more | oid b value more]; rewrite take_encode by (done || fit Hf); cbn; rewrite peek_encode; cbn.
  - by rewrite take_encode by (done || fit Hf).
  - rewrite take_encode by (done || fit Hf). cbn. by rewrite take_encode by (done || fit Hf).
Qed.

(** The value of an extension is inside it. *)
Lemma ext_enc_value e body :
  ext_enc e body -> blen (ext_value e) <= blen body /\ (bytes_ok body -> bytes_ok (ext_value e)).
Proof.
  intros [oid value more | oid b value more]; cbn [ext_value]; rewrite !blen_app, !blen_tlv_encode, !bytes_ok_app.
  all: blen_pos; split; [lia |]; intros; destruct_and?; by eapply bytes_ok_tlv_encode.
Qed.

Lemma ext_seq_cons_inv buf e es rest :
  ext_seq buf (e :: es) rest -> exists body buf', ext_enc e body /\ blen body < U32 /\ buf = tlv_encode TAG_SEQUENCE body ++ buf' /\ ext_seq buf' es rest.
Proof. inversion 1; subst. by eexists _, _. Qed.

Lemma ext_seq_app b1 es1 b2 es2 b3 : ext_seq b1 es1 b2 -> ext_seq b2 es2 b3 -> ext_seq b1 (es1 ++ es2) b3.
Proof. induction 1; [done |]. intros. by apply es_more, IHext_seq. Qed.

Lemma nonempty_eqb (l : bytes) : (blen l =? 0) = false <-> l <> [].
Proof. destruct l; [by rewrite blen_nil | rewrite blen_cons]. pose proof (blen_nonneg l). split; [done | intros; apply Z.eqb_neq; lia]. Qed.

Lemma tlv_encode_nonempty tag body rest : (blen (tlv_encode tag body ++ rest) =? 0) = false.
Proof. by apply nonempty_eqb. Qed.

Lemma tlv_encode_length tag body rest : (length rest < length (tlv_encode tag body ++ rest))%nat.
Proof. unfold tlv_encode. rewrite length_app, length_cons. lia. Qed.

(** The walk for the SubjectAltName finds the first one. *)
Lemma san_loop_spec fuel exts :
  (length exts < fuel)%nat -> bytes_ok exts -> ensures (san_loop fuel exts) (exts_san exts).
Proof.
  revert exts. induction fuel as [| fuel IH]; intros exts Hl Hok; [lia |]. cbn [san_loop].
  destruct (Z.eqb_spec (blen exts) 0) as [->%blen_zero_nil | _]; [apply (xs_none _ []); [constructor | set_solver] |].
  eapply ensures_bind; [by apply take_extension_spec |]. intros [e rest] (body & He & Hb & Hbo & Hr & ->).
  destruct (bool_decide_reflect (ext_oid e = SAN_OID)) as [Ho | Ho].
  - assert (bytes_ok (ext_value e)) by (by apply (ext_enc_value e body)). tlv_next. cbn. apply (xs_some _ [] e rest _ rest0); try done; [| set_solver].
    by apply es_more, es_done.
  - eapply ensures_weaken; [apply IH; [pose proof (tlv_encode_length TAG_SEQUENCE body rest); lia | done] |].
    intros san [es Hs Hn | es e' r names more Hs Hn He' Hv Hlt].
    + apply (xs_none _ (e :: es)); [by apply es_more | rewrite fmap_cons; set_solver].
    + apply (xs_some _ (e :: es) e' r _ more); try done; [by apply es_more | rewrite fmap_cons; set_solver].
Qed.
(** One round of a walk over well-formed extensions. *)
Lemma tlv_fits_rest tag body rest : tlv_fits (tlv_encode tag body ++ rest) -> tlv_fits body /\ tlv_fits rest.
Proof. intros Hf. split; fit Hf. Qed.

Lemma san_loop_complete fuel exts san :
  (length exts < fuel)%nat -> tlv_fits exts -> exts_san exts san -> san_loop fuel exts = Ok san.
Proof.
  intros Hl Hf Hs. assert (exists es rest tl,
    ext_seq exts (es ++ tl) rest /\ (SAN_OID ∉ ext_oid <$> es) /\
    match san with
    | None => tl = [] /\ rest = []
    | Some names => exists e more, tl = [e] /\ ext_oid e = SAN_OID /\ ext_value e = tlv_encode TAG_SEQUENCE names ++ more /\ blen names < U32
    end) as (es & rest & tl & Hq & Hn & Hc).
  { destruct Hs as [es | es e rest names more]; [exists es, [], []; by rewrite app_nil_r | exists es, rest, [e]; naive_solver]. }
  clear Hs. revert exts fuel Hl Hf Hq. induction es as [| e es IH]; intros exts [| fuel] Hl Hf Hq; try lia; cbn [san_loop].
  - destruct san as [names |].
    + destruct Hc as (e & more & -> & Ho & Hv & ?). apply ext_seq_cons_inv in Hq as (body & buf & He & _ & -> & _).
      rewrite tlv_encode_nonempty. apply tlv_fits_rest in Hf as [Hf _].
      rewrite (take_extension_encode e) by done. cbn. rewrite bool_decide_true by done.
      rewrite Hv, expected_encode; [done | done |]. apply ext_enc_value in He as [Hle _].
      rewrite Hv, blen_app, blen_tlv_encode in Hle. apply (tlv_fits_mono _ _ Hf). revert Hle. blen_pos. lia.
    + destruct Hc as [-> ->]. inversion Hq; subst. done.
  - cbn [app] in Hq. apply ext_seq_cons_inv in Hq as (body & buf & He & _ & -> & Hq).
    rewrite tlv_encode_nonempty. apply tlv_fits_rest in Hf as [? Hf]. rewrite fmap_cons in Hn.
    rewrite (take_extension_encode e) by done. cbn. rewrite bool_decide_false by set_solver.
    apply IH; [set_solver | pose proof (tlv_encode_length TAG_SEQUENCE body buf); lia | done | done].
Qed.

(** The walk over the fields after the key. *)
Lemma walk_san_spec fuel tail :
  (length tail < fuel)%nat -> bytes_ok tail -> ensures (walk_san fuel tail) (tail_san tail).
Proof.
  revert tail. induction fuel as [| fuel IH]; intros tail Hl Hok; [lia |]. cbn [walk_san].
  destruct (Z.eqb_spec (blen tail) 0) as [->%blen_zero_nil | _]; [by apply ts_none, te_end |].
  destruct (head tail) as [tg |] eqn:Hhd; unfold peek_tag; rewrite Hhd; [run | done].
  assert (tg <> tag_ctx_constructed 3 -> ensures (t ← take_tlv tail; walk_san fuel (tlv_rest t)) (tail_san tail)) as Hskip.
  { intros Htg. tlv_next. apply head_encode in Hhd as ->.
    eapply ensures_weaken; [apply IH; [pose proof (tlv_encode_length tg body rest); lia | done] |].
    intros san [Ht | exts ? Ht Hs]; [apply ts_none | eapply ts_exts; [| done]]; by apply te_skip. }
  case_match eqn:Huid; [apply Hskip; intros ->; done |]. clear Huid.
  destruct (Z.eqb_spec tg (tag_ctx_constructed 3)) as [-> | Htg]; [| by apply Hskip]. clear Hskip.
  tlv_next. apply head_encode in Hhd as ->.
  tlv_next. eapply ensures_weaken; [by apply san_loop_spec; [lia |] |]. intros san Hs.
  eapply ts_exts; [| done]. by apply te_exts.
Qed.

Lemma walk_san_complete fuel tail san :
  (length tail < fuel)%nat -> tlv_fits tail -> tail_san tail san -> walk_san fuel tail = Ok san.
Proof.
  intros Hl Hf Hs. assert (exists o, tail_exts tail o /\ match o with None => san = None | Some exts => exts_san exts san end)
    as (o & Ht & Ho) by (destruct Hs; by eexists _).
  clear Hs. revert fuel Hl Hf. induction Ht as [| tag body tail o Hlow Htg Hb Ht IH | exts more tail Hb1 Hb2];
    intros [| fuel] Hl Hf; try lia; cbn [walk_san].
  - by subst.
  - rewrite tlv_encode_nonempty, peek_encode. run. pose proof (tlv_encode_length tag body tail).
    apply tlv_fits_rest in Hf as [? Hf]. rewrite take_encode by done. run. tlv_fields.
    rewrite (proj2 (Z.eqb_neq _ _) Htg), (IH Ho); [by destruct (_ || _) | lia | done].
  - rewrite tlv_encode_nonempty, peek_encode. run. apply tlv_fits_rest in Hf as [Hf _].
    match goal with |- (if ?c then _ else _) = _ => change c with false end. rewrite Z.eqb_refl, take_encode by done.
    run. tlv_fields. apply tlv_fits_rest in Hf as [Hf _]. rewrite expected_encode by done. run. tlv_fields.
    apply san_loop_complete; [lia | done | done].
Qed.
End exts.

(** ** Encodings determine their parts *)

Lemma tlv_encode_inj tag b r tag' b' r' :
  low_tag tag -> blen b < U32 -> blen b' < U32 ->
  tlv_encode tag b ++ r = tlv_encode tag' b' ++ r' -> tag = tag' /\ b = b' /\ r = r'.
Proof.
  intros Hlow Hb Hb' Heq. assert (tag = tag') as -> by (by injection Heq).
  pose (U := {| usize_max := U32 * 2; usize_max_ge := ltac:(done) |} : Usize).
  assert (forall x, blen x < U32 -> blen (tlv_encode tag' x) <= @usize_max U) as Hmax.
  { intros x Hx. rewrite blen_tlv_encode, blen_der_len by apply blen_nonneg.
    unfold len_octets, U16, U24, U32 in *. cbn [usize_max U].
    repeat match goal with |- context [?x <? ?y] => destruct (Z.ltb_spec x y) end; unfold U32; lia. }
  pose proof (@read_tlv_encode U tag' b r Hlow Hb (Hmax _ Hb)) as H1.
  rewrite Heq, (@read_tlv_encode U tag' b' r' Hlow Hb' (Hmax _ Hb')) in H1. by injection H1.
Qed.

(** [u32_fold] is the big-endian value. *)
Lemma u32_fold_from_be bs : bytes_ok bs -> blen bs <= 4 -> u32_fold bs = from_be bs.
Proof.
  intros Hok Hl. unfold u32_fold. enough (forall acc, 0 <= acc -> acc * 256 ^ blen bs + from_be bs < U32 ->
    foldl (fun acc b => Z.lor (Z.shiftl acc 8 mod U32) b) acc bs = acc * 256 ^ blen bs + from_be bs) as HG.
  { rewrite HG; [lia | lia |]. pose proof (from_be_bound bs Hok). assert (256 ^ blen bs <= 256 ^ 4) by (apply Z.pow_le_mono_r; lia).
    unfold U32. lia. }
  clear Hl. induction bs as [| b bs IH]; intros acc Ha Hlt; cbn [foldl from_be]; [rewrite blen_nil; lia |].
  apply Forall_cons in Hok as [Hb Hok]. pose proof (from_be_bound bs Hok). pose proof (blen_nonneg bs).
  cbn [from_be] in Hlt. rewrite blen_cons, Z.pow_add_r in * by lia. pose proof (Z.pow_pos_nonneg 256 (blen bs)).
  assert (acc * 256 + b < U32) by (unfold is_u8, U8 in Hb; nia).
  rewrite Z.mod_small by (rewrite Z.shiftl_mul_pow2 by lia; unfold is_u8, U8 in Hb; lia).
  rewrite lor_shiftl_byte, IH by (done || unfold is_u8, U8 in Hb; lia). lia.
Qed.

(** ** Algorithms and keys *)

Definition null_tlv : bytes := tlv_encode TAG_NULL [].

Section keys.
Context `{Usize, MlDsaKeySizes} (ft : Features) (rf : RsaFeatures).

(** [AlgorithmIdentifier] bodies of the key. *)
Inductive spki_alg : bytes -> SpkiKind -> Prop :=
| sa_ed25519 : spki_alg (tlv_encode TAG_OID ED25519_OID) SkEd25519
| sa_rsa : f_rsa ft = true -> spki_alg (tlv_encode TAG_OID RSA_ENCRYPTION_OID ++ null_tlv) SkRsa
| sa_ml_dsa oid pk_len : f_mldsa ft = true -> ml_dsa_pk_len oid = Some pk_len -> spki_alg (tlv_encode TAG_OID oid) (SkMlDsa pk_len)
| sa_p256 : f_ecdsa ft = true -> spki_alg (tlv_encode TAG_OID EC_PUBLIC_KEY_OID ++ tlv_encode TAG_OID SECP256R1_OID) SkEcdsaP256
| sa_p384 : f_ecdsa ft = true -> spki_alg (tlv_encode TAG_OID EC_PUBLIC_KEY_OID ++ tlv_encode TAG_OID SECP384R1_OID) SkEcdsaP384.

(** The certificate's own signature algorithm, as far as the RSA paths tell it apart. *)
Inductive outer_alg : bytes -> option RsaCertSigAlg -> Prop :=
| oa_pkcs1 : f_rsa_pss_only rf = false -> outer_alg (tlv_encode TAG_OID SHA256_WITH_RSA_OID ++ null_tlv) (Some Pkcs1v15Sha256)
| oa_pss : outer_alg (tlv_encode TAG_OID RSASSA_PSS_OID) (Some PssSha256)
| oa_pss_params tag body :
    low_tag tag -> blen body < U32 -> outer_alg (tlv_encode TAG_OID RSASSA_PSS_OID ++ tlv_encode tag body) (Some PssSha256)
| oa_other oid params :
    oid <> RSASSA_PSS_OID -> (oid = SHA256_WITH_RSA_OID -> f_rsa_pss_only rf = true) ->
    outer_alg (tlv_encode TAG_OID oid ++ params) None.

(** A positive magnitude and an INTEGER body it is read from. *)
Inductive magnitude : bytes -> bytes -> Prop :=
| mag_plain b m : b <> 0 -> magnitude (b :: m) (b :: m)
| mag_padded b m : Z.land b 0x80 <> 0 -> magnitude (b :: m) (0 :: b :: m).

Inductive rsa_key : bytes -> bytes -> Z -> Prop :=
| rsa_key_of n n_raw e e_raw more :
    magnitude n n_raw -> modulus_ok rf (blen n) = true ->
    magnitude e e_raw -> blen e <= 4 -> 3 <= from_be e -> Z.odd (from_be e) = true ->
    blen (tlv_encode TAG_INTEGER n_raw ++ tlv_encode TAG_INTEGER e_raw) < U32 ->
    rsa_key (tlv_encode TAG_SEQUENCE (tlv_encode TAG_INTEGER n_raw ++ tlv_encode TAG_INTEGER e_raw) ++ more) n (from_be e).

Lemma null_params_spec r : bytes_ok r -> ensures (require_explicit_null_params r) (fun _ => r = null_tlv).
Proof.
  intros Hok. unfold require_explicit_null_params. case_match; [done |]. tlv_next.
  destruct (Z.eqb_spec tag TAG_NULL) as [-> |]; [| done]. destruct (Z.eqb_spec (blen body) 0) as [->%blen_zero_nil |]; cbn [negb orb]; [| done].
  destruct (Z.eqb_spec (blen rest) 0) as [->%blen_zero_nil |]; [| done]. cbn. by rewrite app_nil_r.
Qed.

Lemma tlv_fits_nil : tlv_fits [].
Proof. split; [done |]. pose proof usize_max_ge. vm_compute (blen _). unfold U32 in *. lia. Qed.

Lemma null_params_encode : require_explicit_null_params null_tlv = Ok tt.
Proof.
  unfold require_explicit_null_params, null_tlv. change (blen (tlv_encode TAG_NULL []) =? 0) with false.
  by rewrite take_encode_all by (done || apply tlv_fits_nil).
Qed.

Lemma classify_spki_spec buf :
  bytes_ok buf -> ensures (classify_spki_algorithm ft buf) (fun kind =>
    exists alg rest, buf = tlv_encode TAG_SEQUENCE alg ++ rest /\ blen alg < U32 /\ spki_alg alg kind).
Proof.
  intros Hok. unfold classify_spki_algorithm. do 3 tlv_next. 
  refine (ensures_weaken _ (spki_alg _) _ _ _); [| intros kind Hk; by eexists _, _].
  destruct (bool_decide_reflect (body0 = ED25519_OID)) as [-> | _]; [empty_rest rest0; constructor |].
  destruct (f_rsa ft && bool_decide (body0 = RSA_ENCRYPTION_OID)) eqn:Hr.
  { apply andb_true_iff in Hr as [Hr ->%bool_decide_eq_true]. eapply ensures_bind; [by apply null_params_spec |].
    intros _ ->. by constructor. }
  destruct (if f_mldsa ft then ml_dsa_pk_len body0 else None) as [n |] eqn:Hm.
  { destruct (f_mldsa ft) eqn:?; [| done]. empty_rest rest0. by constructor. }
  destruct (f_ecdsa ft && bool_decide (body0 = EC_PUBLIC_KEY_OID)) eqn:He; [| done].
  apply andb_true_iff in He as [He ->%bool_decide_eq_true]. tlv_next.
  destruct (Z.eqb_spec tag TAG_OID) as [-> |]; cbn [negb orb]; [| done]. empty_rest rest1.
  destruct (bool_decide_reflect (body = SECP256R1_OID)) as [-> | _]; [by constructor |].
  destruct (bool_decide_reflect (body = SECP384R1_OID)) as [-> | _]; [by constructor | done].
Qed.

(** Identifiers are short. *)
Lemma tlv_fits_short b : blen b <= 16 -> tlv_fits b.
Proof.
  intros Hb. unfold tlv_fits. pose proof (der_len_mono (blen b) 16). pose proof (blen_nonneg b). change (blen (der_len 16)) with 1 in *.
  rewrite blen_tlv_encode. pose proof usize_max_ge. unfold U32 in *. lia.
Qed.

Lemma ml_dsa_oid oid n : ml_dsa_pk_len oid = Some n ->
  oid = ML_DSA_44_OID \/ oid = ML_DSA_65_OID \/ oid = ML_DSA_87_OID.
Proof. unfold ml_dsa_pk_len. repeat case_bool_decide; auto. done. Qed.

Lemma classify_spki_encode alg kind :
  tlv_fits alg -> spki_alg alg kind -> classify_spki_algorithm ft (tlv_encode TAG_SEQUENCE alg) = Ok kind.
Proof.
  intros Hf Hk. unfold classify_spki_algorithm. rewrite expected_encode_all by done. run. tlv_fields.
  destruct Hk as [| Hr | oid n Hm Hn | He | He].
  - by rewrite take_encode_all by (done || by apply tlv_fits_short).
  - rewrite take_encode by (done || by apply tlv_fits_short). cbn. by rewrite Hr, null_params_encode.
  - rewrite take_encode_all by (done || fit Hf). run. tlv_fields. rewrite Hm, Hn.
    apply ml_dsa_oid in Hn as [-> | [-> | ->]]; cbn; by rewrite andb_false_r.
  - rewrite take_encode by (done || by apply tlv_fits_short). cbn. rewrite He, andb_false_r.
    rewrite take_encode_all by (done || by apply tlv_fits_short). by destruct (f_mldsa ft).
  - rewrite take_encode by (done || by apply tlv_fits_short). cbn. rewrite He, andb_false_r.
    rewrite take_encode_all by (done || by apply tlv_fits_short). by destruct (f_mldsa ft).
Qed.
Lemma classify_outer_spec buf :
  bytes_ok buf -> ensures (classify_rsa_outer_sig_alg rf buf) (fun o =>
    exists alg rest, buf = tlv_encode TAG_SEQUENCE alg ++ rest /\ blen alg < U32 /\ outer_alg alg o).
Proof.
  intros Hok. unfold classify_rsa_outer_sig_alg. do 3 tlv_next.
  refine (ensures_weaken _ (outer_alg _) _ _ _); [| intros o Ho; by eexists _, _].
  destruct (negb (f_rsa_pss_only rf) && bool_decide (body0 = SHA256_WITH_RSA_OID)) eqn:Hp.
  { apply andb_true_iff in Hp as [Hp%negb_true_iff ->%bool_decide_eq_true].
    eapply ensures_bind; [by apply null_params_spec |]. intros _ ->. by constructor. }
  destruct (bool_decide_reflect (body0 = RSASSA_PSS_OID)) as [-> | Ho].
  - destruct (Z.eqb_spec (blen rest0) 0) as [->%blen_zero_nil |]; [rewrite app_nil_r; constructor |].
    tlv_next. empty_rest rest1. by constructor.
  - apply oa_other; [done |]. intros ->. by destruct (f_rsa_pss_only rf).
Qed.

Lemma classify_outer_encode alg o :
  tlv_fits alg -> outer_alg alg o -> classify_rsa_outer_sig_alg rf (tlv_encode TAG_SEQUENCE alg) = Ok o.
Proof.
  intros Hf Ho. unfold classify_rsa_outer_sig_alg. rewrite expected_encode_all by done. run. tlv_fields.
  destruct Ho as [Hp | | tag body Ht Hb | oid params Hpss Hp].
  - rewrite take_encode by (done || by apply tlv_fits_short). cbn. by rewrite Hp, null_params_encode.
  - rewrite take_encode_all by (done || by apply tlv_fits_short). cbn. by rewrite andb_false_r.
  - rewrite take_encode by (done || by apply tlv_fits_short). cbn. rewrite andb_false_r.
    rewrite <- (app_nil_r (tlv_encode tag body)), tlv_encode_nonempty, take_encode by (done || fit Hf). done.
  - rewrite take_encode by (done || fit Hf). run. tlv_fields.
    rewrite (bool_decide_false _ Hpss). destruct (bool_decide_reflect (oid = SHA256_WITH_RSA_OID)) as [Hs | _].
    + by rewrite (Hp Hs).
    + by rewrite andb_false_r.
Qed.

(** ** RSA keys *)

Lemma strip_sign_spec raw b m : strip_sign raw = b :: m -> b <> 0 -> magnitude (b :: m) raw.
Proof.
  unfold strip_sign. destruct raw as [| r raw]; [done |]. intros Hs Hb.
  destruct (decide (r = 0)) as [-> |].
  - destruct raw as [| c raw]; [congruence |]. destruct (Z.eqb_spec (Z.land c 0x80) 0); cbn [negb] in Hs; [congruence |].
    injection Hs as -> ->. by apply mag_padded.
  - assert (r :: raw = b :: m) as [= -> ->] by (destruct r; done). by apply mag_plain.
Qed.

Lemma strip_sign_magnitude m raw : magnitude m raw -> strip_sign raw = m /\ exists b m', m = b :: m' /\ b <> 0.
Proof.
  intros [b m' Hb | b m' Hb].
  - split; [by destruct b | by eexists _, _].
  - cbn. rewrite (proj2 (Z.eqb_neq _ _) Hb). split; [done |]. exists b, m'. split; [done |]. by intros ->.
Qed.

Lemma strip_sign_ok raw : bytes_ok raw -> bytes_ok (strip_sign raw).
Proof.
  unfold strip_sign. intros Hok. destruct raw as [| [| |] [| b raw]]; try done. case_match; [| done].
  by apply Forall_cons in Hok as [_ ?].
Qed.

Lemma land_1_odd n : (Z.land n 1 =? 0) = negb (Z.odd n).
Proof. change 1 with (Z.ones 1). rewrite Z.land_ones, Zmod_odd by lia. by destruct (Z.odd n). Qed.

Lemma parse_rsa_spec buf :
  bytes_ok buf -> ensures (parse_rsa_pubkey rf buf) (fun '(n, e) => rsa_key buf n e).
Proof.
  intros Hok. unfold parse_rsa_pubkey. do 4 tlv_next.
  destruct (strip_sign body0) as [| n0 n] eqn:Hn; [done |]. destruct (Z.eqb_spec n0 0); [done |].
  destruct (modulus_ok rf _) eqn:Hm; cbn [negb]; [| done]. do 2 tlv_next.
  pose proof (strip_sign_ok body) as Heo.
  destruct (strip_sign body) as [| e0 e] eqn:He; [done |].
  destruct (Z.ltb_spec 4 (blen (e0 :: e))); [done |]. destruct (Z.eqb_spec e0 0); cbn [orb]; [done |].
  rewrite u32_fold_from_be by (by apply Heo || lia).
  destruct (Z.ltb_spec (from_be (e0 :: e)) 3); [done |]. rewrite land_1_odd.
  destruct (Z.odd (from_be (e0 :: e))) eqn:Hodd; cbn [negb orb]; [| done]. empty_rest rest1. cbn [ensures].
  eapply rsa_key_of; try done; [by apply strip_sign_spec | by apply strip_sign_spec | by rewrite app_nil_r in *].
Qed.

Lemma parse_rsa_encode key n e :
  bytes_ok key -> tlv_fits key -> rsa_key key n e -> parse_rsa_pubkey rf key = Ok (n, e).
Proof.
  intros Hok Hf Hk. revert Hok Hf. destruct Hk as [n n_raw e e_raw more Hn Hm He He4 He3 Hodd Hb]. intros Hok Hf. apply bytes_ok_app in Hok as [Hok%bytes_ok_tlv_encode _].
  apply bytes_ok_app in Hok as [_ Hok%bytes_ok_tlv_encode].
  unfold parse_rsa_pubkey. apply tlv_fits_rest in Hf as [Hf _].
  assert (forall tag b r, low_tag tag -> tlv_fits b -> map_err bad_rsa (read_tlv (tlv_encode tag b ++ r)) = Ok (tlv_of tag b r)) as Hread.
  { intros tag b r Ht [? Hmax]. rewrite read_tlv_encode; [done | done | done | by rewrite blen_tlv_encode in *]. }
  rewrite Hread by done. run. tlv_fields. cbn [Z.eqb TAG_SEQUENCE Pos.eqb negb].
  rewrite Hread by (done || fit Hf). run. tlv_fields. cbn [Z.eqb TAG_INTEGER Pos.eqb negb].
  apply strip_sign_magnitude in Hn as (-> & n0 & n1 & -> & Hn0). rewrite (proj2 (Z.eqb_neq _ _) Hn0), Hm. cbn [negb].
  rewrite <- (app_nil_r (tlv_encode TAG_INTEGER e_raw)), Hread by (done || fit Hf). run. tlv_fields. cbn [Z.eqb TAG_INTEGER Pos.eqb negb].
  apply strip_sign_ok in Hok. apply strip_sign_magnitude in He as (He & e0 & e1 & -> & He0). rewrite He in *.
  rewrite (proj2 (Z.ltb_ge _ _) He4), (proj2 (Z.eqb_neq _ _) He0). cbn [orb].
  rewrite u32_fold_from_be, land_1_odd, Hodd, (proj2 (Z.ltb_ge _ _) He3) by done. done.
Qed.
End keys.

(** ** Certificates *)

Record CertFields := {
  cf_serial : bytes; cf_alg : bytes; cf_issuer : bytes; cf_validity : bytes; cf_subject : bytes;
  cf_spki_alg : bytes; cf_key : bytes; cf_tail : bytes; cf_sig : bytes
}.

Definition spki_encode (f : CertFields) : bytes :=
  tlv_encode TAG_SEQUENCE (tlv_encode TAG_SEQUENCE (cf_spki_alg f) ++ tlv_encode TAG_BIT_STRING (0 :: cf_key f)).

(** Version 3, the fields in order, and the tail with the extensions. *)
Definition tbs_fields (f : CertFields) : bytes :=
  tlv_encode TAG_INTEGER (cf_serial f) ++ tlv_encode TAG_SEQUENCE (cf_alg f) ++ tlv_encode TAG_SEQUENCE (cf_issuer f) ++
  tlv_encode TAG_SEQUENCE (cf_validity f) ++ tlv_encode TAG_SEQUENCE (cf_subject f) ++ spki_encode f ++ cf_tail f.
Definition version_3 : bytes := tlv_encode TAG_INTEGER [X509_V3].
Definition tbs_encode (f : CertFields) : bytes :=
  tlv_encode TAG_SEQUENCE (tlv_encode (tag_ctx_constructed 0) version_3 ++ tbs_fields f).

(** The algorithm of the TBS again, and the signature. *)
Definition cert_body (f : CertFields) : bytes :=
  tbs_encode f ++ tlv_encode TAG_SEQUENCE (cf_alg f) ++ tlv_encode TAG_BIT_STRING (0 :: cf_sig f).
Definition cert_encode (f : CertFields) : bytes := tlv_encode TAG_SEQUENCE (cert_body f).

Section cert.
Context `{Usize, MlDsaKeySizes} (ft : Features) (rf : RsaFeatures).

Definition sec1_point (len : Z) (key : bytes) : Prop := blen key = len /\ head key = Some 0x04.
Definition ecdsa_alg (alg : bytes) (o : option RsaCertSigAlg) : Prop := if f_rsa ft then outer_alg rf alg o else o = None.

(** The view: the signed bytes, the signature and the key, with the checks of its kind. *)
Inductive cert_view (f : CertFields) (san : option bytes) : SpkiKind -> CertView -> Prop :=
| view_ed25519 :
    blen (cf_key f) = 32 -> blen (cf_sig f) = 64 ->
    cert_view f san SkEd25519 (CvEd25519 (tbs_encode f) (cf_sig f) (cf_key f) san (tlv_encode TAG_SEQUENCE (cf_validity f)))
| view_rsa n e o :
    rsa_key rf (cf_key f) n e -> outer_alg rf (cf_alg f) o ->
    cert_view f san SkRsa (CvRsa (tbs_encode f) (cf_sig f) o n e san (tlv_encode TAG_SEQUENCE (cf_validity f)))
| view_ml_dsa :
    cert_view f san (SkMlDsa (blen (cf_key f))) (CvMlDsa (tbs_encode f) (cf_sig f) (cf_key f) san (tlv_encode TAG_SEQUENCE (cf_validity f)))
| view_p256 o :
    sec1_point P256_SEC1_LEN (cf_key f) -> ecdsa_alg (cf_alg f) o ->
    cert_view f san SkEcdsaP256 (CvEcdsaP256 (tbs_encode f) (cf_sig f) (cf_key f) o san (tlv_encode TAG_SEQUENCE (cf_validity f)))
| view_p384 o :
    sec1_point P384_SEC1_LEN (cf_key f) -> ecdsa_alg (cf_alg f) o ->
    cert_view f san SkEcdsaP384 (CvEcdsaP384 (tbs_encode f) (cf_sig f) (cf_key f) o san (tlv_encode TAG_SEQUENCE (cf_validity f))).

Inductive accepted (d : bytes) (v : CertView) : Prop :=
| accepted_of f kind san trailing :
    d = cert_encode f ++ trailing -> blen (cert_body f) < U32 -> spki_alg ft (cf_spki_alg f) kind ->
    tail_san (cf_tail f) san -> cert_view f san kind v -> accepted d v.

Lemma encoded_alg_inj alg alg' rest :
  blen alg < U32 -> blen alg' < U32 -> tlv_encode TAG_SEQUENCE alg = tlv_encode TAG_SEQUENCE alg' ++ rest -> alg = alg'.
Proof. intros ?? Heq. rewrite <- (app_nil_r (tlv_encode _ alg)) in Heq. by apply tlv_encode_inj in Heq as (_ & -> & _). Qed.

Lemma outer_alg_spec alg :
  bytes_ok (tlv_encode TAG_SEQUENCE alg) -> blen alg < U32 ->
  ensures (classify_rsa_outer_sig_alg rf (tlv_encode TAG_SEQUENCE alg)) (outer_alg rf alg).
Proof.
  intros Hok Hl. eapply ensures_weaken; [by apply classify_outer_spec |].
  intros o (alg' & rest & Heq & ? & Ho). by rewrite (encoded_alg_inj alg alg' rest).
Qed.

Lemma ecdsa_alg_spec alg :
  bytes_ok (tlv_encode TAG_SEQUENCE alg) -> blen alg < U32 ->
  ensures (ecdsa_outer_sig_alg ft rf (tlv_encode TAG_SEQUENCE alg)) (ecdsa_alg alg).
Proof. intros. unfold ecdsa_outer_sig_alg, ecdsa_alg. destruct (f_rsa ft); [by apply outer_alg_spec | done]. Qed.

Lemma sec1_spec pk n : ensures (ec_sec1_point pk n) (fun _ => sec1_point n pk).
Proof.
  unfold ec_sec1_point, sec1_point. destruct (Z.eqb_spec (blen pk) n); cbn [negb orb]; [| done].
  by case_bool_decide.
Qed.

Lemma view_of_spec f san kind :
  bytes_ok (cf_key f) -> bytes_ok (tlv_encode TAG_SEQUENCE (cf_alg f)) -> blen (cf_alg f) < U32 ->
  ensures (view_of ft rf kind (tbs_encode f) (cf_sig f) (cf_key f) (tlv_encode TAG_SEQUENCE (cf_alg f)) san
             (tlv_encode TAG_SEQUENCE (cf_validity f))) (cert_view f san kind).
Proof.
  intros Hk Ha Hl. destruct kind as [| | n | |]; cbn [view_of].
  - destruct (Z.eqb_spec (blen (cf_key f)) 32); cbn [negb]; [| done].
    destruct (Z.eqb_spec (blen (cf_sig f)) 64); cbn [negb]; [by constructor | done].
  - eapply ensures_bind; [by apply parse_rsa_spec |]. intros [n e] Hn.
    eapply ensures_bind; [by apply outer_alg_spec |]. intros o Ho. by constructor.
  - destruct (Z.eqb_spec (blen (cf_key f)) n) as [<- |]; cbn [negb]; [constructor | done].
  - eapply ensures_bind; [by apply sec1_spec |]. intros ? Hs. cbv beta in Hs.
    eapply ensures_bind; [by apply ecdsa_alg_spec |]. intros o Ho. by constructor.
  - eapply ensures_bind; [by apply sec1_spec |]. intros ? Hs. cbv beta in Hs.
    eapply ensures_bind; [by apply ecdsa_alg_spec |]. intros o Ho. by constructor.
Qed.

Lemma sec1_point_ok pk n : sec1_point n pk -> ec_sec1_point pk n = Ok tt.
Proof. intros [Hl Hh]. unfold ec_sec1_point. by rewrite (proj2 (Z.eqb_eq _ _) Hl), bool_decide_true. Qed.

Lemma ecdsa_alg_ok alg o : tlv_fits alg -> ecdsa_alg alg o -> ecdsa_outer_sig_alg ft rf (tlv_encode TAG_SEQUENCE alg) = Ok o.
Proof. unfold ecdsa_alg, ecdsa_outer_sig_alg. intros ? Ho. destruct (f_rsa ft); [by apply classify_outer_encode | by subst]. Qed.

Lemma view_of_complete f san kind v :
  bytes_ok (cf_key f) -> tlv_fits (cf_key f) -> tlv_fits (cf_alg f) -> cert_view f san kind v ->
  view_of ft rf kind (tbs_encode f) (cf_sig f) (cf_key f) (tlv_encode TAG_SEQUENCE (cf_alg f)) san
    (tlv_encode TAG_SEQUENCE (cf_validity f)) = Ok v.
Proof.
  intros Hk Hf Ha Hv. destruct Hv as [Hl1 Hl2 | n e o Hr Ho | | o Hs Ho | o Hs Ho]; cbn [view_of].
  - by rewrite Hl1, Hl2.
  - rewrite (parse_rsa_encode rf _ n e) by done. run. by rewrite (classify_outer_encode rf _ o).
  - by rewrite Z.eqb_refl.
  - rewrite sec1_point_ok by done. run. by rewrite (ecdsa_alg_ok _ o).
  - rewrite sec1_point_ok by done. run. by rewrite (ecdsa_alg_ok _ o).
Qed.

Lemma der_parse_spec d : bytes_ok d -> ensures (der_parse ft rf d) (accepted d).
Proof.
  intros Hok. unfold der_parse. do 3 tlv_next. full_next. do 2 tlv_next. full_next.
  eapply ensures_bind; [by apply bit_string_spec |]. intros [sig r0] (-> & ? & ? & ?).
  empty_rest r0.
  rename body0 into tbs, body into alg.
  eapply ensures_bind; [apply peek_tag_spec |]. intros tg Hhd. cbv beta in Hhd. do 2 tlv_next. apply head_encode in Hhd as ->. 
  tlv_next. destruct (Z.eqb_spec (blen body0) 1) as [Hv |]; cbn [negb]; [| done].
  destruct body0 as [| v [| ? ?]]; [done | | by rewrite !blen_cons in Hv; pose proof (blen_nonneg l); lia].
  change (at_idx [v] 0) with (Some v). run. tlv_next. empty_rest rest1.
  unfold take_expected. do 2 tlv_next. full_next. rename body into serial.
  destruct (bool_decide_reflect (tlv_encode TAG_SEQUENCE body0 = tlv_encode TAG_SEQUENCE alg)) as [Ha | _]; cbn [negb]; [| done].
  rewrite <- (app_nil_r (tlv_encode _ alg)) in Ha. apply encoded_alg_inj in Ha as ->; [| done | done].
  do 2 tlv_next. full_next. rename body into issuer, body0 into validity.
  do 2 tlv_next. rename body into subject. tlv_next. full_next.
  eapply ensures_bind; [by apply bit_string_spec |]. intros [key r1] (-> & ? & ? & ?). empty_rest r1.
  rewrite ?app_nil_r in *. rename rest0 into tail.
  eapply ensures_bind; [by apply walk_san_spec; [lia |] |]. intros san Hsan.
  assert (bytes_ok (tlv_encode tag body)) by (by eapply bytes_ok_prefix).
  assert (bytes_ok (tlv_encode TAG_SEQUENCE alg)) by (by eapply bytes_ok_prefix).
  eapply ensures_bind; [by apply classify_spki_spec |]. intros kind (spki & r & Heq & ? & Hkind).
  rewrite <- (app_nil_r (tlv_encode tag body)) in Heq. apply tlv_encode_inj in Heq as (-> & -> & <-); [| done..].
  pose (f := {| cf_serial := serial; cf_alg := alg; cf_issuer := issuer; cf_validity := validity; cf_subject := subject;
                cf_spki_alg := spki; cf_key := key; cf_tail := tail; cf_sig := sig |}).
  eapply ensures_weaken; [by apply (view_of_spec f) |]. intros v Hview. by apply (accepted_of _ _ f kind san rest).
Qed.

(** Every part of a certificate that fits, fits. *)
Record fields_fit (f : CertFields) : Prop := {
  fit_tbs : tlv_fits (tlv_encode (tag_ctx_constructed 0) version_3 ++ tbs_fields f);
  fit_sig : tlv_fits (0 :: cf_sig f); fit_serial : tlv_fits (cf_serial f); fit_alg : tlv_fits (cf_alg f);
  fit_issuer : tlv_fits (cf_issuer f); fit_validity : tlv_fits (cf_validity f); fit_subject : tlv_fits (cf_subject f);
  fit_spki : tlv_fits (tlv_encode TAG_SEQUENCE (cf_spki_alg f) ++ tlv_encode TAG_BIT_STRING (0 :: cf_key f));
  fit_spki_alg : tlv_fits (cf_spki_alg f); fit_bits : tlv_fits (0 :: cf_key f); fit_key : tlv_fits (cf_key f);
  fit_tail : tlv_fits (cf_tail f)
}.

Lemma cert_fields_fit f : tlv_fits (cert_body f) -> fields_fit f.
Proof.
  intros Hf. pose proof Hf as [Ht Hr]%tlv_fits_rest. pose proof Ht as [_ Hb]%tlv_fits_rest.
  assert (tlv_fits (spki_encode f)) as Hs by (unfold tbs_fields in Hb; fit Hb).
  unfold spki_encode in Hs. rewrite <- (app_nil_r (tlv_encode _ _)) in Hs. apply tlv_fits_rest in Hs as [Hs _].
  constructor; [done | fit Hr | unfold tbs_fields in Hb; fit Hb | fit Hr | unfold tbs_fields in Hb; fit Hb.. | done | fit Hs | fit Hs | fit Hs |].
  unfold tbs_fields in Hb. fit Hb.
Qed.

Lemma tbs_fields_ok f trailing :
  bytes_ok (cert_encode f ++ trailing) -> bytes_ok (cf_key f) /\ bytes_ok (cf_tail f).
Proof.
  intros [Hok%bytes_ok_tlv_encode _]%bytes_ok_app. apply bytes_ok_app in Hok as [Hok%bytes_ok_tlv_encode _].
  apply bytes_ok_app in Hok as [_ Hok]. unfold tbs_fields, spki_encode in Hok. rewrite !bytes_ok_app in Hok.
  destruct Hok as (_ & _ & _ & _ & _ & Hs%bytes_ok_tlv_encode & Ht). split; [| done].
  apply bytes_ok_app in Hs as [_ Hs%bytes_ok_tlv_encode]. by apply Forall_cons in Hs as [_ Hs].
Qed.

Lemma expected_version : read_expected version_3 TAG_INTEGER = Ok (tlv_of TAG_INTEGER [X509_V3] []).
Proof. by apply expected_encode_all; [| apply tlv_fits_short]. Qed.

(** All of it is accepted. *)
Lemma der_parse_complete d v : bytes_ok d -> blen d <= usize_max -> accepted d v -> der_parse ft rf d = Ok v.
Proof.
  intros Hok Hmax [f kind san trailing -> Hb Hk Hs Hv].
  destruct (tbs_fields_ok f trailing Hok) as [Hkey _].
  apply tlv_fits_of in Hmax; [| done]. destruct (cert_fields_fit f Hmax).
  unfold der_parse, cert_encode. rewrite expected_encode by done. run. tlv_fields.
  unfold cert_body. unfold tbs_encode at 1 2. rewrite take_encode by done. run. tlv_fields. rewrite full_tlv_encode. run. fold (tbs_encode f).
  rewrite (take_encode _ (cf_alg f)) by done. run. tlv_fields. rewrite full_tlv_encode. run.
  rewrite <- (app_nil_r (tlv_encode TAG_BIT_STRING (0 :: cf_sig f))), bit_string_encode by done. run.
  rewrite peek_encode. run. rewrite (take_encode _ version_3) by (done || by apply tlv_fits_short). run. tlv_fields.
  rewrite expected_version. run. tlv_fields. change (at_idx [X509_V3] 0) with (Some X509_V3). run.
  change (blen [X509_V3] =? 1) with true. rewrite !Z.eqb_refl. cbn [negb blen length Z.of_nat Z.eqb]. unfold take_expected.
  unfold tbs_fields. do 2 (rewrite expected_encode by done; run; tlv_fields). rewrite full_tlv_encode. run.
  rewrite bool_decide_true by done. cbn [negb]. do 2 (rewrite expected_encode by done; run; tlv_fields). rewrite full_tlv_encode. run.
  unfold spki_encode. do 2 (rewrite expected_encode by done; run; tlv_fields).
  rewrite take_encode by done. run. tlv_fields. rewrite full_tlv_encode. run.
  rewrite <- (app_nil_r (tlv_encode TAG_BIT_STRING _)), bit_string_encode by done. run.
  change (blen [] =? 0) with true. cbn [negb].
  unfold walk_extensions_for_san. rewrite (walk_san_complete _ _ san) by (done || lia). run.
  rewrite (classify_spki_encode ft _ kind) by done. run. by apply view_of_complete.
Qed.

(** ** The other two walks reach the same fields *)
Lemma tbs_after_version_encode f trailing :
  tlv_fits (cert_body f) -> tbs_after_version (cert_encode f ++ trailing) = Ok (tbs_fields f).
Proof.
  intros Hf. destruct (cert_fields_fit f Hf). unfold tbs_after_version, cert_encode.
  rewrite expected_encode by done. run. tlv_fields. unfold cert_body, tbs_encode. rewrite take_encode by done. run. tlv_fields.
  rewrite peek_encode. run. rewrite take_encode by (done || by apply tlv_fits_short). run. tlv_fields. by rewrite !Z.eqb_refl.
Qed.

Lemma spki_der_encode f trailing :
  tlv_fits (cert_body f) -> der_spki_der (cert_encode f ++ trailing) = Ok (spki_encode f).
Proof.
  intros Hf. destruct (cert_fields_fit f Hf). unfold der_spki_der. rewrite tbs_after_version_encode by done. run.
  unfold tbs_fields. cbn [skip_tlvs]. do 5 (rewrite take_encode by done; run; tlv_fields).
  unfold spki_encode. rewrite take_encode by done. run. by rewrite full_tlv_encode.
Qed.

Lemma extensions_slice_encode f trailing :
  tlv_fits (cert_body f) -> extensions_slice (cert_encode f ++ trailing) = Ok (cf_tail f).
Proof.
  intros Hf. destruct (cert_fields_fit f Hf). unfold extensions_slice. rewrite tbs_after_version_encode by done. run.
  unfold tbs_fields, spki_encode. cbn [skip_tlvs]. by do 6 (rewrite take_encode by done; run; tlv_fields).
Qed.
End cert.

(** ** CA constraints *)

(** The extensions of a certificate, none without the block. *)
Inductive tail_extensions (tail : bytes) : list Extension -> Prop :=
| tx_none : tail_exts tail None -> tail_extensions tail []
| tx_some exts es : tail_exts tail (Some exts) -> ext_seq exts es [] -> tail_extensions tail es.

(** What the values of basicConstraints and keyUsage say. *)
Definition bc_ca (value : bytes) : Prop :=
  exists b more, value = tlv_encode TAG_SEQUENCE (tlv_encode TAG_BOOLEAN b ++ more) /\ flag_of b = true.
Definition bc_path (value : bytes) (n : Z) : Prop :=
  exists flag raw more, value = tlv_encode TAG_SEQUENCE (flag ++ tlv_encode TAG_INTEGER raw ++ more) /\
    (flag = [] \/ exists b, flag = tlv_encode TAG_BOOLEAN b) /\ n = from_be raw /\ is_u32 n.
Definition ku_cert_sign (value : bytes) (k : bool) : Prop :=
  exists bits, value = tlv_encode TAG_BIT_STRING bits /\
    k = match bits !! 1%nat with Some b => Z.testbit b 2 | None => false end.

Record carried (es : list Extension) (c : CaConstraints) : Prop := {
  carried_critical e : e ∈ es -> ext_critical e = true -> ext_oid e = BASIC_CONSTRAINTS_OID \/ ext_oid e = KEY_USAGE_OID;
  carried_ca : is_ca c = true -> exists e, e ∈ es /\ ext_oid e = BASIC_CONSTRAINTS_OID /\ bc_ca (ext_value e);
  carried_path n : path_len c = Some n -> exists e, e ∈ es /\ ext_oid e = BASIC_CONSTRAINTS_OID /\ bc_path (ext_value e) n;
  carried_sign k : key_cert_sign c = Some k -> exists e, e ∈ es /\ ext_oid e = KEY_USAGE_OID /\ ku_cert_sign (ext_value e) k;
  carried_no_usage : key_cert_sign c = None -> KEY_USAGE_OID ∉ ext_oid <$> es
}.

Section ca.
Context `{Usize}.

Lemma int_to_u32_spec raw : bytes_ok raw -> ensures (int_to_u32 raw) (fun n => n = from_be raw /\ is_u32 n).
Proof.
  intros Hok. unfold int_to_u32. case_match; [done |].
  set (sig := match raw with 0 :: rest => rest | _ => raw end).
  assert (bytes_ok sig /\ from_be sig = from_be raw) as [Hs Hv].
  { unfold sig. destruct raw as [| [| |] raw]; try done. apply Forall_cons in Hok as [_ Hok]. done. }
  destruct (Z.ltb_spec 4 (blen sig)); [done |]. cbn. rewrite u32_fold_from_be by done. split; [done |].
  pose proof (from_be_bound sig Hs) as Hb. unfold is_u32. 
  assert (256 ^ blen sig <= 256 ^ 4) by (apply Z.pow_le_mono_r; lia). unfold U32. lia.
Qed.

Lemma basic_constraints_spec value out :
  bytes_ok value -> ensures (parse_basic_constraints value out) (fun c =>
    key_cert_sign c = key_cert_sign out /\
    (is_ca c = is_ca out \/ (is_ca c = true -> bc_ca value)) /\
    (path_len c = path_len out \/ exists n, path_len c = Some n /\ bc_path value n)).
Proof.
  intros Hok. unfold parse_basic_constraints. tlv_next. empty_rest rest.
  eapply (ensures_bind _ _ (fun '(o, r) => exists flag, body = flag ++ r /\ bytes_ok r /\
    key_cert_sign o = key_cert_sign out /\ path_len o = path_len out /\
    ((flag = [] /\ is_ca o = is_ca out) \/ exists b, flag = tlv_encode TAG_BOOLEAN b /\ is_ca o = flag_of b))).
  { destruct (head body) as [tg |] eqn:Hhd; [| exists []; naive_solver].
    destruct (Z.eqb_spec tg TAG_BOOLEAN) as [-> |]; [| exists []; naive_solver].
    tlv_next. apply head_encode in Hhd as ->. cbn. exists (tlv_encode TAG_BOOLEAN body0). naive_solver. }
  intros [o r] (flag & -> & Hr & Hk & Hp & Hf).
  assert (is_ca o = is_ca out \/ (is_ca o = true -> bc_ca (tlv_encode TAG_SEQUENCE (flag ++ r)))) as Hca.
  { destruct Hf as [[_ ?] | (b & -> & Hb)]; [by left | right]. rewrite Hb. by exists b, r. }
  destruct (head r) as [tg |] eqn:Hhd; [| by naive_solver].
  destruct (Z.eqb_spec tg TAG_INTEGER) as [-> |]; [| by naive_solver].
  tlv_next. apply head_encode in Hhd as ->. eapply ensures_bind; [by apply int_to_u32_spec |]. intros n [-> Hn]. cbn.
  split_and!; [done | by destruct Hca; auto | right]. eexists. split; [done |].
  exists flag, body, rest. split_and!; [done | | done | done]. naive_solver.
Qed.

Lemma land_4_testbit b : is_u8 b -> negb (Z.land b 0x04 =? 0) = Z.testbit b 2.
Proof.
  intros Hb. pose proof (byte_forall (fun b => eqb (negb (Z.land b 0x04 =? 0)) (Z.testbit b 2)) b eq_refl Hb) as He.
  by apply eqb_prop in He.
Qed.

Lemma key_usage_spec value : bytes_ok value -> ensures (key_usage_cert_sign value) (ku_cert_sign value).
Proof.
  intros Hok. unfold key_usage_cert_sign. tlv_next. empty_rest rest. cbn. exists body. split; [done |].
  unfold at_idx. change (0 <=? 1) with true. change (Z.to_nat 1) with 1%nat. cbn [negb].
  destruct (body !! 1%nat) as [b |] eqn:Hb; [| done]. apply land_4_testbit.
  by eapply Forall_lookup_1 in Hb.
Qed.

Lemma carried_nil : carried [] CaConstraints_default.
Proof. constructor; cbn; set_solver. Qed.

Lemma more_exts (P : Extension -> Prop) es e : (exists x, x ∈ es /\ P x) -> exists x, x ∈ es ++ [e] /\ P x.
Proof. intros (x & ? & ?). exists x. by rewrite elem_of_app; auto. Qed.

Lemma ca_step_spec es e c :
  bytes_ok (ext_value e) -> carried es c -> ensures (ca_step e c) (carried (es ++ [e])).
Proof.
  intros Hok [H1 H2 H3 H4 H5]. unfold ca_step.
  destruct (bool_decide_reflect (ext_oid e = BASIC_CONSTRAINTS_OID)) as [Hb | Hb].
  { eapply ensures_weaken; [by apply basic_constraints_spec |]. intros c' (Hk & Hca & Hp).
    constructor; try rewrite Hk; rewrite ?fmap_app; set_unfold; [naive_solver | | | naive_solver |].
    - intros Ht. destruct Hca as [Hca | Hca]; [rewrite Hca in Ht |]; naive_solver.
    - intros n Hn. destruct Hp as [Hp | (m & Hm & Hv)]; [rewrite Hp in Hn |]; naive_solver.
    - intros Hn [Hx | (x & Hx & [-> | []])]; [by apply H5 in Hn | by rewrite Hb in Hx]. }
  destruct (bool_decide_reflect (ext_oid e = KEY_USAGE_OID)) as [Hu | Hu].
  { eapply ensures_bind; [by apply key_usage_spec |]. intros k Hk. cbn.
    constructor; cbn; set_unfold; naive_solver. }
  destruct (ext_critical e) eqn:Hc; [done |]. constructor.
  - intros x [? | ->%list_elem_of_singleton]%elem_of_app Hx; [by apply H1 | congruence].
  - intros Ht. by apply more_exts, H2.
  - intros n Hn. by apply more_exts, H3.
  - intros k Hk. by apply more_exts, H4.
  - intros Hn. rewrite fmap_app. set_solver by naive_solver.
Qed.

Lemma ca_loop_spec fuel exts seen c :
  (length exts < fuel)%nat -> bytes_ok exts -> carried seen c ->
  ensures (ca_loop fuel exts c) (fun c' => exists es, ext_seq exts es [] /\ carried (seen ++ es) c').
Proof.
  revert exts seen c. induction fuel as [| fuel IH]; intros exts seen c Hl Hok Hc; [lia |]. cbn [ca_loop].
  destruct (Z.eqb_spec (blen exts) 0) as [->%blen_zero_nil | _].
  { exists []. rewrite app_nil_r. split; [constructor | done]. }
  eapply ensures_bind; [by apply take_extension_spec |]. intros [e rest] (body & He & Hb & Hbo & Hr & ->).
  eapply ensures_bind; [apply ca_step_spec; [by apply (ext_enc_value e body) | done] |]. intros c1 Hc1.
  eapply ensures_weaken; [apply IH; [pose proof (tlv_encode_length TAG_SEQUENCE body rest); lia | done | done] |].
  intros c' (es & Hes & Hc'). exists (e :: es). rewrite <- app_assoc in Hc'. split; [by apply es_more | done].
Qed.

Lemma walk_ca_spec fuel tail :
  (length tail < fuel)%nat -> bytes_ok tail ->
  ensures (walk_ca fuel tail) (fun c => exists es, tail_extensions tail es /\ carried es c).
Proof.
  revert tail. induction fuel as [| fuel IH]; intros tail Hl Hok; [lia |]. cbn [walk_ca].
  destruct (Z.eqb_spec (blen tail) 0) as [->%blen_zero_nil | _].
  { exists []. split; [by apply tx_none, te_end | apply carried_nil]. }
  eapply ensures_bind; [apply peek_tag_spec |]. intros tg Hhd. cbv beta in Hhd.
  destruct (Z.eqb_spec tg (tag_ctx_constructed 3)) as [-> | Htg]; tlv_next; apply head_encode in Hhd as ->.
  - tlv_next. eapply ensures_weaken; [by apply (ca_loop_spec _ _ []); [lia | | apply carried_nil] |].
    intros c (es & Hes & Hc). exists es. split; [| done]. eapply tx_some; [by apply te_exts | done].
  - eapply ensures_weaken; [apply IH; [pose proof (tlv_encode_length tg body rest); lia | done] |].
    intros c (es & Hes & Hc). exists es. split; [| done].
    destruct Hes as [Ht | exts es Ht Hs]; [apply tx_none | eapply tx_some; [| done]]; by apply te_skip.
Qed.

(** The fields before the key are only skipped. *)
Lemma skip_tlvs_spec n buf : bytes_ok buf -> ensures (skip_tlvs n buf) bytes_ok.
Proof. revert buf. induction n as [| n IH]; intros buf Hok; cbn [skip_tlvs]; [done |]. tlv_next. by apply IH. Qed.

Lemma tbs_after_version_spec d : bytes_ok d -> ensures (tbs_after_version d) bytes_ok.
Proof.
  intros Hok. unfold tbs_after_version. do 3 tlv_next. eapply ensures_bind; [apply peek_tag_spec |]. intros tg Hhd.
  case_match; [by tlv_next | done].
Qed.

Lemma extensions_slice_spec d : bytes_ok d -> ensures (extensions_slice d) bytes_ok.
Proof.
  intros Hok. unfold extensions_slice. eapply ensures_bind; [by apply tbs_after_version_spec |].
  intros r Hr. by apply skip_tlvs_spec.
Qed.

Lemma der_parse_ca_spec d :
  bytes_ok d -> ensures (der_parse_ca_constraints d) (fun c =>
    exists tail es, extensions_slice d = Ok tail /\ tail_extensions tail es /\ carried es c).
Proof.
  intros Hok. unfold der_parse_ca_constraints. pose proof (extensions_slice_spec d Hok) as Hs.
  destruct (extensions_slice d) as [tail | |]; [run | done..].
  eapply ensures_weaken; [by apply walk_ca_spec; [lia |] |]. intros c (es & ? & ?). by exists tail, es.
Qed.

Lemma der_spki_total d : bytes_ok d -> no_panic (der_spki_der d).
Proof.
  intros Hok. apply (ensures_no_panic _ (fun _ => True)). unfold der_spki_der.
  eapply ensures_bind; [by apply tbs_after_version_spec |]. intros r Hr.
  eapply ensures_bind; [by apply skip_tlvs_spec |]. intros r' Hr'. cbv beta in Hr'. tlv_next. by rewrite full_tlv_encode.
Qed.
End ca.

(** ** The parser as the interface of the trust strategies *)

(** A slice borrowed from another. *)
Definition borrowed (s d : bytes) : Prop := blen s <= blen d /\ (bytes_ok d -> bytes_ok s).

Lemma borrowed_trans a b c : borrowed a b -> borrowed b c -> borrowed a c.
Proof. intros [? ?] [? ?]. split; [lia | auto]. Qed.

Lemma borrowed_body tag body rest : borrowed body (tlv_encode tag body ++ rest).
Proof.
  split; [rewrite blen_app, blen_tlv_encode; blen_pos; lia |].
  intros [Hok _]%bytes_ok_app. by apply bytes_ok_tlv_encode in Hok.
Qed.

Lemma borrowed_app_r a b : borrowed b (a ++ b).
Proof. split; [rewrite blen_app; blen_pos; lia | by intros [_ ?]%bytes_ok_app]. Qed.

Lemma borrowed_app_l a b : borrowed a (a ++ b).
Proof. split; [rewrite blen_app; blen_pos; lia | by intros [? _]%bytes_ok_app]. Qed.

Lemma ext_seq_borrowed buf es rest e : ext_seq buf es rest -> e ∈ es -> borrowed (ext_value e) buf.
Proof.
  induction 1 as [| e' body buf es rest He Hb Hs IH]; [by intros ?%elem_of_nil |].
  intros [-> | Hin]%elem_of_cons.
  - eapply borrowed_trans; [by apply ext_enc_value | apply borrowed_body].
  - eapply borrowed_trans; [by apply IH | apply borrowed_app_r].
Qed.

Lemma exts_san_borrowed exts names : exts_san exts (Some names) -> borrowed names exts.
Proof.
  inversion 1 as [| es e rest ? more Hs _ _ Hv _]; subst. eapply borrowed_trans; [| eapply ext_seq_borrowed; [done |]; rewrite elem_of_app, list_elem_of_singleton; by right].
  rewrite Hv. apply borrowed_body.
Qed.

Lemma tail_exts_borrowed tail o exts : tail_exts tail o -> o = Some exts -> borrowed exts tail.
Proof.
  induction 1 as [| tag body tail o ??? _ IH | exts' more tail ??]; intros Ho.
  - done.
  - eapply borrowed_trans; [by apply IH | apply borrowed_app_r].
  - injection Ho as ->. eapply borrowed_trans; [| apply borrowed_body]. apply borrowed_body.
Qed.

Lemma tail_san_borrowed tail names : tail_san tail (Some names) -> borrowed names tail.
Proof.
  inversion 1 as [| exts san Ht Hs]; subst. eapply borrowed_trans; [by apply exts_san_borrowed | by eapply tail_exts_borrowed].
Qed.

Lemma cf_tail_borrowed f trailing : borrowed (cf_tail f) (cert_encode f ++ trailing).
Proof.
  eapply borrowed_trans; [| apply borrowed_body]. unfold cert_body. eapply borrowed_trans; [| apply borrowed_app_l].
  unfold tbs_encode. rewrite <- (app_nil_r (tlv_encode TAG_SEQUENCE _)). eapply borrowed_trans; [| apply borrowed_body].
  unfold tbs_fields. rewrite !app_assoc. apply borrowed_app_r.
Qed.

Lemma view_facts rf ft f san kind v : cert_view ft rf f san kind v -> view_ok v /\ cv_san v = san /\ cv_tbs v = tbs_encode f /\ cv_signature v = cf_sig f.
Proof. by intros []. Qed.

Section instance.
Context `{Usize, MlDsaKeySizes} (ft : Features) (rf : RsaFeatures).

Lemma accepted_san d v san : bytes_ok d -> accepted ft rf d v -> cv_san v = Some san -> bytes_ok san /\ blen san <= blen d.
Proof.
  intros Hok [f kind o trailing -> Hb Hk Hs Hv] Hsan. apply view_facts in Hv as (_ & Ho & _). rewrite Hsan in Ho. subst o.
  destruct (borrowed_trans _ _ _ (tail_san_borrowed _ _ Hs) (cf_tail_borrowed f trailing)). auto.
Qed.

Lemma der_parse_inv d v : bytes_ok d -> der_parse ft rf d = Ok v -> accepted ft rf d v.
Proof. intros Hok Hp. pose proof (der_parse_spec ft rf d Hok) as Hs. by rewrite Hp in Hs. Qed.

Lemma accepted_bytes d v : bytes_ok d -> accepted ft rf d v -> view_bytes_ok v.
Proof.
  intros Hok [f kind o trailing -> Hb Hk Hs Hv]. apply view_facts in Hv as (_ & _ & Ht & Hsig). unfold view_bytes_ok. rewrite Ht, Hsig.
  apply bytes_ok_app in Hok as [Hok%bytes_ok_tlv_encode _]. apply bytes_ok_app in Hok as [? Hok]. split; [done |].
  apply bytes_ok_app in Hok as [_ Hok%bytes_ok_tlv_encode]. by apply Forall_cons in Hok as [_ ?].
Qed.

Lemma view_of_ok kind tbs sig pk alg san validity v : view_of ft rf kind tbs sig pk alg san validity = Ok v -> view_ok v.
Proof.
  destruct kind; cbn [view_of].
  - destruct (Z.eqb_spec (blen pk) 32), (Z.eqb_spec (blen sig) 64); cbn; try done. by intros [= <-].
  - intros ([n e] & _ & Hv)%bind_Ok_inv. by apply bind_Ok_inv in Hv as (o & _ & [= <-]).
  - case_match; [done |]. by intros [= <-].
  - intros (u & _ & Hv)%bind_Ok_inv. by apply bind_Ok_inv in Hv as (o & _ & [= <-]).
  - intros (u & _ & Hv)%bind_Ok_inv. by apply bind_Ok_inv in Hv as (o & _ & [= <-]).
Qed.

Lemma der_parse_view_ok d v : der_parse ft rf d = Ok v -> view_ok v.
Proof.
  unfold der_parse. intros Hp.
  repeat first
    [ apply bind_Ok_inv in Hp as ([? ?] & _ & Hp) | apply bind_Ok_inv in Hp as (? & _ & Hp)
    | cbv zeta in Hp; match type of Hp with (if ?c then _ else _) = _ => destruct c; [done |] end ].
  by eapply view_of_ok.
Qed.

#[local] Instance tlv_cert_parser : CertParser := {|
  parse := der_parse ft rf;
  parse_ca_constraints := der_parse_ca_constraints;
  spki_der := der_spki_der;
  parse_view_ok := der_parse_view_ok;
  parse_san d v san Hok Hp := accepted_san d v san Hok (der_parse_inv d v Hok Hp);
  parse_bytes d v Hok Hp := accepted_bytes d v Hok (der_parse_inv d v Hok Hp);
  parse_total d Hok := ensures_no_panic _ _ (der_parse_spec ft rf d Hok);
  parse_ca_total d Hok := ensures_no_panic _ _ (der_parse_ca_spec d Hok);
  spki_total d Hok := der_spki_total d Hok
|}.
End instance.

(** C12. The parser never panics on a slice, and accepts exactly the certificates of the grammar:
    version 3, DER lengths throughout, the outer algorithm repeated in the TBS, a key of a
    compiled-in algorithm with its parameters and sizes, the first SubjectAltName of the
    first extension block. *)
Theorem tlv_parse_exact `{Usize, MlDsaKeySizes} (ft : Features) (rf : RsaFeatures) (d : bytes) :
  bytes_ok d -> blen d <= usize_max ->
  no_panic (der_parse ft rf d) /\ forall v, der_parse ft rf d = Ok v <-> accepted ft rf d v.
Proof.
  intros Hok Hmax. split; [by eapply ensures_no_panic, der_parse_spec |].
  intros v. split; [by apply der_parse_inv | by apply der_parse_complete].
Qed.

(** C13. The three walks read one certificate: the key [parse] returns is the one inside the
    [spki_der] slice that a root ledger compares, and the extensions that
    [parse_ca_constraints] reads are those [parse] takes the SubjectAltName from. *)
Theorem tlv_walks_agree `{Usize, MlDsaKeySizes} (ft : Features) (rf : RsaFeatures) (d : bytes) (v : CertView) :
  bytes_ok d -> blen d <= usize_max -> der_parse ft rf d = Ok v ->
  exists f kind, cv_tbs v = tbs_encode f /\ cv_signature v = cf_sig f /\
    spki_alg ft (cf_spki_alg f) kind /\ cert_view ft rf f (cv_san v) kind v /\
    der_spki_der d = Ok (spki_encode f) /\
    extensions_slice d = Ok (cf_tail f) /\ tail_san (cf_tail f) (cv_san v).
Proof.
  intros Hok Hmax [f kind san trailing -> Hb Hk Hs Hv]%der_parse_inv; [| done].
  apply tlv_fits_of in Hmax; [| done]. pose proof (view_facts _ _ _ _ _ _ Hv) as (_ & -> & ? & ?).
  exists f, kind. by rewrite spki_der_encode, extensions_slice_encode.
Qed.

(** C14. What [parse_ca_constraints] returns is in the certificate's extensions: a CA bit comes
    from a basicConstraints extension that has it, a path length is its INTEGER, the key
    usage is the keyUsage extension's bit and is absent only without that extension; a
    critical extension of another kind is refused. It never panics. *)
Theorem tlv_ca_sound `{Usize} (d : bytes) :
  bytes_ok d -> no_panic (der_parse_ca_constraints d) /\
  forall c, der_parse_ca_constraints d = Ok c ->
    exists tail es, extensions_slice d = Ok tail /\ tail_extensions tail es /\ carried es c.
Proof.
  intros Hok. pose proof (der_parse_ca_spec d Hok) as Hs. split; [by eapply ensures_no_panic |].
  intros c Hc. by rewrite Hc in Hs.
Qed.

(** ** A certificate *)
Definition demo_exts : bytes :=
  tlv_encode TAG_SEQUENCE (tlv_encode TAG_OID BASIC_CONSTRAINTS_OID ++ tlv_encode TAG_BOOLEAN [255] ++
    tlv_encode TAG_OCTET_STRING (tlv_encode TAG_SEQUENCE (tlv_encode TAG_BOOLEAN [255] ++ tlv_encode TAG_INTEGER [1]))) ++
  tlv_encode TAG_SEQUENCE (tlv_encode TAG_OID KEY_USAGE_OID ++ tlv_encode TAG_OCTET_STRING (tlv_encode TAG_BIT_STRING [2; 4])) ++
  tlv_encode TAG_SEQUENCE (tlv_encode TAG_OID SAN_OID ++
    tlv_encode TAG_OCTET_STRING (tlv_encode TAG_SEQUENCE (tlv_encode (tag_ctx_primitive 2) [97; 46; 98]))).
Definition demo_fields : CertFields := {|
  cf_serial := [7]; cf_alg := tlv_encode TAG_OID ED25519_OID; cf_issuer := []; cf_validity := zeros 4; cf_subject := [];
  cf_spki_alg := tlv_encode TAG_OID ED25519_OID; cf_key := zeros 32;
  cf_tail := tlv_encode (tag_ctx_constructed 3) (tlv_encode TAG_SEQUENCE demo_exts); cf_sig := zeros 64
|}.
Definition demo_ml_dsa_sizes : MlDsaKeySizes :=
  {| ml_dsa_44_PK_BYTES := 1312; ml_dsa_65_PK_BYTES := 1952; ml_dsa_87_PK_BYTES := 2592 |}.
Definition demo_rsa_features : RsaFeatures := {| f_rsa_pss_only := false; f_rsa_1024 := false; f_rsa_3072 := true; f_rsa_4096 := true |}.
Definition demo_view : CertView :=
  CvEd25519 (tbs_encode demo_fields) (zeros 64) (zeros 32) (Some (tlv_encode (tag_ctx_primitive 2) [97; 46; 98])) (tlv_encode TAG_SEQUENCE (zeros 4)).
Definition demo_cert : bytes := cert_encode demo_fields ++ [9].

Lemma demo_cert_ok : bytes_ok demo_cert /\ blen demo_cert <= @usize_max usize32.
Proof. split; [by apply bytes_okb_sound | by apply Z.leb_le]. Qed.

Lemma tlv_parse_exact_witness : @accepted demo_ml_dsa_sizes demo_features demo_rsa_features demo_cert demo_view.
Proof.
  apply (proj2 (@tlv_parse_exact usize32 demo_ml_dsa_sizes demo_features demo_rsa_features demo_cert (proj1 demo_cert_ok) (proj2 demo_cert_ok))).
  vm_compute. reflexivity.
Defined.

Lemma tlv_walks_agree_witness : exists f kind,
  cv_tbs demo_view = tbs_encode f /\ cv_signature demo_view = cf_sig f /\
  @spki_alg demo_ml_dsa_sizes demo_features (cf_spki_alg f) kind /\ @cert_view demo_features demo_rsa_features f (cv_san demo_view) kind demo_view /\
  @der_spki_der usize32 demo_cert = Ok (spki_encode f) /\
  @extensions_slice usize32 demo_cert = Ok (cf_tail f) /\ tail_san (cf_tail f) (cv_san demo_view).
Proof.
  apply (@tlv_walks_agree usize32 demo_ml_dsa_sizes demo_features demo_rsa_features demo_cert demo_view (proj1 demo_cert_ok) (proj2 demo_cert_ok)).
  vm_compute. reflexivity.
Defined.

Lemma tlv_ca_sound_witness :
  @der_parse_ca_constraints usize32 demo_cert = Ok {| is_ca := true; path_len := Some 1; key_cert_sign := Some true |} /\
  exists tail es, @extensions_slice usize32 demo_cert = Ok tail /\ tail_extensions tail es /\
    carried es {| is_ca := true; path_len := Some 1; key_cert_sign := Some true |}.
Proof.
  split; [vm_compute; reflexivity |].
  apply (proj2 (@tlv_ca_sound usize32 demo_cert (proj1 demo_cert_ok))). vm_compute. reflexivity.
Defined.
