(* ===== verification/ServerFlight.v ===== *)
(** * [server_flight.rs]: the encrypted server flight

    EncryptedExtensions, the optional CertificateRequest, Certificate,
    CertificateVerify and Finished: framing, extraction of the chain and of the
    client-auth request, and the verification that advances the transcript. *)
From stdpp Require Import strings.
From S2P Require Import Prelude Deps Consts Hkdf Cert.

Record ServerFlightView := {
  sf_ee_full : bytes; sf_ee_body : bytes;
  sf_cert_request_full : option bytes;
  sf_cert_full : bytes; sf_cert_body : bytes;
  sf_cv_full : bytes; sf_cv_body : bytes;
  sf_fin_full : bytes; sf_fin_body : bytes
}.

Inductive FlightError :=
| FlTruncated | FlTrailingBytes
| FlUnexpectedHandshakeType (expected got : Z)
| FlBadCert (e : CertParseError)
| FlCertSelfSignatureInvalid
| FlUnexpectedSignatureScheme (scheme : Z)
| FlWrongSignatureLength | FlCertVerifyInvalid
| FlFinishedWrongLength | FlFinishedMacInvalid
| FlHkdfLabel (e : HkdfLabelError)
| FlTranscript (e : TranscriptError)
| FlInternalEncoding
| FlDuplicateExtension (ext_type : Z)
| FlCertChainTooLong.

(** The sizes of ML-DSA signatures, from the [krabipqc] crate. *)
Class MlDsaSizes := {
  ml_dsa_44_SIG_BYTES : Z; ml_dsa_65_SIG_BYTES : Z; ml_dsa_87_SIG_BYTES : Z
}.
Definition ml_dsa_model : MlDsaSizes :=
  {| ml_dsa_44_SIG_BYTES := 2420; ml_dsa_65_SIG_BYTES := 3309; ml_dsa_87_SIG_BYTES := 4627 |}.

(** [usize::try_from] on a [u32]. *)
Definition usize_try_from `{Usize} (x : Z) : option Z := if x <=? usize_max then Some x else None.

(** ** [HsReader] *)

Record HsReader := { hr_buf : bytes; hr_pos : Z }.

Definition HsReader_new (buf : bytes) : HsReader := {| hr_buf := buf; hr_pos := 0 |}.
Definition at_end (r : HsReader) : bool := hr_pos r =? blen (hr_buf r).

Section parse.
Context `{Usize}.

(** Type, body, framed message, and the reader after it. *)
Definition next_msg (r : HsReader) : outcome FlightError (Z * bytes * bytes * HsReader) :=
  let '{| hr_buf := buf; hr_pos := pos |} := r in
  if blen buf <? pos + 4 then Err FlTruncated else
  msg_type ← or_panic (at_idx buf pos);
  l1 ← or_panic (at_idx buf (pos + 1));
  l2 ← or_panic (at_idx buf (pos + 2));
  l3 ← or_panic (at_idx buf (pos + 3));
  len ← ok_or (usize_try_from (be24 l1 l2 l3)) FlTruncated;
  if blen buf - pos - 4 <? len then Err FlTruncated else
  let body_start := pos + 4 in
  let body_end := body_start + len in
  body ← or_panic (slice buf body_start body_end);
  full ← or_panic (slice buf pos body_end);
  Ok (msg_type, body, full, {| hr_buf := buf; hr_pos := body_end |}).

Definition expect_type (expected got : Z) : outcome FlightError unit :=
  if negb (got =? expected) then Err (FlUnexpectedHandshakeType expected got) else Ok tt.

Definition parse_server_flight (content : bytes) : outcome FlightError ServerFlightView :=
  '(ee_type, ee_body, ee_full, r) ← next_msg (HsReader_new content);
  _ ← expect_type HS_ENCRYPTED_EXTENSIONS ee_type;
  '(next_type, next_body, next_full, r) ← next_msg r;
  '(cert_request_full, (cert_type, cert_body, cert_full, r)) ←
    (if next_type =? HS_CERTIFICATE_REQUEST
     then m ← next_msg r; Ok (Some next_full, m)
     else Ok (None, (next_type, next_body, next_full, r)));
  _ ← expect_type HS_CERTIFICATE cert_type;
  '(cv_type, cv_body, cv_full, r) ← next_msg r;
  _ ← expect_type HS_CERTIFICATE_VERIFY cv_type;
  '(fin_type, fin_body, fin_full, r) ← next_msg r;
  _ ← expect_type HS_FINISHED fin_type;
  if negb (at_end r) then Err FlTrailingBytes else
  Ok {| sf_ee_full := ee_full; sf_ee_body := ee_body; sf_cert_request_full := cert_request_full;
        sf_cert_full := cert_full; sf_cert_body := cert_body;
        sf_cv_full := cv_full; sf_cv_body := cv_body;
        sf_fin_full := fin_full; sf_fin_body := fin_body |}.

(** ** CertificateRequest *)

(** The [certificate_request_context] and the extensions. *)
Definition cert_request_parts (creq_full : bytes) : outcome FlightError (bytes * bytes) :=
  if negb (bool_decide (head creq_full = Some HS_CERTIFICATE_REQUEST))
  then Err (FlUnexpectedHandshakeType HS_CERTIFICATE_REQUEST (default 0 (head creq_full))) else
  body ← ok_or (slice_from creq_full 4) FlTruncated;
  ctx_len ← ok_or (head body) FlTruncated;
  let ctx_end := 1 + ctx_len in
  ctx ← ok_or (slice body 1 ctx_end) FlTruncated;
  ext_len_bytes ← ok_or (slice body ctx_end (ctx_end + 2)) FlTruncated;
  e0 ← or_panic (at_idx ext_len_bytes 0);
  e1 ← or_panic (at_idx ext_len_bytes 1);
  let ext_len := be16 e0 e1 in
  let exts_start := ctx_end + 2 in
  let remaining := blen body - exts_start in
  if remaining <? ext_len then Err FlTruncated else
  if ext_len <? remaining then Err FlTrailingBytes else
  exts ← or_panic (slice_from body exts_start);
  Ok (ctx, exts).

Definition certificate_request_context (creq_full : bytes) : outcome FlightError bytes :=
  '(ctx, _) ← cert_request_parts creq_full; Ok ctx.

(** The scheme list inside the [signature_algorithms] extension. *)
Definition sig_algs_data (data : bytes) : outcome FlightError bytes :=
  llen_bytes ← ok_or (slice data 0 2) FlTruncated;
  l0 ← or_panic (at_idx llen_bytes 0);
  l1 ← or_panic (at_idx llen_bytes 1);
  let llen := be16 l0 l1 in
  if negb (llen =? blen data - 2) || (llen <? 2) || negb (Z.land llen 1 =? 0)
  then Err FlTruncated else
  or_panic (slice data 2 (2 + llen)).

(** The [while exts.len() - i >= 4] loop and what follows it. *)
Fixpoint sig_algs_loop (fuel : nat) (exts : bytes) (i : Z) : outcome FlightError bytes :=
  match fuel with
  | O => Panic
  | S fuel =>
      if 4 <=? blen exts - i then
        t0 ← or_panic (at_idx exts i);
        t1 ← or_panic (at_idx exts (i + 1));
        d0 ← or_panic (at_idx exts (i + 2));
        d1 ← or_panic (at_idx exts (i + 3));
        let etype := be16 t0 t1 in
        let dlen := be16 d0 d1 in
        let data_start := i + 4 in
        if blen exts - data_start <? dlen then Err FlTruncated else
        data ← or_panic (slice exts data_start (data_start + dlen));
        if etype =? EXT_SIGNATURE_ALGORITHMS then sig_algs_data data
        else sig_algs_loop fuel exts (data_start + dlen)
      else if negb (i =? blen exts) then Err FlTruncated else Ok []
  end.

Definition certificate_request_sig_algs (creq_full : bytes) : outcome FlightError bytes :=
  '(_, exts) ← cert_request_parts creq_full;
  sig_algs_loop (S (length exts)) exts 0.

(** ** The certificate chain *)

Definition read_u24 (b : bytes) : outcome FlightError Z :=
  b0 ← or_panic (at_idx b 0);
  b1 ← or_panic (at_idx b 1);
  b2 ← or_panic (at_idx b 2);
  Ok (be24 b0 b1 b2).

Fixpoint chain_loop `{HeaplessVec} (fuel : nat) (MAX : Z) (list_ : bytes) (pos : Z)
    (chain : list bytes) : outcome FlightError (list bytes) :=
  match fuel with
  | O => Panic
  | S fuel =>
      if negb (pos <? blen list_) then Ok chain else
      if blen list_ - pos <? 3 then Err FlTruncated else
      lb ← or_panic (slice list_ pos (pos + 3));
      len ← read_u24 lb;
      cert_data_len ← ok_or (usize_try_from len) FlTruncated;
      let cert_start := pos + 3 in
      if (blen list_ - cert_start <? cert_data_len)
         || (blen list_ - cert_start - cert_data_len <? 2)
      then Err FlTruncated else
      let cert_end := cert_start + cert_data_len in
      cert ← or_panic (slice list_ cert_start cert_end);
      chain ← ok_or (vec_push MAX chain cert) FlCertChainTooLong;
      e0 ← or_panic (at_idx list_ cert_end);
      e1 ← or_panic (at_idx list_ (cert_end + 1));
      let exts_len := be16 e0 e1 in
      if blen list_ - cert_end - 2 <? exts_len then Err FlTruncated else
      chain_loop fuel MAX list_ (cert_end + 2 + exts_len) chain
  end.

Definition extract_chain `{HeaplessVec} (MAX : Z) (cert_body : bytes)
    : outcome FlightError (list bytes) :=
  if blen cert_body =? 0 then Err FlTruncated else
  ctx_len ← or_panic (at_idx cert_body 0);
  let after_ctx := 1 + ctx_len in
  if blen cert_body <? after_ctx + 3 then Err FlTruncated else
  lb ← or_panic (slice cert_body after_ctx (after_ctx + 3));
  len ← read_u24 lb;
  list_len ← ok_or (usize_try_from len) FlTruncated;
  let list_start := after_ctx + 3 in
  if blen cert_body - list_start <? list_len then Err FlTruncated else
  list_ ← or_panic (slice cert_body list_start (list_start + list_len));
  chain_loop (S (length list_)) MAX list_ 0 [].
End parse.

(** ** Verification *)

Inductive ServerPubkey :=
| SpEd25519 (k : bytes) | SpRsa (modulus : bytes) (exponent : Z) | SpMlDsa (k : bytes)
| SpEcdsaP256 (k : bytes) | SpEcdsaP384 (k : bytes).

Definition CV_CTX : bytes := label "TLS 1.3, server CertificateVerify".
Definition SIGNED_LEN : Z := 64 + blen CV_CTX + 1 + 32.

Definition server_pubkey (leaf_view : CertView) : ServerPubkey :=
  match leaf_view with
  | CvEd25519 _ _ k _ _ => SpEd25519 k
  | CvRsa _ _ _ n e _ _ => SpRsa n e
  | CvMlDsa _ _ k _ _ => SpMlDsa k
  | CvEcdsaP256 _ _ k _ _ _ => SpEcdsaP256 k
  | CvEcdsaP384 _ _ k _ _ _ => SpEcdsaP384 k
  end.

Section verify.
Context `{Usize, HeaplessVec, HkdfSha256, SubtleCt, VerifierBackend, MlDsaSizes}.

(** The content signed by CertificateVerify, in its fixed-capacity buffer. *)
Definition cv_signed_content (th : bytes) : outcome FlightError bytes :=
  s ← ok_or (vec_extend SIGNED_LEN [] (replicate 64 0x20)) FlInternalEncoding;
  s ← ok_or (vec_extend SIGNED_LEN s CV_CTX) FlInternalEncoding;
  s ← ok_or (vec_extend SIGNED_LEN s [0]) FlInternalEncoding;
  ok_or (vec_extend SIGNED_LEN s th) FlInternalEncoding.

Definition ml_dsa_expected (scheme : Z) : Z :=
  if scheme =? SIG_SCHEME_MLDSA44 then ml_dsa_44_SIG_BYTES else
  if scheme =? SIG_SCHEME_MLDSA65 then ml_dsa_65_SIG_BYTES else ml_dsa_87_SIG_BYTES.

Definition is_mldsa_scheme (scheme : Z) : bool :=
  (scheme =? SIG_SCHEME_MLDSA44) || (scheme =? SIG_SCHEME_MLDSA65) || (scheme =? SIG_SCHEME_MLDSA87).

(** The [match (scheme, prepared)]. *)
Definition verify_cv_signature (scheme : Z) (prepared : PreparedVerifier) (signed sig_bytes : bytes)
    : outcome FlightError unit :=
  match prepared with
  | PvEd25519 v =>
      if scheme =? SIG_SCHEME_ED25519 then
        if negb (blen sig_bytes =? 64) then Err FlWrongSignatureLength
        else check (verify AlgEd25519 v signed sig_bytes) FlCertVerifyInvalid
      else Err (FlUnexpectedSignatureScheme scheme)
  | PvRsa v =>
      if scheme =? SIG_SCHEME_RSA_PSS_RSAE_SHA256 then
        check (verify AlgRsa v signed {| rs_scheme := PssSha256; rs_bytes := sig_bytes |})
          FlCertVerifyInvalid
      else Err (FlUnexpectedSignatureScheme scheme)
  | PvMlDsa v =>
      if is_mldsa_scheme scheme then
        if negb (blen sig_bytes =? ml_dsa_expected scheme)
        then Err (FlUnexpectedSignatureScheme scheme)
        else check (verify AlgMlDsa v signed sig_bytes) FlCertVerifyInvalid
      else Err (FlUnexpectedSignatureScheme scheme)
  | PvEcdsaP256 v =>
      if scheme =? SIG_SCHEME_ECDSA_P256
      then check (verify AlgEcdsaP256 v signed sig_bytes) FlCertVerifyInvalid
      else Err (FlUnexpectedSignatureScheme scheme)
  | PvEcdsaP384 v =>
      if scheme =? SIG_SCHEME_ECDSA_P384
      then check (verify AlgEcdsaP384 v signed sig_bytes) FlCertVerifyInvalid
      else Err (FlUnexpectedSignatureScheme scheme)
  end.

Definition verify_certificate_verify_with_prepared (prepared : PreparedVerifier) (th cv_body : bytes)
    : outcome FlightError unit :=
  if blen cv_body <? 4 then Err FlTruncated else
  b0 ← or_panic (at_idx cv_body 0);
  b1 ← or_panic (at_idx cv_body 1);
  b2 ← or_panic (at_idx cv_body 2);
  b3 ← or_panic (at_idx cv_body 3);
  let scheme := be16 b0 b1 in
  let sig_len := be16 b2 b3 in
  if negb (blen cv_body - 4 =? sig_len) then Err FlTrailingBytes else
  sig_bytes ← or_panic (slice_from cv_body 4);
  signed ← cv_signed_content th;
  verify_cv_signature scheme prepared signed sig_bytes.

Definition verify_server_finished (s_hs_traffic_secret th finished_body : bytes)
    : outcome FlightError unit :=
  if negb (blen finished_body =? 32) then Err FlFinishedWrongLength else
  finished_key ← map_err FlHkdfLabel (hkdf_expand_label s_hs_traffic_secret (label "finished") [] 32);
  expected ← map_err (fun e => FlHkdfLabel (HlBackend e)) (extract finished_key th);
  if ct_eq expected finished_body then Ok tt else Err FlFinishedMacInvalid.

(** [verify_server_flight]: the transcript afterwards and the server's key. *)
Definition verify_server_flight (transcript : TranscriptHash) (plaintext s_hs_traffic_secret : bytes)
    (prepared : PreparedVerifier) (leaf_view : CertView)
    : outcome FlightError (TranscriptHash * ServerPubkey) :=
  flight ← parse_server_flight plaintext;
  let transcript := transcript_update transcript (sf_ee_full flight) in
  let transcript := match sf_cert_request_full flight with
                    | Some creq => transcript_update transcript creq
                    | None => transcript
                    end in
  let transcript := transcript_update transcript (sf_cert_full flight) in
  th_after_cert ← map_err FlTranscript (transcript_snapshot transcript);
  _ ← verify_certificate_verify_with_prepared prepared th_after_cert (sf_cv_body flight);
  let transcript := transcript_update transcript (sf_cv_full flight) in
  th_after_cv ← map_err FlTranscript (transcript_snapshot transcript);
  _ ← verify_server_finished s_hs_traffic_secret th_after_cv (sf_fin_body flight);
  let transcript := transcript_update transcript (sf_fin_full flight) in
  Ok (transcript, server_pubkey leaf_view).
End verify.

(** ** The wire form of the flight *)

Definition hs_msg (ty : Z) (body : bytes) : bytes := [ty] ++ be_bytes 3 (blen body) ++ body.

Lemma blen_hs_msg ty body : blen (hs_msg ty body) = 4 + blen body.
Proof. unfold hs_msg. rewrite !blen_app, blen_be_bytes. change (blen [ty]) with 1. lia. Qed.

Lemma hs_msg_inj ty body rest ty' body' rest' :
  blen body < U24 -> blen body' < U24 ->
  hs_msg ty body ++ rest = hs_msg ty' body' ++ rest' -> ty = ty' /\ body = body' /\ rest = rest'.
Proof.
  intros Hb Hb' Heq. unfold hs_msg in Heq. rewrite <- !app_assoc in Heq.
  apply app_inj_blen in Heq as [Ht Heq]; [| done]. assert (ty = ty') as -> by congruence.
  apply app_inj_blen in Heq as [Hl Heq]; [| by rewrite !blen_be_bytes].
  apply (f_equal from_be) in Hl. rewrite !from_be_be_bytes_small in Hl by
    (change (256 ^ Z.of_nat 3) with U24; pose proof (blen_nonneg body); pose proof (blen_nonneg body'); lia).
  by apply app_inj_blen in Heq as [-> ->].
Qed.

Definition flight_wire (ee : bytes) (creq : option bytes) (cert cv fin : bytes) : bytes :=
  hs_msg HS_ENCRYPTED_EXTENSIONS ee
  ++ match creq with Some c => hs_msg HS_CERTIFICATE_REQUEST c | None => [] end
  ++ hs_msg HS_CERTIFICATE cert ++ hs_msg HS_CERTIFICATE_VERIFY cv ++ hs_msg HS_FINISHED fin.

Definition flight_view (ee : bytes) (creq : option bytes) (cert cv fin : bytes) : ServerFlightView :=
  {| sf_ee_full := hs_msg HS_ENCRYPTED_EXTENSIONS ee; sf_ee_body := ee;
     sf_cert_request_full := hs_msg HS_CERTIFICATE_REQUEST <$> creq;
     sf_cert_full := hs_msg HS_CERTIFICATE cert; sf_cert_body := cert;
     sf_cv_full := hs_msg HS_CERTIFICATE_VERIFY cv; sf_cv_body := cv;
     sf_fin_full := hs_msg HS_FINISHED fin; sf_fin_body := fin |}.

Definition bodies_ok (ee : bytes) (creq : option bytes) (cert cv fin : bytes) : Prop :=
  blen ee < U24 /\ (forall c, creq = Some c -> blen c < U24) /\ blen cert < U24 /\ blen cv < U24 /\
  blen fin < U24.

Section framing.
Context `{Usize}.

Lemma usize_try_from_small x : x < U32 -> usize_try_from x = Some x.
Proof.
  intros. unfold usize_try_from. pose proof usize_max_ge. by rewrite (proj2 (Z.leb_le _ _)) by lia.
Qed.

(** The reader between a consumed prefix and the remaining bytes. *)
Definition reader (pre rest : bytes) : HsReader := {| hr_buf := pre ++ rest; hr_pos := blen pre |}.

Lemma next_msg_cases pre rest :
  bytes_ok rest ->
  (exists ty body rest', rest = hs_msg ty body ++ rest' /\ blen body < U24 /\ bytes_ok rest' /\
     next_msg (reader pre rest) = Ok (ty, body, hs_msg ty body, reader (pre ++ hs_msg ty body) rest')) \/
  (next_msg (reader pre rest) = Err FlTruncated /\
   forall ty body rest', rest = hs_msg ty body ++ rest' -> blen body < U24 -> False).
Proof.
  intros Hok. unfold next_msg, reader. rewrite blen_app.
  destruct (Z.ltb_spec (blen pre + blen rest) (blen pre + 4)) as [Hs | Hs].
  { right. split; [done |]. intros ty body rest' -> Hb. rewrite blen_app, blen_hs_msg in Hs.
    pose proof (blen_nonneg body). pose proof (blen_nonneg rest'). lia. }
  destruct rest as [| ty [| l1 [| l2 [| l3 tl]]]]; try (rewrite ?blen_cons, blen_nil in Hs; lia).
  pose proof (at_idx_app_r pre (ty :: l1 :: l2 :: l3 :: tl)) as Hat.
  assert (at_idx (pre ++ ty :: l1 :: l2 :: l3 :: tl) (blen pre) = Some ty) as -> by (by apply at_idx_middle).
  rewrite !Hat by lia.
  change (at_idx (ty :: l1 :: l2 :: l3 :: tl) 1) with (Some l1).
  change (at_idx (ty :: l1 :: l2 :: l3 :: tl) 2) with (Some l2).
  change (at_idx (ty :: l1 :: l2 :: l3 :: tl) 3) with (Some l3). run.
  do 4 (apply Forall_cons in Hok as [? Hok]).
  assert (is_u24 (be24 l1 l2 l3)) as Hu by (by apply be24_bound).
  assert (be_bytes 3 (be24 l1 l2 l3) = [l1; l2; l3]) as Hbe by (by apply be_bytes_be24).
  rewrite usize_try_from_small by (unfold is_u24, U24, U32 in *; lia). run.
  set (len := be24 l1 l2 l3) in *. rewrite !blen_cons in *.
  destruct (Z.ltb_spec (blen pre + (1 + (1 + (1 + (1 + blen tl)))) - blen pre - 4) len) as [Hl | Hl].
  { right. split; [done |]. intros ty' body rest' Heq Hb.
    change (ty :: l1 :: l2 :: l3 :: tl) with ([ty] ++ [l1; l2; l3] ++ tl) in Heq.
    unfold hs_msg in Heq. rewrite <- !app_assoc in Heq.
    apply app_inj_blen in Heq as [_ Heq]; [| done].
    apply app_inj_blen in Heq as [Hx Hy]; [| by rewrite blen_be_bytes].
    assert (len = blen body) as Hlb.
    { unfold len. change (be24 l1 l2 l3) with (from_be [l1; l2; l3]). rewrite Hx.
      apply from_be_be_bytes_small. change (256 ^ Z.of_nat 3) with U24. pose proof (blen_nonneg body). lia. }
    apply (f_equal blen) in Hy. rewrite blen_app in Hy. pose proof (blen_nonneg rest'). lia. }
  left. unfold is_u24 in Hu. destruct (cut_at tl len) as (body & rest' & -> & Hbl & _); [lia |].
  apply bytes_ok_app in Hok as [_ Hok].
  assert (ty :: l1 :: l2 :: l3 :: body ++ rest' = hs_msg ty body ++ rest') as Hw.
  { unfold hs_msg. rewrite Hbl, Hbe. by rewrite <- !app_assoc. }
  exists ty, body, rest'. split_and!; [done | lia | done |]. rewrite Hw.
  assert (pre ++ hs_msg ty body ++ rest' = (pre ++ hs_msg ty body) ++ rest') as Ha by (by rewrite app_assoc).
  assert (blen pre + 4 + len = blen (pre ++ hs_msg ty body)) as Hp by (rewrite blen_app, blen_hs_msg; lia).
  rewrite (slice_middle pre (hs_msg ty body) rest' (blen pre)) by (rewrite ?blen_hs_msg; lia).
  assert (slice (pre ++ hs_msg ty body ++ rest') (blen pre + 4) (blen pre + 4 + len) = Some body) as ->.
  { unfold hs_msg. replace (pre ++ ([ty] ++ be_bytes 3 (blen body) ++ body) ++ rest')
      with ((pre ++ [ty] ++ be_bytes 3 (blen body)) ++ body ++ rest') by (by rewrite <- !app_assoc).
    apply slice_middle; rewrite !blen_app, blen_be_bytes; change (blen [ty]) with 1; lia. }
  run. by rewrite Hp, Ha.
Qed.

Lemma next_msg_ok pre ty body rest :
  bytes_ok (hs_msg ty body ++ rest) -> blen body < U24 ->
  next_msg (reader pre (hs_msg ty body ++ rest))
  = Ok (ty, body, hs_msg ty body, reader (pre ++ hs_msg ty body) rest).
Proof.
  intros Hok Hb. destruct (next_msg_cases pre (hs_msg ty body ++ rest) Hok)
    as [(ty' & body' & rest' & Heq & Hb' & _ & ->) | [_ Hno]]; [| by destruct (Hno ty body rest)].
  by apply hs_msg_inj in Heq as (<- & <- & <-).
Qed.

Lemma expect_type_Ok a b u : expect_type a b = Ok u <-> b = a.
Proof. unfold expect_type. destruct (Z.eqb_spec b a), u; cbn; naive_solver. Qed.

Lemma next_msg_total pre rest : bytes_ok rest -> no_panic (next_msg (reader pre rest)).
Proof. intros Hok. destruct (next_msg_cases pre rest Hok) as [(? & ? & ? & _ & _ & _ & ->) | [-> _]]; done. Qed.

Lemma reader_new content : HsReader_new content = reader [] content.
Proof. done. Qed.

Lemma at_end_reader pre rest : at_end (reader pre rest) = true <-> rest = [].
Proof.
  unfold at_end, reader. cbn [hr_pos hr_buf]. rewrite Z.eqb_eq, blen_app. split.
  - intros. apply blen_zero_nil. lia.
  - intros ->. rewrite blen_nil. lia.
Qed.
End framing.

(** Read one message of the wire and step over it. *)
Ltac step_msg Hok :=
  match type of Hok with
  | bytes_ok ?r =>
    match goal with
    | |- context [next_msg (reader ?p r)] =>
      let ty := fresh "ty" in let body := fresh "body" in let rest := fresh "rest" in
      let Heq := fresh "Heq" in let Hb := fresh "Hb" in let Hok' := fresh "Hok" in
      let Hno := fresh "Hno" in
      destruct (next_msg_cases p r Hok) as [(ty & body & rest & Heq & Hb & Hok' & ->) | [-> Hno]];
      [| run; discriminate]
    end
  end.

Section flight.
Context `{Usize}.

Lemma parse_server_flight_inv content v :
  bytes_ok content -> parse_server_flight content = Ok v ->
  exists ee creq cert cv fin, bodies_ok ee creq cert cv fin /\
    content = flight_wire ee creq cert cv fin /\ v = flight_view ee creq cert cv fin.
Proof.
  intros Hok. unfold parse_server_flight. rewrite reader_new.
  step_msg Hok. run. subst content.
  intros Hp. apply bind_Ok_inv in Hp as (u & ->%expect_type_Ok & Hp). revert Hp.
  step_msg Hok0. run. subst rest. destruct (Z.eqb_spec ty HS_CERTIFICATE_REQUEST) as [-> | _].
  - step_msg Hok1. run. subst rest0.
    intros Hp. apply bind_Ok_inv in Hp as (u1 & ->%expect_type_Ok & Hp). revert Hp.
    step_msg Hok2. run. subst rest.
    intros Hp. apply bind_Ok_inv in Hp as (u2 & ->%expect_type_Ok & Hp). revert Hp.
    step_msg Hok3. run. subst rest0.
    intros Hp. apply bind_Ok_inv in Hp as (u3 & ->%expect_type_Ok & Hp). revert Hp.
    destruct (at_end _) eqn:He; cbn [negb]; [| done]. apply at_end_reader in He as ->.
    intros Hv%Ok_inj. subst v. exists body, (Some body0), body1, body2, body3.
    split_and!; [split_and!; try done; by intros ? [= <-] | | done].
    unfold flight_wire. by rewrite app_nil_r.
  - run. intros Hp. apply bind_Ok_inv in Hp as (u1 & ->%expect_type_Ok & Hp). revert Hp.
    step_msg Hok1. run. subst rest0.
    intros Hp. apply bind_Ok_inv in Hp as (u2 & ->%expect_type_Ok & Hp). revert Hp.
    step_msg Hok2. run. subst rest.
    intros Hp. apply bind_Ok_inv in Hp as (u3 & ->%expect_type_Ok & Hp). revert Hp.
    destruct (at_end _) eqn:He; cbn [negb]; [| done]. apply at_end_reader in He as ->.
    intros Hv%Ok_inj. subst v. exists body, None, body0, body1, body2.
    split_and!; [by split_and! | | done].
    unfold flight_wire. by rewrite app_nil_r.
Qed.

Lemma parse_server_flight_wire ee creq cert cv fin :
  bodies_ok ee creq cert cv fin -> bytes_ok (flight_wire ee creq cert cv fin) ->
  parse_server_flight (flight_wire ee creq cert cv fin) = Ok (flight_view ee creq cert cv fin).
Proof.
  intros (Hee & Hcreq & Hcert & Hcv & Hfin) Hok. unfold parse_server_flight. rewrite reader_new.
  unfold flight_wire in *.
  rewrite <- (app_nil_r (hs_msg HS_FINISHED fin)) in *.
  rewrite next_msg_ok by done. apply bytes_ok_app in Hok as [_ Hok]. run.
  change (expect_type ?a ?a) with (Ok (E := FlightError) tt). run.
  destruct creq as [c |]; cbn [fmap option_fmap option_map app] in *.
  - rewrite next_msg_ok by auto. apply bytes_ok_app in Hok as [_ Hok]. run.
    change (?a =? ?a) with true. cbn iota.
    rewrite next_msg_ok by done. apply bytes_ok_app in Hok as [_ Hok]. run.
    change (expect_type ?a ?a) with (Ok (E := FlightError) tt). run.
    rewrite next_msg_ok by done. apply bytes_ok_app in Hok as [_ Hok]. run.
    change (expect_type ?a ?a) with (Ok (E := FlightError) tt). run.
    rewrite next_msg_ok by done. run.
    change (expect_type ?a ?a) with (Ok (E := FlightError) tt). run.
    rewrite (proj2 (at_end_reader _ [])) by done. done.
  - rewrite next_msg_ok by auto. apply bytes_ok_app in Hok as [_ Hok]. run.
    change (HS_CERTIFICATE =? HS_CERTIFICATE_REQUEST) with false. cbn iota. run.
    change (expect_type ?a ?a) with (Ok (E := FlightError) tt). run.
    rewrite next_msg_ok by done. apply bytes_ok_app in Hok as [_ Hok]. run.
    change (expect_type ?a ?a) with (Ok (E := FlightError) tt). run.
    rewrite next_msg_ok by done. run.
    change (expect_type ?a ?a) with (Ok (E := FlightError) tt). run.
    rewrite (proj2 (at_end_reader _ [])) by done. done.
Qed.
End flight.

Section flight_total.
Context `{Usize}.

Lemma expect_type_total a b : no_panic (expect_type a b).
Proof. unfold expect_type. by case_match. Qed.

Lemma bind_msg_total {A} pre rest (k : Z * bytes * bytes * HsReader -> outcome FlightError A) :
  bytes_ok rest ->
  (forall ty body full pre' rest', bytes_ok rest' -> no_panic (k (ty, body, full, reader pre' rest'))) ->
  no_panic (next_msg (reader pre rest) ≫= k).
Proof.
  intros Hok Hk. destruct (next_msg_cases pre rest Hok) as [(ty & body & rest' & _ & _ & Hok' & ->) | [-> _]];
    [run; by apply Hk | done].
Qed.

Lemma bind_expect_total {A} a b (k : unit -> outcome FlightError A) :
  no_panic (k tt) -> no_panic (expect_type a b ≫= k).
Proof. intros. apply no_panic_bind; [apply expect_type_total |]. by intros []. Qed.

Lemma parse_server_flight_total content : bytes_ok content -> no_panic (parse_server_flight content).
Proof.
  intros Hok. unfold parse_server_flight. rewrite reader_new.
  apply bind_msg_total; [done |]. intros t1 ee_body ee_full p1 r1 Hr1. apply bind_expect_total.
  apply bind_msg_total; [done |]. intros t2 b2 f2 p2 r2 Hr2.
  assert (forall creq ty body full pre rest, bytes_ok rest ->
    no_panic (_ ← expect_type HS_CERTIFICATE ty;
      '(cv_type, cv_body, cv_full, r) ← next_msg (reader pre rest);
      _ ← expect_type HS_CERTIFICATE_VERIFY cv_type;
      '(fin_type, fin_body, fin_full, r) ← next_msg r;
      _ ← expect_type HS_FINISHED fin_type;
      if negb (at_end r) then Err FlTrailingBytes else
      Ok {| sf_ee_full := ee_full; sf_ee_body := ee_body; sf_cert_request_full := creq;
            sf_cert_full := full; sf_cert_body := body; sf_cv_full := cv_full; sf_cv_body := cv_body;
            sf_fin_full := fin_full; sf_fin_body := fin_body |})) as Hrest.
  { intros. apply bind_expect_total. apply bind_msg_total; [done |]. intros. apply bind_expect_total.
    apply bind_msg_total; [done |]. intros. apply bind_expect_total. by case_match. }
  case_match; [| run; by apply Hrest].
  rewrite bind_assoc. apply bind_msg_total; [done |]. intros. run. by apply Hrest.
Qed.

(** The parts of a flight of bytes are bytes. *)
Lemma flight_wire_bytes ee creq cert cv fin :
  bytes_ok (flight_wire ee creq cert cv fin) -> bytes_ok ee /\ bytes_ok cert /\ bytes_ok cv /\ bytes_ok fin.
Proof. unfold flight_wire, hs_msg. rewrite !bytes_ok_app. tauto. Qed.
End flight_total.

(** C28. The server flight parses exactly when it is EncryptedExtensions, an optional
    CertificateRequest, Certificate, CertificateVerify and Finished, each framed by
    its length, in this order and with nothing after; the view then holds exactly
    those messages.  The parser never panics. *)
Theorem server_flight_exact `{Usize} (content : bytes) (v : ServerFlightView) :
  bytes_ok content ->
  no_panic (parse_server_flight content) /\
  (parse_server_flight content = Ok v <->
   exists ee creq cert cv fin, bodies_ok ee creq cert cv fin /\
     content = flight_wire ee creq cert cv fin /\ v = flight_view ee creq cert cv fin).
Proof.
  intros Hok. split; [by apply parse_server_flight_total |]. split.
  - by apply parse_server_flight_inv.
  - intros (ee & creq & cert & cv & fin & Hb & -> & ->). by apply parse_server_flight_wire.
Qed.

Lemma server_flight_exact_witness :
  @parse_server_flight usize32 (flight_wire [0; 0] (Some [0; 0; 0]) [1] [2; 3] (zeros 32))
  = Ok (flight_view [0; 0] (Some [0; 0; 0]) [1] [2; 3] (zeros 32)).
Proof.
  apply (@server_flight_exact usize32 (flight_wire [0; 0] (Some [0; 0; 0]) [1] [2; 3] (zeros 32))).
  - apply bytes_okb_sound. vm_compute. reflexivity.
  - exists [0; 0], (Some [0; 0; 0]), [1], [2; 3], (zeros 32).
    split; [| split; reflexivity]. split_and!; try reflexivity. intros c [= <-]. reflexivity.
Defined.

(** ** The certificate chain *)

(** A [CertificateEntry]: the certificate and its extensions. *)
Definition cert_entry (e : bytes * bytes) : bytes :=
  be_bytes 3 (blen e.1) ++ e.1 ++ be_bytes 2 (blen e.2) ++ e.2.

Definition entry_ok (e : bytes * bytes) : Prop := blen e.1 < U24 /\ blen e.2 < U16.

(** A Certificate body; the code tolerates bytes after the list. *)
Definition cert_wire (ctx : bytes) (entries : list (bytes * bytes)) (trail : bytes) : bytes :=
  let list_ := concat (cert_entry <$> entries) in
  [blen ctx] ++ ctx ++ be_bytes 3 (blen list_) ++ list_ ++ trail.

Section chain.
Context `{Usize, HeaplessVec}.

Lemma read_u24_be n : 0 <= n < U24 -> read_u24 (be_bytes 3 n) = Ok n.
Proof.
  intros Hn. assert (exists x y z, be_bytes 3 n = [x; y; z]) as (x & y & z & Hx) by (cbn; eauto).
  rewrite Hx. change (read_u24 [x; y; z]) with (Ok (E := FlightError) (be24 x y z)). f_equal.
  change (be24 x y z) with (from_be [x; y; z]). rewrite <- Hx. by apply from_be_be_bytes_small.
Qed.

Lemma read_u24_inv b n : bytes_ok b -> blen b = 3 -> read_u24 b = Ok n -> b = be_bytes 3 n /\ is_u24 n.
Proof.
  intros Hok Hl. destruct b as [| x [| y [| z [| w b]]]]; try (rewrite ?blen_cons, ?blen_nil in Hl; pose proof (blen_nonneg b); lia).
  { rewrite ?blen_cons, blen_nil in Hl. lia. } { rewrite ?blen_cons, blen_nil in Hl. lia. }
  { rewrite ?blen_cons, blen_nil in Hl. lia. }
  do 3 (apply Forall_cons in Hok as [? Hok]).
  intros Hn%Ok_inj. subst n. split; [by rewrite be_bytes_be24 | by apply be24_bound].
Qed.
(** One round of the loop on the remaining bytes [rest]. *)
Definition round (fuel : nat) (MAX : Z) (pre rest : bytes) (acc : list bytes) :=
  chain_loop fuel MAX (pre ++ rest) (blen pre) acc.

Lemma blen_cert_entry c e : blen (cert_entry (c, e)) = 5 + blen c + blen e.
Proof. unfold cert_entry. cbn [fst snd]. rewrite !blen_app, !blen_be_bytes. lia. Qed.

Lemma round_nil fuel MAX pre acc : round (S fuel) MAX pre [] acc = Ok acc.
Proof.
  unfold round. cbn [chain_loop]. rewrite app_nil_r.
  by rewrite (proj2 (Z.ltb_ge _ _)) by lia.
Qed.

Lemma round_entry fuel MAX pre c e rest acc :
  entry_ok (c, e) ->
  round (S fuel) MAX pre (cert_entry (c, e) ++ rest) acc
  = (acc' ← ok_or (vec_push MAX acc c) FlCertChainTooLong;
     round fuel MAX (pre ++ cert_entry (c, e)) rest acc').
Proof.
  intros [Hc He]. cbn [fst snd] in *. unfold round. cbn [chain_loop].
  pose proof (blen_nonneg pre). pose proof (blen_nonneg c). pose proof (blen_nonneg e).
  pose proof (blen_nonneg rest).
  set (l3 := be_bytes 3 (blen c)). set (l2 := be_bytes 2 (blen e)).
  assert (blen l3 = 3) as Hl3 by apply blen_be_bytes. assert (blen l2 = 2) as Hl2 by apply blen_be_bytes.
  assert (pre ++ cert_entry (c, e) ++ rest = pre ++ l3 ++ c ++ l2 ++ e ++ rest) as Hw.
  { unfold cert_entry. cbn [fst snd]. by rewrite <- !app_assoc. }
  assert (blen (pre ++ cert_entry (c, e) ++ rest) = blen pre + 5 + blen c + blen e + blen rest) as Hbl.
  { rewrite !blen_app, blen_cert_entry. lia. }
  rewrite Hbl. rewrite (proj2 (Z.ltb_lt (blen pre) _)) by lia. cbn [negb].
  rewrite (proj2 (Z.ltb_ge _ 3)) by lia.
  assert (slice (pre ++ cert_entry (c, e) ++ rest) (blen pre) (blen pre + 3) = Some l3) as ->.
  { rewrite Hw. apply slice_middle; lia. }
  cbn [or_panic]. rewrite bind_Ok. unfold l3. rewrite read_u24_be by lia. rewrite bind_Ok.
  rewrite usize_try_from_small by (unfold U24, U32 in *; lia). cbn [ok_or]. rewrite bind_Ok.
  rewrite (proj2 (Z.ltb_ge _ (blen c))), (proj2 (Z.ltb_ge _ 2)) by lia. cbn [orb].
  assert (slice (pre ++ cert_entry (c, e) ++ rest) (blen pre + 3) (blen pre + 3 + blen c) = Some c) as ->.
  { rewrite Hw, app_assoc. apply slice_middle; rewrite blen_app, Hl3; lia. }
  cbn [or_panic]. rewrite bind_Ok.
  destruct (vec_push MAX acc c) as [acc' |]; cbn [ok_or]; [rewrite !bind_Ok | done].
  assert (exists x y, l2 = [x; y]) as (x & y & Hxy) by (unfold l2; cbn; eauto).
  assert (blen (pre ++ l3 ++ c) = blen pre + 3 + blen c) as Hp by (rewrite !blen_app, Hl3; lia).
  assert (pre ++ cert_entry (c, e) ++ rest = (pre ++ l3 ++ c) ++ x :: y :: e ++ rest) as Hw2.
  { rewrite Hw, Hxy. by rewrite <- !app_assoc. }
  rewrite Hw2, <- Hp, (at_idx_middle (pre ++ l3 ++ c) x _ (blen (pre ++ l3 ++ c))) by done. cbn [or_panic]. rewrite bind_Ok.
  rewrite at_idx_app_r by lia. change (at_idx (x :: y :: e ++ rest) 1) with (Some y).
  cbn [or_panic]. rewrite bind_Ok.
  assert (be16 x y = blen e) as ->.
  { unfold be16. rewrite <- Hxy. apply from_be_be_bytes_small. change (256 ^ Z.of_nat 2) with U16. lia. }
  rewrite (proj2 (Z.ltb_ge _ (blen e))) by lia.
  rewrite <- Hw2, Hp. replace (pre ++ cert_entry (c, e) ++ rest) with ((pre ++ cert_entry (c, e)) ++ rest)
    by (by rewrite <- app_assoc).
  f_equal. rewrite (blen_app pre), blen_cert_entry. lia.
Qed.

Lemma round_cases fuel MAX pre rest acc :
  bytes_ok rest -> rest <> [] ->
  (exists c e rest', rest = cert_entry (c, e) ++ rest' /\ entry_ok (c, e) /\ bytes_ok rest') \/
  round (S fuel) MAX pre rest acc = Err FlTruncated \/
  round (S fuel) MAX pre rest acc = Err FlCertChainTooLong.
Proof.
  intros Hok Hne. unfold round. cbn [chain_loop]. rewrite !blen_app.
  pose proof (blen_nonneg pre). pose proof (blen_nonneg rest).
  assert (blen rest <> 0) by (intros Hz; by apply blen_zero_nil in Hz).
  rewrite (proj2 (Z.ltb_lt (blen pre) _)) by lia. cbn [negb].
  destruct (Z.ltb_spec (blen pre + blen rest - blen pre) 3); [by right; left |].
  destruct (cut_at rest 3) as (lb & r1 & -> & Hlb & Hr1); [lia |].
  rewrite (slice_middle pre lb r1) by lia. cbn [or_panic]. rewrite bind_Ok.
  apply bytes_ok_app in Hok as [Hlbo Hok].
  destruct (read_u24 lb) as [n | |] eqn:Hn.
  2-3: exfalso; destruct lb as [| x [| y [| z lb]]]; rewrite ?blen_cons, ?blen_nil in Hlb; try lia; done.
  apply read_u24_inv in Hn as [-> Hn]; [| done..]. rewrite bind_Ok. unfold is_u24 in Hn.
  rewrite usize_try_from_small by (unfold U24, U32 in *; lia). cbn [ok_or]. rewrite bind_Ok.
  rewrite !blen_app, !blen_be_bytes in *.
  destruct (Z.ltb_spec (blen pre + (Z.of_nat 3 + blen r1) - (blen pre + 3)) n); [by right; left |].
  destruct (Z.ltb_spec (blen pre + (Z.of_nat 3 + blen r1) - (blen pre + 3) - n) 2); [by right; left |].
  cbn [orb]. destruct (cut_at r1 n) as (c & r2 & -> & Hc & Hr2); [lia |].
  apply bytes_ok_app in Hok as [Hco Hok].
  assert (slice (pre ++ be_bytes 3 n ++ c ++ r2) (blen pre + 3) (blen pre + 3 + n) = Some c) as ->.
  { rewrite (app_assoc pre). apply slice_middle; rewrite blen_app, blen_be_bytes; lia. }
  cbn [or_panic]. rewrite bind_Ok.
  destruct (vec_push MAX acc c) as [acc' |]; cbn [ok_or]; [rewrite bind_Ok | by right; right].
  destruct r2 as [| x [| y r3]]; try (rewrite ?blen_app, ?blen_cons, blen_nil in *; lia).
  apply Forall_cons in Hok as [Hx Hok]. apply Forall_cons in Hok as [Hy Hok].
  assert (blen (pre ++ be_bytes 3 n ++ c) = blen pre + 3 + n) as Hp.
  { rewrite !blen_app, blen_be_bytes. lia. }
  replace (pre ++ be_bytes 3 n ++ c ++ x :: y :: r3) with ((pre ++ be_bytes 3 n ++ c) ++ x :: y :: r3)
    by (by rewrite <- !app_assoc).
  rewrite <- Hp, (at_idx_middle (pre ++ be_bytes 3 n ++ c) x _ (blen (pre ++ be_bytes 3 n ++ c))) by done. cbn [or_panic]. rewrite bind_Ok.
  rewrite at_idx_app_r by lia. change (at_idx (x :: y :: r3) 1) with (Some y).
  cbn [or_panic]. rewrite bind_Ok.
  rewrite !blen_app, !blen_cons, blen_be_bytes in *.
  match goal with |- context [?a <? be16 x y] => destruct (Z.ltb_spec a (be16 x y)) as [| Hxy] end;
    [by right; left |].
  left. pose proof (be16_bound x y Hx Hy) as Hu. unfold is_u16 in Hu.
  destruct (cut_at r3 (be16 x y)) as (e & rest' & -> & He & _); [lia |].
  apply bytes_ok_app in Hok as [_ Hok].
  exists c, e, rest'. split_and!; [| split; cbn; lia | done].
  unfold cert_entry. cbn [fst snd]. rewrite Hc, He, be_bytes_be16 by done. by rewrite <- !app_assoc.
Qed.

Lemma blen_concat_entry c e rest : (length rest < length (cert_entry (c, e) ++ rest))%nat.
Proof.
  pose proof (blen_cert_entry c e). pose proof (blen_nonneg c). pose proof (blen_nonneg e).
  rewrite length_app. unfold blen in *. lia.
Qed.

Lemma round_total fuel MAX pre rest acc :
  (length rest < fuel)%nat -> bytes_ok rest -> no_panic (round fuel MAX pre rest acc).
Proof.
  revert pre rest acc. induction fuel as [| fuel IH]; intros pre rest acc Hf Hok; [lia |].
  destruct rest as [| b rest']; [by rewrite round_nil |].
  destruct (round_cases fuel MAX pre (b :: rest') acc) as [(c & e & r & Hr & He & Hro) | [-> | ->]]; try done.
  rewrite Hr in *. rewrite round_entry by done. apply no_panic_bind; [apply no_panic_ok_or |].
  intros acc' _. apply IH; [| done]. pose proof (blen_concat_entry c e r). lia.
Qed.

Lemma round_Ok_inv fuel MAX pre rest acc chain :
  (length rest < fuel)%nat -> bytes_ok rest -> blen acc <= MAX -> round fuel MAX pre rest acc = Ok chain ->
  exists es, Forall entry_ok es /\ rest = concat (cert_entry <$> es) /\ chain = acc ++ es.*1 /\
    blen chain <= MAX.
Proof.
  revert pre rest acc. induction fuel as [| fuel IH]; intros pre rest acc Hf Hok Ha; [lia |].
  destruct rest as [| b rest'].
  { rewrite round_nil. intros <-%Ok_inj. exists []. cbn. rewrite app_nil_r. auto. }
  destruct (round_cases fuel MAX pre (b :: rest') acc) as [(c & e & r & Hr & He & Hro) | [-> | ->]]; try done.
  rewrite Hr in *. rewrite round_entry by done. intros Hc.
  apply bind_Ok_inv in Hc as (acc' & Hp%ok_or_Ok_inv & Hc). apply vec_push_Some_inv in Hp as [Hlt ->].
  apply IH in Hc as (es & Hes & -> & -> & Hl); [| pose proof (blen_concat_entry c e r); lia | done |
    rewrite blen_app; change (blen [c]) with 1; lia].
  exists ((c, e) :: es). split_and!; [by constructor | done | by rewrite <- app_assoc | done].
Qed.

Lemma round_entries fuel MAX pre es acc :
  Forall entry_ok es -> (length (concat (cert_entry <$> es)) < fuel)%nat -> blen acc <= MAX ->
  round fuel MAX pre (concat (cert_entry <$> es)) acc
  = if blen acc + blen es <=? MAX then Ok (acc ++ es.*1) else Err FlCertChainTooLong.
Proof.
  intros Hes. revert fuel pre acc.
  induction Hes as [| [c e] es He _ IH]; intros [| fuel] pre acc Hf Ha; try lia.
  { cbn [fmap list_fmap concat]. rewrite round_nil, blen_nil, Z.add_0_r, app_nil_r.
    by rewrite (proj2 (Z.leb_le _ _)). }
  cbn [fmap list_fmap concat] in *. rewrite round_entry by done. rewrite vec_push_spec, blen_cons.
  pose proof (blen_concat_entry c e (concat (cert_entry <$> es))). pose proof (blen_nonneg es).
  destruct (Z.ltb_spec (blen acc) MAX) as [Hlt | Hge]; cbn [ok_or].
  - rewrite bind_Ok, IH by (rewrite ?blen_app; change (blen [c]) with 1; lia).
    rewrite blen_app. change (blen [c]) with 1. rewrite Z.add_assoc, <- app_assoc. done.
  - by rewrite (proj2 (Z.leb_gt _ _)) by lia.
Qed.
End chain.

Section extract.
Context `{Usize, HeaplessVec}.

Definition cert_body_ok (ctx : bytes) (es : list (bytes * bytes)) : Prop :=
  blen ctx < U8 /\ Forall entry_ok es /\ blen (concat (cert_entry <$> es)) < U24.

(** The header of the body, and the list loop on what it delimits. *)
Lemma extract_chain_header MAX ctx list_ trail :
  blen ctx < U8 -> blen list_ < U24 ->
  extract_chain MAX ([blen ctx] ++ ctx ++ be_bytes 3 (blen list_) ++ list_ ++ trail)
  = round (S (length list_)) MAX [] list_ [].
Proof.
  intros Hc Hl. unfold extract_chain, round. cbn [app].
  pose proof (blen_nonneg ctx). pose proof (blen_nonneg list_). pose proof (blen_nonneg trail).
  set (l3 := be_bytes 3 (blen list_)). assert (blen l3 = 3) as Hl3 by apply blen_be_bytes.
  assert (blen (blen ctx :: ctx ++ l3 ++ list_ ++ trail)
          = 4 + blen ctx + blen list_ + blen trail) as Hb.
  { rewrite blen_cons, !blen_app, Hl3. lia. }
  rewrite Hb. rewrite (proj2 (Z.eqb_neq _ 0)) by lia.
  change (at_idx (blen ctx :: ctx ++ l3 ++ list_ ++ trail) 0) with (Some (blen ctx)). run.
  rewrite (proj2 (Z.ltb_ge _ (1 + blen ctx + 3))) by lia.
  change (blen ctx :: ctx ++ l3 ++ list_ ++ trail) with ((blen ctx :: ctx) ++ l3 ++ list_ ++ trail).
  rewrite (slice_middle (blen ctx :: ctx) l3) by (rewrite blen_cons; lia).
  cbn [or_panic]. rewrite bind_Ok.
  assert (read_u24 l3 = Ok (blen list_)) as -> by (apply read_u24_be; lia). rewrite bind_Ok.
  rewrite usize_try_from_small by (unfold U24, U32 in *; lia). cbn [ok_or]. rewrite bind_Ok.
  rewrite (proj2 (Z.ltb_ge _ (blen list_))) by lia.
  rewrite (app_assoc (blen ctx :: ctx)), (slice_middle ((blen ctx :: ctx) ++ l3) list_) by
    (rewrite blen_app, blen_cons; lia). done.
Qed.

(** Any accepted or further examined body has that header. *)
Lemma extract_chain_cases MAX body :
  bytes_ok body ->
  (exists ctx list_ trail, blen ctx < U8 /\ blen list_ < U24 /\ bytes_ok list_ /\
     body = [blen ctx] ++ ctx ++ be_bytes 3 (blen list_) ++ list_ ++ trail) \/
  extract_chain MAX body = Err FlTruncated.
Proof.
  intros Hok. unfold extract_chain. destruct body as [| cl r0]; [by right |].
  rewrite blen_cons. pose proof (blen_nonneg r0). rewrite (proj2 (Z.eqb_neq _ 0)) by lia.
  change (at_idx (cl :: r0) 0) with (Some cl). run. apply Forall_cons in Hok as [Hcl Hok].
  unfold is_u8 in Hcl.
  destruct (Z.ltb_spec (1 + blen r0) (1 + cl + 3)); [by right |].
  destruct (cut_at r0 cl) as (ctx & r1 & -> & Hctx & Hr1); [lia |].
  destruct (cut_at r1 3) as (lb & r2 & -> & Hlb & Hr2); [lia |].
  apply bytes_ok_app in Hok as [_ Hok]. apply bytes_ok_app in Hok as [Hlbo Hok].
  change (cl :: ctx ++ lb ++ r2) with ((cl :: ctx) ++ lb ++ r2).
  rewrite (slice_middle (cl :: ctx) lb r2) by (rewrite blen_cons; lia).
  cbn [or_panic]. rewrite bind_Ok.
  destruct (read_u24 lb) as [n | |] eqn:Hn.
  2-3: exfalso; destruct lb as [| x [| y [| z lb]]]; rewrite ?blen_cons, ?blen_nil in Hlb; try lia; done.
  apply read_u24_inv in Hn as [-> Hn]; [| done..]. rewrite bind_Ok. unfold is_u24 in Hn.
  rewrite usize_try_from_small by (unfold U24, U32 in *; lia). cbn [ok_or]. rewrite bind_Ok.
  rewrite !blen_app, blen_be_bytes in *.
  match goal with |- context [?a <? n] => destruct (Z.ltb_spec a n) end; [by right |].
  destruct (cut_at r2 n) as (list_ & trail & -> & Hli & _); [lia |].
  apply bytes_ok_app in Hok as [Hok _].
  left. exists ctx, list_, trail. rewrite Hctx, Hli. split_and!; [lia | lia | done | done].
Qed.

Lemma extract_chain_total MAX body : bytes_ok body -> no_panic (extract_chain MAX body).
Proof.
  intros Hok. destruct (extract_chain_cases MAX body Hok) as [(ctx & l & tr & Hc & Hl & Hlo & ->) | ->]; [| done].
  rewrite extract_chain_header by done. apply round_total; [lia | done].
Qed.

Lemma extract_chain_wire MAX ctx es trail :
  0 <= MAX -> cert_body_ok ctx es ->
  extract_chain MAX (cert_wire ctx es trail)
  = if blen es <=? MAX then Ok es.*1 else Err FlCertChainTooLong.
Proof.
  intros HM (Hc & Hes & Hl). unfold cert_wire. rewrite extract_chain_header by done.
  rewrite round_entries by (try done; lia). by rewrite blen_nil, Z.add_0_l.
Qed.

Lemma extract_chain_inv MAX body chain :
  0 <= MAX -> bytes_ok body -> extract_chain MAX body = Ok chain ->
  exists ctx es trail, cert_body_ok ctx es /\ body = cert_wire ctx es trail /\ chain = es.*1 /\
    blen es <= MAX.
Proof.
  intros HM Hok. destruct (extract_chain_cases MAX body Hok) as [(ctx & l & tr & Hc & Hl & Hlo & ->) | ->]; [| done].
  rewrite extract_chain_header by done. intros Hr.
  apply round_Ok_inv in Hr as (es & Hes & -> & -> & Hm); [| lia | done | by rewrite blen_nil].
  exists ctx, es, tr. split_and!; [done | done | done |]. revert Hm. cbn [app].
  unfold blen. by rewrite length_fmap.
Qed.

(** The certificates are byte strings inside the body. *)
Lemma extract_chain_bytes MAX body chain :
  0 <= MAX -> bytes_ok body -> extract_chain MAX body = Ok chain ->
  Forall (fun c => bytes_ok c /\ blen c < U24) chain.
Proof.
  intros HM Hok (ctx & es & trail & (_ & Hes & _) & -> & -> & _)%extract_chain_inv; [| done | done].
  unfold cert_wire in Hok. rewrite !bytes_ok_app in Hok. destruct Hok as (_ & _ & _ & Hl & _).
  induction Hes as [| [c e] es [Hc _] _ IH]; [constructor |]. cbn [fmap list_fmap concat] in *.
  apply bytes_ok_app in Hl as [Hce Hl]. unfold cert_entry in Hce. rewrite !bytes_ok_app in Hce.
  constructor; [| by apply IH]. cbn [fst] in *. tauto.
Qed.
End extract.

(** C29. The certificates extracted from a Certificate body are exactly its entries in
    wire order, never a truncation: a well-formed list with more entries than the
    bound is rejected as too long, and a body is accepted only when every length
    field is consistent.  The extraction never panics. *)
Theorem extract_chain_exact `{Usize, HeaplessVec} (MAX : Z) (body : bytes) (chain : list bytes) :
  0 <= MAX -> bytes_ok body ->
  no_panic (extract_chain MAX body) /\
  (extract_chain MAX body = Ok chain <->
   exists ctx es trail, cert_body_ok ctx es /\ body = cert_wire ctx es trail /\
     chain = es.*1 /\ blen es <= MAX) /\
  (forall ctx es trail, cert_body_ok ctx es -> body = cert_wire ctx es trail -> MAX < blen es ->
   extract_chain MAX body = Err FlCertChainTooLong).
Proof.
  intros HM Hok. split_and!; [by apply extract_chain_total | |].
  - split; [by apply extract_chain_inv |]. intros (ctx & es & trail & Hb & -> & -> & Hl).
    rewrite extract_chain_wire by done. by rewrite (proj2 (Z.leb_le _ _)).
  - intros ctx es trail Hb -> Hl. rewrite extract_chain_wire by done.
    by rewrite (proj2 (Z.leb_gt _ _)).
Qed.

Lemma extract_chain_exact_witness :
  @extract_chain usize32 heapless_model 2 (cert_wire [9] [([1; 2], []); ([3], [4])] [])
  = Ok [[1; 2]; [3]] /\
  @extract_chain usize32 heapless_model 1 (cert_wire [9] [([1; 2], []); ([3], [4])] [])
  = Err FlCertChainTooLong.
Proof.
  assert (bytes_ok (cert_wire [9] [([1; 2], []); ([3], [4])] [])) as Hok.
  { apply bytes_okb_sound. vm_compute. reflexivity. }
  assert (cert_body_ok [9] [([1; 2], []); ([3], [4])]) as Hb.
  { split_and!; [done | repeat constructor; done | done]. }
  split.
  - apply (@extract_chain_exact usize32 heapless_model 2 _ [[1; 2]; [3]] ltac:(lia) Hok).
    exists [9], [([1; 2], []); ([3], [4])], []. split_and!; [exact Hb | reflexivity | reflexivity | discriminate].
  - eapply (@extract_chain_exact usize32 heapless_model 1 _ [] ltac:(lia) Hok); [exact Hb | reflexivity | reflexivity].
Defined.

(** ** What a verified flight proves *)

(** The flight up to and including Certificate. *)
Definition through_cert (ee : bytes) (creq : option bytes) (cert : bytes) : bytes :=
  hs_msg HS_ENCRYPTED_EXTENSIONS ee
  ++ match creq with Some c => hs_msg HS_CERTIFICATE_REQUEST c | None => [] end
  ++ hs_msg HS_CERTIFICATE cert.

(** RFC 8446 section 4.4.3: the octets under the CertificateVerify signature. *)
Definition cv_content (th : bytes) : bytes := replicate 64 0x20 ++ CV_CTX ++ [0] ++ th.

Section verified.
Context `{Usize, HeaplessVec, HkdfSha256, SubtleCt, VerifierBackend, MlDsaSizes}.

(** The signature is valid under the verifier's key, for the scheme of its family. *)
Definition cv_valid (prepared : PreparedVerifier) (scheme : Z) (sig msg : bytes) : Prop :=
  match prepared with
  | PvEd25519 v =>
      scheme = SIG_SCHEME_ED25519 /\ blen sig = 64 /\ valid_sig AlgEd25519 (key_of AlgEd25519 v) msg sig
  | PvRsa v =>
      scheme = SIG_SCHEME_RSA_PSS_RSAE_SHA256 /\
      valid_sig AlgRsa (key_of AlgRsa v) msg {| rs_scheme := PssSha256; rs_bytes := sig |}
  | PvMlDsa v =>
      is_mldsa_scheme scheme = true /\ blen sig = ml_dsa_expected scheme /\
      valid_sig AlgMlDsa (key_of AlgMlDsa v) msg sig
  | PvEcdsaP256 v =>
      scheme = SIG_SCHEME_ECDSA_P256 /\ valid_sig AlgEcdsaP256 (key_of AlgEcdsaP256 v) msg sig
  | PvEcdsaP384 v =>
      scheme = SIG_SCHEME_ECDSA_P384 /\ valid_sig AlgEcdsaP384 (key_of AlgEcdsaP384 v) msg sig
  end.

Lemma cv_signed_content_ok th : blen th = 32 -> cv_signed_content th = Ok (cv_content th).
Proof.
  intros Hth. unfold cv_signed_content, cv_content. rewrite !vec_extend_spec. cbn [app].
  change (blen (@nil Z) + blen (replicate 64 0x20) <=? SIGNED_LEN) with true. cbn [ok_or].
  rewrite bind_Ok, vec_extend_spec.
  change (blen (replicate 64 0x20) + blen CV_CTX <=? SIGNED_LEN) with true. cbn [ok_or].
  rewrite bind_Ok, vec_extend_spec.
  change (blen (replicate 64 0x20 ++ CV_CTX) + blen [0] <=? SIGNED_LEN) with true. cbn [ok_or].
  rewrite bind_Ok, vec_extend_spec, Hth.
  change (blen ((replicate 64 0x20 ++ CV_CTX) ++ [0]) + 32 <=? SIGNED_LEN) with true. cbn [ok_or].
  by rewrite <- !app_assoc.
Qed.

Lemma verify_cv_signature_valid scheme prepared msg sig :
  verify_cv_signature scheme prepared msg sig = Ok tt -> cv_valid prepared scheme sig msg.
Proof.
  unfold verify_cv_signature, cv_valid. destruct prepared; intros Hv; repeat case_match; try done;
    bool_to_prop; rewrite ?check_Ok_inv in *; split_and?; try done; by apply verify_valid.
Qed.

Lemma verify_cv_signature_total scheme prepared msg sig :
  no_panic (verify_cv_signature scheme prepared msg sig).
Proof. unfold verify_cv_signature, check. by destruct prepared; repeat case_match. Qed.

(** A CertificateVerify body is a scheme, a length and that many signature bytes. *)
Lemma cv_body_cases prepared th cv :
  bytes_ok cv -> blen th = 32 ->
  let r := verify_certificate_verify_with_prepared prepared th cv in
  r = Err FlTruncated \/ r = Err FlTrailingBytes \/
  exists scheme sig, is_u16 scheme /\ cv = be_bytes 2 scheme ++ be_bytes 2 (blen sig) ++ sig /\
    r = verify_cv_signature scheme prepared (cv_content th) sig.
Proof.
  intros Hok Hth. cbn zeta. unfold verify_certificate_verify_with_prepared.
  destruct (Z.ltb_spec (blen cv) 4) as [| Hl]; [by left |]. right.
  destruct cv as [| b0 [| b1 [| b2 [| b3 sig]]]]; try (rewrite ?blen_cons, blen_nil in Hl; lia).
  change (at_idx (b0 :: b1 :: b2 :: b3 :: sig) 0) with (Some b0).
  change (at_idx (b0 :: b1 :: b2 :: b3 :: sig) 1) with (Some b1).
  change (at_idx (b0 :: b1 :: b2 :: b3 :: sig) 2) with (Some b2).
  change (at_idx (b0 :: b1 :: b2 :: b3 :: sig) 3) with (Some b3). run.
  do 4 (apply Forall_cons in Hok as [? Hok]). rewrite !blen_cons.
  match goal with |- context [?a =? be16 b2 b3] => destruct (Z.eqb_spec a (be16 b2 b3)) as [Hs |] end;
    cbn [negb]; [right | by left].
  unfold slice_from. change (b0 :: b1 :: b2 :: b3 :: sig) with ([b0; b1; b2; b3] ++ sig).
  rewrite (slice_suffix [b0; b1; b2; b3] sig) by (rewrite ?blen_app; done). run.
  rewrite cv_signed_content_ok by done. run.
  exists (be16 b0 b1), sig. split; [by apply be16_bound |]. split; [| done].
  replace (blen sig) with (be16 b2 b3) by lia. by rewrite !be_bytes_be16.
Qed.

Lemma verify_server_finished_Ok secret th fin :
  blen th = 32 -> verify_server_finished secret th fin = Ok tt ->
  fin = Finished_Mac TLS13_LABEL_PREFIX secret th.
Proof.
  intros Hth. unfold verify_server_finished. case_match; [done |]. intros Hv.
  apply bind_Ok_inv in Hv as (fk & Hfk%map_err_Ok_inv & Hv).
  apply bind_Ok_inv in Hv as (mac & Hmac%map_err_Ok_inv & Hv).
  destruct (ct_eq mac fin) eqn:Hct; [| done]. apply ct_eq_spec in Hct as <-.
  apply extract_spec in Hmac as ->. unfold Finished_Mac. f_equal.
  pose proof (computes_expand TLS13_LABEL_PREFIX secret (label "finished") [] 32) as Hc.
  unfold hkdf_expand_label in Hfk. rewrite Hfk in Hc. apply Hc; [unfold U16; lia |].
  change (blen TLS13_LABEL_PREFIX) with 6. change (blen (label "finished")) with 8. rewrite blen_nil. lia.
Qed.

Lemma verify_server_finished_total secret th fin : no_panic (verify_server_finished secret th fin).
Proof.
  unfold verify_server_finished. case_match; [done |].
  pose proof (computes_expand TLS13_LABEL_PREFIX secret (label "finished") [] 32) as Hc.
  apply no_panic_bind.
  - apply no_panic_map_err. unfold hkdf_expand_label. intros Hp. rewrite Hp in Hc. apply Hc; [unfold U16; lia |].
    change (blen TLS13_LABEL_PREFIX) with 6. change (blen (label "finished")) with 8. rewrite blen_nil. lia.
  - intros k _. apply no_panic_bind; [apply no_panic_map_err, extract_total |]. intros. by case_match.
Qed.

Lemma snapshot_Ok t d : transcript_snapshot t = Ok d -> d = sha256 (hashed t) /\ blen d = 32.
Proof. intros Hd%map_err_Ok_inv%hash_snapshot_spec. subst. split; [done | apply sha256_len]. Qed.

Lemma snapshot_total t : no_panic (transcript_snapshot t).
Proof. apply no_panic_map_err, hash_snapshot_total. Qed.

Lemma hashed_update t m : hashed (transcript_update t m) = hashed t ++ m.
Proof. apply hash_update_spec. Qed.

(** The transcript after Certificate has absorbed the flight so far. *)
Lemma hashed_through_cert t ee creq cert cv fin :
  let v := flight_view ee creq cert cv fin in
  let t1 := transcript_update t (sf_ee_full v) in
  let t2 := match sf_cert_request_full v with Some c => transcript_update t1 c | None => t1 end in
  hashed (transcript_update t2 (sf_cert_full v)) = hashed t ++ through_cert ee creq cert.
Proof.
  cbn zeta. unfold transcript_update, through_cert.
  destruct creq as [c |]; cbn; rewrite !hash_update_spec, <- ?app_assoc; done.
Qed.

Lemma verify_server_flight_spec t plaintext secret prepared leaf t' pk :
  bytes_ok plaintext ->
  verify_server_flight t plaintext secret prepared leaf = Ok (t', pk) ->
  exists ee creq cert scheme sig fin,
    let cv := be_bytes 2 scheme ++ be_bytes 2 (blen sig) ++ sig in
    let th1 := sha256 (hashed t ++ through_cert ee creq cert) in
    let th2 := sha256 (hashed t ++ through_cert ee creq cert ++ hs_msg HS_CERTIFICATE_VERIFY cv) in
    bodies_ok ee creq cert cv fin /\ plaintext = flight_wire ee creq cert cv fin /\
    cv_valid prepared scheme sig (cv_content th1) /\
    fin = Finished_Mac TLS13_LABEL_PREFIX secret th2 /\
    hashed t' = hashed t ++ plaintext /\ pk = server_pubkey leaf.
Proof.
  intros Hok Hv. unfold verify_server_flight in Hv.
  apply bind_Ok_inv in Hv as (v & Hp & Hv).
  apply parse_server_flight_inv in Hp as (ee & creq & cert & cv & fin & Hb & Hw & ->); [| done].
  pose proof (hashed_through_cert t ee creq cert cv fin) as Hh. cbn zeta in Hv, Hh.
  set (t3 := transcript_update _ (sf_cert_full _)) in *.
  apply bind_Ok_inv in Hv as (th1 & Hth1%map_err_Ok_inv & Hv).
  apply snapshot_Ok in Hth1 as [Hth1 Hl1].
  apply bind_Ok_inv in Hv as ([] & Hcv & Hv).
  apply bind_Ok_inv in Hv as (th2 & Hth2%map_err_Ok_inv & Hv).
  apply snapshot_Ok in Hth2 as [Hth2 Hl2].
  apply bind_Ok_inv in Hv as ([] & Hfin & Hv). apply Ok_inj in Hv.
  cbn [sf_cv_body sf_cv_full sf_fin_body sf_fin_full flight_view] in *.
  assert (bytes_ok cv) as Hcvok.
  { rewrite Hw in Hok. unfold flight_wire, hs_msg in Hok. rewrite !bytes_ok_app in Hok. tauto. }
  destruct (cv_body_cases prepared th1 cv Hcvok Hl1) as [Hr | [Hr | (scheme & sig & Hs & -> & Hr)]];
    rewrite Hr in Hcv; [done | done |].
  apply verify_cv_signature_valid in Hcv. apply verify_server_finished_Ok in Hfin; [| done].
  assert (hashed (transcript_update t3 (hs_msg HS_CERTIFICATE_VERIFY
    (be_bytes 2 scheme ++ be_bytes 2 (blen sig) ++ sig))) = hashed t ++ through_cert ee creq cert ++
    hs_msg HS_CERTIFICATE_VERIFY (be_bytes 2 scheme ++ be_bytes 2 (blen sig) ++ sig)) as Hh2.
  { by rewrite hashed_update, Hh, <- app_assoc. }
  rewrite Hh in Hth1. rewrite Hh2 in Hth2. subst th1 th2.
  exists ee, creq, cert, scheme, sig, fin. cbn zeta. apply pair_equal_spec in Hv as [<- <-].
  split_and!; try done. rewrite Hw, hashed_update, Hh2.
  unfold flight_wire, through_cert. destruct creq; by rewrite <- !app_assoc.
Qed.

Lemma verify_server_flight_total t plaintext secret prepared leaf :
  bytes_ok plaintext -> no_panic (verify_server_flight t plaintext secret prepared leaf).
Proof.
  intros Hok.
  unfold verify_server_flight. apply no_panic_bind; [by apply parse_server_flight_total |].
  intros v Hp. apply parse_server_flight_inv in Hp as (ee & creq & cert & cv & fin & Hb & Hw & ->); [| done].
  assert (bytes_ok cv) as Hcvok.
  { rewrite Hw in Hok. unfold flight_wire, hs_msg in Hok. rewrite !bytes_ok_app in Hok. tauto. }
  apply no_panic_bind; [apply no_panic_map_err, snapshot_total |]. intros th1 Hth1%map_err_Ok_inv.
  apply snapshot_Ok in Hth1 as [_ Hl1]. apply no_panic_bind.
  { cbn [sf_cv_body flight_view].
    destruct (cv_body_cases prepared th1 cv Hcvok Hl1) as [-> | [-> | (? & ? & _ & _ & ->)]];
      [done | done | apply verify_cv_signature_total]. }
  intros _ _. apply no_panic_bind; [apply no_panic_map_err, snapshot_total |]. intros th2 _.
  apply no_panic_bind; [apply verify_server_finished_total | done].
Qed.

(** C10. A server flight is accepted only when its CertificateVerify carries a
    signature valid under the prepared key over the RFC content for the transcript
    through Certificate, its Finished is the MAC under the server's handshake secret
    for the transcript through CertificateVerify, and the transcript returned has
    absorbed the whole flight and nothing else.  Verification never panics. *)
Theorem server_flight_authenticates (t : TranscriptHash) (plaintext secret : bytes)
    (prepared : PreparedVerifier) (leaf : CertView) :
  bytes_ok plaintext ->
  no_panic (verify_server_flight t plaintext secret prepared leaf) /\
  forall t' pk, verify_server_flight t plaintext secret prepared leaf = Ok (t', pk) ->
  exists ee creq cert scheme sig fin,
    let cv := be_bytes 2 scheme ++ be_bytes 2 (blen sig) ++ sig in
    let th1 := sha256 (hashed t ++ through_cert ee creq cert) in
    let th2 := sha256 (hashed t ++ through_cert ee creq cert ++ hs_msg HS_CERTIFICATE_VERIFY cv) in
    bodies_ok ee creq cert cv fin /\ plaintext = flight_wire ee creq cert cv fin /\
    cv_valid prepared scheme sig (cv_content th1) /\
    fin = Finished_Mac TLS13_LABEL_PREFIX secret th2 /\
    hashed t' = hashed t ++ plaintext /\ pk = server_pubkey leaf.
Proof.
  intros Hok. split; [by apply verify_server_flight_total | intros t' pk; by apply verify_server_flight_spec].
Qed.
End verified.

Section witness.
#[local] Existing Instances usize32 heapless_model hkdf_model subtle_model backend_model ml_dsa_model.

Definition demo_cv : bytes := be_bytes 2 SIG_SCHEME_ED25519 ++ be_bytes 2 64 ++ be_bytes 64 130.
Definition demo_fin : bytes :=
  Finished_Mac TLS13_LABEL_PREFIX [3]
    (toy_hash (through_cert [0; 0] None [1] ++ hs_msg HS_CERTIFICATE_VERIFY demo_cv)).
Definition demo_flight : bytes := flight_wire [0; 0] None [1] demo_cv demo_fin.
Definition demo_verifier : PreparedVerifier := PvEd25519 (be_bytes 32 7).

Lemma demo_flight_ok : bytes_ok demo_flight.
Proof.
  apply bytes_okb_sound. vm_compute. reflexivity.
Qed.

Lemma server_flight_authenticates_witness :
  exists t' pk,
    verify_server_flight (TranscriptHash_new) demo_flight [3] demo_verifier (toy_view [5]) = Ok (t', pk) /\
    hashed t' = hashed TranscriptHash_new ++ demo_flight /\ pk = SpEd25519 (be_bytes 32 5).
Proof.
  destruct (server_flight_authenticates TranscriptHash_new demo_flight [3] demo_verifier (toy_view [5])
              demo_flight_ok) as [_ Hs].
  exists (transcript_update TranscriptHash_new demo_flight), (SpEd25519 (be_bytes 32 5)).
  assert (verify_server_flight TranscriptHash_new demo_flight [3] demo_verifier (toy_view [5])
          = Ok (transcript_update TranscriptHash_new demo_flight, SpEd25519 (be_bytes 32 5))) as Hv
    by (vm_compute; reflexivity).
  destruct (Hs _ _ Hv) as (ee & creq & cert & scheme & sig & fin & _ & _ & _ & _ & Hh & Hp).
  split; [exact Hv | split; [exact Hh | reflexivity]].
Defined.
End witness.

(** ** The CertificateRequest *)

(** An extension: its type and data. *)
Definition extension (e : Z * bytes) : bytes := be_bytes 2 e.1 ++ be_bytes 2 (blen e.2) ++ e.2.
Definition extension_ok (e : Z * bytes) : Prop := is_u16 e.1 /\ blen e.2 < U16.

(** The body of a framed CertificateRequest. *)
Definition cert_request_wire (ctx : bytes) (exts : list (Z * bytes)) : bytes :=
  let l := concat (extension <$> exts) in
  hs_msg HS_CERTIFICATE_REQUEST ([blen ctx] ++ ctx ++ be_bytes 2 (blen l) ++ l).

Definition cert_request_ok (ctx : bytes) (exts : list (Z * bytes)) : Prop :=
  blen ctx < U8 /\ Forall extension_ok exts /\ blen (concat (extension <$> exts)) < U16.

(** The data of the first signature_algorithms extension. *)
Fixpoint first_sig_algs (exts : list (Z * bytes)) : option bytes :=
  match exts with
  | [] => None
  | e :: exts => if e.1 =? EXT_SIGNATURE_ALGORITHMS then Some e.2 else first_sig_algs exts
  end.

Section cert_request.

Lemma cert_request_parts_wire ctx exts :
  cert_request_ok ctx exts ->
  cert_request_parts (cert_request_wire ctx exts) = Ok (ctx, concat (extension <$> exts)).
Proof.
  intros (Hc & _ & Hl). unfold cert_request_wire. set (l := concat _) in *. unfold hs_msg.
  set (body := [blen ctx] ++ ctx ++ be_bytes 2 (blen l) ++ l).
  unfold cert_request_parts. cbn [head app].
  rewrite (bool_decide_eq_true_2 (Some HS_CERTIFICATE_REQUEST = Some HS_CERTIFICATE_REQUEST)) by done.
  cbn [negb]. unfold slice_from.
  change (HS_CERTIFICATE_REQUEST :: ?x) with ([HS_CERTIFICATE_REQUEST] ++ x).
  rewrite app_assoc, (slice_suffix ([HS_CERTIFICATE_REQUEST] ++ be_bytes 3 (blen body)) body)
    by (rewrite ?blen_app, ?blen_be_bytes; done).
  run. unfold body. cbn [head app]. run.
  pose proof (blen_nonneg ctx). pose proof (blen_nonneg l).
  set (l2 := be_bytes 2 (blen l)). assert (blen l2 = 2) as Hl2 by apply blen_be_bytes.
  change (blen ctx :: ctx ++ l2 ++ l) with ([blen ctx] ++ ctx ++ l2 ++ l).
  rewrite (slice_middle [blen ctx] ctx _ 1) by (change (blen [blen ctx]) with 1; lia). run.
  rewrite (app_assoc [blen ctx]), (slice_middle ([blen ctx] ++ ctx) l2 l (1 + blen ctx)) by
    (rewrite ?blen_app; change (blen [blen ctx]) with 1; lia). run.
  assert (exists x y, l2 = [x; y]) as (x & y & Hxy) by (unfold l2; cbn; eauto).
  rewrite Hxy. change (at_idx [x; y] 0) with (Some x). change (at_idx [x; y] 1) with (Some y). run.
  assert (be16 x y = blen l) as ->.
  { unfold be16. rewrite <- Hxy. apply from_be_be_bytes_small. change (256 ^ Z.of_nat 2) with U16. lia. }
  rewrite <- Hxy, !blen_app, Hl2. change (blen [blen ctx]) with 1.
  rewrite (proj2 (Z.ltb_ge _ (blen l))), (proj2 (Z.ltb_ge (blen l) _)) by lia.
  rewrite (app_assoc _ l2), (slice_suffix (([blen ctx] ++ ctx) ++ l2) l) by
    (rewrite ?blen_app; change (blen [blen ctx]) with 1; lia). done.
Qed.

Lemma blen_extension t d : blen (extension (t, d)) = 4 + blen d.
Proof. unfold extension. cbn [fst snd]. rewrite !blen_app, !blen_be_bytes. lia. Qed.

Lemma be16_of_bytes v x y : is_u16 v -> be_bytes 2 v = [x; y] -> be16 x y = v.
Proof. intros. by apply be16_be_bytes. Qed.

(** One round of the extension walk. *)
Lemma sig_algs_step fuel pre t d rest :
  extension_ok (t, d) ->
  sig_algs_loop (S fuel) (pre ++ extension (t, d) ++ rest) (blen pre)
  = if t =? EXT_SIGNATURE_ALGORITHMS then sig_algs_data d
    else sig_algs_loop fuel ((pre ++ extension (t, d)) ++ rest) (blen (pre ++ extension (t, d))).
Proof.
  intros [Ht Hd]. cbn [fst snd] in *. cbn [sig_algs_loop].
  pose proof (blen_nonneg d). pose proof (blen_nonneg rest). pose proof (blen_nonneg pre).
  assert (exists a b, be_bytes 2 t = [a; b]) as (a & b & Hab) by (cbn; eauto).
  assert (exists x y, be_bytes 2 (blen d) = [x; y]) as (x & y & Hxy) by (cbn; eauto).
  assert (pre ++ extension (t, d) ++ rest = pre ++ a :: b :: x :: y :: d ++ rest) as Hw.
  { unfold extension. cbn [fst snd]. by rewrite Hab, Hxy. }
  rewrite (blen_app pre), (blen_app (extension (t, d))), blen_extension.
  rewrite (proj2 (Z.leb_le 4 _)) by lia. rewrite Hw.
  rewrite (at_idx_middle pre a _ (blen pre)) by done. rewrite !at_idx_app_r by lia.
  change (at_idx (a :: b :: x :: y :: d ++ rest) 1) with (Some b).
  change (at_idx (a :: b :: x :: y :: d ++ rest) 2) with (Some x).
  change (at_idx (a :: b :: x :: y :: d ++ rest) 3) with (Some y). run.
  rewrite (be16_of_bytes t a b), (be16_of_bytes (blen d) x y) by (try done; unfold is_u16; lia).
  rewrite (proj2 (Z.ltb_ge _ (blen d))) by lia.
  assert (slice (pre ++ a :: b :: x :: y :: d ++ rest) (blen pre + 4) (blen pre + 4 + blen d) = Some d) as ->.
  { change (a :: b :: x :: y :: d ++ rest) with ([a; b; x; y] ++ d ++ rest). rewrite app_assoc.
    apply slice_middle; rewrite blen_app; change (blen [a; b; x; y]) with 4; lia. }
  run. case_match; [done |]. rewrite <- Hw, <- app_assoc. f_equal. rewrite blen_app, blen_extension. lia.
Qed.

Lemma sig_algs_loop_wire fuel pre exts :
  Forall extension_ok exts -> (length exts < fuel)%nat ->
  sig_algs_loop fuel (pre ++ concat (extension <$> exts)) (blen pre)
  = match first_sig_algs exts with Some d => sig_algs_data d | None => Ok [] end.
Proof.
  intros Hes. revert fuel pre.
  induction Hes as [| [t d] exts He _ IH]; intros [| fuel] pre Hf; cbn [length] in Hf; try lia.
  - cbn [fmap list_fmap concat first_sig_algs sig_algs_loop]. rewrite app_nil_r.
    rewrite (proj2 (Z.leb_gt 4 _)) by lia. by rewrite Z.eqb_refl.
  - cbn [fmap list_fmap concat first_sig_algs]. rewrite sig_algs_step by done. cbn [fst snd].
    destruct (t =? EXT_SIGNATURE_ALGORITHMS); [done |]. apply IH. lia.
Qed.

Lemma sig_algs_data_wire schemes :
  2 <= blen schemes < U16 -> Z.even (blen schemes) = true ->
  sig_algs_data (be_bytes 2 (blen schemes) ++ schemes) = Ok schemes.
Proof.
  intros Hl Hev. unfold sig_algs_data.
  assert (exists x y, be_bytes 2 (blen schemes) = [x; y]) as (x & y & Hxy) by (cbn; eauto).
  rewrite (slice_prefix (be_bytes 2 (blen schemes)) schemes) by (rewrite ?blen_be_bytes; done). run.
  rewrite Hxy. change (at_idx [x; y] 0) with (Some x). change (at_idx [x; y] 1) with (Some y). run.
  rewrite (be16_of_bytes (blen schemes) x y) by (try done; unfold is_u16; lia).
  rewrite blen_app. change (blen [x; y]) with 2. rewrite (proj2 (Z.eqb_eq (blen schemes) _)) by lia.
  rewrite (proj2 (Z.ltb_ge _ 2)) by lia. cbn [negb orb].
  assert (Z.land (blen schemes) 1 = 0) as ->.
  { change 1 with (Z.ones 1). rewrite Z.land_ones by lia. change (2 ^ 1) with 2.
    rewrite Zeven_mod in Hev. by apply Z.eqb_eq. }
  cbn [Z.eqb negb]. rewrite (slice_suffix [x; y] schemes) by (change (blen [x; y]) with 2; lia). done.
Qed.

(** The parser returns on any bytes, with parts of its input. *)
Lemma cert_request_parts_ok creq :
  bytes_ok creq -> ensures (cert_request_parts creq) (fun '(ctx, exts) => bytes_ok ctx /\ bytes_ok exts).
Proof.
  intros Hok. unfold cert_request_parts. destruct (negb _); [done |].
  destruct (slice_from creq 4) as [body |] eqn:Hbody; run; [| done]. pose proof (bytes_ok_slice _ _ _ _ Hok Hbody) as Hb.
  destruct (head body) as [n |]; run; [| done]. destruct (slice body 1 (1 + n)) as [ctx |] eqn:Hctx; run; [| done].
  destruct (slice body (1 + n) (1 + n + 2)) as [l |] eqn:Hl; run; [| done].
  pose proof Hl as (H1' & H2' & H3' & H4' & _)%slice_Some_inv.
  destruct (at_idx_in_range l 0) as [a ->]; [lia |]. destruct (at_idx_in_range l 1) as [b ->]; [lia |]. run.
  destruct (_ <? _); [done |]. destruct (_ <? _); [done |].
  destruct (slice_in_range body (1 + n + 2) (blen body)) as [exts Hx]; [lia.. |]. unfold slice_from. rewrite Hx. run.
  split; by eapply bytes_ok_slice.
Qed.

Lemma sig_algs_data_ok data : bytes_ok data -> ensures (sig_algs_data data) bytes_ok.
Proof.
  intros Hok. unfold sig_algs_data. destruct (slice data 0 2) as [l |] eqn:Hl; run; [| done].
  pose proof Hl as (_ & _ & H3' & H4' & _)%slice_Some_inv.
  destruct (at_idx_in_range l 0) as [a Ha]; [lia |]. destruct (at_idx_in_range l 1) as [b Hb]; [lia |]. rewrite Ha, Hb. run.
  pose proof (bytes_ok_slice _ _ _ _ Hok Hl) as Hlo.
  pose proof (be16_bound a b (bytes_ok_at_idx _ _ _ Hlo Ha) (bytes_ok_at_idx _ _ _ Hlo Hb)) as Hn. set (n := be16 a b) in *.
  destruct (Z.eqb_spec n (blen data - 2)) as [He |]; cbn [negb orb]; [| done]. destruct (_ || _); [done |].
  unfold is_u16 in Hn. destruct (slice_in_range data 2 (2 + n)) as [x Hx]; [lia.. |]. rewrite Hx. exact (bytes_ok_slice _ _ _ _ Hok Hx).
Qed.

Lemma sig_algs_loop_ok fuel exts i :
  bytes_ok exts -> 0 <= i <= blen exts -> (Z.to_nat (blen exts - i) < fuel)%nat -> ensures (sig_algs_loop fuel exts i) bytes_ok.
Proof.
  intros Hok. revert i. induction fuel as [| fuel IH]; intros i Hi Hf; [lia |]. cbn [sig_algs_loop].
  destruct (Z.leb_spec 4 (blen exts - i)) as [Hge | _]; [| by destruct (negb _); [| constructor]].
  destruct (at_idx_in_range exts i) as [t0 ->]; [lia |]. destruct (at_idx_in_range exts (i + 1)) as [t1 ->]; [lia |].
  destruct (at_idx_in_range exts (i + 2)) as [d0 Hd0]; [lia |]. destruct (at_idx_in_range exts (i + 3)) as [d1 Hd1]; [lia |].
  rewrite Hd0, Hd1. run.
  pose proof (be16_bound d0 d1 (bytes_ok_at_idx _ _ _ Hok Hd0) (bytes_ok_at_idx _ _ _ Hok Hd1)) as Hn. set (n := be16 d0 d1) in *.
  unfold is_u16 in Hn. destruct (Z.ltb_spec (blen exts - (i + 4)) n); [done |].
  destruct (slice_in_range exts (i + 4) (i + 4 + n)) as [data Hd]; [lia.. |]. rewrite Hd. run.
  destruct (_ =? _); [apply sig_algs_data_ok; by eapply bytes_ok_slice | apply IH; lia].
Qed.

Lemma certificate_request_ok creq :
  bytes_ok creq -> ensures (certificate_request_context creq) bytes_ok /\ ensures (certificate_request_sig_algs creq) bytes_ok.
Proof.
  intros Hok. pose proof (cert_request_parts_ok creq Hok) as Hp. unfold certificate_request_context, certificate_request_sig_algs.
  destruct (cert_request_parts creq) as [[ctx exts] | e |]; run; [| done | done]. destruct Hp as [Hc Hx]. split; [done |].
  apply sig_algs_loop_ok; [done | pose proof (blen_nonneg exts); lia | unfold blen; lia].
Qed.
End cert_request.

(** A well-formed CertificateRequest is read back: its context is echoed, and the
    schemes returned are exactly those of its first signature_algorithms extension,
    whatever other extensions surround it, or none when it has no such extension. *)
Theorem cert_request_exact (ctx schemes : bytes) (before after : list (Z * bytes)) :
  let offer := (EXT_SIGNATURE_ALGORITHMS, be_bytes 2 (blen schemes) ++ schemes) in
  first_sig_algs before = None -> 2 <= blen schemes < U16 -> Z.even (blen schemes) = true ->
  (cert_request_ok ctx (before ++ offer :: after) ->
   certificate_request_context (cert_request_wire ctx (before ++ offer :: after)) = Ok ctx /\
   certificate_request_sig_algs (cert_request_wire ctx (before ++ offer :: after)) = Ok schemes) /\
  (cert_request_ok ctx before ->
   certificate_request_context (cert_request_wire ctx before) = Ok ctx /\
   certificate_request_sig_algs (cert_request_wire ctx before) = Ok []).
Proof.
  intros offer Hb Hl Hev.
  assert (forall exts, Forall extension_ok exts ->
    (length exts < S (length (concat (extension <$> exts))))%nat) as Hfuel.
  { induction 1 as [| [t d] exts He _ IH]; [cbn; lia |]. cbn [fmap list_fmap concat length].
    rewrite length_app. pose proof (blen_extension t d). pose proof (blen_nonneg d). unfold blen in *. lia. }
  assert (forall exts, cert_request_ok ctx exts ->
    certificate_request_context (cert_request_wire ctx exts) = Ok ctx /\
    certificate_request_sig_algs (cert_request_wire ctx exts)
    = match first_sig_algs exts with Some d => sig_algs_data d | None => Ok [] end) as Hx.
  { intros exts Hok. unfold certificate_request_context, certificate_request_sig_algs.
    rewrite cert_request_parts_wire by done. run. split; [done |].
    apply (sig_algs_loop_wire _ []); [apply Hok | apply Hfuel, Hok]. }
  split; intros Hok; destruct (Hx _ Hok) as [-> ->]; (split; [done |]); [| by rewrite Hb].
  assert (first_sig_algs (before ++ offer :: after) = Some (be_bytes 2 (blen schemes) ++ schemes)) as ->.
  { clear Hok. induction before as [| e before IH]; [done |]. cbn [app first_sig_algs] in *.
    destruct (e.1 =? EXT_SIGNATURE_ALGORITHMS); [done | by apply IH]. }
  by apply sig_algs_data_wire.
Qed.

Lemma cert_request_exact_witness :
  certificate_request_sig_algs
    (cert_request_wire [0xCA] [(47, []); (EXT_SIGNATURE_ALGORITHMS, [0; 4; 8; 7; 4; 3])])
  = Ok [8; 7; 4; 3].
Proof.
  apply (cert_request_exact [0xCA] [8; 7; 4; 3] [(47, [])] []); [reflexivity | | reflexivity |].
  - unfold U16. change (blen [8; 7; 4; 3]) with 4. lia.
  - split_and!; [reflexivity | | reflexivity].
    repeat constructor; cbn [fst snd]; unfold is_u16, U16, EXT_SIGNATURE_ALGORITHMS; try lia; reflexivity.
Defined.
