(* ===== verification/Reassembler.v ===== *)
(** * [reassembler.rs]: the TLS server flight across records

    The bytes of the encrypted flight accumulate record by record until a complete
    Finished message has arrived; whatever follows it is not part of the flight. *)
From S2P Require Import Prelude Deps Consts Hkdf Cert ServerFlight.

(** The buffer of a [heapless::Vec<u8, N>]. *)
Record ServerFlightReassembler := { sfr_buf : bytes }.

Inductive ReassemblyError := RsOverflow.

Definition ServerFlightReassembler_new : ServerFlightReassembler := {| sfr_buf := [] |}.

Definition clear (r : ServerFlightReassembler) : ServerFlightReassembler := {| sfr_buf := [] |}.

Definition push_content `{HeaplessVec} (N : Z) (r : ServerFlightReassembler) (content : bytes)
    : outcome ReassemblyError ServerFlightReassembler :=
  match vec_extend N (sfr_buf r) content with
  | Some buf => Ok {| sfr_buf := buf |}
  | None => Err RsOverflow
  end.

Section flight_end.
Context `{Usize} {E : Type}.

(** [flight_end_offset]: each round advances [i] by at least four. *)
Fixpoint flight_end_loop (fuel : nat) (buf : bytes) (i : Z) : outcome E (option Z) :=
  if negb (i + 4 <=? blen buf) then Ok None else
  match fuel with
  | O => Panic
  | S fuel =>
      msg_type ← or_panic (at_idx buf i);
      l1 ← or_panic (at_idx buf (i + 1));
      l2 ← or_panic (at_idx buf (i + 2));
      l3 ← or_panic (at_idx buf (i + 3));
      match usize_try_from (be24 l1 l2 l3) with
      | None => Ok None
      | Some len =>
          if blen buf - i - 4 <? len then Ok None else
          let i := i + (4 + len) in
          if msg_type =? HS_FINISHED then Ok (Some i) else flight_end_loop fuel buf i
      end
  end.

Definition flight_end_offset (r : ServerFlightReassembler) : outcome E (option Z) :=
  flight_end_loop (length (sfr_buf r)) (sfr_buf r) 0.

Definition is_complete (r : ServerFlightReassembler) : outcome E bool :=
  o ← flight_end_offset r; Ok (match o with Some _ => true | None => false end).

Definition flight_bytes (r : ServerFlightReassembler) : outcome E (option bytes) :=
  o ← flight_end_offset r;
  match o with
  | Some end_ => fl ← or_panic (slice (sfr_buf r) 0 end_); Ok (Some fl)
  | None => Ok None
  end.
End flight_end.

Section peek.
Context `{Usize}.

(** The extension walk: the bytes left and the value found so far. *)
Fixpoint peek_loop (fuel : nat) (rest : bytes) (found : option Z) : outcome FlightError (option Z) :=
  match rest with
  | [] => Ok found
  | _ =>
    match fuel with
    | O => Panic
    | S fuel =>
      if blen rest <? 4 then Err FlTruncated else
      t0 ← or_panic (at_idx rest 0);
      t1 ← or_panic (at_idx rest 1);
      l0 ← or_panic (at_idx rest 2);
      l1 ← or_panic (at_idx rest 3);
      let ext_type := be16 t0 t1 in
      let ext_len := be16 l0 l1 in
      if blen rest <? 4 + ext_len then Err FlTruncated else
      body ← or_panic (slice rest 4 (4 + ext_len));
      found ←
        (if ext_type =? EXT_RECORD_SIZE_LIMIT then
           if negb (blen body =? 2) then Err FlTruncated else
           if bool_decide (is_Some found) then Err (FlDuplicateExtension ext_type) else
           b0 ← or_panic (at_idx body 0);
           b1 ← or_panic (at_idx body 1);
           Ok (Some (be16 b0 b1))
         else Ok found);
      rest ← or_panic (slice_from rest (4 + ext_len));
      peek_loop fuel rest found
    end
  end.

Definition peek_ee_record_size_limit (r : ServerFlightReassembler) : outcome FlightError (option Z) :=
  o ← flight_bytes r;
  buf ← ok_or o FlTruncated;
  if blen buf <? 4 then Err FlTruncated else
  ty ← or_panic (at_idx buf 0);
  if negb (ty =? HS_ENCRYPTED_EXTENSIONS) then Err (FlUnexpectedHandshakeType HS_ENCRYPTED_EXTENSIONS ty) else
  l1 ← or_panic (at_idx buf 1);
  l2 ← or_panic (at_idx buf 2);
  l3 ← or_panic (at_idx buf 3);
  let ee_body_len := be24 l1 l2 l3 in
  if blen buf <? 4 + ee_body_len then Err FlTruncated else
  ee_body ← or_panic (slice buf 4 (4 + ee_body_len));
  if blen ee_body <? 2 then Err FlTruncated else
  e0 ← or_panic (at_idx ee_body 0);
  e1 ← or_panic (at_idx ee_body 1);
  if negb (blen ee_body =? 2 + be16 e0 e1) then Err FlTruncated else
  rest ← or_panic (slice_from ee_body 2);
  peek_loop (length rest) rest None.
End peek.

(** ** The end of the flight *)

(** A sequence of handshake messages before the Finished. *)
Definition head_wire (msgs : list (Z * bytes)) : bytes := concat ((fun m => hs_msg m.1 m.2) <$> msgs).
Definition head_ok (msgs : list (Z * bytes)) : Prop :=
  Forall (fun m => m.1 <> HS_FINISHED /\ blen m.2 < U24) msgs.

(** [flight] is the prefix of [buf] through its first complete Finished. *)
Definition flight_of (buf flight : bytes) : Prop :=
  exists msgs fin tail, head_ok msgs /\ blen fin < U24 /\
    flight = head_wire msgs ++ hs_msg HS_FINISHED fin /\ buf = flight ++ tail.

Lemma flight_of_unique buf fl fl' : flight_of buf fl -> flight_of buf fl' -> fl = fl'.
Proof.
  intros (msgs & fin & tail & Hm & Hfin & -> & ->) (msgs' & fin' & tail' & Hm' & Hfin' & -> & Heq).
  unfold head_wire in *. rewrite <- !app_assoc in Heq. clear - Hm Hm' Hfin Hfin' Heq.
  revert msgs' Hm' Heq. induction Hm as [| [ty b] msgs [Ht Hb] Hm IH]; intros msgs' Hm' Heq;
    destruct msgs' as [| [ty' b'] msgs']; cbn [fmap list_fmap concat app fst snd] in *.
  - by apply hs_msg_inj in Heq as (_ & -> & _).
  - apply Forall_cons in Hm' as [[Ht' Hb'] _]. rewrite <- app_assoc in Heq. by apply hs_msg_inj in Heq as (<- & _).
  - rewrite <- app_assoc in Heq. by apply hs_msg_inj in Heq as (-> & _).
  - apply Forall_cons in Hm' as [[Ht' Hb'] Hm']. rewrite <- !app_assoc in Heq.
    apply hs_msg_inj in Heq as (-> & -> & Heq); [| done..]. rewrite <- !app_assoc. f_equal. by apply IH.
Qed.

Section flight_end_lemmas.
Context `{Usize} {E : Type}.

(** One round of the walk is one message of the flight reader. *)
Lemma flight_end_step fuel pre rest :
  bytes_ok rest ->
  flight_end_loop (E := E) (S fuel) (pre ++ rest) (blen pre) =
  match next_msg (reader pre rest) with
  | Ok (ty, _, full, _) =>
      if ty =? HS_FINISHED then Ok (Some (blen (pre ++ full)))
      else flight_end_loop fuel (pre ++ rest) (blen (pre ++ full))
  | _ => Ok None
  end.
Proof.
  intros Hok. cbn [flight_end_loop]. rewrite blen_app.
  destruct (Z.leb_spec (blen pre + 4) (blen pre + blen rest)) as [Hl | Hl]; cbn [negb].
  2: { destruct (next_msg_cases pre rest Hok) as [(ty & body & rest' & -> & _) | [-> _]]; [| done].
       rewrite blen_app, blen_hs_msg in Hl. pose proof (blen_nonneg body). pose proof (blen_nonneg rest'). lia. }
  destruct rest as [| ty [| l1 [| l2 [| l3 tl]]]]; try (rewrite ?blen_cons, ?blen_nil in Hl; lia).
  assert (at_idx (pre ++ ty :: l1 :: l2 :: l3 :: tl) (blen pre) = Some ty) as Hty by (by apply at_idx_middle).
  pose proof (at_idx_app_r pre (ty :: l1 :: l2 :: l3 :: tl)) as Hat.
  rewrite Hty, !Hat by lia.
  change (at_idx (ty :: l1 :: l2 :: l3 :: tl) 1) with (Some l1).
  change (at_idx (ty :: l1 :: l2 :: l3 :: tl) 2) with (Some l2).
  change (at_idx (ty :: l1 :: l2 :: l3 :: tl) 3) with (Some l3). run.
  destruct (next_msg_cases pre _ Hok) as [(ty' & body & rest' & Heq & Hb & _ & ->) | [Hn Hno]].
  - pose proof (f_equal blen Heq) as Hbl. rewrite !blen_cons, blen_app, blen_hs_msg in Hbl.
    pose proof (blen_nonneg rest').
    change (ty :: l1 :: l2 :: l3 :: tl) with ([ty] ++ [l1; l2; l3] ++ tl) in Heq.
    unfold hs_msg in Heq. rewrite <- !app_assoc in Heq.
    apply app_inj_blen in Heq as [Ht Heq]; [| done]. injection Ht as <-.
    apply app_inj_blen in Heq as [Hx Hy]; [| by rewrite blen_be_bytes].
    assert (be24 l1 l2 l3 = blen body) as Hlb.
    { change (be24 l1 l2 l3) with (from_be [l1; l2; l3]). rewrite Hx. apply from_be_be_bytes_small.
      change (256 ^ Z.of_nat 3) with U24. pose proof (blen_nonneg body). lia. }
    rewrite Hlb, usize_try_from_small by (unfold U24, U32 in *; lia). rewrite !blen_cons.
    rewrite (proj2 (Z.ltb_ge _ _)) by lia. rewrite blen_app, blen_hs_msg.
    by replace (blen pre + (4 + blen body)) with (blen pre + (4 + blen body)) by lia.
  - rewrite Hn. do 4 (apply Forall_cons in Hok as [? Hok]).
    assert (is_u24 (be24 l1 l2 l3)) as Hu by (by apply be24_bound).
    rewrite usize_try_from_small by (unfold is_u24, U24, U32 in *; lia). rewrite !blen_cons.
    destruct (Z.ltb_spec (blen pre + (1 + (1 + (1 + (1 + blen tl)))) - blen pre - 4) (be24 l1 l2 l3)) as [| Hf]; [done |].
    exfalso. unfold is_u24 in Hu. destruct (cut_at tl (be24 l1 l2 l3)) as (body & rest' & -> & Hbl & _); [lia |].
    apply (Hno ty body rest'); [| lia]. unfold hs_msg. rewrite Hbl, be_bytes_be24 by done. by rewrite <- !app_assoc.
Qed.

(** The walk finds the first complete Finished, or that there is none yet. *)
Lemma flight_end_cases fuel pre rest :
  bytes_ok rest -> (length rest <= fuel)%nat ->
  (exists flight, flight_of rest flight /\
     flight_end_loop (E := E) fuel (pre ++ rest) (blen pre) = Ok (Some (blen pre + blen flight))) \/
  (flight_end_loop (E := E) fuel (pre ++ rest) (blen pre) = Ok None /\ forall flight, ~ flight_of rest flight).
Proof.
  revert pre rest. induction fuel as [| fuel IH]; intros pre rest Hok Hf.
  { right. assert (rest = []) as -> by (destruct rest; [done | cbn in Hf; lia]). split.
    - cbn [flight_end_loop]. rewrite app_nil_r. by rewrite (proj2 (Z.leb_gt _ _)) by lia.
    - intros flight (msgs & fin & tail & _ & _ & -> & Hn). apply (f_equal blen) in Hn.
      rewrite !blen_app, blen_hs_msg, blen_nil in Hn.
      pose proof (blen_nonneg (head_wire msgs)). pose proof (blen_nonneg fin). pose proof (blen_nonneg tail). lia. }
  rewrite flight_end_step by done.
  destruct (next_msg_cases pre rest Hok) as [(ty & body & rest' & -> & Hb & Hok' & ->) | [-> Hno]].
  - assert (length rest' < S fuel)%nat as Hf'.
    { rewrite length_app in Hf. pose proof (blen_hs_msg ty body). pose proof (blen_nonneg body). unfold blen in *. lia. }
    destruct (Z.eqb_spec ty HS_FINISHED) as [-> | Hty].
    { left. exists (hs_msg HS_FINISHED body). split; [exists [], body, rest'; split_and!; done || constructor |].
      by rewrite blen_app. }
    rewrite app_assoc. destruct (IH (pre ++ hs_msg ty body) rest' Hok' ltac:(lia))
      as [(fl & (msgs & fin & tail & Hm & Hfin & -> & ->) & Hl) | [Hl Hno]].
    + left. rewrite Hl. exists (head_wire ((ty, body) :: msgs) ++ hs_msg HS_FINISHED fin).
      split; [exists ((ty, body) :: msgs), fin, tail; split_and!; try done |].
      * constructor; [done | exact Hm].
      * unfold head_wire. cbn [fmap list_fmap concat fst snd]. by rewrite <- !app_assoc.
      * f_equal. f_equal. unfold head_wire. cbn [fmap list_fmap concat fst snd]. rewrite !blen_app. lia.
    + right. split; [done |]. intros fl (msgs & fin & tail & Hm & Hfin & -> & Heq).
      destruct msgs as [| [ty' body'] msgs].
      * cbn in Heq. apply hs_msg_inj in Heq as (-> & _); [done | done | done].
      * apply Forall_cons in Hm as [[_ Hb'] Hm]. unfold head_wire in Heq. cbn [fmap list_fmap concat fst snd] in *.
        rewrite <- !app_assoc in Heq. apply hs_msg_inj in Heq as (-> & -> & ->); [| done | done].
        apply (Hno (head_wire msgs ++ hs_msg HS_FINISHED fin)). exists msgs, fin, tail.
        split_and!; try done. unfold head_wire. by rewrite <- app_assoc.
  - right. split; [done |]. intros fl (msgs & fin & tail & Hm & Hfin & -> & ->).
    destruct msgs as [| [ty' body'] msgs].
    + by apply (Hno HS_FINISHED fin tail).
    + apply Forall_cons in Hm as [[_ Hb'] _]. cbn [fst snd] in Hb'.
      apply (Hno ty' body' (head_wire msgs ++ hs_msg HS_FINISHED fin ++ tail)); [| done].
      unfold head_wire. cbn [fmap list_fmap concat fst snd]. by rewrite <- !app_assoc.
Qed.
End flight_end_lemmas.

(** ** The peer's record size limit *)

(** The only record_size_limit extension of a block, or none. *)
Definition limit_of (exts : list (Z * bytes)) (v : option Z) : Prop :=
  filter (fun e => e.1 = EXT_RECORD_SIZE_LIMIT) exts
  = match v with Some l => [(EXT_RECORD_SIZE_LIMIT, be_bytes 2 l)] | None => [] end /\
  match v with Some l => is_u16 l | None => True end.

Section peek_lemmas.
Context `{Usize}.

(** What one extension does to the value found so far. *)
Definition peek_ext (e : Z * bytes) (found : option Z) : outcome FlightError (option Z) :=
  if e.1 =? EXT_RECORD_SIZE_LIMIT then
    if negb (blen e.2 =? 2) then Err FlTruncated else
    if bool_decide (is_Some found) then Err (FlDuplicateExtension e.1) else
    b0 ← or_panic (at_idx e.2 0); b1 ← or_panic (at_idx e.2 1); Ok (Some (be16 b0 b1))
  else Ok found.

Lemma peek_step fuel et d tail found :
  is_u16 et -> is_u16 (blen d) ->
  peek_loop (S fuel) (ext et d ++ tail) found = (x ← peek_ext (et, d) found; peek_loop fuel tail x).
Proof.
  intros Het Hd. pose proof (blen_nonneg tail). pose proof (blen_nonneg d).
  assert (exists t0 t1, be_bytes 2 et = [t0; t1]) as (t0 & t1 & Ht) by (cbn; eauto).
  assert (exists l0 l1, be_bytes 2 (blen d) = [l0; l1]) as (l0 & l1 & Hl) by (cbn; eauto).
  assert (ext et d ++ tail = t0 :: t1 :: l0 :: l1 :: d ++ tail) as Hw.
  { unfold ext, vec16. by rewrite Ht, Hl, <- !app_assoc. }
  rewrite Hw. cbn [peek_loop]. rewrite <- Hw, blen_app, blen_ext.
  rewrite (proj2 (Z.ltb_ge _ 4)) by lia.
  assert (forall i x, at_idx [t0; t1; l0; l1] i = Some x -> i < 4 -> at_idx (ext et d ++ tail) i = Some x) as Hat.
  { intros i x Hx Hi. rewrite Hw. change (t0 :: ?y) with ([t0; t1; l0; l1] ++ d ++ tail). by rewrite at_idx_app_l. }
  rewrite (Hat 0 t0), (Hat 1 t1), (Hat 2 l0), (Hat 3 l1) by (reflexivity || lia). run.
  rewrite (be16_be_bytes et Het _ _ Ht), (be16_be_bytes _ Hd _ _ Hl).
  rewrite (proj2 (Z.ltb_ge _ (4 + blen d))) by lia.
  assert (ext et d ++ tail = (be_bytes 2 et ++ be_bytes 2 (blen d)) ++ d ++ tail) as Hw2
    by (unfold ext, vec16; by rewrite <- !app_assoc).
  assert (slice (ext et d ++ tail) 4 (4 + blen d) = Some d) as ->
    by (rewrite Hw2; apply slice_middle; rewrite blen_app, !blen_be_bytes; lia). run.
  fold (peek_ext (et, d) found). unfold peek_ext at 1. cbn [fst snd].
  assert (slice_from (ext et d ++ tail) (4 + blen d) = Some tail) as Hsf
    by (unfold slice_from; apply slice_suffix; rewrite ?blen_app, ?blen_ext; lia).
  unfold peek_ext. cbn [fst snd]. destruct (if et =? _ then _ else _); run; [| done..]. by rewrite Hsf.
Qed.

Lemma peek_ext_cases e found :
  bytes_ok e.2 ->
  (e.1 <> EXT_RECORD_SIZE_LIMIT /\ peek_ext e found = Ok found) \/
  (exists l, e = (EXT_RECORD_SIZE_LIMIT, be_bytes 2 l) /\ is_u16 l /\ found = None /\ peek_ext e found = Ok (Some l)) \/
  (e.1 = EXT_RECORD_SIZE_LIMIT /\ (exists x, peek_ext e found = Err x) /\
   forall l, e = (EXT_RECORD_SIZE_LIMIT, be_bytes 2 l) -> is_Some found).
Proof.
  destruct e as [et d]. cbn [fst snd]. intros Hok. unfold peek_ext. cbn [fst snd].
  destruct (Z.eqb_spec et EXT_RECORD_SIZE_LIMIT) as [-> |]; [right | by left].
  destruct (Z.eqb_spec (blen d) 2) as [Hd |]; cbn [negb].
  - destruct d as [| b0 [| b1 [| b2 d]]]; rewrite ?blen_cons, ?blen_nil in Hd;
      try (pose proof (blen_nonneg d); lia); try lia.
    do 2 (apply Forall_cons in Hok as [? Hok]).
    destruct found as [f |]; [right | left].
    + rewrite bool_decide_true by done. split; [done |]. split; [by eexists | by eexists].
    + exists (be16 b0 b1). rewrite be_bytes_be16 by done. split_and!; [done | by apply be16_bound | done | done].
  - right. split; [done |]. split; [by eexists |]. intros l [_ ->]%pair_equal_spec. by rewrite blen_be_bytes in *.
Qed.

Lemma peek_not_ext fuel rest found :
  no_ext rest -> rest <> [] -> (length rest <= fuel)%nat -> exists x, peek_loop fuel rest found = Err x.
Proof.
  intros Hbad Hne Hf. destruct rest as [| b rest]; [done |]. destruct fuel as [| fuel]; [cbn in Hf; lia |].
  cbn [peek_loop]. destruct Hbad as [Hs | (t0 & t1 & l0 & l1 & tl & Heq & Hs)].
  - rewrite (proj2 (Z.ltb_lt _ 4) Hs). by eexists.
  - rewrite Heq, !blen_cons. pose proof (blen_nonneg tl). rewrite (proj2 (Z.ltb_ge _ 4)) by lia.
    change (at_idx (t0 :: t1 :: l0 :: l1 :: tl) 0) with (Some t0).
    change (at_idx (t0 :: t1 :: l0 :: l1 :: tl) 1) with (Some t1).
    change (at_idx (t0 :: t1 :: l0 :: l1 :: tl) 2) with (Some l0).
    change (at_idx (t0 :: t1 :: l0 :: l1 :: tl) 3) with (Some l1). run.
    rewrite (proj2 (Z.ltb_lt _ (4 + _))) by lia. by eexists.
Qed.

(** The walk reads the value of the one record_size_limit extension, and nothing else
    is accepted. *)
Lemma peek_loop_exact fuel rest found :
  bytes_ok rest -> (length rest <= fuel)%nat ->
  no_panic (peek_loop fuel rest found) /\
  forall v, peek_loop fuel rest found = Ok v <->
    exists exts, exts_ok exts /\ rest = exts_wire exts /\
      match found with
      | None => limit_of exts v
      | Some f => v = Some f /\ filter (fun e => e.1 = EXT_RECORD_SIZE_LIMIT) exts = []
      end.
Proof.
  revert rest found. induction fuel as [fuel IH] using lt_wf_ind. intros rest found Hok Hf.
  destruct (ext_cases rest Hok) as [(et & d & tail & -> & Het & Hd & Hok') | Hbad].
  - destruct fuel as [| fuel]; [cbn in Hf; lia |].
    assert (length tail <= fuel)%nat as Hf'.
    { rewrite length_app in Hf. pose proof (blen_ext et d). pose proof (blen_nonneg d). unfold blen in *. lia. }
    rewrite peek_step by done.
    assert (bytes_ok d) as Hdok by (unfold ext, vec16 in Hok; rewrite !bytes_ok_app in Hok; tauto).
    destruct (peek_ext_cases (et, d) found Hdok) as [[Hne ->] | [(l & He & Hl & -> & ->) | (Heq & [x ->] & Hl)]]; run.
    + destruct (IH fuel ltac:(lia) tail found Hok' Hf') as [Hn Hi]. split; [done |]. intros v. rewrite Hi.
      split; intros (exts & Hx & Hw & Hm).
      * exists ((et, d) :: exts). split; [by constructor |]. rewrite Hw. split; [done |].
        unfold limit_of. destruct found; by rewrite filter_cons_False.
      * apply exts_wire_cons_inv in Hw as (exts' & -> & ->); [| done..]. apply Forall_cons in Hx as [_ Hx].
        exists exts'. split; [done |]. split; [done |]. unfold limit_of in *.
        destruct found; by rewrite filter_cons_False in Hm.
    + apply pair_equal_spec in He as [-> ->].
      destruct (IH fuel ltac:(lia) tail (Some l) Hok' Hf') as [Hn Hi]. split; [done |]. intros v. rewrite Hi.
      split; intros (exts & Hx & Hw & Hm).
      * destruct Hm as [-> Hm]. exists ((EXT_RECORD_SIZE_LIMIT, be_bytes 2 l) :: exts). split; [by constructor |].
        rewrite Hw. split; [done |]. unfold limit_of. rewrite filter_cons_True by done. by rewrite Hm.
      * apply exts_wire_cons_inv in Hw as (exts' & -> & ->); [| done..]. apply Forall_cons in Hx as [_ Hx].
        exists exts'. split; [done |]. split; [done |]. destruct Hm as [Hm Hv].
        rewrite filter_cons_True in Hm by done. destruct v as [v |]; [| done].
        pose proof (f_equal tail Hm) as Htl. split; [| exact Htl]. f_equal.
        apply (f_equal (fun x => default [] (snd <$> head x))) in Hm. symmetry. by apply be_bytes_inj_u16.
    + split; [done |]. intros v. split; [done |]. intros (exts & Hx & Hw & Hm). exfalso.
      apply exts_wire_cons_inv in Hw as (exts' & -> & ->); [| done..]. cbn [fst] in Heq. subst et.
      unfold limit_of in Hm. rewrite filter_cons_True in Hm by done.
      destruct found as [f |]; [by destruct Hm |]. destruct Hm as [Hm _]. destruct v as [v |]; [| done].
      apply (f_equal (fun x => default [] (snd <$> head x))) in Hm. cbn [head fmap option_fmap option_map snd default from_option id] in Hm.
      subst d. by destruct (Hl v eq_refl).
  - destruct rest as [| b rest].
    { assert (peek_loop fuel [] found = Ok found) as -> by (by destruct fuel). split; [done |]. intros v. split.
      - intros [= <-]. exists []. split; [constructor |]. split; [done |]. by destruct found.
      - intros (exts & Hx & Hw & Hm). rewrite (not_ext_block _ _ Hbad Hx Hw) in Hm.
        destruct found; [by destruct Hm as [-> _] |]. destruct Hm as [Hm _]. by destruct v. }
    destruct (peek_not_ext fuel (b :: rest) found Hbad) as [x ->]; [done | done |].
    split; [done |]. intros v. split; [done |]. intros (exts & Hx & Hw & _).
    by rewrite (not_ext_block _ _ Hbad Hx Hw) in Hw.
Qed.
End peek_lemmas.

Section reassembler.
Context `{Usize}.

Lemma flight_bytes_spec {E} r :
  bytes_ok (sfr_buf r) ->
  exists o, flight_bytes (E := E) r = Ok o /\ is_complete (E := E) r = Ok (bool_decide (is_Some o)) /\
    forall fl, o = Some fl <-> flight_of (sfr_buf r) fl.
Proof.
  intros Hok. unfold flight_bytes, is_complete, flight_end_offset.
  destruct (flight_end_cases (E := E) (length (sfr_buf r)) [] (sfr_buf r) Hok (le_n _)) as [(fl & Hfl & Hl) | [Hl Hno]];
    rewrite blen_nil in Hl; cbn [app] in Hl; rewrite Hl; run.
  - pose proof Hfl as (msgs & fin & tail & Hm & Hfin & Hw & Hb). rewrite Z.add_0_l.
    assert (slice (sfr_buf r) 0 (blen fl) = Some fl) as -> by (rewrite Hb; by apply slice_prefix). run.
    exists (Some fl). split_and!; [done | by rewrite bool_decide_true |]. intros fl'. split; [by intros [= <-] |]. intros Hfl'. f_equal.
    eapply flight_of_unique; [exact Hfl | exact Hfl'].
  - exists None. split_and!; [done | by rewrite bool_decide_false by (by intros [? ?]) |]. intros fl'. split; [done |]. intros Hfl'. by destruct (Hno fl').
Qed.

(** The EncryptedExtensions message at the head of a flight. *)
Definition ee_of (flight : bytes) (ee : bytes) : Prop :=
  blen ee < U24 /\ exists rest, flight = hs_msg HS_ENCRYPTED_EXTENSIONS ee ++ rest.

(** The body of an EncryptedExtensions. *)
Definition ee_wire (exts : list (Z * bytes)) : bytes := vec16 (exts_wire exts).

Lemma peek_ee_body ee :
  bytes_ok ee ->
  let m := if blen ee <? 2 then Err FlTruncated else
    e0 ← or_panic (at_idx ee 0); e1 ← or_panic (at_idx ee 1);
    if negb (blen ee =? 2 + be16 e0 e1) then Err FlTruncated else
    rest ← or_panic (slice_from ee 2); peek_loop (length rest) rest None in
  no_panic m /\ forall v, m = Ok v <->
    exists exts, exts_ok exts /\ is_u16 (blen (exts_wire exts)) /\ ee = ee_wire exts /\ limit_of exts v.
Proof.
  intros Hok. cbv zeta.
  assert (forall exts : list (Z * bytes), ee = ee_wire exts -> blen ee = 2 + blen (exts_wire exts)) as Hw
    by (intros exts ->; apply blen_vec16).
  destruct (Z.ltb_spec (blen ee) 2) as [Hs | Hs].
  { split; [done |]. intros v. split; [done |]. intros (exts & _ & _ & He & _). apply Hw in He.
    pose proof (blen_nonneg (exts_wire exts)). lia. }
  destruct ee as [| e0 [| e1 body]]; try (rewrite ?blen_cons, ?blen_nil in Hs; lia).
  change (at_idx (e0 :: e1 :: body) 0) with (Some e0). change (at_idx (e0 :: e1 :: body) 1) with (Some e1). run.
  do 2 (apply Forall_cons in Hok as [? Hok]).
  assert (forall exts, is_u16 (blen (exts_wire exts)) -> e0 :: e1 :: body = ee_wire exts ->
    body = exts_wire exts /\ be16 e0 e1 = blen (exts_wire exts)) as Hi.
  { intros exts Hu He. unfold ee_wire, vec16 in He. change (e0 :: e1 :: body) with ([e0; e1] ++ body) in He.
    apply app_inj_blen in He as [Hl ->]; [| by rewrite blen_be_bytes]. split; [done |]. by apply be16_be_bytes. }
  destruct (Z.eqb_spec (blen (e0 :: e1 :: body)) (2 + be16 e0 e1)) as [Hl | Hl]; cbn [negb].
  - unfold slice_from. change (e0 :: e1 :: body) with ([e0; e1] ++ body).
    rewrite (slice_suffix [e0; e1] body) by solve_blen. run. rewrite !blen_cons in Hl.
    destruct (peek_loop_exact (length body) body None Hok (le_n _)) as [Hn Hp]. split; [done |]. intros v. rewrite Hp.
    split; intros (exts & Hx & Hm).
    + destruct Hm as [Hb Hm]. exists exts. split; [done |].
      assert (be16 e0 e1 = blen (exts_wire exts)) as Hbe by (rewrite <- Hb; lia).
      split; [rewrite <- Hbe; by apply be16_bound |]. split; [| done].
      unfold ee_wire, vec16. by rewrite <- Hbe, be_bytes_be16, Hb.
    + destruct Hm as (Hu & He & Hm). destruct (Hi exts Hu He) as [-> _]. by exists exts.
  - split; [done |]. intros v. split; [done |]. intros (exts & _ & Hu & He & _).
    destruct (Hi exts Hu He) as [_ Hbe]. apply Hw in He. lia.
Qed.

Lemma peek_spec r :
  bytes_ok (sfr_buf r) ->
  no_panic (peek_ee_record_size_limit r) /\
  forall v, peek_ee_record_size_limit r = Ok v <->
    exists flight exts, flight_of (sfr_buf r) flight /\ ee_of flight (ee_wire exts) /\ exts_ok exts /\
      is_u16 (blen (exts_wire exts)) /\ limit_of exts v.
Proof.
  intros Hok. unfold peek_ee_record_size_limit.
  destruct (flight_bytes_spec (E := FlightError) r Hok) as (o & -> & _ & Ho). run.
  destruct o as [fl |]; run.
  2: { split; [done |]. intros v. split; [done |]. intros (fl & exts & Hfl & _). by apply Ho in Hfl. }
  assert (flight_of (sfr_buf r) fl) as Hfl by (by apply Ho).
  assert (bytes_ok fl) as Hflok.
  { destruct Hfl as (msgs & fin & tail & _ & _ & _ & Hb). rewrite Hb in Hok. by apply bytes_ok_app in Hok as [? _]. }
  assert (exists ty body rest, fl = hs_msg ty body ++ rest /\ blen body < U24) as (ty & body & rest & Hw & Hbl).
  { destruct Hfl as (msgs & fin & tail & Hm & Hfin & -> & _). destruct msgs as [| [ty body] msgs].
    - exists HS_FINISHED, fin, []. by rewrite app_nil_r.
    - apply Forall_cons in Hm as [[_ Hb] _]. exists ty, body, (head_wire msgs ++ hs_msg HS_FINISHED fin).
      split; [| done]. unfold head_wire. cbn [fmap list_fmap concat fst snd]. by rewrite <- !app_assoc. }
  assert (forall (exts : list (Z * bytes)), (exists fl0, flight_of (sfr_buf r) fl0 /\ ee_of fl0 (ee_wire exts)) ->
    ty = HS_ENCRYPTED_EXTENSIONS /\ body = ee_wire exts) as Hee.
  { intros exts (fl0 & Hfl0 & Hel & rest0 & ->). apply Ho in Hfl0. apply (inj Some) in Hfl0. rewrite Hw in Hfl0.
    by apply hs_msg_inj in Hfl0 as (-> & -> & _). }
  assert (exists b1 b2 b3, be_bytes 3 (blen body) = [b1; b2; b3]) as (b1 & b2 & b3 & Hb3) by (cbn; eauto).
  pose proof (blen_nonneg body). pose proof (blen_nonneg rest).
  assert (fl = ([ty; b1; b2; b3] ++ body) ++ rest) as Hw4.
  { rewrite Hw. unfold hs_msg. by rewrite Hb3. }
  assert (blen fl = 4 + blen body + blen rest) as Hfll by (rewrite Hw, blen_app, blen_hs_msg; done).
  rewrite (proj2 (Z.ltb_ge _ 4)) by lia.
  assert (forall i x, at_idx [ty; b1; b2; b3] i = Some x -> i < 4 -> at_idx fl i = Some x) as Hat.
  { intros i x Hx Hi. rewrite Hw4, <- app_assoc. by rewrite at_idx_app_l. }
  rewrite (Hat 0 ty), (Hat 1 b1), (Hat 2 b2), (Hat 3 b3) by (reflexivity || lia). run.
  destruct (Z.eqb_spec ty HS_ENCRYPTED_EXTENSIONS) as [-> | Hty]; cbn [negb].
  2: { split; [done |]. intros v. split; [done |]. intros (fl0 & exts & Hfl0 & He & _).
       by destruct (Hee exts (ex_intro _ fl0 (conj Hfl0 He))). }
  assert (be24 b1 b2 b3 = blen body) as Hbe.
  { change (be24 b1 b2 b3) with (from_be [b1; b2; b3]). rewrite <- Hb3. apply from_be_be_bytes_small.
    change (256 ^ Z.of_nat 3) with U24. lia. }
  rewrite Hbe, (proj2 (Z.ltb_ge _ (4 + blen body))) by lia.
  assert (slice fl 4 (4 + blen body) = Some body) as ->
    by (rewrite Hw4, <- app_assoc; by apply slice_middle). run.
  assert (bytes_ok body) as Hbok.
  { rewrite Hw4 in Hflok. rewrite !bytes_ok_app in Hflok. tauto. }
  destruct (peek_ee_body body Hbok) as [Hn Hp]. split; [exact Hn |]. intros v.
  etransitivity; [exact (Hp v) |]. split.
  - intros (exts & Hx & Hu & -> & Hlim). exists fl, exts. split_and!; try done. split; [done | by exists rest].
  - intros (fl0 & exts & Hfl0 & He & Hx & Hu & Hlim). destruct (Hee exts) as [_ Hbody]; [by exists fl0 |].
    by exists exts.
Qed.
End reassembler.

(** Several records' contents, in order. *)
Fixpoint push_all `{HeaplessVec} (N : Z) (r : ServerFlightReassembler) (chunks : list bytes)
    : outcome ReassemblyError ServerFlightReassembler :=
  match chunks with
  | [] => Ok r
  | c :: chunks => r ← push_content N r c; push_all N r chunks
  end.

Lemma push_content_eq `{HeaplessVec} N r c :
  push_content N r c
  = if blen (sfr_buf r) + blen c <=? N then Ok {| sfr_buf := sfr_buf r ++ c |} else Err RsOverflow.
Proof. unfold push_content. rewrite vec_extend_spec. by destruct (_ <=? N). Qed.

Lemma push_all_eq `{HeaplessVec} N r chunks :
  blen (sfr_buf r) <= N ->
  push_all N r chunks
  = if blen (sfr_buf r) + blen (concat chunks) <=? N then Ok {| sfr_buf := sfr_buf r ++ concat chunks |}
    else Err RsOverflow.
Proof.
  revert r. induction chunks as [| c chunks IH]; intros r Hr; cbn [push_all concat].
  - rewrite blen_nil, app_nil_r, (proj2 (Z.leb_le _ _)) by lia. by destruct r.
  - rewrite push_content_eq, blen_app. pose proof (blen_nonneg (concat chunks)).
    destruct (Z.leb_spec (blen (sfr_buf r) + blen c) N) as [Hc | Hc]; run.
    + rewrite IH by (cbn; rewrite blen_app; lia). cbn [sfr_buf]. by rewrite blen_app, <- app_assoc, Z.add_assoc.
    + by rewrite (proj2 (Z.leb_gt _ _)) by lia.
Qed.

(** C27. The TLS flight is reassembled exactly, however the server cuts it into records:
    pushing any sequence of contents keeps their concatenation or refuses it for
    capacity; the flight is complete precisely when that concatenation has a complete
    Finished, and [flight_bytes] is then the prefix through the first one, whatever
    follows; the record size limit read from it is the value of the single such
    extension of a well-formed EncryptedExtensions, everything else is an error, and no
    input panics. *)
Theorem tls_flight_reassembly `{Usize, HeaplessVec} (N : Z) (chunks : list bytes) :
  0 <= N -> Forall bytes_ok chunks ->
  match push_all N ServerFlightReassembler_new chunks with
  | Ok r =>
      blen (concat chunks) <= N /\
      (exists o, flight_bytes (E := FlightError) r = Ok o /\
         is_complete (E := FlightError) r = Ok (bool_decide (is_Some o)) /\
         forall flight, o = Some flight <-> flight_of (concat chunks) flight) /\
      no_panic (peek_ee_record_size_limit r) /\
      forall v, peek_ee_record_size_limit r = Ok v <->
        exists flight exts, flight_of (concat chunks) flight /\ ee_of flight (ee_wire exts) /\ exts_ok exts /\
          is_u16 (blen (exts_wire exts)) /\ limit_of exts v
  | Err RsOverflow => N < blen (concat chunks)
  | Panic => False
  end.
Proof.
  intros HN Hok. rewrite push_all_eq by done. cbn [ServerFlightReassembler_new sfr_buf app].
  rewrite blen_nil, Z.add_0_l. destruct (Z.leb_spec (blen (concat chunks)) N) as [Hl | Hl]; [| done].
  assert (bytes_ok (concat chunks)) as Hc by (by apply Forall_concat).
  split; [done |]. split; [by apply (flight_bytes_spec {| sfr_buf := concat chunks |}) |].
  by apply (peek_spec {| sfr_buf := concat chunks |}).
Qed.

Section demo.
#[local] Existing Instances usize32 heapless_model.

(** EncryptedExtensions with a limit of 8192 split over two records, the Finished, and a
    ticket behind it. *)
Definition demo_chunks : list bytes :=
  [take 5 (hs_msg HS_ENCRYPTED_EXTENSIONS (ee_wire [(EXT_RECORD_SIZE_LIMIT, be_bytes 2 8192)]));
   drop 5 (hs_msg HS_ENCRYPTED_EXTENSIONS (ee_wire [(EXT_RECORD_SIZE_LIMIT, be_bytes 2 8192)]))
     ++ hs_msg HS_FINISHED [1; 2] ++ [4; 0]].

Lemma tls_flight_reassembly_witness :
  exists r, push_all 64 ServerFlightReassembler_new demo_chunks = Ok r /\
    peek_ee_record_size_limit r = Ok (Some 8192) /\
    flight_of (concat demo_chunks) (take 18 (concat demo_chunks)).
Proof.
  assert (Forall bytes_ok demo_chunks) as Hok.
  { apply List.Forall_cons; [| apply List.Forall_cons; [| apply List.Forall_nil]];
      apply bytes_okb_sound; vm_compute; reflexivity. }
  pose proof (tls_flight_reassembly 64 demo_chunks ltac:(lia) Hok) as Ht.
  exists {| sfr_buf := concat demo_chunks |}.
  assert (push_all 64 ServerFlightReassembler_new demo_chunks = Ok {| sfr_buf := concat demo_chunks |}) as Hp
    by (vm_compute; reflexivity).
  rewrite Hp in Ht. destruct Ht as (_ & (o & Ho & _ & Hf) & _). split; [exact Hp |].
  split; [vm_compute; reflexivity |]. apply Hf.
  assert (flight_bytes (E := FlightError) {| sfr_buf := concat demo_chunks |}
          = Ok (Some (take 18 (concat demo_chunks)))) as Hfb by (vm_compute; reflexivity).
  rewrite Hfb in Ho. apply Ok_inj in Ho. by symmetry.
Defined.
End demo.
