(* ===== verification/DtlsSession.v ===== *)
(** * [dtls/transport.rs], [dtls/client.rs], [dtls/stream.rs]: the DTLS session

    The datagram transport as an interface with an observable send history, the
    client state after the handshake, and its [send] and [recv] loops: record size
    limit, sequence numbers, replay protection, coalesced records and the bounded
    resending of the client Finished. *)
From S2P Require Import Prelude Deps Consts Aead DtlsRecord DtlsHello Replay.

(** ** [trait DatagramTransport]

    [net_log] is everything ever handed to [send]; it is an observation of the
    transport, not something the client can read. *)
Class DatagramTransport := {
  Net : Type;
  NetError : Type;
  net_send : Net -> bytes -> Net * outcome NetError unit;
  net_recv : Net -> bytes -> Net * (bytes * outcome NetError (option Z));
  net_log : Net -> list bytes;
  net_send_log net d : net_log (net_send net d).1 = net_log net ++ [d];
  net_send_total net d : no_panic (net_send net d).2;
  net_recv_log net buf : net_log (net_recv net buf).1 = net_log net;
  net_recv_total net buf : no_panic (net_recv net buf).2.2;
  net_recv_len net buf : blen (net_recv net buf).2.1 = blen buf;
  net_recv_bytes net buf : bytes_ok buf -> bytes_ok (net_recv net buf).2.1;
  net_recv_bound net buf n : (net_recv net buf).2.2 = Ok (Some n) -> 0 <= n <= blen buf
}.

(** A link that delivers a fixed sequence of datagrams, then times out. *)
Definition script_recv (net : list bytes * list bytes) (buf : bytes)
    : (list bytes * list bytes) * (bytes * outcome unit (option Z)) :=
  match net.2 with
  | [] => (net, (buf, Ok None))
  | d :: ds =>
      let d := as_u8 <$> take (length buf) d in
      ((net.1, ds), (d ++ drop (length d) buf, Ok (Some (blen d))))
  end.

Definition script_net : DatagramTransport.
Proof.
  refine {| Net := list bytes * list bytes; NetError := unit;
            net_send net d := ((net.1 ++ [d], net.2), Ok tt);
            net_recv := script_recv; net_log := fst |}; unfold script_recv; try done.
  - intros [l [| d ds]] buf; done.
  - intros [l [| d ds]] buf; done.
  - intros [l [| d ds]] buf; cbn [fst snd]; [done |].
    rewrite blen_app, blen_drop. unfold blen. rewrite length_fmap, length_take. lia.
  - intros [l [| d ds]] buf Hb; cbn [fst snd]; [done |]. apply bytes_ok_app. split.
    + apply Forall_fmap, Forall_forall. intros x _. unfold compose, is_u8, as_u8. apply Z.mod_pos_bound. done.
    + by apply Forall_drop.
  - intros [l [| d ds]] buf n; cbn [fst snd]; [done |]. intros [= <-]. unfold blen.
    rewrite length_fmap, length_take. lia.
Defined.

Inductive DtlsClientError (E : Type) :=
| DeTransport (e : E)
| DeTimeout | DeProtocol | DeHandshake | DeKeySchedule | DeRng | DeBufferTooSmall
| DeStrategyRejected | DePubkeyMismatch | DeHostnameMismatch | DeCertVerify | DeRecordSizeLimit.
Arguments DeTransport {E} _.
Arguments DeTimeout {E}.
Arguments DeProtocol {E}.
Arguments DeHandshake {E}.
Arguments DeKeySchedule {E}.
Arguments DeRng {E}.
Arguments DeBufferTooSmall {E}.
Arguments DeStrategyRejected {E}.
Arguments DePubkeyMismatch {E}.
Arguments DeHostnameMismatch {E}.
Arguments DeCertVerify {E}.
Arguments DeRecordSizeLimit {E}.

Definition MAX_FLIGHT_ATTEMPTS : Z := 5.

Record DtlsClient := {
  dc_client_app : EpochKeys;
  dc_server_app : EpochKeys;
  dc_send_seq : Z;
  dc_recv_hint : Z;
  dc_server_replay : ReplayWindow;
  dc_fin_flight : bytes;
  dc_fin_flight_len : Z;
  dc_fin_resends_left : Z;
  dc_recv_cid_len : Z;
  dc_send_cid : bytes;
  dc_send_cid_len : Z;
  dc_recv_stash : bytes;
  dc_recv_stash_len : Z;
  dc_peer_record_limit : option Z
}.

(** Field updates. *)
Definition set_send_seq (v : Z) (c : DtlsClient) : DtlsClient :=
  {| dc_client_app := dc_client_app c; dc_server_app := dc_server_app c; dc_send_seq := v;
     dc_recv_hint := dc_recv_hint c; dc_server_replay := dc_server_replay c;
     dc_fin_flight := dc_fin_flight c; dc_fin_flight_len := dc_fin_flight_len c;
     dc_fin_resends_left := dc_fin_resends_left c; dc_recv_cid_len := dc_recv_cid_len c;
     dc_send_cid := dc_send_cid c; dc_send_cid_len := dc_send_cid_len c;
     dc_recv_stash := dc_recv_stash c; dc_recv_stash_len := dc_recv_stash_len c;
     dc_peer_record_limit := dc_peer_record_limit c |}.

Definition set_resends (v : Z) (c : DtlsClient) : DtlsClient :=
  {| dc_client_app := dc_client_app c; dc_server_app := dc_server_app c; dc_send_seq := dc_send_seq c;
     dc_recv_hint := dc_recv_hint c; dc_server_replay := dc_server_replay c;
     dc_fin_flight := dc_fin_flight c; dc_fin_flight_len := dc_fin_flight_len c;
     dc_fin_resends_left := v; dc_recv_cid_len := dc_recv_cid_len c;
     dc_send_cid := dc_send_cid c; dc_send_cid_len := dc_send_cid_len c;
     dc_recv_stash := dc_recv_stash c; dc_recv_stash_len := dc_recv_stash_len c;
     dc_peer_record_limit := dc_peer_record_limit c |}.

(** [server_replay.mark(seq)] and [recv_hint = recv_hint.max(seq + 1)] and the end of
    Finished resending. *)
Definition accept_seq (s : Z) (c : DtlsClient) : DtlsClient :=
  {| dc_client_app := dc_client_app c; dc_server_app := dc_server_app c; dc_send_seq := dc_send_seq c;
     dc_recv_hint := Z.max (dc_recv_hint c) ((s + 1) mod U64);
     dc_server_replay := mark (dc_server_replay c) s;
     dc_fin_flight := dc_fin_flight c; dc_fin_flight_len := dc_fin_flight_len c;
     dc_fin_resends_left := 0; dc_recv_cid_len := dc_recv_cid_len c;
     dc_send_cid := dc_send_cid c; dc_send_cid_len := dc_send_cid_len c;
     dc_recv_stash := dc_recv_stash c; dc_recv_stash_len := dc_recv_stash_len c;
     dc_peer_record_limit := dc_peer_record_limit c |}.

Definition set_stash (b : bytes) (n : Z) (c : DtlsClient) : DtlsClient :=
  {| dc_client_app := dc_client_app c; dc_server_app := dc_server_app c; dc_send_seq := dc_send_seq c;
     dc_recv_hint := dc_recv_hint c; dc_server_replay := dc_server_replay c;
     dc_fin_flight := dc_fin_flight c; dc_fin_flight_len := dc_fin_flight_len c;
     dc_fin_resends_left := dc_fin_resends_left c; dc_recv_cid_len := dc_recv_cid_len c;
     dc_send_cid := dc_send_cid c; dc_send_cid_len := dc_send_cid_len c;
     dc_recv_stash := b; dc_recv_stash_len := n;
     dc_peer_record_limit := dc_peer_record_limit c |}.

Definition is_ciphertext_record (first : Z) : bool := Z.land first 0xE0 =? 0x20.

Section session.
Context `{Usize, AeadCipher, RawCiphers, SubtleCt, DatagramTransport} (S_ : Suite).
Notation Error := (DtlsClientError NetError).

Definition lift_net {A} (o : outcome NetError A) : outcome Error A := map_err DeTransport o.

(** The connection id stamped on outgoing records. *)
Definition outgoing_cid (c : DtlsClient) : outcome Error (option bytes) :=
  if 0 <? dc_send_cid_len c
  then cid ← or_panic (slice (dc_send_cid c) 0 (dc_send_cid_len c)); Ok (Some cid)
  else Ok None.

(** The part of [send] before the transport: the sealed record. *)
Definition seal_app (c : DtlsClient) (payload out : bytes) : outcome Error (bytes * bytes) :=
  _ ← (match dc_peer_record_limit c with
       | Some limit => if limit <? blen payload + 1 then Err DeRecordSizeLimit else Ok tt
       | None => Ok tt
       end);
  cid ← outgoing_cid c;
  map_err (fun _ => DeBufferTooSmall)
    (seal S_ (dc_client_app c)
       {| sh_epoch := 3; sh_seq := dc_send_seq c; sh_seq_len := Two; sh_cid := cid |}
       payload CT_APPLICATION_DATA out).

(** [DtlsClient::send] *)
Definition send (c : DtlsClient) (net : Net) (payload out : bytes)
    : (DtlsClient * Net) * outcome Error bytes :=
  match seal_app c payload out with
  | Ok (out', sealed) =>
      let '(net', r) := net_send net sealed in
      match lift_net r with
      | Ok _ => ((set_send_seq ((dc_send_seq c + 1) mod U64) c, net'), Ok out')
      | Err e => ((c, net'), Err e)
      | Panic => ((c, net'), Panic)
      end
  | Err e => ((c, net), Err e)
  | Panic => ((c, net), Panic)
  end.

(** What the body of the walk does next. *)
Inductive walk_step :=
| WsContinue (pos : Z)
| WsBreak
| WsReturn (r : outcome Error Z).

(** The receiver's state during [recv]: the session, the transport, the datagram
    buffer [dg] and the caller's buffer. *)
Notation walk_state := (DtlsClient * Net * bytes * bytes)%type.

(** A leading epoch-2 record: resend the client Finished while the budget lasts. *)
Definition resend_finished (c : DtlsClient) (net : Net) : (DtlsClient * Net) * outcome Error unit :=
  if 0 <? dc_fin_resends_left c then
    let c := set_resends (dc_fin_resends_left c - 1) c in
    match slice (dc_fin_flight c) 0 (dc_fin_flight_len c) with
    | None => ((c, net), Panic)
    | Some fin => let '(net', r) := net_send net fin in ((c, net'), lift_net r)
    end
  else ((c, net), Ok tt).

(** Delivering the content of an accepted application record that ends at [rest]. *)
Definition deliver (c : DtlsClient) (net : Net) (dg : bytes) (n rest : Z) (content buf : bytes)
    : walk_state * walk_step :=
  match splice buf 0 content with
  | None => ((c, net, dg, buf), WsReturn (Err DeBufferTooSmall))
  | Some buf' =>
      if rest <? n then
        match slice dg rest n ≫= splice (dc_recv_stash c) 0 with
        | None => ((c, net, dg, buf'), WsReturn Panic)
        | Some stash => ((set_stash stash (n - rest) c, net, dg, buf'), WsReturn (Ok (blen content)))
        end
      else ((c, net, dg, buf'), WsReturn (Ok (blen content)))
  end.

(** One iteration of the walk over [dg[..n]], at [pos < n]. *)
Definition walk_record (c : DtlsClient) (net : Net) (dg : bytes) (n pos : Z) (buf : bytes)
    : walk_state * walk_step :=
  match at_idx dg pos with
  | None => ((c, net, dg, buf), WsReturn Panic)
  | Some first =>
    if negb (is_ciphertext_record first) then ((c, net, dg, buf), WsBreak) else
    if (pos =? 0) && (Z.land first 0x03 =? 0x02) then
      let '((c, net), r) := resend_finished c net in
      match r with
      | Ok _ => ((c, net, dg, buf), WsBreak)
      | Err e => ((c, net, dg, buf), WsReturn (Err e))
      | Panic => ((c, net, dg, buf), WsReturn Panic)
      end
    else
    match slice dg pos n with
    | None => ((c, net, dg, buf), WsReturn Panic)
    | Some view =>
      let '(view', res) := open S_ (dc_server_app c) (dc_recv_cid_len c) (dc_recv_hint c) view in
      match splice dg pos view' with
      | None => ((c, net, dg, buf), WsReturn Panic)
      | Some dg =>
        match res with
        | Panic => ((c, net, dg, buf), WsReturn Panic)
        | Err _ => ((c, net, dg, buf), WsBreak)
        | Ok opened =>
          let record_len := op_record_len opened in
          let seq := op_seq opened in
          if record_len =? 0 then ((c, net, dg, buf), WsBreak) else
          if negb (accepts (dc_server_replay c) seq)
          then ((c, net, dg, buf), WsContinue (pos + record_len)) else
          let c := accept_seq seq c in
          if op_content_type opened =? CT_APPLICATION_DATA
          then deliver c net dg n (pos + record_len) (op_content opened) buf
          else ((c, net, dg, buf), WsContinue (pos + record_len))
        end
      end
    end
  end.

(** The walk from [pos]: [Ok None] when the datagram ends without application data,
    [Ok (Some len)] when a payload has been put in [buf].  Every iteration advances
    [pos], so [fuel > n - pos] suffices. *)
Fixpoint recv_walk (fuel : nat) (n pos : Z) (st : walk_state)
    : walk_state * outcome Error (option Z) :=
  match fuel with
  | O => (st, Panic)
  | S fuel =>
      if negb (pos <? n) then (st, Ok None) else
      let '(c, net, dg, buf) := st in
      match walk_record c net dg n pos buf with
      | (st, WsContinue pos) => recv_walk fuel n pos st
      | (st, WsBreak) => (st, Ok None)
      | (st, WsReturn (Ok len)) => (st, Ok (Some len))
      | (st, WsReturn (Err e)) => (st, Err e)
      | (st, WsReturn Panic) => (st, Panic)
      end
  end.

(** The datagram to process: the stash first, then the transport.  [Ok None] is the
    transport's timeout. *)
Definition next_datagram (c : DtlsClient) (net : Net) (dg : bytes)
    : (DtlsClient * Net * bytes) * outcome Error (option Z) :=
  if 0 <? dc_recv_stash_len c then
    let len := dc_recv_stash_len c in
    match slice (dc_recv_stash c) 0 len ≫= splice dg 0 with
    | None => ((c, net, dg), Panic)
    | Some dg => ((set_stash (dc_recv_stash c) 0 c, net, dg), Ok (Some len))
    end
  else
    let '(net', (dg', r)) := net_recv net dg in ((c, net', dg'), lift_net r).

(** The outer loop of [recv], at most [rounds] times; a result of [None] means that it
    is still waiting. *)
Fixpoint recv_loop (rounds : nat) (c : DtlsClient) (net : Net) (dg buf : bytes)
    : (DtlsClient * Net * bytes) * option (outcome Error (option Z)) :=
  match rounds with
  | O => ((c, net, buf), None)
  | S rounds =>
      match next_datagram c net dg with
      | ((c, net, dg), Err e) => ((c, net, buf), Some (Err e))
      | ((c, net, dg), Panic) => ((c, net, buf), Some Panic)
      | ((c, net, dg), Ok None) => ((c, net, buf), Some (Ok None))
      | ((c, net, dg), Ok (Some n)) =>
          match recv_walk (S (Z.to_nat n)) n 0 (c, net, dg, buf) with
          | ((c, net, dg, buf), Ok None) => recv_loop rounds c net dg buf
          | ((c, net, dg, buf), r) => ((c, net, buf), Some r)
          end
      end
  end.

(** [DtlsClient::recv] *)
Definition recv (rounds : nat) (c : DtlsClient) (net : Net) (buf : bytes)
    : (DtlsClient * Net * bytes) * option (outcome Error (option Z)) :=
  recv_loop rounds c net (zeros MAX_DATAGRAM) buf.
End session.

(** ** Invariants *)

(** A sequence number and content that the holder of the keys sealed. *)
Definition authentic `{AeadCipher, SubtleCt} (ek : EpochKeys) (seq ct : Z) (content : bytes) : Prop :=
  exists hd c t inner,
    seal_in_place (ek_keys ek) hd seq inner = Some (c, t) /\
    split_inner_plaintext inner = Ok (content, ct).

(** [hist] is every sequence number accepted so far. *)
Record session_ok (c : DtlsClient) (hist : list Z) : Prop := {
  so_replay : repr (dc_server_replay c) hist;
  so_hist : Forall is_u64 hist;
  so_fresh : NoDup hist;
  so_hint : is_u64 (dc_recv_hint c);
  so_stash : blen (dc_recv_stash c) = MAX_DATAGRAM;
  so_stash_len : 0 <= dc_recv_stash_len c <= MAX_DATAGRAM;
  so_fin : 0 <= dc_fin_flight_len c <= blen (dc_fin_flight c);
  so_resends : 0 <= dc_fin_resends_left c;
  so_recv_cid : 0 <= dc_recv_cid_len c;
  so_send_cid : 0 <= dc_send_cid_len c <= blen (dc_send_cid c) /\ blen (dc_send_cid c) = MAX_CID_LEN
}.

(** The fields that no operation changes. *)
Record same_config (c c' : DtlsClient) : Prop := {
  sc_client : dc_client_app c' = dc_client_app c;
  sc_server : dc_server_app c' = dc_server_app c;
  sc_fin : dc_fin_flight c' = dc_fin_flight c;
  sc_fin_len : dc_fin_flight_len c' = dc_fin_flight_len c;
  sc_recv_cid : dc_recv_cid_len c' = dc_recv_cid_len c;
  sc_send_cid : dc_send_cid c' = dc_send_cid c;
  sc_send_cid_len : dc_send_cid_len c' = dc_send_cid_len c;
  sc_limit : dc_peer_record_limit c' = dc_peer_record_limit c
}.

#[export] Instance same_config_preorder : PreOrder same_config.
Proof. split; [by intros [] | intros ??? [] []; constructor; congruence]. Qed.

(** The client Finished, as [recv] resends it. *)
Definition finished_flight (c : DtlsClient) : bytes :=
  take (Z.to_nat (dc_fin_flight_len c)) (dc_fin_flight c).

(** A history that records every acceptance has no duplicates to offer. *)
Lemma spec_accepts_fresh hist s :
  Forall (fun x => 0 <= x) hist -> spec_accepts hist s = true -> s ∉ hist.
Proof.
  unfold spec_accepts. intros Hf Ha Hin. pose proof (list_max_Z_ge _ _ Hin).
  rewrite (bool_decide_eq_true_2 (s ∈ hist)), andb_false_r, orb_false_r in Ha by done.
  destruct (Z.ltb_spec (list_max_Z hist) s); [lia |]. rewrite orb_false_r in Ha.
  apply bool_decide_eq_true in Ha. subst. by apply elem_of_nil in Hin.
Qed.

Lemma u64_succ s : is_u64 ((s + 1) mod U64).
Proof. apply Z.mod_pos_bound. unfold U64. lia. Qed.

Lemma accept_seq_ok c hist s :
  session_ok c hist -> is_u64 s -> accepts (dc_server_replay c) s = true ->
  session_ok (accept_seq s c) (s :: hist).
Proof.
  intros [Hr Hh Hn Hi] Hs Ha. pose proof Hs as [Hs0 _].
  rewrite (repr_accepts _ _ _ Hr Hs0) in Ha. pose proof (u64_succ s).
  constructor; cbn; try done; try lia.
  - by apply repr_mark.
  - by constructor.
  - constructor; [| done]. eapply spec_accepts_fresh; [| exact Ha].
    eapply Forall_impl; [exact Hh |]. unfold is_u64. lia.
  - unfold is_u64 in *. lia.
Qed.

Lemma set_stash_ok c hist b n :
  session_ok c hist -> blen b = MAX_DATAGRAM -> 0 <= n <= MAX_DATAGRAM -> session_ok (set_stash b n c) hist.
Proof. intros [] ??. by constructor. Qed.

Section progress.
Context `{Usize, AeadCipher, RawCiphers, SubtleCt, DatagramTransport} (S_ : Suite).

(** What [recv] may do to a session: accept new, authentic sequence numbers, and send
    copies of the Finished out of the resend budget. *)
Record recv_progress (c : DtlsClient) (net : Net) (hist : list Z)
    (c' : DtlsClient) (net' : Net) (hist' : list Z) : Prop := {
  rp_ok : session_ok c' hist';
  rp_new : exists new, hist' = new ++ hist /\
    Forall (fun s => exists ct content, authentic (dc_server_app c) s ct content) new;
  rp_log : exists k, net_log net' = net_log net ++ replicate k (finished_flight c) /\
    Z.of_nat k + dc_fin_resends_left c' <= dc_fin_resends_left c;
  rp_config : same_config c c' /\ dc_send_seq c' = dc_send_seq c
}.

Lemma recv_progress_refl c net hist : session_ok c hist -> recv_progress c net hist c net hist.
Proof.
  intros Hok. split; [done | by exists [] | exists O; rewrite app_nil_r; split; [done | lia] | done].
Qed.

Lemma recv_progress_trans c1 n1 h1 c2 n2 h2 c3 n3 h3 :
  recv_progress c1 n1 h1 c2 n2 h2 -> recv_progress c2 n2 h2 c3 n3 h3 -> recv_progress c1 n1 h1 c3 n3 h3.
Proof.
  intros [_ (new1 & -> & Ha1) (k1 & Hl1 & Hb1) [Hc1 Hs1]] [Hok (new2 & -> & Ha2) (k2 & Hl2 & Hb2) [Hc2 Hs2]].
  assert (finished_flight c2 = finished_flight c1) as Hf.
  { unfold finished_flight. by rewrite (sc_fin _ _ Hc1), (sc_fin_len _ _ Hc1). }
  split; [done | | | split; [by etransitivity | congruence]].
  - exists (new2 ++ new1). rewrite app_assoc. split; [done |]. apply Forall_app. split; [| done].
    by rewrite (sc_server _ _ Hc1) in Ha2.
  - exists (k1 + k2)%nat. rewrite Hl2, Hl1, Hf, replicate_add, app_assoc. split; [done | lia].
Qed.

(** Accepting one authentic record. *)
Lemma recv_progress_accept c net hist s ct content :
  session_ok c hist -> is_u64 s -> accepts (dc_server_replay c) s = true ->
  authentic (dc_server_app c) s ct content ->
  recv_progress c net hist (accept_seq s c) net (s :: hist).
Proof.
  intros Hok Hs Ha Hauth. pose proof (so_resends _ _ Hok).
  split; [by apply accept_seq_ok | | | by split].
  - exists [s]. split; [done |]. apply Forall_singleton. by exists ct, content.
  - exists O. rewrite app_nil_r. split; [done |]. cbn. lia.
Qed.

Lemma recv_progress_stash c net hist b n :
  session_ok c hist -> blen b = MAX_DATAGRAM -> 0 <= n <= MAX_DATAGRAM ->
  recv_progress c net hist (set_stash b n c) net hist.
Proof.
  intros. split; [by apply set_stash_ok | by exists [] | | by split].
  exists O. rewrite app_nil_r. split; [done |]. cbn. lia.
Qed.

Lemma resend_finished_spec c net hist :
  session_ok c hist ->
  let '((c', net'), r) := resend_finished c net in
  recv_progress c net hist c' net' hist /\ no_panic r.
Proof.
  intros Hok. unfold resend_finished. pose proof (so_fin _ _ Hok).
  destruct (Z.ltb_spec 0 (dc_fin_resends_left c)); [| split; [by apply recv_progress_refl | done]].
  cbn [set_resends dc_fin_flight dc_fin_flight_len].
  destruct (slice_in_range (dc_fin_flight c) 0 (dc_fin_flight_len c)) as [fin Hf]; [lia.. |].
  rewrite Hf. destruct (net_send net fin) as [net' r] eqn:Hs.
  pose proof (net_send_log net fin) as Hlog. pose proof (net_send_total net fin) as Ht.
  rewrite Hs in Hlog, Ht. cbn in Hlog, Ht. split; [| by apply no_panic_map_err].
  split; [by destruct Hok; constructor; cbn; try done; lia | by exists [] | | by split].
  exists 1%nat. split; [| cbn; lia]. rewrite Hlog. cbn [replicate]. do 2 f_equal.
  apply slice_Some_inv in Hf as (_ & _ & _ & _ & ->). unfold finished_flight. f_equal. lia.
Qed.

(** What one iteration of the walk promises about its outcome. *)
Definition step_ok (c : DtlsClient) (hist hist' : list Z) (pos : Z) (buf buf' : bytes) (st : walk_step)
    : Prop :=
  match st with
  | WsContinue pos' => pos < pos' /\ buf' = buf
  | WsBreak => buf' = buf
  | WsReturn (Ok len) =>
      exists s content, hist' = s :: hist /\ authentic (dc_server_app c) s CT_APPLICATION_DATA content /\
        len = blen content /\ len <= blen buf /\ buf' = content ++ drop (length content) buf
  | WsReturn (Err _) => buf' = buf
  | WsReturn Panic => False
  end.

Lemma deliver_spec c net dg n rest content buf c0 hist s :
  session_ok c (s :: hist) -> blen dg = MAX_DATAGRAM -> 0 <= rest -> n <= MAX_DATAGRAM ->
  authentic (dc_server_app c0) s CT_APPLICATION_DATA content ->
  let '((c', net', dg', buf'), st) := deliver c net dg n rest content buf in
  recv_progress c net (s :: hist) c' net' (s :: hist) /\ dg' = dg /\
  step_ok c0 hist (s :: hist) (rest - 1) buf buf' st.
Proof.
  intros Hok Hdg Hrest Hn Hauth. unfold deliver. pose proof (so_stash _ _ Hok) as Hst.
  destruct (splice buf 0 content) as [buf' |] eqn:Hb; [| by split; [apply recv_progress_refl |]].
  apply splice_Some_inv in Hb as (_ & Hle & _ & ->). cbn [take Z.to_nat] in *.
  change (Z.to_nat 0) with O. rewrite take_0. cbn [app Nat.add].
  destruct (Z.ltb_spec rest n).
  - destruct (slice_in_range dg rest n) as [tl Htl]; [lia.. |].
    assert (blen tl = n - rest) as Htll by (by apply slice_Some_inv in Htl as (_ & _ & _ & ? & _)).
    destruct (splice_in_range (dc_recv_stash c) 0 tl) as [stash Hs]; [lia.. |].
    rewrite Htl. cbn [mbind option_bind]. rewrite Hs.
    apply splice_Some_inv in Hs as (_ & _ & Hsl & _).
    split; [apply recv_progress_stash; [done | congruence | lia] | split; [done |]].
    exists s, content. split_and!; [done | done | done | lia | done].
  - split; [by apply recv_progress_refl | split; [done |]].
    exists s, content. split_and!; [done | done | done | lia | done].
Qed.

Lemma walk_record_spec c net dg n pos buf hist :
  session_ok c hist -> blen dg = MAX_DATAGRAM -> 0 <= pos < n -> n <= MAX_DATAGRAM ->
  let '((c', net', dg', buf'), st) := walk_record S_ c net dg n pos buf in
  exists hist', recv_progress c net hist c' net' hist' /\ blen dg' = MAX_DATAGRAM /\
    step_ok c hist hist' pos buf buf' st.
Proof.
  intros Hok Hdg Hpos Hn. pose proof (recv_progress_refl c net hist Hok) as Hrefl.
  unfold walk_record. destruct (at_idx_in_range dg pos ltac:(lia)) as [first ->].
  destruct (negb (is_ciphertext_record first)); [by exists hist |].
  destruct ((pos =? 0) && _).
  { pose proof (resend_finished_spec c net hist Hok) as Hr.
    destruct (resend_finished c net) as [[c' net'] [[] | e |]], Hr as [Hr Hnp]; by exists hist. }
  destruct (slice_in_range dg pos n ltac:(lia) ltac:(lia) ltac:(lia)) as [view Hview]. rewrite Hview.
  apply slice_Some_inv in Hview as (_ & _ & _ & Hvl & _).
  pose proof (open_spec S_ (dc_server_app c) (dc_recv_cid_len c) (dc_recv_hint c) view (so_recv_cid _ _ Hok)) as Ho.
  destruct (open S_ _ _ _ view) as [view' res]. destruct Ho as (Hl' & _ & Hres).
  destruct (splice_in_range dg pos view' ltac:(lia) ltac:(lia)) as [dg' Hd]. rewrite Hd.
  apply splice_Some_inv in Hd as (_ & _ & Hdl & _). rewrite Hdg in Hdl.
  destruct res as [o | |]; [| by exists hist | done].
  destruct Hres as (Hseq & _ & Hlen & _ & hd0 & hd & ct & t & inner & rest & _ & _ & Hseal & Hsplit).
  specialize (Hseq (so_hint _ _ Hok)).
  assert (authentic (dc_server_app c) (op_seq o) (op_content_type o) (op_content o)) as Hauth
    by (by exists hd, ct, t, inner).
  destruct (Z.eqb_spec (op_record_len o) 0); [lia |].
  destruct (accepts (dc_server_replay c) (op_seq o)) eqn:Hacc; cbn [negb];
    [| exists hist; split; [done | split; [done | split; [lia | done]]]].
  pose proof (recv_progress_accept c net hist (op_seq o) _ _ Hok Hseq Hacc Hauth) as Hp.
  destruct (Z.eqb_spec (op_content_type o) CT_APPLICATION_DATA) as [Hct |];
    [| exists (op_seq o :: hist); split; [done | split; [done | split; [lia | done]]]].
  rewrite Hct in Hauth.
  pose proof (deliver_spec (accept_seq (op_seq o) c) net dg' n (pos + op_record_len o) (op_content o) buf c hist
    (op_seq o) (rp_ok _ _ _ _ _ _ Hp) Hdl ltac:(lia) Hn Hauth) as Hdel.
  destruct (deliver _ _ _ _ _ _ _) as [[[[c' net'] dg''] buf'] st]. destruct Hdel as (Hp' & -> & Hst).
  exists (op_seq o :: hist). split; [by eapply recv_progress_trans | split; [done |]].
  destruct st as [p | | []]; cbn [step_ok] in *; [| done..].
  destruct Hst. split; [lia | done].
Qed.

(** What a finished [recv] (or walk) has done to the caller's buffer. *)
Definition delivered (c : DtlsClient) (hist hist' : list Z) (buf buf' : bytes)
    (r : outcome (DtlsClientError NetError) (option Z)) : Prop :=
  match r with
  | Ok (Some len) =>
      exists s content rest, hist' = s :: rest /\ s ∉ hist /\
        authentic (dc_server_app c) s CT_APPLICATION_DATA content /\
        len = blen content /\ len <= blen buf /\ buf' = content ++ drop (length content) buf
  | Ok None | Err _ => buf' = buf
  | Panic => False
  end.

Lemma recv_walk_spec fuel c net dg n pos buf hist :
  session_ok c hist -> blen dg = MAX_DATAGRAM -> 0 <= pos -> n <= MAX_DATAGRAM ->
  Z.max 0 (n - pos) < Z.of_nat fuel ->
  let '((c', net', dg', buf'), r) := recv_walk S_ fuel n pos (c, net, dg, buf) in
  exists hist', recv_progress c net hist c' net' hist' /\ blen dg' = MAX_DATAGRAM /\
    delivered c hist hist' buf buf' r.
Proof.
  revert c net dg pos buf hist. induction fuel as [| fuel IH]; intros c net dg pos buf hist Hok Hdg Hpos Hn Hf;
    [lia |]. cbn [recv_walk].
  destruct (Z.ltb_spec pos n) as [Hlt |]; cbn [negb]; [| exists hist; split; [by apply recv_progress_refl | done]].
  pose proof (walk_record_spec c net dg n pos buf hist Hok Hdg ltac:(lia) Hn) as Hstep.
  destruct (walk_record S_ c net dg n pos buf) as [[[[c' net'] dg'] buf'] st].
  destruct Hstep as (hist' & Hp & Hdg' & Hst). pose proof (rp_ok _ _ _ _ _ _ Hp) as Hok'.
  destruct st as [p | | [len | e |]]; cbn [step_ok] in Hst.
  - destruct Hst as [Hp' ->].
    specialize (IH c' net' dg' p buf hist' Hok' Hdg' ltac:(lia) Hn ltac:(lia)).
    destruct (recv_walk S_ fuel n p (c', net', dg', buf)) as [[[[c2 net2] dg2] buf2] r].
    destruct IH as (h2 & Hp2 & Hd2 & Hr). exists h2.
    split; [by eapply recv_progress_trans | split; [done |]].
    destruct r as [[len |] | |]; try done. destruct Hr as (s & content & rest & Hh & Hfr & Ha & Hrest).
    exists s, content, rest. rewrite (sc_server _ _ (proj1 (rp_config _ _ _ _ _ _ Hp))) in Ha.
    destruct (rp_new _ _ _ _ _ _ Hp) as (new & -> & _).
    split_and!; try done; try apply Hrest. intros Hin. apply Hfr, elem_of_app. by right.
  - by exists hist'.
  - destruct Hst as (s & content & -> & Ha & Hrest). exists (s :: hist). split; [done | split; [done |]].
    exists s, content, hist. split; [done |]. split; [| by split].
    by apply so_fresh, NoDup_cons_1_1 in Hok'.
  - by exists hist'.
  - done.
Qed.

Lemma next_datagram_spec c net dg hist :
  session_ok c hist -> blen dg = MAX_DATAGRAM ->
  let '((c', net', dg'), r) := next_datagram c net dg in
  recv_progress c net hist c' net' hist /\ blen dg' = MAX_DATAGRAM /\ no_panic r /\
  (forall n, r = Ok (Some n) -> 0 <= n <= MAX_DATAGRAM).
Proof.
  intros Hok Hdg. unfold next_datagram. pose proof (so_stash _ _ Hok). pose proof (so_stash_len _ _ Hok) as Hsl.
  destruct (Z.ltb_spec 0 (dc_recv_stash_len c)).
  - destruct (slice_in_range (dc_recv_stash c) 0 (dc_recv_stash_len c)) as [st Hst]; [lia.. |].
    rewrite Hst. cbn [mbind option_bind]. apply slice_Some_inv in Hst as (_ & _ & _ & Hl & _).
    destruct (splice_in_range dg 0 st) as [dg' Hd]; [lia.. |]. rewrite Hd.
    apply splice_Some_inv in Hd as (_ & _ & Hdl & _).
    split; [apply recv_progress_stash; [done | done | unfold MAX_DATAGRAM; lia] |].
    split; [congruence | split; [done |]]. intros n [= <-]. lia.
  - destruct (net_recv net dg) as [net' [dg' r]] eqn:Hr.
    pose proof (net_recv_log net dg) as Hlog. pose proof (net_recv_total net dg) as Ht.
    pose proof (net_recv_len net dg) as Hlen. pose proof (net_recv_bound net dg) as Hb.
    rewrite Hr in Hlog, Ht, Hlen, Hb. cbn [fst snd] in *.
    split; [| split; [congruence | split; [by apply no_panic_map_err |]]].
    + split; [done | by exists [] | | done]. exists O. rewrite app_nil_r. split; [done | lia].
    + unfold lift_net. intros n Hn%map_err_Ok_inv. rewrite <- Hdg. by apply Hb.
Qed.

Lemma recv_loop_spec rounds c net dg buf hist :
  session_ok c hist -> blen dg = MAX_DATAGRAM ->
  let '((c', net', buf'), r) := recv_loop S_ rounds c net dg buf in
  exists hist', recv_progress c net hist c' net' hist' /\
    match r with Some r => delivered c hist hist' buf buf' r | None => buf' = buf end.
Proof.
  revert c net dg buf hist. induction rounds as [| rounds IH]; intros c net dg buf hist Hok Hdg; cbn [recv_loop].
  { exists hist. split; [by apply recv_progress_refl | done]. }
  pose proof (next_datagram_spec c net dg hist Hok Hdg) as Hn.
  destruct (next_datagram c net dg) as [[[c1 net1] dg1] r1]. destruct Hn as (Hp1 & Hdg1 & Hnp & Hb).
  pose proof (rp_ok _ _ _ _ _ _ Hp1) as Hok1.
  destruct r1 as [[n |] | |]; [| by exists hist.. | done].
  specialize (Hb n eq_refl).
  pose proof (recv_walk_spec (S (Z.to_nat n)) c1 net1 dg1 n 0 buf hist Hok1 Hdg1 ltac:(lia) ltac:(lia) ltac:(lia)) as Hw.
  destruct (recv_walk S_ (S (Z.to_nat n)) n 0 (c1, net1, dg1, buf)) as [[[[c2 net2] dg2] buf2] r2].
  destruct Hw as (h2 & Hp2 & Hdg2 & Hd). pose proof (rp_ok _ _ _ _ _ _ Hp2) as Hok2.
  pose proof (recv_progress_trans _ _ _ _ _ _ _ _ _ Hp1 Hp2) as Hp12.
  pose proof (sc_server _ _ (proj1 (rp_config _ _ _ _ _ _ Hp12))) as Hsrv.
  pose proof (sc_server _ _ (proj1 (rp_config _ _ _ _ _ _ Hp1))) as Hsrv1.
  destruct r2 as [[len |] | |].
  - exists h2. split; [done |]. destruct Hd as (s & content & rest & Hd). exists s, content, rest.
    by rewrite <- Hsrv1.
  - cbn [delivered] in Hd. subst buf2. specialize (IH c2 net2 dg2 buf h2 Hok2 Hdg2).
    destruct (recv_loop S_ rounds c2 net2 dg2 buf) as [[[c3 net3] buf3] r3].
    destruct IH as (h3 & Hp3 & Hd3). exists h3. split; [by eapply recv_progress_trans |].
    destruct r3 as [[[len |] | |] |]; try done.
    destruct Hd3 as (s & content & rest & Hh & Hfr & Ha & Hrest). exists s, content, rest.
    rewrite Hsrv in Ha. split_and!; try done; try apply Hrest.
    destruct (rp_new _ _ _ _ _ _ Hp2) as (new & -> & _).
    intros Hin. apply Hfr, elem_of_app. by right.
  - exists h2. by split.
  - done.
Qed.
End progress.

(** C9. Receiving is safe, whatever the network delivers: [recv] never panics; every
    sequence number it newly accepts is authentic and was never accepted before; what
    it delivers is the authentic content of such a record and goes to the front of
    the caller's buffer, which is otherwise untouched; the session's invariants and
    its configuration are preserved. *)
Theorem recv_safe `{Usize, AeadCipher, RawCiphers, SubtleCt, DatagramTransport} (S_ : Suite)
    (rounds : nat) (c : DtlsClient) (net : Net) (buf : bytes) (hist : list Z) :
  session_ok c hist ->
  let '((c', net', buf'), r) := recv S_ rounds c net buf in
  exists new, session_ok c' (new ++ hist) /\ same_config c c' /\
    Forall (fun s => exists ct content, authentic (dc_server_app c) s ct content) new /\
    match r with Some r => delivered c hist (new ++ hist) buf buf' r | None => buf' = buf end.
Proof.
  intros Hok. pose proof (recv_loop_spec S_ rounds c net (zeros MAX_DATAGRAM) buf hist Hok eq_refl) as Hr.
  unfold recv. destruct (recv_loop _ _ _ _ _ _) as [[[c' net'] buf'] r]. destruct Hr as (h & [Ho (new & -> & Ha) _ Hc] & Hd).
  exists new. by split_and!; try apply Hc.
Qed.

(** ** Sending *)

(** Content over 64 KiB is refused before anything is written. *)
Lemma seal_too_large `{Usize, AeadCipher, RawCiphers, SubtleCt} S_ ek hdr content ct out :
  U16 <= blen content -> seal S_ ek hdr content ct out = Err DrRecordTooLarge.
Proof.
  intros Hc. unfold seal, TAG_LEN.
  destruct (checked_add (blen content) 1) as [i |] eqn:Hi; [run | done].
  apply checked_add_Some_inv in Hi as [-> _].
  destruct (checked_add _ 16) as [b |] eqn:Hb; [run | done].
  apply checked_add_Some_inv in Hb as [-> _].
  destruct (checked_add _ _) as [t |]; [run | done].
  by destruct (Z.ltb_spec (U16 - 1) (blen content + 1 + 16)); [| lia].
Qed.

Section sending.
Context `{Usize, AeadCipher, RawCiphers, SubtleCt, DatagramTransport} (S_ : Suite).

(** The header of an outgoing application record. *)
Definition app_header (c : DtlsClient) (seq : Z) : SealHeader :=
  {| sh_epoch := 3; sh_seq := seq; sh_seq_len := Two;
     sh_cid := if 0 <? dc_send_cid_len c then Some (take (Z.to_nat (dc_send_cid_len c)) (dc_send_cid c))
               else None |}.

(** [rec] is a record that [seal] writes for this session. *)
Definition sealed_app (c : DtlsClient) (seq : Z) (payload rec : bytes) : Prop :=
  exists out out', seal S_ (dc_client_app c) (app_header c seq) payload CT_APPLICATION_DATA out = Ok (out', rec).

Lemma outgoing_cid_ok c hist : session_ok c hist -> outgoing_cid c = Ok (sh_cid (app_header c (dc_send_seq c))).
Proof.
  intros Hok. pose proof (so_send_cid _ _ Hok) as [Hs _]. unfold outgoing_cid. cbn [app_header sh_cid].
  destruct (0 <? dc_send_cid_len c); [| done].
  destruct (slice_in_range (dc_send_cid c) 0 (dc_send_cid_len c)) as [cid Hc]; [lia.. |]. rewrite Hc. run.
  apply slice_Some_inv in Hc as (_ & _ & _ & _ & ->). do 2 f_equal. by rewrite Z.sub_0_r.
Qed.

Lemma app_header_ok c hist seq :
  session_ok c hist -> cid_ok (app_header c seq) /\ blen (default [] (sh_cid (app_header c seq))) = dc_send_cid_len c.
Proof.
  intros Hok. pose proof (so_send_cid _ _ Hok) as [Hs _]. unfold cid_ok. cbn [app_header sh_cid].
  destruct (Z.ltb_spec 0 (dc_send_cid_len c)); cbn [default from_option id].
  - assert (blen (take (Z.to_nat (dc_send_cid_len c)) (dc_send_cid c)) = dc_send_cid_len c) as Hl
      by (rewrite blen_take; lia).
    split; [| done]. intros [= Hnil]. rewrite Hnil in Hl. change (blen (@nil Z)) with 0 in Hl. lia.
  - split; [done |]. change (blen (@nil Z)) with 0. lia.
Qed.

Lemma seal_no_panic ek hdr content ct out :
  blen (default [] (sh_cid hdr)) < U24 -> no_panic (seal S_ ek hdr content ct out).
Proof.
  intros Hc. destruct (Z.le_gt_cases U16 (blen content)); [by rewrite seal_too_large |].
  rewrite seal_eq by (done || unfold U24, U16 in *; lia). cbn zeta.
  split_guard; [done |]. split_guard; [done |]. by destruct (seal_in_place _ _ _ _) as [[]|].
Qed.

(** What one [send] does. *)
Definition send_result (c : DtlsClient) (net : Net) (payload out : bytes) (c' : DtlsClient) (net' : Net)
    (r : outcome (DtlsClientError NetError) bytes) : Prop :=
  match r with
  | Ok out' => exists rec,
      sealed_app c (dc_send_seq c) payload rec /\ net_log net' = net_log net ++ [rec] /\
      out' = rec ++ drop (length rec) out /\
      c' = set_send_seq ((dc_send_seq c + 1) mod U64) c /\
      (forall limit, dc_peer_record_limit c = Some limit -> blen payload + 1 <= limit)
  | Err (DeTransport _) => exists rec,
      sealed_app c (dc_send_seq c) payload rec /\ net_log net' = net_log net ++ [rec] /\ c' = c
  | Err DeRecordSizeLimit => c' = c /\ net' = net /\
      exists limit, dc_peer_record_limit c = Some limit /\ limit < blen payload + 1
  | Err DeBufferTooSmall => c' = c /\ net' = net /\
      (blen out < 22 + dc_send_cid_len c + blen payload \/ U16 <= blen payload + 17 \/
       exists hd, seal_in_place (ek_keys (dc_client_app c)) hd (dc_send_seq c) (payload ++ [CT_APPLICATION_DATA]) = None)
  | Err _ | Panic => False
  end.

Lemma send_spec c net payload out hist :
  session_ok c hist ->
  let '((c', net'), r) := send S_ c net payload out in send_result c net payload out c' net' r.
Proof.
  intros Hok. unfold send, seal_app.
  destruct (match dc_peer_record_limit c with Some _ => _ | None => _ end) as [[] | e |] eqn:Hlim; cbn [mbind outcome_bind].
  2: { destruct (dc_peer_record_limit c) as [limit |] eqn:El; [| done].
       destruct (Z.ltb_spec limit (blen payload + 1)); [| done]. injection Hlim as <-. cbn [send_result]. eauto. }
  2: { destruct (dc_peer_record_limit c) as [limit |]; [| done]. by destruct (limit <? _). }
  rewrite (outgoing_cid_ok c hist Hok). cbn [mbind outcome_bind].
  change {| sh_epoch := 3; sh_seq := dc_send_seq c; sh_seq_len := Two; sh_cid := sh_cid (app_header c (dc_send_seq c)) |}
    with (app_header c (dc_send_seq c)).
  destruct (app_header_ok c hist (dc_send_seq c) Hok) as [Hcid Hcl].
  pose proof (so_send_cid _ _ Hok) as [Hs1 Hs2]. change MAX_CID_LEN with 20 in Hs2.
  assert (blen (default [] (sh_cid (app_header c (dc_send_seq c)))) < U24) as Hc24 by (unfold U24; lia).
  destruct (seal S_ _ _ payload _ out) as [[out' rec] | e |] eqn:Hseal; cbn [map_err].
  - assert (blen payload < U24) as Hp24.
    { destruct (Z.le_gt_cases U16 (blen payload)); [by rewrite seal_too_large in Hseal | unfold U16, U24 in *; lia]. }
    assert (sealed_app c (dc_send_seq c) payload rec) as Hrec by (by exists out, out').
    apply seal_Ok_inv in Hseal as (ct & t & sq & Hs & _ & _ & _ & _ & _ & Hout); [| done..].
    pose proof (net_send_log net rec) as Hlog. pose proof (net_send_total net rec) as Ht.
    destruct (net_send net rec) as [net' [[] | e |]]; cbn [fst snd] in *; [| | done].
    + exists rec. split_and!; try done. intros limit Hl. rewrite Hl in Hlim.
      by destruct (Z.ltb_spec limit (blen payload + 1)).
    + by exists rec.
  - cbn [send_result]. split; [done |]. split; [done |].
    destruct (Z.le_gt_cases U16 (blen payload + 17)); [tauto |].
    rewrite seal_eq in Hseal by (done || unfold U24, U16 in *; lia). cbn zeta in Hseal.
    rewrite Hcl in Hseal. cbn [app_header sh_seq_len seq_bytes sh_seq] in Hseal.
    destruct (Z.ltb_spec (U16 - 1) (blen payload + 17)); [lia |].
    destruct (Z.ltb_spec (blen out) (3 + dc_send_cid_len c + 2 + (blen payload + 17))); [lia |].
    right. right. eexists. by destruct (seal_in_place _ _ _ _) as [[]|] eqn:?.
  - exfalso. by eapply (seal_no_panic (dc_client_app c)).
Qed.

Lemma set_send_seq_ok c hist v : session_ok c hist -> session_ok (set_send_seq v c) hist.
Proof. intros []. by constructor. Qed.

(** A session that is used: any number of [send]s and [recv]s, in any order, as long as
    the transport accepts what is sent.  The list is the sequence numbers used. *)
Inductive session_run : DtlsClient -> Net -> list Z -> DtlsClient -> Net -> Prop :=
| run_done c net : session_run c net [] c net
| run_recv c net rounds buf c1 net1 buf' r seqs c2 net2 :
    recv S_ rounds c net buf = ((c1, net1, buf'), r) ->
    session_run c1 net1 seqs c2 net2 -> session_run c net seqs c2 net2
| run_send c net payload out out' c1 net1 seqs c2 net2 :
    send S_ c net payload out = ((c1, net1), Ok out') ->
    session_run c1 net1 seqs c2 net2 -> session_run c net (dc_send_seq c :: seqs) c2 net2
| run_refused c net payload out e c1 net1 seqs c2 net2 :
    send S_ c net payload out = ((c1, net1), Err e) -> (forall t, e <> DeTransport t) ->
    session_run c1 net1 seqs c2 net2 -> session_run c net seqs c2 net2.

(** [k] copies of the Finished and one sealed record per sequence number. *)
Definition run_log (c : DtlsClient) (net : Net) (seqs : list Z) (c' : DtlsClient) (net' : Net) : Prop :=
  exists k recs,
    net_log net' ≡ₚ net_log net ++ replicate k (finished_flight c) ++ recs /\
    Z.of_nat k + dc_fin_resends_left c' <= dc_fin_resends_left c /\
    Forall2 (fun seq rec => exists payload, sealed_app c seq payload rec) seqs recs.

Lemma sealed_app_config c c' seq payload rec :
  same_config c c' -> sealed_app c' seq payload rec -> sealed_app c seq payload rec.
Proof.
  intros [Hk _ _ _ _ Hcid Hlen _] (out & out' & Hs). exists out, out'.
  unfold app_header in *. by rewrite <- Hk, <- Hcid, <- Hlen.
Qed.

Lemma run_log_config c c1 net seqs c' net' :
  same_config c c1 -> dc_fin_resends_left c1 = dc_fin_resends_left c ->
  run_log c1 net seqs c' net' -> run_log c net seqs c' net'.
Proof.
  intros Hc Hr (k & recs & Hlog & Hk & Hrecs). exists k, recs.
  unfold finished_flight in *. rewrite (sc_fin _ _ Hc), (sc_fin_len _ _ Hc) in Hlog.
  split_and!; [done | lia |]. eapply Forall2_impl; [exact Hrecs |]. cbn.
  intros seq rec [payload Hs]. exists payload. by eapply sealed_app_config.
Qed.

Lemma seqZ_succ m n : 0 <= n -> seqZ m (n + 1) = m :: seqZ (m + 1) n.
Proof. intros Hn. rewrite seqZ_cons by lia. unfold Z.succ, Z.pred. do 2 f_equal; lia. Qed.

Lemma session_run_spec c net seqs c' net' hist :
  session_run c net seqs c' net' -> session_ok c hist ->
  0 <= dc_send_seq c -> dc_send_seq c + blen seqs < U64 ->
  (exists hist', session_ok c' hist') /\ run_log c net seqs c' net' /\
  seqs = seqZ (dc_send_seq c) (blen seqs) /\ dc_send_seq c' = dc_send_seq c + blen seqs.
Proof.
  intros Hrun. revert hist. induction Hrun as [c net | c net rounds buf c1 net1 buf' r seqs c2 net2 Hr _ IH
    | c net payload out out' c1 net1 seqs c2 net2 Hs _ IH
    | c net payload out e c1 net1 seqs c2 net2 Hs He _ IH]; intros hist Hok Hq0 Hu.
  - split; [by exists hist | split; [| split; [done | by rewrite blen_nil, Z.add_0_r]]].
    exists O, []. split_and!; [by rewrite app_nil_r | lia | done].
  - unfold recv in Hr. pose proof (recv_loop_spec S_ rounds c net (zeros MAX_DATAGRAM) buf hist Hok eq_refl) as Hl.
    rewrite Hr in Hl. destruct Hl as (h1 & [Hok1 _ (k1 & Hk1 & Hb1) [Hc Hq]] & _).
    rewrite <- Hq in *. destruct (IH h1 Hok1 Hq0 Hu) as (Hok2 & (k2 & recs & Hlog & Hk2 & Hrecs) & Hrest).
    split; [done | split; [| done]]. exists (k1 + k2)%nat, recs. split_and!; [| lia |].
    + unfold finished_flight in *. rewrite Hlog, Hk1, (sc_fin _ _ Hc), (sc_fin_len _ _ Hc), replicate_add.
      by rewrite <- !app_assoc.
    + eapply Forall2_impl; [exact Hrecs |]. cbn. intros seq rec [pl Hpl]. exists pl. by eapply sealed_app_config.
  - pose proof (send_spec c net payload out hist Hok) as Hsp. rewrite Hs in Hsp.
    destruct Hsp as (rec & Hrec & Hlog & _ & -> & _). rewrite blen_cons in Hu. pose proof (blen_nonneg seqs).
    rewrite Z.mod_small in IH by lia.
    destruct (IH hist (set_send_seq_ok _ _ _ Hok) ltac:(cbn; lia) ltac:(cbn; lia)) as (Hok2 & Hrl & Hseqs & Hq).
    split; [done | split; [| split]].
    + apply (run_log_config c) in Hrl; [| by constructor | done].
      destruct Hrl as (k & recs & Hl & Hk & Hrecs). exists k, (rec :: recs).
      split_and!; [| done | constructor; [by exists payload | done]].
      rewrite Hl, Hlog, <- app_assoc. apply Permutation_app_head. cbn. by rewrite Permutation_middle.
    + rewrite blen_cons, Z.add_comm, seqZ_succ by done. by f_equal.
    + rewrite blen_cons. cbn in Hq. lia.
  - pose proof (send_spec c net payload out hist Hok) as Hsp. rewrite Hs in Hsp.
    assert (c1 = c /\ net1 = net) as [-> ->].
    { destruct e as [t | | | | | | | | | | |]; cbn [send_result] in Hsp; try done; [by destruct (He t) | tauto..]. }
    by eapply IH.
Qed.
End sending.

(** A used session stays within its bounds: whatever is received and in whatever
    order payloads are sent, what goes out is at most the remaining budget of copies
    of the client Finished and one sealed record per payload; the sequence numbers of
    those records are consecutive from the session's counter, so no AEAD nonce is
    used twice. *)
Theorem session_run_bounded `{Usize, AeadCipher, RawCiphers, SubtleCt, DatagramTransport} (S_ : Suite)
    (c c' : DtlsClient) (net net' : Net) (seqs hist : list Z) :
  session_ok c hist -> 0 <= dc_send_seq c -> dc_send_seq c + blen seqs < U64 ->
  session_run S_ c net seqs c' net' ->
  (exists hist', session_ok c' hist') /\ run_log S_ c net seqs c' net' /\
  seqs = seqZ (dc_send_seq c) (blen seqs) /\ NoDup seqs /\ dc_send_seq c' = dc_send_seq c + blen seqs.
Proof.
  intros Hok Hq0 Hu Hr. destruct (session_run_spec S_ c net seqs c' net' hist Hr Hok Hq0 Hu) as (Ho & Hl & Hs & Hq).
  split_and!; try done. rewrite Hs. apply NoDup_seqZ.
Qed.

(** [send] transmits the payload: on success exactly one record was sent, which the
    session's keys sealed over the payload at the session's sequence number, within the
    peer's record size limit, and the counter advances; a payload over the limit or a
    too small buffer leaves the session and the network alone. *)
Theorem send_exact `{Usize, AeadCipher, RawCiphers, SubtleCt, DatagramTransport} (S_ : Suite)
    (c : DtlsClient) (net : Net) (payload out : bytes) (hist : list Z) :
  session_ok c hist ->
  let '((c', net'), r) := send S_ c net payload out in send_result S_ c net payload out c' net' r.
Proof. apply send_spec. Qed.

(** A [send] that fails in the transport has sealed its payload but keeps the sequence
    number, so the next payload is sealed under the same AEAD nonce. *)
Lemma send_retry_same_nonce `{Usize, AeadCipher, RawCiphers, SubtleCt, DatagramTransport} (S_ : Suite)
    c c1 c2 net net1 net2 p1 p2 out1 out2 out' t hist :
  session_ok c hist ->
  send S_ c net p1 out1 = ((c1, net1), Err (DeTransport t)) ->
  send S_ c1 net1 p2 out2 = ((c2, net2), Ok out') ->
  exists rec1 rec2, net_log net2 = net_log net ++ [rec1; rec2] /\
    sealed_app S_ c (dc_send_seq c) p1 rec1 /\ sealed_app S_ c (dc_send_seq c) p2 rec2.
Proof.
  intros Hok Hs1 Hs2. pose proof (send_spec S_ c net p1 out1 hist Hok) as Hr1. rewrite Hs1 in Hr1.
  destruct Hr1 as (rec1 & Hrec1 & Hl1 & ->).
  pose proof (send_spec S_ c net1 p2 out2 hist Hok) as Hr2. rewrite Hs2 in Hr2.
  destruct Hr2 as (rec2 & Hrec2 & Hl2 & _). exists rec1, rec2. by rewrite Hl2, Hl1, <- app_assoc.
Qed.

(** ** Delivery of coalesced records *)

(** A record of the peer, as it arrives. *)
Record wire_record := { wr_seq : Z; wr_ct : Z; wr_content : bytes; wr_bytes : bytes }.

Definition is_app (r : wire_record) : bool := wr_ct r =? CT_APPLICATION_DATA.

(** The records of one datagram, back to back. *)
Definition packed (rs : list wire_record) : bytes := concat (wr_bytes <$> rs).

(** Sequence numbers go up from [hint]; a few records may have been lost between. *)
Fixpoint in_order (hint : Z) (rs : list wire_record) : Prop :=
  match rs with
  | [] => True
  | r :: rs => hint <= wr_seq r < hint + 128 /\ wr_seq r + 1 < U64 /\ in_order (wr_seq r + 1) rs
  end.

Section delivery.
Context `{Usize, AeadCipher, RawCiphers, SubtleCt, DatagramTransport} (S_ : Suite).

(** [r] was sealed by the holder of [ek] for epoch 3, with the receiver's connection id. *)
Definition peer_record (ek : EpochKeys) (cid_len : Z) (r : wire_record) : Prop :=
  exists hdr out out',
    sh_epoch hdr = 3 /\ sh_seq hdr = wr_seq r /\ cid_ok hdr /\
    blen (default [] (sh_cid hdr)) = cid_len /\ cid_len <= 255 /\
    wr_ct r <> 0 /\ blen (wr_content r) <= TLS_PLAINTEXT_MAX /\
    seal S_ ek hdr (wr_content r) (wr_ct r) out = Ok (out', wr_bytes r).

(** A session that has accepted everything below [dc_recv_hint] it is going to see. *)
Record in_sync (c : DtlsClient) (hist : list Z) : Prop := {
  sy_ok : session_ok c hist;
  sy_below : Forall (fun s => s < dc_recv_hint c) hist
}.

Lemma in_sync_accepts c hist s : in_sync c hist -> dc_recv_hint c <= s -> is_u64 s -> accepts (dc_server_replay c) s = true.
Proof.
  intros [Hok Hb] Hs [Hs0 _]. rewrite (repr_accepts _ _ _ (so_replay _ _ Hok) Hs0). unfold spec_accepts.
  destruct (decide (hist = [])) as [-> | Hne]; [done |].
  assert (list_max_Z hist < s) as Hlt.
  { rewrite Forall_forall in Hb. enough (list_max_Z hist ∈ hist) as Hm by (specialize (Hb _ Hm); lia).
    apply list_max_Z_in; [done |]. eapply Forall_impl; [apply (so_hist _ _ Hok) |]. unfold is_u64. lia. }
  apply Z.ltb_lt in Hlt. by rewrite Hlt, orb_true_r.
Qed.

Lemma in_sync_accept c hist s :
  in_sync c hist -> dc_recv_hint c <= s -> 0 <= s -> s + 1 < U64 -> in_sync (accept_seq s c) (s :: hist) /\
  dc_recv_hint (accept_seq s c) = s + 1.
Proof.
  intros Hin Hs Hs0 Hu. pose proof Hin as [Hok Hb].
  assert (dc_recv_hint (accept_seq s c) = s + 1) as Hh by (cbn; rewrite Z.mod_small; lia).
  split; [| done]. split.
  - apply accept_seq_ok; [done | unfold is_u64; lia |]. eapply in_sync_accepts; [done.. |]. unfold is_u64. lia.
  - rewrite Hh. constructor; [lia |]. eapply Forall_impl; [exact Hb |]. cbn. lia.
Qed.

Lemma peer_record_len ek cid_len r : peer_record ek cid_len r -> 0 < blen (wr_bytes r).
Proof.
  intros (hdr & out & out' & _ & _ & _ & Hc & Hc' & _ & Hl & Hs). change TLS_PLAINTEXT_MAX with 16384 in Hl.
  apply seal_Ok_inv in Hs as (_ & _ & _ & _ & _ & _ & _ & -> & _); [| unfold U24; lia..].
  pose proof (blen_nonneg (wr_content r)). pose proof (seq_bytes_bound (sh_seq_len hdr)).
  pose proof (blen_nonneg (default [] (sh_cid hdr))). lia.
Qed.

(** One iteration of the walk on a record of the peer. *)
Lemma walk_peer_record c net dg n pos buf hist r tail :
  in_sync c hist -> peer_record (dc_server_app c) (dc_recv_cid_len c) r ->
  dc_recv_hint c <= wr_seq r < dc_recv_hint c + 128 -> wr_seq r + 1 < U64 ->
  slice dg pos n = Some (wr_bytes r ++ tail) ->
  exists dg', blen dg' = blen dg /\ slice dg' (pos + blen (wr_bytes r)) n = Some tail /\
    walk_record S_ c net dg n pos buf =
      if is_app r then deliver (accept_seq (wr_seq r) c) net dg' n (pos + blen (wr_bytes r)) (wr_content r) buf
      else ((accept_seq (wr_seq r) c, net, dg', buf), WsContinue (pos + blen (wr_bytes r))).
Proof.
  intros Hin Hpr Hseq Hu Hsl. pose proof (peer_record_len _ _ _ Hpr) as Hlen.
  destruct Hpr as (hdr & out & out' & He & Hs & Hcid & Hc & Hc' & Hct & Hl & Hseal).
  destruct Hin as [Hok Hb]. pose proof (so_hint _ _ Hok) as Hhint. unfold is_u64 in Hhint.
  assert (is_u64 (wr_seq r)) as Hsu by (unfold is_u64; lia).
  pose proof (seal_open_spec S_ (dc_server_app c) hdr (wr_content r) (wr_ct r) (dc_recv_hint c) out out'
    (wr_bytes r) tail Hcid) as Hopen.
  rewrite Hs, Hc in Hopen. destruct Hopen as (_ & o & view' & Hopen & Hvl & Hoc & Hot & Hos & _ & Hor);
    [unfold U24; lia | done | done | done | done | destruct (sh_seq_len hdr); cbn; lia | done |].
  apply seal_Ok_inv in Hseal as (ct & t & sq & _ & Hbytes & _); [| change TLS_PLAINTEXT_MAX with 16384 in Hl; unfold U24; lia..].
  pose proof (slice_decompose _ _ _ _ Hsl) as Hdg.
  pose proof Hsl as (Hpos & Hpn & Hnd & Hslen & _)%slice_Some_inv.
  set (pre := take (Z.to_nat pos) dg) in Hdg. set (post := drop (Z.to_nat n) dg) in Hdg.
  assert (blen pre = pos) as Hpre by (unfold pre; rewrite blen_take; lia).
  rewrite blen_app in Hslen.
  destruct (first_byte_flags hdr) as (Hf1 & _ & _ & _ & Hf2). rewrite He in Hf2.
  assert (at_idx dg pos = Some (first_byte hdr)) as Hfirst.
  { rewrite Hdg, Hbytes. cbn [app]. by apply at_idx_middle. }
  assert (splice dg pos (view' ++ tail) = Some (pre ++ (view' ++ tail) ++ post)) as Hsp.
  { rewrite Hdg. apply splice_middle; [done |]. rewrite !blen_app. lia. }
  exists (pre ++ (view' ++ tail) ++ post). split; [| split].
  - apply splice_Some_inv in Hsp. by destruct Hsp as (_ & _ & -> & _).
  - rewrite <- app_assoc, app_assoc. apply slice_middle; rewrite ?blen_app; lia.
  - unfold walk_record. rewrite Hfirst. unfold is_ciphertext_record.
    change 0xE0 with UNIFIED_HDR_FIXED_MASK. rewrite Hf1. cbn [negb]. change (negb (UNIFIED_HDR_FIXED =? 32)) with false. cbv iota.
    change 3 with HDR_EPOCH_LOW2. rewrite Hf2. change (Z.land (as_u8 3) HDR_EPOCH_LOW2 =? 2) with false.
    rewrite andb_false_r. rewrite Hsl, Hopen, Hsp. cbv zeta.
    rewrite Hor. destruct (Z.eqb_spec (blen (wr_bytes r)) 0); [lia |].
    rewrite Hos, Hot, Hoc. rewrite (in_sync_accepts c hist (wr_seq r)); [| by split | lia | done].
    cbn [negb]. unfold is_app. by destruct (wr_ct r =? CT_APPLICATION_DATA).
Qed.

(** A synchronised session whose stash holds the records [rs]. *)
Record holding (c : DtlsClient) (hist : list Z) (rs : list wire_record) : Prop := {
  ho_sync : in_sync c hist;
  ho_order : in_order (dc_recv_hint c) rs;
  ho_peer : Forall (peer_record (dc_server_app c) (dc_recv_cid_len c)) rs;
  ho_stash : slice (dc_recv_stash c) 0 (dc_recv_stash_len c) = Some (packed rs)
}.

Lemma packed_cons r rs : packed (r :: rs) = wr_bytes r ++ packed rs.
Proof. done. Qed.

Lemma in_sync_set_stash c hist b n :
  in_sync c hist -> blen b = MAX_DATAGRAM -> 0 <= n <= MAX_DATAGRAM -> in_sync (set_stash b n c) hist.
Proof. intros [Hok Hb] ??. split; [by apply set_stash_ok | done]. Qed.

(** The walk over a datagram whose first application record is [r]. *)
Lemma walk_delivers ctl r rest : forall fuel c net dg n pos buf hist,
  in_sync c hist -> blen dg = MAX_DATAGRAM -> dc_recv_stash_len c = 0 -> n - pos < Z.of_nat fuel ->
  in_order (dc_recv_hint c) (ctl ++ r :: rest) ->
  Forall (peer_record (dc_server_app c) (dc_recv_cid_len c)) (ctl ++ r :: rest) ->
  Forall (fun r => is_app r = false) ctl -> is_app r = true -> blen (wr_content r) <= blen buf ->
  slice dg pos n = Some (packed (ctl ++ r :: rest)) ->
  exists c' hist' dg', recv_walk S_ fuel n pos (c, net, dg, buf)
    = ((c', net, dg', wr_content r ++ drop (length (wr_content r)) buf), Ok (Some (blen (wr_content r)))) /\
    same_config c c' /\ holding c' hist' rest.
Proof.
  induction ctl as [| q ctl IH]; intros fuel c net dg n pos buf hist Hin Hdg Hst0 Hfuel Hord Hpeer Hctl Hr Hbuf Hsl;
    pose proof Hsl as (Hpos & _ & Hn & Hsll & _)%slice_Some_inv;
    cbn [app] in *; rewrite packed_cons in Hsl, Hsll; rewrite blen_app in Hsll;
    destruct Hord as (Hseq & Hu & Hord); apply Forall_cons in Hpeer as [Hq Hpeer];
    pose proof (peer_record_len _ _ _ Hq); pose proof (so_hint _ _ (sy_ok _ _ Hin)) as [Hh0 _].
  - destruct (walk_peer_record c net dg n pos buf hist r _ Hin Hq Hseq Hu Hsl) as (dg' & Hdg' & Hsl' & Hw).
    destruct fuel as [| fuel]; [pose proof (blen_nonneg (packed rest)); lia |]. cbn [recv_walk].
    pose proof (blen_nonneg (packed rest)).
    destruct (Z.ltb_spec pos n); [cbn [negb] | lia]. rewrite Hw, Hr.
    destruct (in_sync_accept c hist (wr_seq r) Hin ltac:(lia) ltac:(lia) Hu) as [Hin' Hhint].
    pose proof (so_stash _ _ (sy_ok _ _ Hin)) as Hsb.
    unfold deliver. destruct (splice_in_range buf 0 (wr_content r)) as [buf' Hb]; [lia.. |]. rewrite Hb.
    apply splice_Some_inv in Hb as (_ & _ & _ & ->). change (Z.to_nat 0) with O. rewrite take_0.
    cbn [app Nat.add].
    destruct (Z.ltb_spec (pos + blen (wr_bytes r)) n).
    + rewrite Hsl'. cbn [mbind option_bind accept_seq dc_recv_stash].
      assert (splice (dc_recv_stash c) 0 (packed rest)
              = Some (packed rest ++ drop (length (packed rest)) (dc_recv_stash c))) as Hs.
      { apply (splice_append [] (packed rest)); [done | lia]. }
      rewrite Hs. apply splice_Some_inv in Hs as (_ & _ & Hsbl & _).
      eexists _, (wr_seq r :: hist), dg'. split; [done | split; [by constructor |]].
      split; [apply in_sync_set_stash; [done | congruence | lia] | by rewrite <- Hhint in Hord | done |].
      cbn [set_stash dc_recv_stash dc_recv_stash_len]. apply slice_prefix; [done | lia].
    + eexists _, (wr_seq r :: hist), dg'. split; [done | split; [by constructor |]].
      split; [done | by rewrite <- Hhint in Hord | done |].
      cbn [accept_seq dc_recv_stash dc_recv_stash_len]. rewrite Hst0.
      assert (packed rest = []) as -> by (apply blen_zero_nil; lia).
      apply (slice_prefix [] (dc_recv_stash c)); done.
  - destruct (walk_peer_record c net dg n pos buf hist q _ Hin Hq Hseq Hu Hsl) as (dg' & Hdg' & Hsl' & Hw).
    apply Forall_cons in Hctl as [Hqa Hctl]. rewrite Hqa in Hw.
    pose proof (blen_nonneg (packed (ctl ++ r :: rest))).
    destruct fuel as [| fuel]; [lia |]. cbn [recv_walk].
    destruct (Z.ltb_spec pos n); [cbn [negb] | lia]. rewrite Hw.
    destruct (in_sync_accept c hist (wr_seq q) Hin ltac:(lia) ltac:(lia) Hu) as [Hin' Hhint].
    rewrite <- Hhint in Hord.
    destruct (IH fuel _ net dg' n (pos + blen (wr_bytes q)) buf _ Hin' ltac:(congruence) Hst0 ltac:(lia)
      Hord Hpeer Hctl Hr Hbuf Hsl') as (c' & hist' & dg2 & Hwalk & Hcfg & Hho).
    exists c', hist', dg2. split; [done | split; [| done]]. etransitivity; [| exact Hcfg]. by constructor.
Qed.

Lemma split_first_app rs r apps :
  filter (fun r => is_app r = true) rs = r :: apps ->
  exists ctl rest, rs = ctl ++ r :: rest /\ Forall (fun r => is_app r = false) ctl /\ is_app r = true /\
    filter (fun r => is_app r = true) rest = apps.
Proof.
  induction rs as [| q rs IH]; [done |]. rewrite filter_cons. destruct (decide (is_app q = true)) as [Hq | Hq].
  - intros [= -> <-]. by exists [], rs.
  - intros Hf. destruct (IH Hf) as (ctl & rest & -> & Hc & Hr & Hrest).
    exists (q :: ctl), rest. split_and!; [done | constructor; [by destruct (is_app q) | done] | done | done].
Qed.

(** One [recv] whose datagram, from the stash or the network, holds an application record. *)
Lemma recv_delivers c net buf c1 net1 dg n hist rs r apps rounds :
  next_datagram c net (zeros MAX_DATAGRAM) = ((c1, net1, dg), Ok (Some n)) ->
  in_sync c1 hist -> blen dg = MAX_DATAGRAM -> dc_recv_stash_len c1 = 0 -> same_config c c1 ->
  in_order (dc_recv_hint c1) rs -> Forall (peer_record (dc_server_app c1) (dc_recv_cid_len c1)) rs ->
  slice dg 0 n = Some (packed rs) ->
  filter (fun r => is_app r = true) rs = r :: apps -> blen (wr_content r) <= blen buf ->
  exists c' hist' rest, recv S_ (S rounds) c net buf
    = ((c', net1, wr_content r ++ drop (length (wr_content r)) buf), Some (Ok (Some (blen (wr_content r))))) /\
    same_config c c' /\ holding c' hist' rest /\ filter (fun r => is_app r = true) rest = apps.
Proof.
  intros Hnext Hin Hdg Hst Hcfg Hord Hpeer Hsl (ctl & rest & -> & Hctl & Hr & Hrest)%split_first_app Hbuf.
  unfold recv. cbn [recv_loop]. rewrite Hnext.
  destruct (walk_delivers ctl r rest (S (Z.to_nat n)) c1 net1 dg n 0 buf hist) as (c' & hist' & dg' & -> & Hcfg' & Hho);
    try done; [lia |].
  exists c', hist', rest. split; [done | split; [by etransitivity | done]].
Qed.

Lemma packed_pos ek cid rs r apps :
  Forall (peer_record ek cid) rs -> filter (fun r => is_app r = true) rs = r :: apps -> 0 < blen (packed rs).
Proof.
  intros Hp (ctl & rest & -> & _)%split_first_app. rewrite Forall_app, Forall_cons in Hp.
  destruct Hp as (_ & Hq & _). apply peer_record_len in Hq.
  unfold packed. rewrite fmap_app, concat_app, fmap_cons, !blen_app. cbn [concat]. rewrite blen_app.
  pose proof (blen_nonneg (concat (wr_bytes <$> ctl))). pose proof (blen_nonneg (concat (wr_bytes <$> rest))). lia.
Qed.

(** The stash comes before the network. *)
Lemma next_datagram_stash c net hist rs r apps :
  holding c hist rs -> filter (fun r => is_app r = true) rs = r :: apps ->
  exists dg, next_datagram c net (zeros MAX_DATAGRAM)
    = ((set_stash (dc_recv_stash c) 0 c, net, dg), Ok (Some (dc_recv_stash_len c))) /\
    blen dg = MAX_DATAGRAM /\ slice dg 0 (dc_recv_stash_len c) = Some (packed rs).
Proof.
  intros [Hin _ Hpeer Hst] Hf. pose proof (packed_pos _ _ _ _ _ Hpeer Hf).
  pose proof Hst as (_ & _ & Hle & Hpl & _)%slice_Some_inv. rewrite Z.sub_0_r in Hpl.
  pose proof (so_stash _ _ (sy_ok _ _ Hin)).
  unfold next_datagram. destruct (Z.ltb_spec 0 (dc_recv_stash_len c)); [| lia]. rewrite Hst. cbn [mbind option_bind].
  assert (splice (zeros MAX_DATAGRAM) 0 (packed rs)
          = Some (packed rs ++ drop (length (packed rs)) (zeros MAX_DATAGRAM))) as Hs.
  { apply (splice_append [] (packed rs)); [done |]. unfold zeros. rewrite blen_replicate. lia. }
  rewrite Hs. apply splice_Some_inv in Hs as (_ & _ & Hdl & _).
  eexists. split; [done | split; [done |]]. by apply slice_prefix.
Qed.

Lemma recv_stashed c net buf hist rs r apps rounds :
  holding c hist rs -> filter (fun r => is_app r = true) rs = r :: apps -> blen (wr_content r) <= blen buf ->
  exists c' hist' rest, recv S_ (S rounds) c net buf
    = ((c', net, wr_content r ++ drop (length (wr_content r)) buf), Some (Ok (Some (blen (wr_content r))))) /\
    same_config c c' /\ holding c' hist' rest /\ filter (fun r => is_app r = true) rest = apps.
Proof.
  intros Hho Hf Hbuf. destruct (next_datagram_stash c net hist rs r apps Hho Hf) as (dg & Hn & Hdg & Hsl).
  destruct Hho as [Hin Hord Hpeer Hst].
  eapply recv_delivers; try done.
  apply in_sync_set_stash; [done | by apply so_stash with hist, sy_ok | unfold MAX_DATAGRAM; lia].
Qed.

(** [recv] once per buffer: what each call puts in its buffer. *)
Fixpoint recv_each (c : DtlsClient) (net : Net) (bufs : list bytes)
    : (DtlsClient * Net) * list (option bytes) :=
  match bufs with
  | [] => ((c, net), [])
  | buf :: bufs =>
      let '((c, net, buf), r) := recv S_ 1 c net buf in
      let got := match r with Some (Ok (Some len)) => slice buf 0 len | _ => None end in
      let '(st, gots) := recv_each c net bufs in (st, got :: gots)
  end.

Lemma recv_each_stashed apps : forall c net hist rs bufs,
  holding c hist rs -> filter (fun r => is_app r = true) rs = apps ->
  Forall2 (fun r buf => blen (wr_content r) <= blen buf) apps bufs ->
  exists c', recv_each c net bufs = ((c', net), (fun r => Some (wr_content r)) <$> apps).
Proof.
  induction apps as [| r apps IH]; intros c net hist rs bufs Hho Hf Hb.
  { apply Forall2_nil_inv_l in Hb as ->. by exists c. }
  apply Forall2_cons_inv_l in Hb as (buf & bufs' & Hbuf & Hb & ->). cbn [recv_each].
  destruct (recv_stashed c net buf hist rs r apps 0 Hho Hf Hbuf) as (c1 & h1 & rest & -> & _ & Hho' & Hf').
  rewrite slice_prefix by done.
  destruct (IH c1 net h1 rest bufs' Hho' Hf' Hb) as (c' & ->). by exists c'.
Qed.
End delivery.

(** C38. Every application record of a datagram reaches the application: when a datagram
    of in-order records arrives -- control records before, between and after them --
    then one [recv] per application record returns exactly their payloads, in order,
    and reads the network once. *)
Theorem coalesced_delivery `{Usize, AeadCipher, RawCiphers, SubtleCt, DatagramTransport} (S_ : Suite)
    (c : DtlsClient) (net net' : Net) (dg : bytes) (n : Z) (hist : list Z)
    (rs : list wire_record) (bufs : list bytes) :
  in_sync c hist -> dc_recv_stash_len c = 0 ->
  in_order (dc_recv_hint c) rs -> Forall (peer_record S_ (dc_server_app c) (dc_recv_cid_len c)) rs ->
  net_recv net (zeros MAX_DATAGRAM) = (net', (dg, Ok (Some n))) -> slice dg 0 n = Some (packed rs) ->
  let apps := filter (fun r => is_app r = true) rs in
  apps <> [] -> Forall2 (fun r buf => blen (wr_content r) <= blen buf) apps bufs ->
  exists c', recv_each S_ c net bufs = ((c', net'), (fun r => Some (wr_content r)) <$> apps).
Proof.
  intros Hin Hst Hord Hpeer Hnet Hsl apps Hne Hb. destruct apps as [| r apps'] eqn:Ha; [done |].
  apply Forall2_cons_inv_l in Hb as (buf & bufs' & Hbuf & Hb & ->). cbn [recv_each].
  pose proof (net_recv_len net (zeros MAX_DATAGRAM)) as Hdg. rewrite Hnet in Hdg. cbn [fst snd] in Hdg.
  destruct (recv_delivers S_ c net buf c net' dg n hist rs r apps' 0) as (c1 & h1 & rest & -> & _ & Hho & Hf); try done.
  { unfold next_datagram. rewrite Hst, Hnet. done. }
  rewrite slice_prefix by done.
  destruct (recv_each_stashed S_ apps' c1 net' h1 rest bufs' Hho Hf Hb) as (c' & ->). by exists c'.
Qed.

(** ** Termination *)

(** A link with [pend net] datagrams left before the transport times out. *)
Record finite_link `{DatagramTransport} (pend : Net -> nat) : Prop := {
  fl_send net d : (pend (net_send net d).1 <= pend net)%nat;
  fl_recv net buf n : (net_recv net buf).2.2 = Ok (Some n) -> (pend (net_recv net buf).1 < pend net)%nat
}.

Section termination.
Context `{Usize, AeadCipher, RawCiphers, SubtleCt, DatagramTransport} (S_ : Suite).
Context (pend : Net -> nat) (Hpend : finite_link pend).

(** What an iteration leaves for the next one: nothing new in the stash. *)
Definition quiet (c : DtlsClient) (net : Net) (c' : DtlsClient) (net' : Net) : Prop :=
  dc_recv_stash_len c' = dc_recv_stash_len c /\ (pend net' <= pend net)%nat.

Lemma resend_finished_quiet c net c' net' r : resend_finished c net = ((c', net'), r) -> quiet c net c' net'.
Proof.
  unfold resend_finished, quiet. destruct (0 <? _); [| by intros [= <- <- _]].
  destruct (slice _ _ _) as [fin |]; [| by intros [= <- <- _]].
  destruct (net_send net fin) as [n1 r1] eqn:Hs. intros [= <- <- _]. split; [done |].
  pose proof (fl_send pend Hpend net fin) as Hf. by rewrite Hs in Hf.
Qed.

Lemma walk_record_quiet c net dg n pos buf c' net' dg' buf' st :
  walk_record S_ c net dg n pos buf = ((c', net', dg', buf'), st) ->
  (forall len, st <> WsReturn (Ok len)) -> st <> WsReturn Panic -> quiet c net c' net'.
Proof.
  unfold walk_record. intros Hw Hok Hp.
  destruct (at_idx dg pos); [| by injection Hw as <- <- _ _ <-].
  destruct (negb _); [by injection Hw as <- <- _ _ <- |].
  destruct (_ && _).
  { destruct (resend_finished c net) as [[c1 n1] r1] eqn:Hr. apply resend_finished_quiet in Hr.
    destruct r1; by injection Hw as <- <- _ _ <-. }
  destruct (slice dg pos n) as [view |]; [| by injection Hw as <- <- _ _ <-].
  destruct (open S_ _ _ _ view) as [view' res].
  destruct (splice dg pos view') as [dg1 |]; [| by injection Hw as <- <- _ _ <-].
  destruct res as [o | |]; [| by injection Hw as <- <- _ _ <-..].
  cbv zeta in Hw. destruct (op_record_len o =? 0); [by injection Hw as <- <- _ _ <- |].
  destruct (negb (accepts _ _)); [by injection Hw as <- <- _ _ <- |].
  destruct (op_content_type o =? _); [| by injection Hw as <- <- _ _ <-].
  unfold deliver in Hw. destruct (splice buf 0 _); [| by injection Hw as <- <- _ _ <-].
  destruct (_ <? n); [| injection Hw as _ _ _ _ <-; by destruct (Hok (blen (op_content o)))].
  destruct (_ ≫= _); injection Hw as _ _ _ _ <-; [by destruct (Hok (blen (op_content o))) | done].
Qed.

Lemma recv_walk_quiet fuel : forall c net dg n pos buf c' net' dg' buf',
  recv_walk S_ fuel n pos (c, net, dg, buf) = ((c', net', dg', buf'), Ok None) -> quiet c net c' net'.
Proof.
  induction fuel as [| fuel IH]; intros c net dg n pos buf c' net' dg' buf' Hw; [done |].
  cbn [recv_walk] in Hw. destruct (negb (pos <? n)); [by injection Hw as <- <- _ _ |].
  destruct (walk_record S_ c net dg n pos buf) as [[[[c1 n1] dg1] buf1] st] eqn:Hr.
  destruct st as [p | | [len | e |]]; try done.
  - apply walk_record_quiet in Hr as [Hs1 Hp1]; [| done..]. apply IH in Hw as [Hs2 Hp2].
    split; [congruence | lia].
  - apply walk_record_quiet in Hr; [| done..]. by injection Hw as <- <- _ _.
Qed.

Lemma recv_loop_returns rounds : forall c net dg buf,
  ((if (0 <? dc_recv_stash_len c)%Z then 1 else 0) + pend net < rounds)%nat ->
  exists st r, recv_loop S_ rounds c net dg buf = (st, Some r).
Proof.
  induction rounds as [| rounds IH]; intros c net dg buf Hr; [lia |]. cbn [recv_loop].
  destruct (next_datagram c net dg) as [[[c1 net1] dg1] [[n |] | |]] eqn:Hn; [| by do 2 eexists..].
  destruct (recv_walk S_ (S (Z.to_nat n)) n 0 (c1, net1, dg1, buf))
    as [[[[c2 net2] dg2] buf2] [[len |] | |]] eqn:Hw; [by do 2 eexists | | by do 2 eexists..].
  apply recv_walk_quiet in Hw as [Hs2 Hp2]. apply IH. rewrite Hs2. clear IH.
  unfold next_datagram in Hn. revert Hr. destruct (Z.ltb_spec 0 (dc_recv_stash_len c)) as [| Hle]; intros Hr.
  - destruct (_ ≫= _); [| done]. injection Hn as <- <- _ _. cbn [set_stash dc_recv_stash_len].
    change (0 <? 0) with false. cbn. lia.
  - destruct (net_recv net dg) as [n1 [d1 r1]] eqn:Hnr. injection Hn as <- <- _ Hl.
    unfold lift_net in Hl. apply map_err_Ok_inv in Hl.
    pose proof (fl_recv pend Hpend net dg n) as Hf. rewrite Hnr in Hf. specialize (Hf Hl). cbn [fst] in Hf.
    destruct (Z.ltb_spec 0 (dc_recv_stash_len c)); lia.
Qed.
End termination.

(** C39. [recv] returns: over a link that stops delivering after [pend] datagrams, at
    most [pend + 2] rounds of its loop produce a result, whatever the datagrams hold. *)
Theorem recv_terminates `{Usize, AeadCipher, RawCiphers, SubtleCt, DatagramTransport} (S_ : Suite)
    (pend : Net -> nat) (c : DtlsClient) (net : Net) (buf : bytes) (hist : list Z) :
  finite_link pend -> session_ok c hist ->
  exists st r, recv S_ (S (S (pend net))) c net buf = (st, Some r) /\ no_panic r.
Proof.
  intros Hp Hok. destruct (recv_loop_returns S_ pend Hp (S (S (pend net))) c net (zeros MAX_DATAGRAM) buf)
    as ([[c' net'] buf'] & r & Hr); [destruct (0 <? _); lia |].
  pose proof (recv_loop_spec S_ (S (S (pend net))) c net (zeros MAX_DATAGRAM) buf hist Hok eq_refl) as Hs.
  rewrite Hr in Hs. destruct Hs as (h & _ & Hd). unfold recv. rewrite Hr. exists (c', net', buf'), r.
  split; [done |]. by destruct r.
Qed.

(** ** A concrete session *)

Section demo.
#[local] Existing Instances usize32 aead_model raw_ciphers_model subtle_model script_net.

Definition demo_session : DtlsClient :=
  {| dc_client_app := demo_epoch_keys; dc_server_app := demo_epoch_keys; dc_send_seq := 0; dc_recv_hint := 0;
     dc_server_replay := new; dc_fin_flight := zeros 128; dc_fin_flight_len := 40;
     dc_fin_resends_left := MAX_FLIGHT_ATTEMPTS; dc_recv_cid_len := 1; dc_send_cid := 7 :: zeros 19;
     dc_send_cid_len := 1; dc_recv_stash := zeros MAX_DATAGRAM; dc_recv_stash_len := 0;
     dc_peer_record_limit := Some 64 |}.

Lemma demo_session_ok : session_ok demo_session [].
Proof.
  constructor; cbn [demo_session dc_server_replay dc_recv_hint dc_recv_stash dc_recv_stash_len dc_fin_flight
    dc_fin_flight_len dc_fin_resends_left dc_recv_cid_len dc_send_cid dc_send_cid_len];
    [apply repr_new | constructor | constructor | unfold is_u64, U64; lia | done | unfold MAX_DATAGRAM; lia
    | vm_compute; split; congruence | unfold MAX_FLIGHT_ATTEMPTS; lia | lia | vm_compute; split; [split |]; congruence].
Qed.

Definition demo_record (seq ct : Z) (content : bytes) : wire_record :=
  {| wr_seq := seq; wr_ct := ct; wr_content := content;
     wr_bytes := match seal ChaCha20Poly1305Sha256 demo_epoch_keys
                   {| sh_epoch := 3; sh_seq := seq; sh_seq_len := One; sh_cid := Some [9] |} content ct (zeros 100) with
                 | Ok (_, rec) => rec | _ => [] end |}.

(** A session ticket, two application records with an ACK between them. *)
Definition demo_records : list wire_record :=
  [demo_record 0 22 [4; 0; 0; 0]; demo_record 1 23 [104; 105]; demo_record 2 26 [0; 0]; demo_record 4 23 [33]].

Definition demo_net : Net := ([], [packed demo_records]).

Definition idle_net : Net := ([], []).
Definition garbage_net : Net := ([], [[0xff; 1]]).

Lemma recv_safe_witness :
  let '((c', net', buf'), r) := recv ChaCha20Poly1305Sha256 1 demo_session demo_net (zeros 8) in
  (exists new, session_ok c' (new ++ [])) /\ r = Some (Ok (Some 2)) /\ buf' = [104; 105; 0; 0; 0; 0; 0; 0].
Proof.
  pose proof (recv_safe ChaCha20Poly1305Sha256 1 demo_session demo_net (zeros 8) [] demo_session_ok) as Hs.
  destruct (recv ChaCha20Poly1305Sha256 1 demo_session demo_net (zeros 8)) as [[[c' net'] buf'] r] eqn:Hr.
  destruct Hs as (new & Hok & _). split; [by exists new |].
  assert (r = (recv ChaCha20Poly1305Sha256 1 demo_session demo_net (zeros 8)).2) as -> by (by rewrite Hr).
  assert (buf' = (recv ChaCha20Poly1305Sha256 1 demo_session demo_net (zeros 8)).1.2) as -> by (by rewrite Hr).
  split; vm_compute; reflexivity.
Defined.

Lemma send_exact_witness :
  let '((c', net'), r) := send ChaCha20Poly1305Sha256 demo_session idle_net [1; 2] (zeros 40) in
  dc_send_seq c' = 1 /\ exists rec, sealed_app ChaCha20Poly1305Sha256 demo_session 0 [1; 2] rec /\ net_log net' = [rec].
Proof.
  pose proof (send_exact ChaCha20Poly1305Sha256 demo_session idle_net [1; 2] (zeros 40) [] demo_session_ok) as Hs.
  destruct (send ChaCha20Poly1305Sha256 demo_session idle_net [1; 2] (zeros 40)) as [[c' net'] r] eqn:Hr.
  assert (exists o, r = Ok o) as [o ->].
  { change r with (c', net', r).2. rewrite <- Hr. vm_compute. by eexists. }
  destruct Hs as (rec & Hrec & Hlog & _ & -> & _). split; [reflexivity |]. exists rec. split; [exact Hrec | exact Hlog].
Defined.

Lemma run_send_at S_ c net payload out out' c1 net1 seq seqs c2 net2 :
  seq = dc_send_seq c -> send S_ c net payload out = ((c1, net1), Ok out') ->
  session_run S_ c1 net1 seqs c2 net2 -> session_run S_ c net (seq :: seqs) c2 net2.
Proof. intros ->. apply run_send. Qed.

Lemma session_run_bounded_witness :
  exists c' net', session_run ChaCha20Poly1305Sha256 demo_session idle_net [0; 1] c' net' /\
    run_log ChaCha20Poly1305Sha256 demo_session idle_net [0; 1] c' net' /\ dc_send_seq c' = 2.
Proof.
  assert (exists c' net', session_run ChaCha20Poly1305Sha256 demo_session idle_net [0; 1] c' net') as (c' & net' & Hr).
  { do 2 eexists.
    eapply (run_send_at _ _ _ [1; 2] (zeros 40)); [reflexivity | vm_compute; reflexivity |].
    eapply (run_recv _ _ _ 1 (zeros 8)); [vm_compute; reflexivity |].
    eapply (run_send_at _ _ _ [3] (zeros 40)); [reflexivity | vm_compute; reflexivity |].
    constructor. }
  exists c', net'. split; [exact Hr |].
  destruct (session_run_bounded ChaCha20Poly1305Sha256 demo_session c' idle_net net' [0; 1] [] demo_session_ok)
    as (_ & Hl & _ & _ & Hq); [done | vm_compute; done | exact Hr | by split].
Defined.

Lemma demo_peer_record seq ct content :
  bool_decide (0 <= seq) && negb (ct =? 0) && (blen content <=? 64) = true ->
  is_ok (seal ChaCha20Poly1305Sha256 demo_epoch_keys
    {| sh_epoch := 3; sh_seq := seq; sh_seq_len := One; sh_cid := Some [9] |} content ct (zeros 100)) = true ->
  peer_record ChaCha20Poly1305Sha256 demo_epoch_keys 1 (demo_record seq ct content).
Proof.
  intros [[_ Hct%negb_true_iff%Z.eqb_neq]%andb_true_iff Hl%Z.leb_le]%andb_true_iff Hs.
  destruct (seal _ _ _ content ct (zeros 100)) as [[out' rec] | |] eqn:E; [| done..].
  exists {| sh_epoch := 3; sh_seq := seq; sh_seq_len := One; sh_cid := Some [9] |}, (zeros 100), out'.
  split_and!; try done; [cbn; change TLS_PLAINTEXT_MAX with 16384; lia |].
  unfold demo_record. cbn [wr_content wr_ct wr_bytes]. by rewrite E.
Qed.

Lemma coalesced_delivery_witness :
  exists c', recv_each ChaCha20Poly1305Sha256 demo_session demo_net [zeros 8; zeros 8]
    = ((c', idle_net), [Some [104; 105]; Some [33]]).
Proof.
  apply (coalesced_delivery ChaCha20Poly1305Sha256 demo_session demo_net idle_net
    (packed demo_records ++ drop (length (packed demo_records)) (zeros MAX_DATAGRAM)) (blen (packed demo_records)) []
    demo_records [zeros 8; zeros 8]).
  - split; [apply demo_session_ok | constructor].
  - reflexivity.
  - cbn. unfold U64. lia.
  - repeat apply List.Forall_cons; [by apply demo_peer_record.. | apply List.Forall_nil].
  - vm_compute. reflexivity.
  - by apply slice_prefix.
  - done.
  - repeat constructor; vm_compute; congruence.
Defined.

Definition script_left (net : list bytes * list bytes) : nat := length net.2.

Lemma script_finite : @finite_link script_net script_left.
Proof. split; [done |]. intros [l [| d ds]] buf n; cbn; [done | unfold script_left; cbn; lia]. Qed.

Lemma recv_terminates_witness :
  exists st r, recv ChaCha20Poly1305Sha256 3 demo_session garbage_net (zeros 8) = (st, Some r) /\ no_panic r.
Proof.
  apply (@recv_terminates usize32 aead_model raw_ciphers_model subtle_model script_net ChaCha20Poly1305Sha256 script_left demo_session garbage_net (zeros 8) []);
    [apply script_finite | apply demo_session_ok].
Defined.
End demo.
