(* ===== verification/DtlsHandshake.v ===== *)
(** * [dtls/client.rs], [dtls/keys.rs]: the DTLS client handshake

    The ClientHello exchange with its retransmissions and the optional
    HelloRetryRequest, the handshake keys, the reassembly of the encrypted server
    flight from whatever datagrams arrive, its verification, the client Finished and
    ACK, and the application keys of the resulting session. *)
From stdpp Require Import strings.
From S2P Require Import Prelude Deps Consts Hkdf Aead DtlsRecord DtlsHello Cert Kx Identity ServerFlight.
From S2P Require Replay Ack Framing DtlsReassembly.
From S2P Require Import DtlsSession.

Definition MAX_ACK_SEAL_OVERHEAD : Z := 1 + MAX_CID_LEN + 2 + 2 + 1 + TAG_LEN.
Definition MAX_FLIGHT_MSGS : Z := 8.
Definition MAX_MSG_FRAGS : Z := 16.
Definition MAX_FLIGHT_DATAGRAMS : Z := 256.
Definition HRR_MESSAGE_HASH_HEADER : bytes := [0xFE; 0; 0; 0x20].
Notation HS_HEADER_LEN := Framing.HS_HEADER_LEN.
Notation push := (DtlsReassembly.push MAX_FLIGHT_MSGS MAX_MSG_FRAGS).

(** ** [keys.rs] *)

Inductive KeyScheduleError := KsDhAllZero | KsHkdf.

Record HandshakeKeys := {
  hk_client : EpochKeys; hk_server : EpochKeys;
  hk_client_hs_ts : bytes; hk_server_hs_ts : bytes; hk_hs_secret : bytes
}.

Section keys.
Context `{HeaplessVec, HkdfSha256, SubtleCt} (S_ : Suite).

Definition hk_err {A} (o : outcome HkdfLabelError A) : outcome KeyScheduleError A := map_err (fun _ => KsHkdf) o.

Definition derive_handshake_keys (shared_secret th : bytes) : outcome KeyScheduleError HandshakeKeys :=
  if ct_eq shared_secret (zeros 32) then Err KsDhAllZero else
  hs ← hk_err (dtls_handshake_secret shared_secret);
  '(c, s) ← hk_err (dtls_handshake_traffic_secrets hs th);
  ck ← hk_err (EpochKeys_derive S_ c);
  sk ← hk_err (EpochKeys_derive S_ s);
  Ok {| hk_client := ck; hk_server := sk; hk_client_hs_ts := c; hk_server_hs_ts := s; hk_hs_secret := hs |}.
End keys.

(** ** Framing helpers *)

Definition transcript_msg_header (msg_type len : Z) : bytes :=
  let l := as_u32 len in
  [msg_type; as_u8 (Z.shiftr l 16); as_u8 (Z.shiftr l 8); as_u8 l].

Section framing.
Context `{Usize} {NE : Type}.
Notation Error := (DtlsClientError NE).

(** [write_hs_msg]: the message slice [out[..end]]. *)
Definition write_hs_msg (out : bytes) (msg_type message_seq : Z) (body : bytes) : outcome Error bytes :=
  out ← map_err (fun _ => DeBufferTooSmall)
    (Framing.HandshakeHeader_write
       {| Framing.msg_type := msg_type; Framing.hs_length := as_u32 (blen body); Framing.message_seq := message_seq;
          Framing.fragment_offset := 0; Framing.fragment_length := as_u32 (blen body) |} out);
  let end_ := HS_HEADER_LEN + blen body in
  out ← ok_or (splice out HS_HEADER_LEN body) DeBufferTooSmall;
  ok_or (slice out 0 end_) DeBufferTooSmall.

(** [build_client_hello_record]: [out] afterwards and the record. *)
Definition build_client_hello_record (body : bytes) (message_seq record_seq : Z) (out : bytes)
    : outcome Error (bytes * bytes) :=
  msg ← write_hs_msg (zeros (HS_HEADER_LEN + 512)) CLIENT_HELLO_MSG_TYPE message_seq body;
  map_err (fun _ => DeBufferTooSmall) (Framing.PlaintextRecord_write CT_HANDSHAKE 0 record_seq msg out).

(** [parse_hello_body]: body, message_seq and the number of trailing bytes. *)
Definition parse_hello_body (datagram : bytes) : outcome Error (bytes * Z * Z) :=
  '(rec, consumed) ← map_err (fun _ => DeProtocol) (Framing.PlaintextRecord_parse datagram);
  if negb (Framing.content_type rec =? CT_HANDSHAKE) then Err DeProtocol else
  hh ← map_err (fun _ => DeProtocol) (Framing.HandshakeHeader_parse (Framing.fragment rec));
  body ← ok_or (slice (Framing.fragment rec) HS_HEADER_LEN (HS_HEADER_LEN + Framing.fragment_length hh)) DeProtocol;
  Ok (body, Framing.message_seq hh, blen datagram - consumed).
End framing.

(** ** The encrypted flight *)

(** [as usize] truncates. *)
Definition as_usize `{Usize} (x : Z) : Z := x mod (usize_max + 1).

(** The reassembly state of [feed_epoch2_records]: the reassembler, its arena, the next
    expected sequence number, and the bitmap of records to acknowledge. *)
Record FeedState := {
  fs_reasm : DtlsReassembly.Reassembler; fs_arena : bytes; fs_next_seq : Z; fs_acked : Z
}.

Section feed.
Context `{Usize, HeaplessVec, AeadCipher, RawCiphers, SubtleCt} {NE : Type} (S_ : Suite).
Notation Error := (DtlsClientError NE).

(** The handshake fragments of one record's content, from [p]. *)
Fixpoint feed_fragments (fuel : nat) (content : bytes) (p : Z) (reasm : DtlsReassembly.Reassembler) (arena : bytes)
    : outcome Error (DtlsReassembly.Reassembler * bytes) :=
  match fuel with
  | O => Panic
  | S fuel =>
      if negb (p + HS_HEADER_LEN <=? blen content) then Ok (reasm, arena) else
      rest ← or_panic (slice_from content p);
      hh ← map_err (fun _ => DeProtocol) (Framing.HandshakeHeader_parse rest);
      let frag_len := Framing.fragment_length hh in
      frag ← ok_or (slice content (p + HS_HEADER_LEN) (p + HS_HEADER_LEN + frag_len)) DeProtocol;
      let '((reasm, arena), r) := push reasm arena (Framing.msg_type hh) (Framing.message_seq hh)
        (Framing.hs_length hh) (Framing.fragment_offset hh) frag in
      _ ← map_err (fun _ => DeProtocol) r;
      feed_fragments fuel content (p + (HS_HEADER_LEN + frag_len)) reasm arena
  end.

(** [feed_epoch2_records], from [rec_pos]. *)
Fixpoint feed_loop (fuel : nat) (server_keys : EpochKeys) (cid_len : Z) (records : bytes) (rec_pos : Z)
    (st : FeedState) : outcome Error (bytes * FeedState) :=
  match fuel with
  | O => Panic
  | S fuel =>
      if negb (rec_pos <? blen records) then Ok (records, st) else
      first ← or_panic (at_idx records rec_pos);
      if negb (is_ciphertext_record first) then Ok (records, st) else
      view ← or_panic (slice_from records rec_pos);
      let '(view', res) := open S_ server_keys cid_len (fs_next_seq st) view in
      records ← or_panic (splice records rec_pos view');
      match res with
      | Panic => Panic
      | Err _ => Ok (records, st)
      | Ok opened =>
          let record_len := op_record_len opened in
          if record_len =? 0 then Ok (records, st) else
          let acked := if as_usize (op_seq opened) <? Ack.MAX_ACK_RECORDS
                       then Z.lor (fs_acked st) (Z.shiftl 1 (op_seq opened mod 128)) else fs_acked st in
          '(reasm, arena) ←
            (if op_content_type opened =? CT_HANDSHAKE
             then feed_fragments (S (length (op_content opened))) (op_content opened) 0 (fs_reasm st) (fs_arena st)
             else Ok (fs_reasm st, fs_arena st));
          feed_loop fuel server_keys cid_len records (rec_pos + record_len)
            {| fs_reasm := reasm; fs_arena := arena; fs_next_seq := (fs_next_seq st + 1) mod U64; fs_acked := acked |}
      end
  end.

Definition feed_epoch2_records (server_keys : EpochKeys) (cid_len : Z) (records : bytes) (st : FeedState)
    : outcome Error (bytes * FeedState) :=
  feed_loop (S (length records)) server_keys cid_len records 0 st.
End feed.

(** ** The transport as an effect *)

(** A computation over the transport: the network afterwards and a result. *)
Notation DM := (SM Net (DtlsClientError NetError)).

Definition transport_send `{DatagramTransport} (d : bytes) : DM unit :=
  fun net => let '(net', r) := net_send net d in (net', lift_net r).

(** The receive buffer afterwards and the length, [None] on a timeout. *)
Definition transport_recv `{DatagramTransport} (buf : bytes) : DM (bytes * option Z) :=
  fun net => let '(net', (buf', r)) := net_recv net buf in (net', n ← lift_net r; Ok (buf', n)).

Section await.
Context `{DatagramTransport}.

Fixpoint await_loop (fuel : nat) (attempts : Z) (flight reply : bytes) (max_attempts : Z) : DM (bytes * Z) :=
  match fuel with
  | O => lift Panic
  | S fuel =>
      '(reply, r) ← transport_recv reply;
      match r with
      | Some n => mret (reply, n)
      | None =>
          if max_attempts <=? attempts then lift (Err DeTimeout) else
          _ ← transport_send flight;
          await_loop fuel (attempts + 1) flight reply max_attempts
      end
  end.

Definition send_flight_await_reply (flight reply : bytes) (max_attempts : Z) : DM (bytes * Z) :=
  _ ← transport_send flight;
  await_loop (S (Z.to_nat max_attempts)) 1 flight reply max_attempts.
End await.

(** ** [DtlsClient::connect], phase by phase *)

(** After the ClientHello exchange: the reply with the ServerHello, the flight to
    retransmit, the message_seq of the client Finished, and the transcript. *)
Record HelloResult `{HkdfSha256} := {
  hx_rbuf : bytes; hx_sh_len : Z; hx_retransmit : bytes; hx_fin_seq : Z; hx_transcript : TranscriptHash
}.

(** What the ServerHello settled. *)
Record ServerParams `{HkdfSha256} := {
  sp_share : bytes; sp_seq : Z; sp_trailing : Z; sp_transcript : TranscriptHash;
  sp_recv_cid_len : Z; sp_send_cid_buf : bytes; sp_send_cid_len : Z
}.

Section connect.
Context `{Usize, HeaplessVec, AeadCipher, RawCiphers, SubtleCt, HkdfSha256, MlDsaSizes}.
Context `{DatagramTransport, KxGroup, VerifierBackend, !VerifyStrategy, CertParser}.
Context (ft : Features) (ip_host : bool) (S_ : Suite) (max_chain : Z).
Notation Error := (DtlsClientError NetError).

(** A handshake message as the transcript sees it. *)
Definition transcript_add (t : TranscriptHash) (msg_type : Z) (body : bytes) : TranscriptHash :=
  transcript_update (transcript_update t (transcript_msg_header msg_type (blen body))) body.

Definition snapshot (t : TranscriptHash) : outcome Error bytes :=
  map_err (fun _ => DeKeySchedule) (transcript_snapshot t).

Definition client_hello (random pub : bytes) (cookie client_cid : option bytes) : outcome Error bytes :=
  '(ch, ch_len) ← map_err (fun _ => DeBufferTooSmall)
    (write_client_hello ft random pub (CIPHER_SUITE_ID S_) None cookie client_cid (zeros 512));
  or_panic (slice ch 0 ch_len).

(** The HelloRetryRequest branch: CH2 with the cookie, and its reply. *)
Definition retry_exchange (random pub ch1 first_body cookie : bytes) (client_cid : option bytes)
    (rbuf ch_dgram : bytes) : DM HelloResult :=
  cb ← lift (ok_or (splice (zeros 256) 0 cookie) DeBufferTooSmall);
  ch1_hash ← lift (snapshot (transcript_add TranscriptHash_new CLIENT_HELLO_MSG_TYPE ch1));
  let transcript := transcript_update TranscriptHash_new HRR_MESSAGE_HASH_HEADER in
  let transcript := transcript_update transcript ch1_hash in
  let transcript := transcript_add transcript 2 first_body in
  ck ← lift (or_panic (slice cb 0 (blen cookie)));
  ch2 ← lift (client_hello random pub (Some ck) client_cid);
  '(ch_dgram, ch2_rec) ← lift (build_client_hello_record ch2 1 1 ch_dgram);
  '(rbuf, sh_len) ← send_flight_await_reply ch2_rec rbuf MAX_FLIGHT_ATTEMPTS;
  let transcript := transcript_add transcript CLIENT_HELLO_MSG_TYPE ch2 in
  retransmit ← lift (or_panic (slice ch_dgram 0 (blen ch2_rec)));
  mret {| hx_rbuf := rbuf; hx_sh_len := sh_len; hx_retransmit := retransmit; hx_fin_seq := 2;
          hx_transcript := transcript |}.

Definition hello_exchange (random pub : bytes) (client_cid : option bytes) : DM HelloResult :=
  ch1 ← lift (client_hello random pub None client_cid);
  '(ch_dgram, ch1_rec) ← lift (build_client_hello_record ch1 0 0 (zeros (HS_HEADER_LEN + 512 + 16)));
  '(rbuf, first_len) ← send_flight_await_reply ch1_rec (zeros 2048) MAX_FLIGHT_ATTEMPTS;
  reply ← lift (or_panic (slice rbuf 0 first_len));
  '(first_body, _, _) ← lift (parse_hello_body reply);
  kind ← lift (map_err (fun _ => DeHandshake) (parse_server_hello first_body));
  match kind with
  | Retry selected_suite cookie =>
      if negb (selected_suite =? CIPHER_SUITE_ID S_) then lift (Err DeHandshake) else
      retry_exchange random pub ch1 first_body cookie client_cid rbuf ch_dgram
  | Hello _ _ _ =>
      retransmit ← lift (or_panic (slice ch_dgram 0 (blen ch1_rec)));
      mret {| hx_rbuf := rbuf; hx_sh_len := first_len; hx_retransmit := retransmit; hx_fin_seq := 1;
              hx_transcript := transcript_add TranscriptHash_new CLIENT_HELLO_MSG_TYPE ch1 |}
  end.

Definition process_server_hello (client_cid : option bytes) (hx : HelloResult) : outcome Error ServerParams :=
  reply ← or_panic (slice (hx_rbuf hx) 0 (hx_sh_len hx));
  '(sh_body, sh_seq, sh_trailing) ← parse_hello_body reply;
  let transcript := transcript_add (hx_transcript hx) 2 sh_body in
  kind ← map_err (fun _ => DeHandshake) (parse_server_hello sh_body);
  match kind with
  | Retry _ _ => Err DeHandshake
  | Hello selected_suite share server_cid =>
      if negb (selected_suite =? CIPHER_SUITE_ID S_) then Err DeHandshake else
      '(recv_cid_len, send_cid_buf, send_cid_len) ←
        match client_cid, server_cid with
        | Some our_cid, Some their_cid =>
            if MAX_CID_LEN <? blen their_cid then Err DeHandshake else
            b ← or_panic (splice (zeros MAX_CID_LEN) 0 their_cid);
            Ok (blen our_cid, b, blen their_cid)
        | _, _ => Ok (0, zeros MAX_CID_LEN, 0)
        end;
      Ok {| sp_share := share; sp_seq := sh_seq; sp_trailing := sh_trailing; sp_transcript := transcript;
            sp_recv_cid_len := recv_cid_len; sp_send_cid_buf := send_cid_buf; sp_send_cid_len := send_cid_len |}
  end.

(** The shared secret and the epoch-2 keys. *)
Definition handshake_keys (secret : KxSecret) (sp : ServerParams) : outcome Error HandshakeKeys :=
  ikm ← map_err (fun _ => DeKeySchedule) (kx_derive secret (sp_share sp));
  ikm ← shared_secret_slice ikm;
  if negb (blen ikm =? 32) then Err DeKeySchedule else
  th ← snapshot (sp_transcript sp);
  map_err (fun _ => DeKeySchedule) (derive_handshake_keys S_ ikm th).

(** Where the epoch-2 records of a datagram begin; [None] for one to ignore. *)
Definition flight_start (dg : bytes) (n : Z) : outcome Error (option Z) :=
  let plaintext :=
    view ← or_panic (slice dg 0 n);
    match parse_hello_body (NE := NetError) view with
    | Ok (_, _, trailing) => Ok (Some (n - trailing))
    | Err _ => Ok None
    | Panic => Panic
    end in
  match at_idx dg 0 with
  | Some b => if is_ciphertext_record b then Ok (Some 0) else plaintext
  | None => plaintext
  end.

(** The [while !reasm.flight_complete(..)] loop. *)
Fixpoint collect_flight (fuel : nat) (server_keys : EpochKeys) (cid_len base_seq : Z) (retransmit : bytes)
    (st : FeedState) (datagrams resends_left : Z) (dg : bytes) : DM FeedState :=
  if DtlsReassembly.flight_complete (fs_reasm st) base_seq HS_FINISHED then mret st else
  match fuel with
  | O => lift Panic
  | S fuel =>
      if MAX_FLIGHT_DATAGRAMS <=? datagrams then lift (Err DeTimeout) else
      let datagrams := datagrams + 1 in
      '(dg, r) ← transport_recv dg;
      match r with
      | None =>
          if resends_left =? 0 then lift (Err DeTimeout) else
          _ ← transport_send retransmit;
          collect_flight fuel server_keys cid_len base_seq retransmit st datagrams (resends_left - 1) dg
      | Some n =>
          start ← lift (flight_start dg n);
          match start with
          | None => collect_flight fuel server_keys cid_len base_seq retransmit st datagrams resends_left dg
          | Some start =>
              records ← lift (or_panic (slice dg start n));
              '(records, st) ← lift (feed_epoch2_records S_ server_keys cid_len records st);
              dg ← lift (or_panic (splice dg start records));
              collect_flight fuel server_keys cid_len base_seq retransmit st datagrams resends_left dg
          end
      end
  end.

(** Reassembling the server flight: its messages in order, and what to acknowledge. *)
Definition receive_flight (hx : HelloResult) (sp : ServerParams) (hk : HandshakeKeys) (flight_buf reasm_buf : bytes)
    : DM (bytes * Z) :=
  let base_seq := as_u16 (sp_seq sp + 1) in
  let st := {| fs_reasm := DtlsReassembly.Reassembler_new; fs_arena := reasm_buf; fs_next_seq := 0; fs_acked := 0 |} in
  st ← lift (if 0 <? sp_trailing sp
             then records ← or_panic (slice (hx_rbuf hx) (hx_sh_len hx - sp_trailing sp) (hx_sh_len hx));
                  '(_, st) ← feed_epoch2_records S_ (hk_server hk) (sp_recv_cid_len sp) records st; Ok st
             else Ok st);
  st ← collect_flight (S (Z.to_nat MAX_FLIGHT_DATAGRAMS)) (hk_server hk) (sp_recv_cid_len sp) base_seq
         (hx_retransmit hx) st 0 (MAX_FLIGHT_ATTEMPTS - 1) (zeros MAX_DATAGRAM);
  '(flight_buf, flight_len) ← lift (map_err (fun _ => DeProtocol)
    (DtlsReassembly.serialize_flight (fs_reasm st) (fs_arena st) flight_buf));
  flight ← lift (or_panic (slice flight_buf 0 flight_len));
  mret (flight, fs_acked st).

(** The trust decisions on the reassembled flight: the peer's record size limit, and the
    transcript through the server Finished. *)
Definition verify_flight (transcript : TranscriptHash) (server_hs_ts flight : bytes) (hostname : option bytes)
    : outcome Error (option Z * TranscriptHash) :=
  view ← map_err (fun _ => DeProtocol) (parse_server_flight flight);
  peer_record_limit ← map_err (fun _ => DeHandshake) (parse_ee_record_size_limit (sf_ee_body view));
  chain ← map_err (fun _ => DeProtocol) (extract_chain max_chain (sf_cert_body view));
  trusted ← map_err (fun _ => DeStrategyRejected) (verify_chain chain);
  leaf_der ← ok_or (head chain) DeProtocol;
  leaf_view ← map_err (fun _ => DeProtocol) (parse leaf_der);
  if negb (matches_cert trusted leaf_view) then Err DePubkeyMismatch else
  _ ← match hostname with
      | Some host => map_err (fun _ => DeHostnameMismatch) (verify_hostname ip_host leaf_view host)
      | None => Ok tt
      end;
  let transcript := transcript_update transcript (sf_ee_full view) in
  let transcript := match sf_cert_request_full view with
                    | Some creq => transcript_update transcript creq
                    | None => transcript
                    end in
  let transcript := transcript_update transcript (sf_cert_full view) in
  th_after_cert ← snapshot transcript;
  _ ← map_err (fun _ => DeCertVerify)
    (verify_certificate_verify_with_prepared trusted th_after_cert (sf_cv_body view));
  let transcript := transcript_update transcript (sf_cv_full view) in
  th_after_cv ← snapshot transcript;
  expected_fin ← map_err (fun _ => DeKeySchedule) (dtls_finished_mac server_hs_ts th_after_cv);
  if negb (blen (sf_fin_body view) =? blen expected_fin) || negb (ct_eq expected_fin (sf_fin_body view))
  then Err DeCertVerify else
  Ok (peer_record_limit, transcript_update transcript (sf_fin_full view)).

(** The client Finished (kept for resending) and the ACK of the flight. *)
Definition client_finish (hk : HandshakeKeys) (send_cid : option bytes) (fin_seq : Z) (th_server_fin : bytes) (acked : Z)
    : DM (bytes * Z) :=
  fin_data ← lift (map_err (fun _ => DeKeySchedule) (dtls_finished_mac (hk_client_hs_ts hk) th_server_fin));
  fin_msg ← lift (write_hs_msg (zeros (HS_HEADER_LEN + 48)) HS_FINISHED fin_seq fin_data);
  '(_, sealed) ← lift (map_err (fun _ => DeProtocol)
    (seal S_ (hk_client hk) {| sh_epoch := 2; sh_seq := 0; sh_seq_len := Two; sh_cid := send_cid |}
       fin_msg CT_HANDSHAKE (zeros 128)));
  fin_flight ← lift (ok_or (splice (zeros 128) 0 sealed) DeBufferTooSmall);
  _ ← transport_send sealed;
  '(ack_body, ack_len) ← lift (map_err (fun _ => DeBufferTooSmall)
    (Ack.write_ack_bitmap 2 acked (zeros Ack.MAX_ACK_BODY_LEN)));
  ack ← lift (or_panic (slice ack_body 0 ack_len));
  '(_, ack_sealed) ← lift (map_err (fun _ => DeProtocol)
    (seal S_ (hk_client hk) {| sh_epoch := 2; sh_seq := 1; sh_seq_len := Two; sh_cid := send_cid |}
       ack CT_ACK (zeros (Ack.MAX_ACK_BODY_LEN + MAX_ACK_SEAL_OVERHEAD))));
  _ ← transport_send ack_sealed;
  mret (fin_flight, blen sealed).

(** The epoch-3 keys and the connected session. *)
Definition start_session (hk : HandshakeKeys) (sp : ServerParams) (th_server_fin fin_flight : bytes) (fin_len : Z)
    (peer_record_limit : option Z) : outcome Error DtlsClient :=
  let ks {A} (o : outcome HkdfLabelError A) : outcome Error A := map_err (fun _ => DeKeySchedule) o in
  master ← ks (dtls_master_secret (hk_hs_secret hk));
  '(c_ap, s_ap) ← ks (dtls_application_traffic_secrets master th_server_fin);
  client_app ← ks (EpochKeys_derive S_ c_ap);
  server_app ← ks (EpochKeys_derive S_ s_ap);
  Ok {| dc_client_app := client_app; dc_server_app := server_app; dc_send_seq := 0; dc_recv_hint := 0;
        dc_server_replay := Replay.new; dc_fin_flight := fin_flight; dc_fin_flight_len := fin_len;
        dc_fin_resends_left := MAX_FLIGHT_ATTEMPTS; dc_recv_cid_len := sp_recv_cid_len sp;
        dc_send_cid := sp_send_cid_buf sp; dc_send_cid_len := sp_send_cid_len sp;
        dc_recv_stash := zeros MAX_DATAGRAM; dc_recv_stash_len := 0; dc_peer_record_limit := peer_record_limit |}.

Definition connect (rng : Rng) (random : bytes) (hostname client_cid : option bytes) (flight_buf reasm_buf : bytes)
    : DM DtlsClient :=
  '(secret, share) ← lift (map_err (fun _ => DeRng) ((kx_generate rng).2));
  pub ← lift (client_share_slice share);
  if negb (blen pub =? 32) then lift (Err DeRng) else
  hx ← hello_exchange random pub client_cid;
  sp ← lift (process_server_hello client_cid hx);
  send_cid ← lift (if 0 <? sp_send_cid_len sp
                   then cid ← or_panic (slice (sp_send_cid_buf sp) 0 (sp_send_cid_len sp)); Ok (Some cid)
                   else Ok None);
  hk ← lift (handshake_keys secret sp);
  '(flight, acked) ← receive_flight hx sp hk flight_buf reasm_buf;
  '(peer_record_limit, transcript) ← lift (verify_flight (sp_transcript sp) (hk_server_hs_ts hk) flight hostname);
  th_server_fin ← lift (snapshot transcript);
  '(fin_flight, fin_len) ← client_finish hk send_cid (hx_fin_seq hx) th_server_fin acked;
  lift (start_session hk sp th_server_fin fin_flight fin_len peer_record_limit).
End connect.

(** ** What the framing helpers produce *)

Section framing_specs.
Context `{Usize} {NE : Type}.

Lemma transcript_msg_header_eq ty len : 0 <= len < U24 -> transcript_msg_header ty len = [ty] ++ be_bytes 3 len.
Proof.
  intros Hl. unfold transcript_msg_header, as_u32, as_u8, U8, U32, U24 in *. rewrite (Z.mod_small len) by lia.
  rewrite !Z.shiftr_div_pow2 by lia. cbn [be_bytes app]. change (256 ^ Z.of_nat 0) with 1.
  by rewrite Z.div_1_r.
Qed.

(** A message is framed whole, or refused. *)
Lemma write_hs_msg_spec out ty sq body :
  is_u8 ty -> is_u16 sq -> blen body < U24 ->
  ensures (write_hs_msg (NE := NE) out ty sq body) (fun msg =>
    msg = Framing.hs_header_wire {| Framing.msg_type := ty; Framing.hs_length := blen body; Framing.message_seq := sq;
            Framing.fragment_offset := 0; Framing.fragment_length := blen body |} ++ body /\
    12 + blen body <= blen out).
Proof.
  intros Hty Hsq Hl. unfold write_hs_msg. pose proof (blen_nonneg body).
  unfold as_u32. rewrite Z.mod_small by (unfold U24, U32 in *; lia). change HS_HEADER_LEN with 12.
  set (h := {| Framing.msg_type := ty |}).
  destruct (Z.lt_ge_cases (blen out) 12) as [Hs | Hs].
  { unfold Framing.HandshakeHeader_write. change Framing.HS_HEADER_LEN with 12.
    by rewrite (proj2 (Z.ltb_lt _ _) Hs). }
  rewrite Framing.HandshakeHeader_write_ok by (unfold Framing.hs_header_ok, is_u24, U24 in *; cbn; lia || done).
  run. set (hw := Framing.hs_header_wire h).
  assert (blen hw = 12) as Hhw by apply Framing.blen_hs_header_wire.
  destruct (Z.le_gt_cases (blen body) (blen (drop 12 out))) as [Hfit | Hfit].
  - rewrite splice_append by lia. run. rewrite slice_prefix by (rewrite ?blen_app; lia). cbn.
    split; [done |]. rewrite blen_drop in Hfit. lia.
  - destruct (splice _ 12 body) as [o |] eqn:Hsp; [| done].
    apply splice_Some_inv in Hsp as (_ & Hle & _). rewrite blen_app in Hle. lia.
Qed.

Lemma bytes_ok_hs_header h : is_u8 (Framing.msg_type h) -> bytes_ok (Framing.hs_header_wire h).
Proof.
  intros Hh. unfold Framing.hs_header_wire. constructor; [done |].
  rewrite !bytes_ok_app. split_and!; apply bytes_ok_be_bytes.
Qed.

(** A ClientHello body that fits its buffers gives a record; the datagram buffer keeps
    its length and starts with the record. *)
Lemma build_client_hello_record_spec body ms rs out :
  is_u16 ms -> blen body < U24 ->
  ensures (build_client_hello_record (NE := NE) body ms rs out) (fun '(out', rec) =>
    blen out' = blen out /\ exists rest, out' = rec ++ rest).
Proof.
  intros Hms Hl. unfold build_client_hello_record.
  eapply ensures_bind; [apply write_hs_msg_spec; [unfold is_u8, U8, CLIENT_HELLO_MSG_TYPE, HS_CLIENT_HELLO; lia | done..] |].
  intros msg [_ _]. apply ensures_map_err. rewrite Framing.PlaintextRecord_write_eq.
  destruct (_ <? blen msg); [done |]. destruct (Z.ltb_spec (blen out) (13 + blen msg)); [done |].
  cbn [ensures]. split; [| by eexists].
  rewrite blen_app, blen_drop, blen_app, Framing.blen_plaintext_header. unfold blen in *. lia.
Qed.

Lemma parse_hello_body_spec dg :
  bytes_ok dg ->
  ensures (parse_hello_body (NE := NE) dg) (fun '(body, sq, trailing) =>
    bytes_ok body /\ blen body < U24 /\ is_u16 sq /\ 0 <= trailing <= blen dg).
Proof.
  intros Hdg. unfold parse_hello_body.
  eapply ensures_bind; [by apply ensures_map_err, ensures_eq, Framing.PlaintextRecord_parse_no_panic |].
  intros [r e] Hr. apply Framing.PlaintextRecord_parse_Ok_inv in Hr as (Hs & He & _).
  assert (bytes_ok (Framing.fragment r)) as Hfr by (by eapply bytes_ok_slice).
  destruct (negb _); [done |].
  eapply ensures_bind; [apply ensures_map_err, ensures_eq, Framing.HandshakeHeader_parse_no_panic |].
  intros h Hh. apply Framing.HandshakeHeader_parse_ok in Hh as ((_ & _ & Hsq & _ & Hfl) & _); [| done].
  eapply ensures_bind; [apply ensures_ok_or_eq |]. intros b Hb. cbn [ensures]. pose proof Hb as (_ & _ & _ & Hbl & _)%slice_Some_inv.
  unfold Framing.HS_HEADER_LEN in Hbl.
  split_and!; [by apply (bytes_ok_slice _ _ _ _ Hfr Hb) | unfold is_u24 in Hfl; lia | done | lia | lia].
Qed.
End framing_specs.

(** ** Feeding the reassembler *)

(** The reassembler between two datagrams. *)
Record feed_ok (arena_len : Z) (st : FeedState) : Prop := {
  fo_wf : DtlsReassembly.reasm_wf MAX_FLIGHT_MSGS MAX_MSG_FRAGS (fs_reasm st) arena_len;
  fo_types : Forall (fun s => is_u8 (DtlsReassembly.slot_type s)) (DtlsReassembly.slots (fs_reasm st));
  fo_arena : blen (fs_arena st) = arena_len /\ bytes_ok (fs_arena st);
  fo_next : is_u64 (fs_next_seq st);
  fo_acked : 0 <= fs_acked st < U128
}.

Section feed_specs.
Context `{Usize, HeaplessVec, AeadCipher, RawCiphers, SubtleCt} {NE : Type} (S_ : Suite).

(** One fragment: the table stays well formed whatever the fragment claims. *)
Lemma push_spec r arena ty sq len off frag :
  DtlsReassembly.reasm_wf MAX_FLIGHT_MSGS MAX_MSG_FRAGS r (blen arena) ->
  Forall (fun s => is_u8 (DtlsReassembly.slot_type s)) (DtlsReassembly.slots r) ->
  bytes_ok arena -> is_u8 ty -> is_u24 len -> is_u24 off -> bytes_ok frag ->
  let '((r', arena'), res) := push r arena ty sq len off frag in
  no_panic res /\ blen arena' = blen arena /\ (res = Ok tt ->
    DtlsReassembly.reasm_wf MAX_FLIGHT_MSGS MAX_MSG_FRAGS r' (blen arena) /\
    Forall (fun s => is_u8 (DtlsReassembly.slot_type s)) (DtlsReassembly.slots r') /\ bytes_ok arena').
Proof.
  intros Hwf Hty Hok Hu8 Hlen [Hoff _] Hfrag.
  destruct (DtlsReassembly.push_cases MAX_FLIGHT_MSGS MAX_MSG_FRAGS ltac:(unfold MAX_MSG_FRAGS; lia)
    r arena ty sq len off frag Hwf Hlen Hoff)
    as [e | r1 arena1 e Hwf1 Hl | r1 idx sl sl' arena1 Hwf1 Hi Hsq Hst Hle Hr1 _ _ Ha Hsh Hw Hc _]; [done | done |].
  pose proof Ha as (_ & _ & Hl & _)%splice_Some_inv. split_and!; [done | done |]. intros _. split_and!.
  - eapply DtlsReassembly.reasm_wf_insert; eauto. by rewrite Hle.
  - cbn [DtlsReassembly.slots]. apply Forall_insert.
    + destruct Hr1 as [-> | (-> & _ & _)]; [done |]. apply Forall_app. split; [done |]. apply Forall_singleton. by rewrite Hst.
    + unfold DtlsReassembly.shape in Hsh. injection Hsh as _ Ht _ _. by rewrite Ht, Hst.
  - apply (bytes_ok_splice _ _ _ _ Hok Hfrag Ha).
Qed.

Lemma feed_fragments_spec fuel : forall content p r arena,
  bytes_ok content -> 0 <= p <= blen content -> blen content - p < Z.of_nat fuel ->
  DtlsReassembly.reasm_wf MAX_FLIGHT_MSGS MAX_MSG_FRAGS r (blen arena) ->
  Forall (fun s => is_u8 (DtlsReassembly.slot_type s)) (DtlsReassembly.slots r) -> bytes_ok arena ->
  ensures (feed_fragments (NE := NE) fuel content p r arena) (fun '(r', arena') =>
    DtlsReassembly.reasm_wf MAX_FLIGHT_MSGS MAX_MSG_FRAGS r' (blen arena) /\
    Forall (fun s => is_u8 (DtlsReassembly.slot_type s)) (DtlsReassembly.slots r') /\
    blen arena' = blen arena /\ bytes_ok arena').
Proof.
  induction fuel as [| fuel IH]; intros content p r arena Hok Hp Hf Hwf Hty Har; [lia |]. cbn [feed_fragments].
  change HS_HEADER_LEN with 12.
  destruct (Z.leb_spec (p + 12) (blen content)); cbn [negb]; [| done].
  unfold slice_from. destruct (slice_in_range content p (blen content)) as [rest Hr]; [lia.. |]. rewrite Hr. run.
  assert (bytes_ok rest) as Hrest by (apply (bytes_ok_slice _ _ _ _ Hok Hr)).
  pose proof (Framing.HandshakeHeader_parse_no_panic rest) as Hnp.
  destruct (Framing.HandshakeHeader_parse rest) as [hh | |] eqn:Hh; [| done | done]. run.
  apply Framing.HandshakeHeader_parse_ok in Hh as ((Ht & Hl & _ & Ho & Hfl) & _); [| done].
  destruct (slice content (p + 12) (p + 12 + Framing.fragment_length hh)) as [frag |] eqn:Hfr; [| done]. run.
  pose proof Hfr as (_ & _ & Hend & _)%slice_Some_inv. destruct Hfl as [Hfl0 _].
  pose proof (push_spec r arena (Framing.msg_type hh) (Framing.message_seq hh) (Framing.hs_length hh)
    (Framing.fragment_offset hh) frag Hwf Hty Har Ht Hl Ho (bytes_ok_slice _ _ _ _ Hok Hfr)) as Hpush.
  destruct (push r arena _ _ _ _ frag) as [[r' arena'] [[] | e |]]; destruct Hpush as (Hnp' & Hal & Hres); [| done | done].
  destruct (Hres eq_refl) as (Hwf' & Hty' & Har'). run. rewrite <- Hal in Hwf' |- *.
  by apply IH; [done | lia | lia | | |].
Qed.

Lemma acked_bound a s : 0 <= a < U128 -> 0 <= Z.lor a (Z.shiftl 1 (s mod 128)) < U128.
Proof.
  intros Ha. pose proof (Z.mod_pos_bound s 128 ltac:(lia)). rewrite Z.shiftl_1_l.
  apply (Replay.lor_range _ _ 128); [lia | done |]. unfold U128.
  split; [apply Z.pow_nonneg; lia | apply Z.pow_lt_mono_r; lia].
Qed.

Lemma feed_loop_spec n fuel : forall keys cid_len records pos st,
  0 <= cid_len -> bytes_ok records -> 0 <= pos <= blen records -> blen records - pos < Z.of_nat fuel -> feed_ok n st ->
  ensures (feed_loop (NE := NE) S_ fuel keys cid_len records pos st) (fun '(records', st') =>
    blen records' = blen records /\ bytes_ok records' /\ feed_ok n st').
Proof.
  induction fuel as [| fuel IH]; intros keys cid_len records pos st Hc Hok Hpos Hf Hst; [lia |]. cbn [feed_loop].
  destruct (Z.ltb_spec pos (blen records)); cbn [negb]; [| done].
  destruct (at_idx_in_range records pos ltac:(lia)) as [first ->]. run.
  destruct (negb (is_ciphertext_record first)); [done |].
  unfold slice_from. destruct (slice_in_range records pos (blen records)) as [view Hv]; [lia.. |]. rewrite Hv. run.
  assert (bytes_ok view) as Hvok by (apply (bytes_ok_slice _ _ _ _ Hok Hv)).
  apply slice_Some_inv in Hv as (_ & _ & _ & Hvl & _).
  pose proof (open_spec S_ keys cid_len (fs_next_seq st) view Hc) as Ho.
  destruct (open S_ keys cid_len (fs_next_seq st) view) as [view' res]. destruct Ho as (Hl' & Hb' & Hres).
  destruct (splice_in_range records pos view') as [records' Hs]; [lia.. |]. rewrite Hs. run.
  assert (bytes_ok records') as Hok' by (eapply bytes_ok_splice; [exact Hok | by apply Hb' | exact Hs]).
  apply splice_Some_inv in Hs as (_ & _ & Hrl & _). rewrite <- Hrl in *.
  destruct res as [o | |]; [| done | done].
  destruct Hres as (_ & Hcb & Hlen & _). specialize (Hcb Hvok).
  destruct (Z.eqb_spec (op_record_len o) 0); [lia |].
  destruct Hst as [Hwf Hty [Hal Hab] Hnext Hack].
  eapply (ensures_bind _ _ (fun '(r', arena') =>
    DtlsReassembly.reasm_wf MAX_FLIGHT_MSGS MAX_MSG_FRAGS r' n /\
    Forall (fun s => is_u8 (DtlsReassembly.slot_type s)) (DtlsReassembly.slots r') /\
    blen arena' = n /\ bytes_ok arena')).
  - destruct (op_content_type o =? CT_HANDSHAKE); [| done].
    pose proof (blen_nonneg (op_content o)). rewrite <- Hal in Hwf |- *.
    apply feed_fragments_spec; [done | lia | unfold blen; lia | done..].
  - intros [r' arena'] (Hwf' & Hty' & Hal' & Hab').
    apply IH; [done | done | lia | lia |]. constructor; cbn; [done.. | apply u64_succ |].
    destruct (_ <? Ack.MAX_ACK_RECORDS); [by apply acked_bound | done].
Qed.

Lemma feed_epoch2_records_spec n keys cid_len records st :
  0 <= cid_len -> bytes_ok records -> feed_ok n st ->
  ensures (feed_epoch2_records (NE := NE) S_ keys cid_len records st) (fun '(records', st') =>
    blen records' = blen records /\ bytes_ok records' /\ feed_ok n st').
Proof.
  intros Hc Hok Hst. pose proof (blen_nonneg records).
  apply feed_loop_spec; [done | done | lia | unfold blen; lia | done].
Qed.
End feed_specs.

Lemma bytes_ok_flat_map {A} (f : A -> bytes) l : (forall x, x ∈ l -> bytes_ok (f x)) -> bytes_ok (flat_map f l).
Proof.
  induction l as [| x l IH]; intros Hf; [constructor |]. cbn [flat_map]. apply bytes_ok_app.
  split; [apply Hf; left | apply IH; intros; apply Hf; by right].
Qed.

Lemma serialize_flight_spec `{Usize} n st out :
  feed_ok n st -> bytes_ok out -> blen out <= usize_max ->
  ensures (DtlsReassembly.serialize_flight (fs_reasm st) (fs_arena st) out) (fun '(out', len) =>
    bytes_ok out' /\ 0 <= len <= blen out').
Proof.
  intros [Hwf Hty [Hal Hab] _ _] Hout Hu. unfold DtlsReassembly.serialize_flight.
  set (ss := DtlsReassembly.slots (fs_reasm st)) in *.
  pose proof (DtlsReassembly.serialize_loop_eq (length ss) ss (fs_arena st) None [] out) as Heq.
  cbn [app] in Heq. change (blen (@nil Z)) with 0 in Heq. rewrite Heq; [| | done |]; clear Heq.
  - pose proof (DtlsReassembly.visit_spec (length ss) ss None) as Hv.
    destruct Hv as [_ Hv]; [apply length_filter | by destruct Hwf |].
    assert (bytes_ok (DtlsReassembly.flight_wire (fs_arena st) (DtlsReassembly.visit (length ss) ss None))) as Hw.
    { apply bytes_ok_flat_map. intros s [_ Hs]%list_elem_of_filter. apply Hv in Hs as [Hs _].
      unfold DtlsReassembly.slot_wire. apply bytes_ok_app. split.
      - assert (forall x, is_u8 (as_u8 x)) as Hu8 by (intros x; apply Z.mod_pos_bound; unfold U8; lia).
        pose proof (proj1 (Forall_forall _ _) Hty s Hs) as Ht. cbn beta in Ht.
        repeat (apply List.Forall_cons; [done |]). constructor.
      - destruct (slice _ _ _) as [b |] eqn:Hb; [| constructor]. apply (bytes_ok_slice _ _ _ _ Hab Hb). }
    set (w := DtlsReassembly.flight_wire _ _) in *. unfold DtlsReassembly.append_out. cbn [app].
    destruct (Z.leb_spec (blen w) (blen out)); [| done]. cbn [ensures]. change (blen (@nil Z)) with 0.
    rewrite bytes_ok_app, blen_app, blen_drop. pose proof (blen_nonneg w).
    split; [split; [done | by apply Forall_drop] | unfold blen in *; lia].
  - apply length_filter.
  - apply Forall_forall. intros s Hs.
    destruct (DtlsReassembly.laid_out_inside _ _ _ _ (DtlsReassembly.wf_layout _ _ _ _ Hwf) Hs) as (? & ? & ?).
    pose proof (DtlsReassembly.wf_used _ _ _ _ Hwf). lia.
Qed.

(** ** A logic for transport computations

    [dm_spec k m P]: whatever the network does, [m] does not panic, sends at most [k]
    datagrams, and a result satisfies [P]. *)
Section logic.
Context `{DatagramTransport}.

Definition sent_within (k : Z) (net net' : Net) : Prop :=
  exists ds, net_log net' = net_log net ++ ds /\ blen ds <= k.

Definition dm_spec {A} (k : Z) (m : DM A) (P : A -> Prop) : Prop :=
  forall net, sent_within k net (m net).1 /\ ensures (m net).2 P.

Lemma sent_within_refl k net : 0 <= k -> sent_within k net net.
Proof. intros. exists []. by rewrite app_nil_r. Qed.

Lemma sent_within_trans k1 k2 n1 n2 n3 :
  sent_within k1 n1 n2 -> sent_within k2 n2 n3 -> sent_within (k1 + k2) n1 n3.
Proof.
  intros (d1 & Hd1 & Hl1) (d2 & Hd2 & Hl2). exists (d1 ++ d2).
  rewrite Hd2, Hd1, app_assoc, blen_app. split; [done | lia].
Qed.

Lemma sent_within_le k k' n1 n2 : sent_within k n1 n2 -> k <= k' -> sent_within k' n1 n2.
Proof. intros (d & Hd & Hl) Hk. exists d. split; [done | lia]. Qed.

Lemma dm_ret {A} k (a : A) (P : A -> Prop) : 0 <= k -> P a -> dm_spec k (mret a) P.
Proof. intros Hk HP net. split; [by apply sent_within_refl | done]. Qed.

Lemma dm_lift {A} (o : outcome (DtlsClientError NetError) A) P : ensures o P -> dm_spec 0 (lift o) P.
Proof. intros HP net. split; [by apply sent_within_refl | done]. Qed.

Lemma dm_fail {A} k e (P : A -> Prop) : 0 <= k -> dm_spec k (lift (Err e)) P.
Proof. intros Hk net. split; [by apply sent_within_refl | done]. Qed.

Lemma dm_bind {A B} k1 k2 (m : DM A) (f : A -> DM B) P Q :
  0 <= k2 -> dm_spec k1 m P -> (forall a, P a -> dm_spec k2 (f a) Q) -> dm_spec (k1 + k2) (m ≫= f) Q.
Proof.
  intros Hk Hm Hf net. destruct (Hm net) as [Hs Hr]. unfold mbind, SM_bind.
  destruct (m net) as [net1 [a | e |]]; cbn [fst snd ensures] in *; [| | done].
  - destruct (Hf a Hr net1) as [Hs2 Hr2]. split; [by eapply sent_within_trans | done].
  - split; [eapply sent_within_le; [done | lia] | done].
Qed.

Lemma dm_weaken {A} k k' (m : DM A) (P Q : A -> Prop) :
  dm_spec k m P -> k <= k' -> (forall a, P a -> Q a) -> dm_spec k' m Q.
Proof.
  intros Hm Hk HPQ net. destruct (Hm net) as [Hs Hr].
  split; [by eapply sent_within_le | by eapply ensures_weaken].
Qed.

(** A pure step in front. *)
Lemma dm_bind_lift {A B} k (o : outcome (DtlsClientError NetError) A) (f : A -> DM B) P Q :
  0 <= k -> ensures o P -> (forall a, P a -> dm_spec k (f a) Q) -> dm_spec k (lift o ≫= f) Q.
Proof. intros Hk Ho Hf. apply (dm_bind 0 k _ _ P); [done | by apply dm_lift | done]. Qed.

Lemma dm_send d : dm_spec 1 (transport_send d) (fun _ => True).
Proof.
  intros net. unfold transport_send. pose proof (net_send_log net d) as Hl. pose proof (net_send_total net d) as Ht.
  destruct (net_send net d) as [net' r]. cbn [fst snd] in *.
  split; [exists [d]; split; [done | rewrite blen_cons, blen_nil; lia] |].
  by apply ensures_intro; [apply no_panic_map_err |].
Qed.

Definition received (buf : bytes) (p : bytes * option Z) : Prop :=
  blen p.1 = blen buf /\ bytes_ok p.1 /\ forall n, p.2 = Some n -> 0 <= n <= blen buf.

Lemma dm_recv buf : bytes_ok buf -> dm_spec 0 (transport_recv buf) (received buf).
Proof.
  intros Hbuf net. unfold transport_recv. pose proof (net_recv_log net buf) as Hl.
  pose proof (net_recv_total net buf) as Ht. pose proof (net_recv_len net buf) as Hlen.
  pose proof (net_recv_bytes net buf Hbuf) as Hb. pose proof (net_recv_bound net buf) as Hn.
  destruct (net_recv net buf) as [net' [buf' r]]. cbn [fst snd] in *.
  split; [exists []; rewrite app_nil_r; split; [done | rewrite blen_nil; lia] |].
  destruct r as [n | e |]; cbn; [| done | done]. unfold received. cbn [fst snd].
  split_and!; [done | done |]. intros k ->. by apply Hn.
Qed.

(** [send_flight_await_reply] sends the flight at most [max_attempts] times. *)
Lemma await_loop_spec fuel : forall attempts flight reply max_attempts,
  bytes_ok reply -> 1 <= attempts <= max_attempts -> max_attempts - attempts < Z.of_nat fuel ->
  dm_spec (max_attempts - attempts) (await_loop fuel attempts flight reply max_attempts) (fun '(reply', n) =>
    blen reply' = blen reply /\ bytes_ok reply' /\ 0 <= n <= blen reply).
Proof.
  induction fuel as [| fuel IH]; intros attempts flight reply max_attempts Hok Ha Hf; [lia |]. cbn [await_loop].
  apply (dm_bind 0 (max_attempts - attempts) _ _ (received reply)); [lia | by apply dm_recv |].
  intros [reply' [n |]] (Hl & Hb & Hn).
  - apply dm_ret; [lia |]. cbn in *. auto.
  - destruct (Z.leb_spec max_attempts attempts); [by apply dm_fail; lia |].
    replace (max_attempts - attempts) with (1 + (max_attempts - (attempts + 1))) by lia.
    eapply dm_bind; [lia | apply dm_send |]. intros _ _. cbn [fst] in *.
    eapply dm_weaken; [apply IH; [done | lia | lia] | lia |]. intros [reply2 n]. by rewrite Hl.
Qed.

Lemma send_flight_await_reply_spec flight reply max_attempts :
  bytes_ok reply -> 1 <= max_attempts ->
  dm_spec max_attempts (send_flight_await_reply flight reply max_attempts) (fun '(reply', n) =>
    blen reply' = blen reply /\ bytes_ok reply' /\ 0 <= n <= blen reply).
Proof.
  intros Hok Hm. unfold send_flight_await_reply. replace max_attempts with (1 + (max_attempts - 1)) at 1 by lia.
  eapply dm_bind; [lia | apply dm_send |]. intros _ _. apply await_loop_spec; [done | lia | lia].
Qed.
End logic.

(** ** Totality of the handshake *)

Section connect_specs.
Context `{Usize, HeaplessVec, AeadCipher, RawCiphers, SubtleCt, HkdfSha256, MlDsaSizes}.
Context `{DatagramTransport, KxGroup, VerifierBackend, !VerifyStrategy, CertParser}.
Context (ft : Features) (ip_host : bool) (S_ : Suite) (max_chain : Z).

Lemma bytes_ok_zeros n : bytes_ok (zeros n).
Proof. unfold zeros. apply Forall_replicate. unfold is_u8, U8. lia. Qed.

Lemma blen_zeros n : 0 <= n -> blen (zeros n) = n.
Proof. intros. unfold zeros. rewrite blen_replicate. lia. Qed.

(** The ClientHello is its wire form. *)
Lemma client_hello_spec random pub cookie cid :
  blen pub = 32 -> (forall ck, cookie = Some ck -> blen ck <= 256) ->
  ensures (client_hello ft S_ random pub cookie cid) (fun ch =>
    ch = client_hello_wire ft random pub (CIPHER_SUITE_ID S_) None cookie cid /\ blen ch <= 512).
Proof.
  intros Hp Hk. unfold client_hello.
  rewrite write_client_hello_eq by (done || intros ck E; specialize (Hk ck E); unfold U16; lia).
  destruct (cid_too_long cid); [done |]. cbn zeta. set (w := client_hello_wire _ _ _ _ _ _ _).
  destruct (Z.leb_spec (blen w) (blen (zeros 512))) as [Hw |]; [| done]. cbn [map_err]. rewrite bind_Ok.
  rewrite slice_prefix by done. rewrite blen_zeros in Hw by lia. done.
Qed.

(** A ClientHello as the transcript sees it. *)
Definition ch_msg (random pub : bytes) (cookie cid : option bytes) : bytes :=
  hs_msg HS_CLIENT_HELLO (client_hello_wire ft random pub (CIPHER_SUITE_ID S_) None cookie cid).

(** The transcript before the ServerHello: the ClientHello, or, after a
    HelloRetryRequest, the hash of the first one, the request and the second one. *)
Inductive hello_prefix (random pub : bytes) (cid : option bytes) : bytes -> Prop :=
| hello_direct : hello_prefix random pub cid (ch_msg random pub None cid)
| hello_retry hrr cookie : parse_server_hello hrr = Ok (Retry (CIPHER_SUITE_ID S_) cookie) ->
    hello_prefix random pub cid
      (HRR_MESSAGE_HASH_HEADER ++ sha256 (ch_msg random pub None cid) ++ hs_msg HS_SERVER_HELLO hrr
       ++ ch_msg random pub (Some cookie) cid).

Definition hx_ok (random pub : bytes) (cid : option bytes) (hx : HelloResult) : Prop :=
  blen (hx_rbuf hx) = 2048 /\ bytes_ok (hx_rbuf hx) /\ 0 <= hx_sh_len hx <= 2048 /\ is_u16 (hx_fin_seq hx) /\
  hello_prefix random pub cid (hashed (hx_transcript hx)).

Lemma hashed_add t ty body : blen body < U24 -> hashed (transcript_add t ty body) = hashed t ++ hs_msg ty body.
Proof.
  intros Hb. pose proof (blen_nonneg body). unfold transcript_add.
  rewrite !hashed_update, transcript_msg_header_eq by done. unfold hs_msg. by rewrite <- !app_assoc.
Qed.

Lemma snapshot_spec t : ensures (snapshot t) (fun th => th = sha256 (hashed t) /\ blen th = 32).
Proof.
  unfold snapshot. apply ensures_map_err, ensures_intro; [apply snapshot_total |].
  intros th Hth. by apply snapshot_Ok.
Qed.

Lemma retry_exchange_spec random pub ch1 first_body cookie cid rbuf ch_dgram :
  blen pub = 32 -> bytes_ok rbuf -> blen rbuf = 2048 -> blen ch_dgram = 540 ->
  hs_msg HS_CLIENT_HELLO ch1 = ch_msg random pub None cid -> blen ch1 <= 512 ->
  blen first_body < U24 -> parse_server_hello first_body = Ok (Retry (CIPHER_SUITE_ID S_) cookie) ->
  dm_spec 5 (retry_exchange ft S_ random pub ch1 first_body cookie cid rbuf ch_dgram) (hx_ok random pub cid).
Proof.
  intros Hp Hr Hrl Hd Hch1 Hch1l Hfb Hretry. unfold retry_exchange.
  apply (dm_bind_lift _ _ _ (fun cb => splice (zeros 256) 0 cookie = Some cb)); [lia | apply ensures_ok_or_eq |].
  intros cb Hcb. eapply dm_bind_lift; [lia | apply snapshot_spec |].
  intros h [Hh _]. rewrite hashed_add in Hh by (unfold U24; lia). apply splice_Some_inv in Hcb as (_ & Hle & Hcl & ->).
  rewrite blen_zeros in Hle by lia. cbn [take Z.to_nat] in *. change (Z.to_nat 0) with O. rewrite take_0. cbn [app].
  apply (dm_bind_lift _ _ _ (fun ck => ck = cookie));
    [lia | apply ensures_or_panic; exists cookie; split; [by apply slice_prefix | done] |].
  intros ck ->. eapply dm_bind_lift; [lia | apply client_hello_spec; [done | intros ? [= <-]; lia] |].
  intros ch2 [Hch2w Hch2]. eapply dm_bind_lift;
    [lia | apply build_client_hello_record_spec; [unfold is_u16, U16; lia | unfold U24; lia] |].
  intros [dgram rec] [Hdl (rest & ->)].
  replace 5 with (5 + 0) by lia. eapply dm_bind; [lia | by apply send_flight_await_reply_spec |].
  intros [rb n] (Hrb & Hok & Hn).
  apply (dm_bind_lift _ _ _ (fun _ => True));
    [lia | apply ensures_or_panic; exists rec; split; [by apply slice_prefix | done] |].
  intros rt _. apply dm_ret; [lia |]. unfold hx_ok. cbn [hx_rbuf hx_sh_len hx_fin_seq hx_transcript].
  split_and!; try done; try lia; [unfold is_u16, U16; lia.. |].
  rewrite !hashed_add, !hashed_update by (done || unfold U24; lia).
  unfold TranscriptHash_new. unfold TranscriptHash_new in Hh. rewrite hasher_spec in *. cbn [app] in *.
  change CLIENT_HELLO_MSG_TYPE with HS_CLIENT_HELLO in *.
  rewrite Hh, Hch1, Hch2w. rewrite <- !app_assoc. by apply hello_retry.
Qed.

Lemma hello_exchange_spec random pub cid :
  blen pub = 32 -> dm_spec 10 (hello_exchange ft S_ random pub cid) (hx_ok random pub cid).
Proof.
  intros Hp. unfold hello_exchange.
  eapply dm_bind_lift; [lia | by apply client_hello_spec |]. intros ch1 [Hch1w Hch1].
  eapply dm_bind_lift; [lia | apply build_client_hello_record_spec; [unfold is_u16, U16; lia | unfold U24; lia] |].
  intros [dgram rec] [Hdl (rest & Hrest)]. change (blen (zeros (Framing.HS_HEADER_LEN + 512 + 16))) with 540 in Hdl.
  change 10 with (5 + 5).
  eapply dm_bind; [lia | apply send_flight_await_reply_spec; [apply bytes_ok_zeros | unfold MAX_FLIGHT_ATTEMPTS; lia] |].
  intros [rb n] (Hrb & Hok & Hn). rewrite blen_zeros in Hrb, Hn by lia.
  apply (dm_bind_lift _ _ _ bytes_ok).
  { lia. }
  { apply ensures_or_panic. destruct (slice_in_range rb 0 n) as [v Hv]; [lia.. |].
    exists v. split; [done |]. apply (bytes_ok_slice _ _ _ _ Hok Hv). }
  intros reply Hreply. eapply dm_bind_lift; [lia | by apply parse_hello_body_spec |].
  intros [[first_body sq] tr] (Hfb & Hfbl & _). eapply dm_bind_lift;
    [lia | by apply ensures_map_err, ensures_eq, parse_server_hello_no_panic |].
  intros [suite cookie | suite share scid] Hkind.
  - destruct (Z.eqb_spec suite (CIPHER_SUITE_ID S_)) as [-> |]; cbn [negb]; [| apply dm_fail; lia].
    apply retry_exchange_spec; try done. unfold ch_msg. by rewrite Hch1w.
  - apply (dm_bind_lift _ _ _ (fun _ => True));
      [lia | apply ensures_or_panic; exists rec; split; [rewrite Hrest; by apply slice_prefix | done] |].
    intros rt _. apply dm_ret; [lia |]. unfold hx_ok. cbn [hx_rbuf hx_sh_len hx_fin_seq hx_transcript].
    split_and!; try done; try lia; [unfold is_u16, U16; lia.. |].
    rewrite hashed_add by (unfold U24; lia). unfold TranscriptHash_new. rewrite hasher_spec. cbn [app].
    rewrite Hch1w. apply hello_direct.
Qed.

(** The ServerHello chose our suite and is next in the transcript. *)
Definition sp_ok (hx : HelloResult) (sp : ServerParams) : Prop :=
  (exists sh scid, parse_server_hello sh = Ok (Hello (CIPHER_SUITE_ID S_) (sp_share sp) scid) /\
     hashed (sp_transcript sp) = hashed (hx_transcript hx) ++ hs_msg HS_SERVER_HELLO sh) /\
  is_u16 (sp_seq sp) /\ 0 <= sp_trailing sp <= hx_sh_len hx /\ 0 <= sp_recv_cid_len sp /\
  blen (sp_send_cid_buf sp) = MAX_CID_LEN /\ 0 <= sp_send_cid_len sp <= MAX_CID_LEN.

Lemma process_server_hello_spec random pub cid hx :
  hx_ok random pub cid hx -> ensures (process_server_hello S_ cid hx) (sp_ok hx).
Proof.
  intros (Hl & Hok & Hn & _). unfold process_server_hello.
  apply (ensures_bind _ _ (fun v => bytes_ok v /\ blen v = hx_sh_len hx)).
  { apply ensures_or_panic. destruct (slice_in_range (hx_rbuf hx) 0 (hx_sh_len hx)) as [v Hv]; [lia.. |].
    exists v. split; [done |]. split; [apply (bytes_ok_slice _ _ _ _ Hok Hv) |].
    apply slice_Some_inv in Hv as (_ & _ & _ & ? & _). lia. }
  intros v [Hv Hvl]. eapply ensures_bind; [by apply parse_hello_body_spec |].
  intros [[body sq] tr] (Hb & Hbody & Hsq & Htr). rewrite Hvl in Htr.
  eapply ensures_bind; [by apply ensures_map_err, ensures_eq, parse_server_hello_no_panic |].
  intros [| suite share scid] Hkind; [done |].
  destruct (Z.eqb_spec suite (CIPHER_SUITE_ID S_)) as [-> |]; cbn [negb]; [| done].
  apply (ensures_bind _ _ (fun '(rl, buf, sl) => 0 <= rl /\ blen buf = MAX_CID_LEN /\ 0 <= sl <= MAX_CID_LEN)).
  - assert (blen (zeros MAX_CID_LEN) = MAX_CID_LEN) as Hz by done.
    destruct cid as [our |], scid as [their |]; cbn [ensures]; try (split_and!; done || (unfold MAX_CID_LEN; lia)).
    destruct (Z.ltb_spec MAX_CID_LEN (blen their)); [done |].
    destruct (splice_in_range (zeros MAX_CID_LEN) 0 their) as [b Hsp]; [lia.. |]. rewrite Hsp. cbn.
    apply splice_Some_inv in Hsp as (_ & _ & Hbl & _). pose proof (blen_nonneg our). pose proof (blen_nonneg their).
    split_and!; [done | congruence | done | done].
  - intros [[rl buf] sl] (Hrl & Hbuf & Hsl). cbn [ensures]. unfold sp_ok.
    cbn [sp_share sp_seq sp_trailing sp_transcript sp_recv_cid_len sp_send_cid_buf sp_send_cid_len].
    split; [| split_and!; try done; lia]. exists body, scid. split; [done |]. by apply hashed_add.
Qed.

(** The HKDF computations report their errors. *)
Lemma ensures_computes {A} (m : outcome HkdfLabelError A) v : computes m v -> ensures m (fun a => a = v).
Proof. by destruct m as [a | [] |]. Qed.

Lemma EpochKeys_derive_spec ts : ensures (EpochKeys_derive S_ ts) (fun _ => True).
Proof.
  unfold EpochKeys_derive, derive_record_keys, derive_masker.
  assert (0 <= suite_key_len S_ < U16) as Hl by (destruct S_; unfold U16; cbn; lia).
  destruct (dtls_schedule_eq [] [] [] ts (zeros 32) (suite_key_len S_) eq_refl Hl) as (_ & _ & _ & _ & Hk & Hn & _).
  apply (ensures_bind _ _ (fun _ => True)).
  - eapply ensures_bind; [apply ensures_computes, Hk |]. by intros [] _.
  - intros keys _. eapply ensures_bind; [apply ensures_computes, Hn |]. done.
Qed.

Lemma derive_handshake_keys_spec secret th :
  blen th = 32 -> ensures (derive_handshake_keys S_ secret th) (fun _ => True).
Proof.
  intros Hth. unfold derive_handshake_keys, hk_err. destruct (ct_eq _ _); [done |].
  assert (0 <= 16 < U16) as Hl by (unfold U16; lia).
  destruct (dtls_schedule_eq secret [] [] [] th 16 Hth Hl) as (Hs & _).
  eapply ensures_bind; [apply ensures_map_err, ensures_computes, Hs |]. intros hs _.
  destruct (dtls_schedule_eq secret hs [] [] th 16 Hth Hl) as (_ & Ht & _).
  eapply ensures_bind; [apply ensures_map_err, ensures_computes, Ht |]. intros [c s] _.
  eapply ensures_bind; [apply ensures_map_err, EpochKeys_derive_spec |]. intros ck _.
  eapply ensures_bind; [apply ensures_map_err, EpochKeys_derive_spec |]. done.
Qed.

Lemma handshake_keys_spec secret sp : ensures (handshake_keys S_ secret sp) (fun _ => True).
Proof.
  unfold handshake_keys.
  apply (ensures_bind _ _ secret_ok); [apply ensures_map_err, ensures_intro; [apply kx_derive_total | apply kx_derive_ok] |].
  intros ikm Hikm. rewrite secret_slice_eq by done. rewrite bind_Ok. destruct (negb _); [done |].
  eapply ensures_bind; [apply snapshot_spec |]. intros th [_ Hth].
  by apply ensures_map_err, derive_handshake_keys_spec.
Qed.

(** ** Collecting the flight *)

Lemma flight_start_spec dg n :
  bytes_ok dg -> 0 <= n <= blen dg -> ensures (flight_start dg n) (fun s => forall st, s = Some st -> 0 <= st <= n).
Proof.
  intros Hok Hn. unfold flight_start. cbv zeta.
  match goal with |- context [match at_idx dg 0 with _ => _ end] => set (pl := (_ ≫= _)) end.
  assert (ensures pl (fun s => forall st, s = Some st -> 0 <= st <= n)) as Hpl.
  { unfold pl. destruct (slice_in_range dg 0 n) as [v Hv]; [lia.. |]. rewrite Hv. run.
    pose proof (bytes_ok_slice _ _ _ _ Hok Hv) as Hvok. apply slice_Some_inv in Hv as (_ & _ & _ & Hvl & _).
    pose proof (parse_hello_body_spec (NE := NetError) v Hvok) as Hp.
    destruct (parse_hello_body v) as [[[body sq] tr] | |]; [| done | done]. cbn in Hp |- *.
    intros st [= <-]. lia. }
  destruct (at_idx dg 0) as [b |]; [| done]. destruct (is_ciphertext_record b); [| done].
  cbn. intros st [= <-]. lia.
Qed.

Lemma collect_flight_spec n fuel : forall keys cid_len base_seq retransmit st datagrams resends dg,
  0 <= cid_len -> feed_ok n st -> 0 <= resends -> bytes_ok dg -> blen dg = MAX_DATAGRAM ->
  datagrams <= MAX_FLIGHT_DATAGRAMS -> MAX_FLIGHT_DATAGRAMS - datagrams < Z.of_nat fuel ->
  dm_spec resends (collect_flight S_ fuel keys cid_len base_seq retransmit st datagrams resends dg) (feed_ok n).
Proof.
  induction fuel as [| fuel IH]; intros keys cid_len base_seq retransmit st datagrams resends dg
    Hc Hst Hr Hok Hl Hd Hf; cbn [collect_flight].
  { lia. }
  destruct (DtlsReassembly.flight_complete _ _ _); [by apply dm_ret |].
  destruct (Z.leb_spec MAX_FLIGHT_DATAGRAMS datagrams); [by apply dm_fail |].
  apply (dm_bind 0 resends _ _ (received dg)); [lia | by apply dm_recv |].
  intros [dg' [k |]] (Hdl & Hdok & Hk); cbn [fst snd] in *.
  - specialize (Hk k eq_refl).
    eapply dm_bind_lift; [lia | apply flight_start_spec; [done | lia] |].
    intros [start |] Hs; [| apply IH; try done; lia].
    specialize (Hs start eq_refl).
    apply (dm_bind_lift _ _ _ (fun r => bytes_ok r /\ blen r = k - start)); [lia | |].
    { apply ensures_or_panic. destruct (slice_in_range dg' start k) as [v Hv]; [lia.. |].
      exists v. split; [done |]. split; [apply (bytes_ok_slice _ _ _ _ Hdok Hv) |].
      by apply slice_Some_inv in Hv as (_ & _ & _ & ? & _). }
    intros records [Hrok Hrl]. eapply dm_bind_lift; [lia | by apply (feed_epoch2_records_spec S_ n) |].
    intros [records' st'] (Hrl' & Hrok' & Hst').
    apply (dm_bind_lift _ _ _ (fun d => bytes_ok d /\ blen d = MAX_DATAGRAM)); [lia | |].
    { apply ensures_or_panic. destruct (splice_in_range dg' start records') as [d Hsp]; [lia.. |].
      exists d. split; [done |]. split; [eapply bytes_ok_splice; [exact Hdok | exact Hrok' | exact Hsp] |].
      apply splice_Some_inv in Hsp as (_ & _ & ? & _). congruence. }
    intros d [Hdo Hdlen]. apply IH; try done; lia.
  - destruct (Z.eqb_spec resends 0); [apply dm_fail; lia |].
    replace resends with (1 + (resends - 1)) at 1 by lia.
    eapply dm_bind; [lia | apply dm_send |]. intros _ _. apply IH; try done; lia.
Qed.

Lemma receive_flight_spec random pub cid hx sp hk flight_buf reasm_buf :
  hx_ok random pub cid hx -> sp_ok hx sp -> bytes_ok flight_buf -> bytes_ok reasm_buf -> blen flight_buf <= usize_max ->
  dm_spec 4 (receive_flight S_ hx sp hk flight_buf reasm_buf) (fun '(flight, acked) =>
    bytes_ok flight /\ 0 <= acked < U128).
Proof.
  intros (Hl & Hok & Hn & _) (_ & _ & Htr & Hrc & _) Hfb Hrb Hu. unfold receive_flight. cbv zeta.
  set (st0 := {| fs_reasm := _ |}).
  assert (feed_ok (blen reasm_buf) st0) as Hst0.
  { constructor; cbn; [| constructor | done | unfold is_u64, U64; lia | unfold U128; lia].
    apply DtlsReassembly.reasm_wf_new; [unfold MAX_FLIGHT_MSGS; lia | apply blen_nonneg]. }
  apply (dm_bind_lift _ _ _ (feed_ok (blen reasm_buf))); [lia | |].
  { destruct (Z.ltb_spec 0 (sp_trailing sp)); [| done].
    apply (ensures_bind _ _ bytes_ok).
    - apply ensures_or_panic.
      destruct (slice_in_range (hx_rbuf hx) (hx_sh_len hx - sp_trailing sp) (hx_sh_len hx)) as [v Hv]; [lia.. |].
      exists v. split; [done |]. apply (bytes_ok_slice _ _ _ _ Hok Hv).
    - intros v Hv. eapply ensures_bind; [by apply (feed_epoch2_records_spec S_ (blen reasm_buf)) |].
      intros [v' st'] (_ & _ & Hst'). done. }
  intros st Hst. replace 4 with (4 + 0) by lia.
  eapply dm_bind; [lia | apply (collect_flight_spec (blen reasm_buf)); try done; try lia; apply bytes_ok_zeros |].
  intros st' Hst'. eapply dm_bind_lift; [lia | by apply ensures_map_err, (serialize_flight_spec (blen reasm_buf)) |].
  intros [fb len] [Hfbo Hlen]. apply (dm_bind_lift _ _ _ bytes_ok); [lia | |].
  { apply ensures_or_panic. destruct (slice_in_range fb 0 len) as [v Hv]; [lia.. |].
    exists v. split; [done |]. apply (bytes_ok_slice _ _ _ _ Hfbo Hv). }
  intros flight Hfl. apply dm_ret; [lia |]. split; [done | by apply (fo_acked (blen reasm_buf))].
Qed.

(** ** What a verified flight proves *)

(** The server is authentic: the strategy vouches for the chain it presented, the
    leaf's key signed the transcript, the leaf names the host, and the Finished is the
    MAC under the server's handshake secret. *)
Definition flight_authentic (tr secret flight : bytes) (hostname : option bytes) : Prop :=
  exists ee creq cert scheme sig fin chain pv d leaf,
    let cv := be_bytes 2 scheme ++ be_bytes 2 (blen sig) ++ sig in
    let th1 := sha256 (tr ++ through_cert ee creq cert) in
    let th2 := sha256 (tr ++ through_cert ee creq cert ++ hs_msg HS_CERTIFICATE_VERIFY cv) in
    flight = flight_wire ee creq cert cv fin /\
    extract_chain max_chain cert = Ok chain /\ vouched chain pv /\
    head chain = Some d /\ parse d = Ok leaf /\ prepared_for pv leaf /\
    (forall host, hostname = Some host -> verify_hostname ip_host leaf host = Ok tt) /\
    cv_valid pv scheme sig (cv_content th1) /\
    fin = Finished_Mac DTLS13_LABEL_PREFIX secret th2.

(** The leaf's part of the decision: the chain, the SPKI cross-check, the host name. *)
Lemma leaf_checks_spec {A} cert hostname (k : PreparedVerifier -> CertView -> outcome (DtlsClientError NetError) A) Q :
  0 <= max_chain -> bytes_ok cert ->
  (forall chain pv d leaf, extract_chain max_chain cert = Ok chain -> vouched chain pv -> head chain = Some d ->
     parse d = Ok leaf -> prepared_for pv leaf ->
     (forall host, hostname = Some host -> verify_hostname ip_host leaf host = Ok tt) -> ensures (k pv leaf) Q) ->
  ensures
    (chain ← map_err (fun _ => DeProtocol) (extract_chain max_chain cert);
     trusted ← map_err (fun _ => DeStrategyRejected) (verify_chain chain);
     leaf_der ← ok_or (head chain) DeProtocol;
     leaf_view ← map_err (fun _ => DeProtocol) (parse leaf_der);
     if negb (matches_cert trusted leaf_view) then Err DePubkeyMismatch else
     _ ← match hostname with
         | Some host => map_err (fun _ => DeHostnameMismatch) (verify_hostname ip_host leaf_view host)
         | None => Ok tt
         end;
     k trusted leaf_view) Q.
Proof.
  intros Hmc Hcok Hk.
  eapply ensures_bind; [by apply ensures_map_err, ensures_eq, extract_chain_total |]. intros chain Hchain.
  pose proof (extract_chain_bytes _ _ _ Hmc Hcok Hchain) as Hb. pose proof (Forall_impl _ bytes_ok _ Hb (fun c Hc => proj1 Hc)) as Hbs.
  eapply ensures_bind; [by apply ensures_map_err, ensures_eq, verify_chain_total |]. intros pv Hpv.
  apply verify_chain_vouched in Hpv.
  eapply ensures_bind; [apply ensures_ok_or_eq |]. intros d Hd.
  destruct chain as [| d' chain]; [done |]. injection Hd as ->. apply Forall_cons in Hb as [[Hdok Hdl] _].
  eapply ensures_bind; [by apply ensures_map_err, ensures_eq, parse_total |]. intros leaf Hleaf.
  destruct (matches_cert pv leaf) eqn:Hm; cbn [negb]; [| done]. apply matches_cert_spec in Hm.
  apply (ensures_bind _ _ (fun _ => forall host, hostname = Some host -> verify_hostname ip_host leaf host = Ok tt)).
  - destruct hostname as [host |]; [| done]. apply ensures_map_err, ensures_intro.
    + apply verify_hostname_total. intros san Hsan.
      destruct (parse_san _ _ _ Hdok Hleaf Hsan) as [? ?]. split; [done |].
      pose proof usize_max_ge. unfold U24, U32 in *. lia.
    + by intros [] Hv ? [= <-].
  - intros u Hh. apply (Hk (d :: chain) pv d leaf); done.
Qed.

Lemma finished_mac_spec secret th :
  blen th = 32 -> ensures (dtls_finished_mac secret th) (fun fin => fin = Finished_Mac DTLS13_LABEL_PREFIX secret th).
Proof.
  intros Hth. apply ensures_computes.
  destruct (dtls_schedule_eq [] [] [] secret th 16 Hth ltac:(unfold U16; lia)) as (_ & _ & _ & _ & _ & _ & Hf). exact Hf.
Qed.

Lemma verify_flight_spec t secret flight hostname :
  0 <= max_chain -> bytes_ok flight ->
  ensures (verify_flight ip_host max_chain t secret flight hostname) (fun '(_, t') =>
    flight_authentic (hashed t) secret flight hostname /\ hashed t' = hashed t ++ flight).
Proof.
  intros Hmc Hok. unfold verify_flight.
  eapply ensures_bind; [by apply ensures_map_err, ensures_eq, parse_server_flight_total |].
  intros v Hv. apply parse_server_flight_inv in Hv as (ee & creq & cert & cv & fin & Hb & Hw & ->); [| done].
  rewrite Hw in Hok. destruct (flight_wire_bytes _ _ _ _ _ Hok) as (Heok & Hcok & Hvok & _).
  pose proof (hashed_through_cert t ee creq cert cv fin) as Hh. cbn zeta in Hh.
  eapply ensures_bind; [by apply ensures_map_err, ensures_eq, parse_ee_record_size_limit_no_panic |]. intros limit _.
  cbn [sf_cert_body flight_view]. apply leaf_checks_spec; [done | done |].
  intros chain pv d leaf Hchain Hvouch Hd Hleaf Hprep Hhost. cbn zeta.
  set (t3 := transcript_update _ (sf_cert_full _)) in *.
  eapply ensures_bind; [apply snapshot_spec |]. intros th1 [Hth1 Hl1].
  apply (ensures_bind _ _ (fun _ => exists scheme sig, cv = be_bytes 2 scheme ++ be_bytes 2 (blen sig) ++ sig /\
    cv_valid pv scheme sig (cv_content th1))).
  { cbn [sf_cv_body flight_view]. apply ensures_map_err.
    destruct (cv_body_cases pv th1 cv Hvok Hl1) as [-> | [-> | (scheme & sig & _ & Hcv & ->)]]; [done | done |].
    apply ensures_intro; [apply verify_cv_signature_total |]. intros [] Hval.
    exists scheme, sig. split; [done | by apply verify_cv_signature_valid]. }
  intros _ (scheme & sig & -> & Hval). cbn [sf_cv_full sf_fin_body sf_fin_full flight_view].
  set (cvm := hs_msg HS_CERTIFICATE_VERIFY _).
  eapply ensures_bind; [apply snapshot_spec |]. intros th2 [Hth2 Hl2].
  eapply ensures_bind; [by apply ensures_map_err, finished_mac_spec |]. intros fin' Hfin.
  destruct (negb (blen fin =? blen fin') || negb (ct_eq fin' fin)) eqn:Hg; [done |]. bool_to_prop.
  match goal with Hc : ct_eq _ _ = true |- _ => apply ct_eq_spec in Hc as <- end.
  cbn [ensures]. rewrite Hh in Hth1. rewrite hashed_update, Hh, <- app_assoc in Hth2. subst th1 th2.
  split; [by exists ee, creq, cert, scheme, sig, fin', chain, pv, d, leaf |].
  rewrite Hw, !hashed_update, Hh. unfold cvm, flight_wire, through_cert. destruct creq; by rewrite <- !app_assoc.
Qed.

(** ** The end of the handshake *)

Lemma finish_flight_spec hk cid seq fin :
  blen (default [] cid) <= MAX_CID_LEN ->
  ensures (seal S_ (hk_client hk) {| sh_epoch := 2; sh_seq := seq; sh_seq_len := Two; sh_cid := cid |} fin CT_HANDSHAKE (zeros 128))
    (fun '(_, sealed) => blen sealed <= 128).
Proof.
  intros Hc. change MAX_CID_LEN with 20 in Hc.
  apply ensures_intro; [apply seal_no_panic; cbn [sh_cid]; unfold U24; lia |].
  intros [out' sealed] Hs. destruct (Z.le_gt_cases U16 (blen fin)) as [Hl | Hl]; [by rewrite seal_too_large in Hs |].
  apply seal_Ok_inv in Hs as (_ & _ & _ & _ & _ & _ & _ & _ & Hfit & _);
    [| cbn [sh_cid]; unfold U24; lia | unfold U16, U24 in *; lia].
  by rewrite blen_zeros in Hfit.
Qed.

Lemma ack_body_spec acked :
  0 <= acked < U128 ->
  ensures (Ack.write_ack_bitmap 2 acked (zeros Ack.MAX_ACK_BODY_LEN)) (fun '(out, n) => 0 <= n <= blen out).
Proof.
  intros Ha. rewrite Ack.write_ack_bitmap_eq, Ack.write_ack_rejects by done.
  set (recs := _ <$> _). destruct (_ <? _); [done |].
  destruct (Z.ltb_spec (blen (zeros Ack.MAX_ACK_BODY_LEN)) (2 + Ack.RECORD_NUMBER_LEN * blen recs)) as [| Hl]; [done |].
  cbn [ensures]. pose proof (blen_nonneg recs).
  assert (blen (Ack.ack_wire recs) = 2 + Ack.RECORD_NUMBER_LEN * blen recs) as Hw.
  { unfold Ack.ack_wire, Ack.RECORD_NUMBER_LEN. rewrite blen_app, blen_be_bytes, Ack.blen_record_numbers. lia. }
  rewrite blen_app, Hw, blen_drop. unfold Ack.RECORD_NUMBER_LEN in *. lia.
Qed.

Lemma client_finish_spec hk cid fin_seq th acked :
  blen (default [] cid) <= MAX_CID_LEN -> is_u16 fin_seq -> blen th = 32 -> 0 <= acked < U128 ->
  dm_spec 2 (client_finish S_ hk cid fin_seq th acked) (fun '(fin_flight, fin_len) =>
    0 <= fin_len <= blen fin_flight).
Proof.
  intros Hc Hq Hth Ha. unfold client_finish.
  eapply dm_bind_lift; [lia | by apply ensures_map_err, finished_mac_spec |]. intros fin ->.
  eapply dm_bind_lift; [lia | apply write_hs_msg_spec; [unfold is_u8, U8, HS_FINISHED; lia | done |] |].
  { unfold Finished_Mac. rewrite hkdf_extract_len. unfold U24. lia. }
  intros msg _. eapply dm_bind_lift; [lia | by apply ensures_map_err, finish_flight_spec |].
  intros [o sealed] Hs. apply (dm_bind_lift _ _ _ (fun f => blen f = 128)); [lia | |].
  { apply ensures_ok_or. intros f (_ & _ & Hf & _)%splice_Some_inv. by rewrite Hf. }
  intros f Hf. change 2 with (1 + 1). eapply dm_bind; [lia | apply dm_send |]. intros _ _.
  eapply dm_bind_lift; [lia | by apply ensures_map_err, ack_body_spec |]. intros [ab n] Hn.
  apply (dm_bind_lift _ _ _ (fun _ => True)); [lia | |].
  { apply ensures_or_panic. destruct (slice_in_range ab 0 n) as [v Hv]; [lia.. |]. by exists v. }
  intros ack _. apply (dm_bind_lift _ _ _ (fun _ => True)); [lia | |].
  { apply ensures_map_err, ensures_intro; [| done]. apply seal_no_panic. cbn [sh_cid].
    change MAX_CID_LEN with 20 in Hc. unfold U24. lia. }
  intros [o2 s2] _. change 1 with (1 + 0). eapply dm_bind; [lia | apply dm_send |]. intros _ _.
  apply dm_ret; [lia |]. pose proof (blen_nonneg sealed). lia.
Qed.

(** The application keys are those of the key schedule over the whole transcript. *)
Definition session_keys (hs_secret tr : bytes) (c : DtlsClient) : Prop :=
  let P := DTLS13_LABEL_PREFIX in
  let ms := Master_Secret P hs_secret in
  EpochKeys_derive S_ (Derive_Secret P ms "c ap traffic" (sha256 tr)) = Ok (dc_client_app c) /\
  EpochKeys_derive S_ (Derive_Secret P ms "s ap traffic" (sha256 tr)) = Ok (dc_server_app c).

(** A session that has not been used. *)
Definition fresh_session (c : DtlsClient) : Prop :=
  session_ok c [] /\ dc_send_seq c = 0 /\ dc_recv_stash_len c = 0 /\ dc_fin_resends_left c = MAX_FLIGHT_ATTEMPTS.

Lemma start_session_spec hx hk sp th tr fin_flight fin_len limit :
  th = sha256 tr -> blen th = 32 -> sp_ok hx sp -> 0 <= fin_len <= blen fin_flight ->
  ensures (start_session S_ hk sp th fin_flight fin_len limit) (fun c =>
    fresh_session c /\ session_keys (hk_hs_secret hk) tr c).
Proof.
  intros -> Hth (_ & _ & _ & Hrc & Hsb & Hsl) Hf. unfold start_session. cbv zeta.
  assert (0 <= 16 < U16) as H16 by (unfold U16; lia).
  destruct (dtls_schedule_eq [] (hk_hs_secret hk) [] [] (sha256 tr) 16 Hth H16) as (_ & _ & Hm & _).
  eapply ensures_bind; [apply ensures_map_err, ensures_computes, Hm |]. intros ms ->.
  destruct (dtls_schedule_eq [] [] (Master_Secret DTLS13_LABEL_PREFIX (hk_hs_secret hk)) [] (sha256 tr) 16 Hth H16)
    as (_ & _ & _ & Ha & _).
  eapply ensures_bind; [apply ensures_map_err, ensures_computes, Ha |]. intros [c s] [= -> ->].
  eapply ensures_bind; [apply ensures_map_err, ensures_eq; eapply ensures_no_panic, EpochKeys_derive_spec |]. intros ck Hck.
  eapply ensures_bind; [apply ensures_map_err, ensures_eq; eapply ensures_no_panic, EpochKeys_derive_spec |]. intros sk Hsk.
  cbn [ensures]. split; [| by split]. unfold fresh_session.
  split; [| by split_and!]. constructor; cbn [dc_server_replay dc_recv_hint dc_recv_stash dc_recv_stash_len dc_fin_flight
    dc_fin_flight_len dc_fin_resends_left dc_recv_cid_len dc_send_cid dc_send_cid_len];
    [apply Replay.repr_new | constructor | constructor | unfold is_u64, U64; lia | done | unfold MAX_DATAGRAM; lia
    | done | unfold MAX_FLIGHT_ATTEMPTS; lia | done | lia].
Qed.

(** What a completed handshake has established. *)
Definition handshake_established (rng : Rng) (random : bytes) (hostname cid : option bytes) (c : DtlsClient) : Prop :=
  exists secret share pre sh skey scid ikm hk flight,
    let tr := pre ++ hs_msg HS_SERVER_HELLO sh in
    (kx_generate rng).2 = Ok (secret, share) /\ blen (share_bytes share) = 32 /\
    hello_prefix random (share_bytes share) cid pre /\
    parse_server_hello sh = Ok (Hello (CIPHER_SUITE_ID S_) skey scid) /\
    kx_derive secret skey = Ok ikm /\
    derive_handshake_keys S_ (take (Z.to_nat (ss_len ikm)) (ss_buf ikm)) (sha256 tr) = Ok hk /\
    flight_authentic tr (hk_server_hs_ts hk) flight hostname /\
    session_keys (hk_hs_secret hk) (tr ++ flight) c.

Lemma handshake_keys_eq secret sp :
  ensures (handshake_keys S_ secret sp) (fun hk => exists ikm, kx_derive secret (sp_share sp) = Ok ikm /\
    derive_handshake_keys S_ (take (Z.to_nat (ss_len ikm)) (ss_buf ikm)) (sha256 (hashed (sp_transcript sp))) = Ok hk).
Proof.
  apply ensures_intro; [eapply ensures_no_panic, handshake_keys_spec |]. unfold handshake_keys. intros hk Hk.
  apply bind_Ok_inv in Hk as (ikm & Hikm%map_err_Ok_inv & Hk).
  rewrite secret_slice_eq, bind_Ok in Hk by (by eapply kx_derive_ok). destruct (negb _); [done |].
  apply bind_Ok_inv in Hk as (th & Hth & Hk%map_err_Ok_inv). unfold snapshot in Hth.
  apply map_err_Ok_inv, snapshot_Ok in Hth as [-> _]. by exists ikm.
Qed.

Lemma connect_spec rng random hostname cid flight_buf reasm_buf :
  0 <= max_chain -> bytes_ok flight_buf -> bytes_ok reasm_buf -> blen flight_buf <= usize_max ->
  dm_spec 16 (connect ft ip_host S_ max_chain rng random hostname cid flight_buf reasm_buf) (fun c =>
    fresh_session c /\ handshake_established rng random hostname cid c).
Proof.
  intros Hmc Hfb Hrb Hu. unfold connect.
  eapply dm_bind_lift; [lia | by apply ensures_map_err, ensures_eq, kx_generate_total |]. intros [secret share] Hgen.
  cbn beta in Hgen. pose proof (kx_generate_ok _ _ _ Hgen) as Hsh. rewrite share_slice_eq by done.
  apply (dm_bind_lift _ _ _ (fun p => p = share_bytes share)); [lia | done |]. intros pub ->.
  destruct (Z.eqb_spec (blen (share_bytes share)) 32) as [Hp |]; cbn [negb]; [| apply dm_fail; lia].
  change 16 with (10 + 6). eapply dm_bind; [lia | by apply hello_exchange_spec |]. intros hx Hhx.
  eapply dm_bind_lift; [lia | by eapply process_server_hello_spec |]. intros sp Hsp.
  pose proof Hhx as (_ & _ & _ & Hq & Hpre). pose proof Hsp as ((sh & scid & Hkind & Htr) & _ & _ & _ & Hsb & Hsl).
  apply (dm_bind_lift _ _ _ (fun c => blen (default [] c) <= MAX_CID_LEN)); [lia | |].
  { destruct (0 <? sp_send_cid_len sp); [| by cbn; rewrite blen_nil; unfold MAX_CID_LEN; lia].
    destruct (slice_in_range (sp_send_cid_buf sp) 0 (sp_send_cid_len sp)) as [v Hv]; [lia.. |]. rewrite Hv. cbn.
    apply slice_Some_inv in Hv as (_ & _ & _ & Hl & _). lia. }
  intros send_cid Hcid. eapply dm_bind_lift; [lia | apply handshake_keys_eq |]. intros hk (ikm & Hikm & Hk).
  change 6 with (4 + 2). eapply dm_bind; [lia | by eapply receive_flight_spec |]. intros [flight acked] [Hfl Hack].
  eapply dm_bind_lift; [lia | by apply verify_flight_spec |]. intros [limit t'] [Hauth Ht'].
  eapply dm_bind_lift; [lia | apply snapshot_spec |]. intros th [-> Hth].
  change 2 with (2 + 0). eapply dm_bind; [lia | by apply client_finish_spec |]. intros [ff fl] Hff.
  apply dm_lift. eapply ensures_weaken; [by eapply start_session_spec |].
  intros c [Hfresh Hkeys]. split; [done |]. rewrite Htr in *. rewrite Ht' in Hkeys.
  by exists secret, share, (hashed (hx_transcript hx)), sh, (sp_share sp), scid, ikm, hk, flight.
Qed.
End connect_specs.

(** C8. The DTLS handshake authenticates the server: a session exists only when there is
    a flight whose certificate chain the strategy vouched for, whose leaf's key signed
    the transcript of our own ClientHello, of a ServerHello with the offered suite and of
    the flight, whose leaf names the host asked for, and whose Finished is the MAC over
    that transcript under the secret our key exchange derives with the ServerHello's
    share -- whether or not a HelloRetryRequest intervened; the application keys come
    from the schedule over the whole transcript. *)
Theorem connect_authenticates `{Usize, HeaplessVec, AeadCipher, RawCiphers, SubtleCt, HkdfSha256, MlDsaSizes}
    `{DatagramTransport, KxGroup, VerifierBackend, !VerifyStrategy, CertParser}
    (ft : Features) (ip_host : bool) (S_ : Suite) (max_chain : Z) (rng : Rng) (random : bytes)
    (hostname cid : option bytes) (flight_buf reasm_buf : bytes) (net net' : Net) (c : DtlsClient) :
  0 <= max_chain -> bytes_ok flight_buf -> bytes_ok reasm_buf -> blen flight_buf <= usize_max ->
  connect ft ip_host S_ max_chain rng random hostname cid flight_buf reasm_buf net = (net', Ok c) ->
  handshake_established ft ip_host S_ max_chain rng random hostname cid c.
Proof.
  intros Hmc Hfb Hrb Hu Hc.
  destruct (connect_spec ft ip_host S_ max_chain rng random hostname cid flight_buf reasm_buf Hmc Hfb Hrb Hu net) as [_ Hr].
  rewrite Hc in Hr. apply Hr.
Qed.

(** C40. The handshake is bounded and total, whatever the network does: it never panics,
    it sends at most sixteen datagrams (two ClientHello flights of five attempts, four
    retransmissions, the Finished and the ACK) and ends after at most 256 flight
    datagrams, and the session it returns is well formed and unused. *)
Theorem connect_bounded `{Usize, HeaplessVec, AeadCipher, RawCiphers, SubtleCt, HkdfSha256, MlDsaSizes}
    `{DatagramTransport, KxGroup, VerifierBackend, !VerifyStrategy, CertParser}
    (ft : Features) (ip_host : bool) (S_ : Suite) (max_chain : Z) (rng : Rng) (random : bytes)
    (hostname cid : option bytes) (flight_buf reasm_buf : bytes) (net : Net) :
  0 <= max_chain -> bytes_ok flight_buf -> bytes_ok reasm_buf -> blen flight_buf <= usize_max ->
  let '(net', r) := connect ft ip_host S_ max_chain rng random hostname cid flight_buf reasm_buf net in
  no_panic r /\ sent_within 16 net net' /\ (forall c, r = Ok c -> fresh_session c).
Proof.
  intros Hmc Hfb Hrb Hu.
  destruct (connect_spec ft ip_host S_ max_chain rng random hostname cid flight_buf reasm_buf Hmc Hfb Hrb Hu net) as [Hs Hr].
  destruct (connect _ _ _ _ _ _ _ _ _ _ net) as [net' r]. cbn [fst snd] in *.
  split_and!; [by eapply ensures_no_panic | done |]. intros c ->. apply Hr.
Qed.

(** ** A concrete handshake *)

Section demo.
#[local] Existing Instances usize32 heapless_model aead_model raw_ciphers_model subtle_model hkdf_model
  ml_dsa_model script_net rng_model kx_model backend_model cert_model.

Definition demo_strategy : VerifyStrategy := @safe_strategy heapless_model backend_model cert_model NoClock unit accept_any ltac:(done).
#[local] Existing Instance demo_strategy.

Definition demo_suite : Suite := ChaCha20Poly1305Sha256.
Definition demo_random : bytes := zeros 32.
Definition demo_rng : Rng := 5.

(** The peer: the ServerHello of its share, and the flight under the handshake keys. *)
Definition peer_hello : bytes :=
  server_hello_wire 0xFEFD (zeros 32) [] (CIPHER_SUITE_ID demo_suite) 0
    [(EXT_KEY_SHARE, be_bytes 2 0x1D ++ be_bytes 2 32 ++ be_bytes 32 7); (EXT_CONNECTION_ID, [1; 9])].
Definition hello_transcript (ch : bytes) : bytes := hs_msg HS_CLIENT_HELLO ch ++ hs_msg HS_SERVER_HELLO peer_hello.

Definition demo_ch : outcome (DtlsClientError unit) bytes :=
  client_hello demo_features demo_suite demo_random (be_bytes 32 5) None (Some [4]).
Definition demo_tr : bytes := match demo_ch with Ok ch => hello_transcript ch | _ => [] end.
Definition demo_hk : outcome KeyScheduleError HandshakeKeys :=
  derive_handshake_keys demo_suite (be_bytes 32 12) (toy_hash demo_tr).

Definition peer_cert : bytes := cert_wire [] [([5; 6], [])] [].
Definition peer_cv : bytes := be_bytes 2 SIG_SCHEME_ED25519 ++ be_bytes 2 64 ++ be_bytes 64 130.
Definition peer_fin (secret : bytes) : bytes :=
  Finished_Mac DTLS13_LABEL_PREFIX secret
    (toy_hash (demo_tr ++ through_cert [0; 0] None peer_cert ++ hs_msg HS_CERTIFICATE_VERIFY peer_cv)).

(** An unfragmented DTLS handshake message. *)
Definition dtls_msg (ty sq : Z) (body : bytes) : bytes :=
  Framing.hs_header_wire {| Framing.msg_type := ty; Framing.hs_length := blen body; Framing.message_seq := sq;
    Framing.fragment_offset := 0; Framing.fragment_length := blen body |} ++ body.

Definition peer_record (hk : HandshakeKeys) (seq : Z) (content : bytes) : bytes :=
  match seal demo_suite (hk_server hk) {| sh_epoch := 2; sh_seq := seq; sh_seq_len := One; sh_cid := Some [4] |}
          content CT_HANDSHAKE (zeros 300) with
  | Ok (_, rec) => rec | _ => [] end.

(** The ServerHello and the EncryptedExtensions share a datagram; the other messages
    arrive in a second one, the Finished first. *)
Definition handshake_net : Net :=
  match demo_hk with
  | Ok hk =>
      let hello := dtls_msg HS_SERVER_HELLO 0 peer_hello in
      ([], [Framing.plaintext_header CT_HANDSHAKE 0 0 (blen hello) ++ hello ++
              peer_record hk 0 (dtls_msg HS_ENCRYPTED_EXTENSIONS 1 [0; 0]);
            peer_record hk 1 (dtls_msg HS_FINISHED 4 (peer_fin (hk_server_hs_ts hk))) ++
              peer_record hk 2 (dtls_msg HS_CERTIFICATE 2 peer_cert ++ dtls_msg HS_CERTIFICATE_VERIFY 3 peer_cv)])
  | _ => ([], [])
  end.

Notation demo_connect :=
  (connect demo_features false demo_suite 4 demo_rng demo_random None (Some [4]) (zeros 512) (zeros 512)).

Lemma demo_connected : exists net' c, demo_connect handshake_net = (net', Ok c).
Proof.
  assert (is_ok (demo_connect handshake_net).2 = true) as Hok by (vm_compute; reflexivity).
  destruct (demo_connect handshake_net) as [net' [c | e |]]; [| done..]. by exists net', c.
Qed.

Lemma connect_authenticates_witness :
  exists net' c, demo_connect handshake_net = (net', Ok c) /\
    handshake_established demo_features false demo_suite 4 demo_rng demo_random None (Some [4]) c.
Proof.
  destruct demo_connected as (net' & c & Hc). exists net', c. split; [exact Hc |].
  apply (connect_authenticates demo_features false demo_suite 4 demo_rng demo_random None (Some [4])
    (zeros 512) (zeros 512) handshake_net net' c).
  - lia.
  - apply bytes_ok_zeros.
  - apply bytes_ok_zeros.
  - vm_compute. congruence.
  - exact Hc.
Defined.

Definition silent_net : Net := ([], []).

(** Against a server that never answers, five ClientHellos and a timeout. *)
Lemma connect_bounded_witness :
  let '(net', r) := demo_connect silent_net in
  sent_within 16 silent_net net' /\ r = Err DeTimeout /\ length (net_log net') = 5%nat.
Proof.
  pose proof (connect_bounded demo_features false demo_suite 4 demo_rng demo_random None (Some [4])
    (zeros 512) (zeros 512) silent_net) as Hb.
  destruct (demo_connect silent_net) as [net' r] eqn:Hc.
  destruct Hb as (_ & Hs & _); [lia | apply bytes_ok_zeros | apply bytes_ok_zeros | vm_compute; congruence |].
  split; [exact Hs |].
  change net' with (net', r).1. change r with (net', r).2 at 1. rewrite <- Hc. split; vm_compute; reflexivity.
Defined.
End demo.
