(* ===== verification/ClientFlight.v ===== *)
(** * [client_flight.rs], [traits/client_auth.rs]: the client's second flight

    The client [Finished], and with mutual authentication the [Certificate] and
    [CertificateVerify] before it, under one of three policies. *)
From stdpp Require Import strings.
From S2P Require Import Prelude Deps Bytecopy Consts Aead Hkdf Kx ServerFlight.

(** ** [traits/client_auth.rs] *)

(** The RSA widths of a build, which size the client's buffers. *)
Inductive RsaWidth := NoRsa | Rsa2048 | Rsa3072 | Rsa4096.

Definition MAX_CLIENT_SIG_LEN (w : RsaWidth) : Z :=
  match w with Rsa4096 => 512 | Rsa3072 => 384 | Rsa2048 => 256 | NoRsa => 112 end.

Inductive ClientAuthError := ClientAuthErr.

(** A caller-supplied signer; the signature comes in a vector of bounded capacity. *)
Class ClientAuth `{CryptoRng} (w : RsaWidth) := {
  cert_der : bytes;
  scheme : Z;
  sign : bytes -> Rng -> Rng * outcome ClientAuthError bytes;
  scheme_u16 : is_u16 scheme;
  sign_total m r : no_panic (sign m r).2;
  sign_len m r sig : (sign m r).2 = Ok sig -> blen sig <= MAX_CLIENT_SIG_LEN w;
  cert_der_bytes : bytes_ok cert_der;
  sign_bytes m r sig : (sign m r).2 = Ok sig -> bytes_ok sig
}.

(** ** Errors and sizes *)

Inductive ClientFinishedError := CfEncrypt (e : EncryptError) | CfHkdf (e : HkdfLabelError).

Inductive ClientAuthFlightError :=
| CaBufferTooSmall | CaSign | CaFinished (e : ClientFinishedError) | CaTranscript (e : TranscriptError)
| CaCertificateRequested | CaNoMutualSignatureAlgorithm | CaEmptyCertificate | CaCertificateTooLong | CaContextTooLong.

Definition CLIENT_FINISHED_LEN : Z := 58.
Definition MAX_CLIENT_CERT_DER (w : RsaWidth) : Z :=
  match w with Rsa4096 => 1536 | Rsa3072 => 1280 | _ => 1024 end.
Definition HS_HEADER : Z := 4.
Definition CERT_FRAMING : Z := 1 + 255 + 3 + 3 + 2.
Definition CV_FRAMING : Z := 2 + 2.
Definition FINISHED_MSG : Z := HS_HEADER + 32.
Definition MAX_CLIENT_AUTH_FLIGHT (w : RsaWidth) : Z :=
  (HS_HEADER + CERT_FRAMING + MAX_CLIENT_CERT_DER w) + (HS_HEADER + CV_FRAMING + MAX_CLIENT_SIG_LEN w) + FINISHED_MSG.
Definition EMPTY_CERT_FRAMING : Z := 1 + 255 + 3.
Definition MAX_CLIENT_EMPTY_AUTH_FLIGHT : Z := (HS_HEADER + EMPTY_CERT_FRAMING) + FINISHED_MSG.
Definition CLIENT_CV_CTX : bytes := label "TLS 1.3, client CertificateVerify".
Definition CLIENT_CV_SIGNED_LEN : Z := 64 + blen CLIENT_CV_CTX + 1 + 32.

(** [u24]: the low three bytes of [n as u32]. *)
Definition u24 (n : Z) : bytes := drop 1 (be_bytes 4 (as_u32 n)).

(** ** [RecordKeys::derive], [build_client_finished] *)

Section finished.
Context `{Usize, HeaplessVec, HkdfSha256, AeadBackend}.

Definition RecordKeys_derive (S_ : Suite) (traffic_secret : bytes) : outcome HkdfLabelError RecordKeys :=
  '(key, iv) ← traffic_keys (suite_key_len S_) traffic_secret;
  Ok {| rk_key := key; rk_iv := iv |}.

Definition build_finished_plaintext (c_hs_traffic_secret th : bytes) : outcome ClientFinishedError bytes :=
  verify_data ← map_err CfHkdf (finished_mac c_hs_traffic_secret th);
  out ← or_panic (splice (zeros 36) 0 [HS_FINISHED]);
  out ← copy_at out 1 4 [0; 0; 0x20];
  if negb (blen verify_data =? 32) then Panic else
  or_panic (splice out 4 verify_data).

(** The output buffer afterwards, and the record. *)
Definition build_client_finished (S_ : Suite) (c_hs_traffic_secret th : bytes) (seq : Z) (out_buf : bytes)
    : outcome ClientFinishedError (bytes * bytes) :=
  finished_msg ← build_finished_plaintext c_hs_traffic_secret th;
  keys ← map_err CfHkdf (RecordKeys_derive S_ c_hs_traffic_secret);
  map_err CfEncrypt (@encrypt_record _ (cipher S_) keys finished_msg CT_HANDSHAKE seq out_buf).
End finished.

(** ** The messages

    A builder takes the output slice and returns it with the message at its front, and the
    message's length. *)

Definition certificate_verify_signed_content (th : bytes) : outcome ClientAuthFlightError bytes :=
  let buf := replicate 64 0x20 ++ zeros (CLIENT_CV_SIGNED_LEN - 64) in
  buf ← or_panic (splice buf 64 CLIENT_CV_CTX);
  buf ← or_panic (splice buf (64 + blen CLIENT_CV_CTX) [0]);
  let hash_at := 64 + blen CLIENT_CV_CTX + 1 in
  if negb (blen buf - hash_at =? blen th) then Panic else
  or_panic (splice buf hash_at th).

(** Run a writer on [out[..total]]; the rest of [out] is untouched. *)
Definition on_prefix (out : bytes) (total : Z) (f : bytes -> outcome ClientAuthFlightError bytes)
    : outcome ClientAuthFlightError (bytes * Z) :=
  head ← ok_or (slice out 0 total) CaBufferTooSmall;
  head ← f head;
  Ok (head ++ drop (Z.to_nat total) out, blen head).

Definition build_client_certificate (w : RsaWidth) (cert_der cert_request_context out : bytes)
    : outcome ClientAuthFlightError (bytes * Z) :=
  if blen cert_der =? 0 then Err CaEmptyCertificate else
  if MAX_CLIENT_CERT_DER w <? blen cert_der then Err CaCertificateTooLong else
  if 255 <? blen cert_request_context then Err CaContextTooLong else
  let entry_len := 3 + blen cert_der + 2 in
  let list_len := 3 + entry_len in
  let body_len := 1 + blen cert_request_context + list_len in
  let total := 4 + body_len in
  on_prefix out total (fun out =>
    out ← or_panic (splice out 0 [HS_CERTIFICATE]);
    out ← copy_at out 1 4 (u24 body_len);
    let p := 4 in
    out ← or_panic (splice out p [as_u8 (blen cert_request_context)]);
    let p := p + 1 in
    out ← or_panic (splice out p cert_request_context);
    let p := p + blen cert_request_context in
    out ← copy_at out p (p + 3) (u24 entry_len);
    let p := p + 3 in
    out ← copy_at out p (p + 3) (u24 (blen cert_der));
    let p := p + 3 in
    out ← or_panic (splice out p cert_der);
    let p := p + blen cert_der in
    copy_at out p (p + 2) [0; 0]).

Definition build_client_empty_certificate (cert_request_context out : bytes)
    : outcome ClientAuthFlightError (bytes * Z) :=
  if 255 <? blen cert_request_context then Err CaContextTooLong else
  let body_len := 1 + blen cert_request_context + 3 in
  let total := 4 + body_len in
  on_prefix out total (fun out =>
    out ← or_panic (splice out 0 [HS_CERTIFICATE]);
    out ← copy_at out 1 4 (u24 body_len);
    out ← or_panic (splice out 4 [as_u8 (blen cert_request_context)]);
    out ← or_panic (splice out 5 cert_request_context);
    let list_at := 5 + blen cert_request_context in
    copy_at out list_at (list_at + 3) [0; 0; 0]).

Section policies.
Context `{Usize, HeaplessVec, HkdfSha256, CryptoRng}.

(** The random source the signer leaves, and the result. *)
Definition build_client_certificate_verify {w} (auth : ClientAuth w) (th : bytes) (rng : Rng) (out : bytes)
    : Rng * outcome ClientAuthFlightError (bytes * Z) :=
  match certificate_verify_signed_content th with
  | Err e => (rng, Err e)
  | Panic => (rng, Panic)
  | Ok signed =>
      let '(rng, r) := sign signed rng in
      (rng,
       sig ← map_err (fun _ => CaSign) r;
       let body_len := 2 + 2 + blen sig in
       let total := 4 + body_len in
       on_prefix out total (fun out =>
         out ← or_panic (splice out 0 [HS_CERTIFICATE_VERIFY]);
         out ← copy_at out 1 4 (u24 body_len);
         out ← copy_at out 4 6 (be_bytes 2 scheme);
         n ← ok_or (if blen sig <? U16 then Some (blen sig) else None) CaBufferTooSmall;
         out ← copy_at out 6 8 (be_bytes 2 n);
         if negb (blen out - 8 =? blen sig) then Panic else
         or_panic (splice out 8 sig)))
  end.

(** [sig_algs_offer]: a scheme in a list of big-endian code points. *)
Fixpoint offers (list_ : bytes) (scheme : Z) : bool :=
  match list_ with
  | a :: b :: rest => (be16 a b =? scheme) || offers rest scheme
  | _ => false
  end.
Definition sig_algs_offer (list_ : bytes) (scheme : Z) : bool :=
  if negb (Z.land (blen list_) 1 =? 0) then false else offers list_ scheme.

Definition append_finished (c_hs_traffic_secret : bytes) (transcript : TranscriptHash) (out : bytes) (head_end : Z)
    : outcome ClientAuthFlightError (TranscriptHash * bytes * bytes) :=
  th ← map_err CaTranscript (transcript_snapshot transcript);
  finished ← map_err CaFinished (build_finished_plaintext c_hs_traffic_secret th);
  let fin_end := head_end + blen finished in
  _ ← ok_or (slice out head_end fin_end) CaBufferTooSmall;
  out ← or_panic (splice out head_end finished);
  fin ← or_panic (slice out head_end fin_end);
  flight ← or_panic (slice out 0 fin_end);
  Ok (transcript_update transcript fin, out, flight).

(** The policies: [NoClientAuth], [DeclineClientAuth], [WithClientAuth]. *)
Inductive ClientAuthPolicy (w : RsaWidth) := NoClientAuth | DeclineClientAuth | WithClientAuth (a : ClientAuth w).
Arguments NoClientAuth {w}. Arguments DeclineClientAuth {w}. Arguments WithClientAuth {w} a.

Definition ACCEPT_CERT_REQUEST {w} (p : ClientAuthPolicy w) : bool :=
  match p with NoClientAuth => false | _ => true end.
Definition MAX_FLIGHT_LEN {w} (p : ClientAuthPolicy w) : Z :=
  match p with
  | NoClientAuth => 0
  | DeclineClientAuth => MAX_CLIENT_EMPTY_AUTH_FLIGHT
  | WithClientAuth _ => MAX_CLIENT_AUTH_FLIGHT w
  end.

(** [build_flight]: the random source; the transcript, the scratch buffer and the flight. *)
Definition build_flight {w} (p : ClientAuthPolicy w) (cert_request_context cert_request_sig_algs : bytes) (rng : Rng)
    (c_hs_traffic_secret : bytes) (transcript : TranscriptHash) (out : bytes)
    : Rng * outcome ClientAuthFlightError (TranscriptHash * bytes * bytes) :=
  match p with
  | NoClientAuth => (rng, Err CaCertificateRequested)
  | DeclineClientAuth =>
      (rng,
       '(out, cert_end) ← build_client_empty_certificate cert_request_context out;
       cert ← or_panic (slice out 0 cert_end);
       append_finished c_hs_traffic_secret (transcript_update transcript cert) out cert_end)
  | WithClientAuth a =>
      if negb (sig_algs_offer cert_request_sig_algs scheme) then (rng, Err CaNoMutualSignatureAlgorithm) else
      match ('(out, cert_end) ← build_client_certificate w cert_der cert_request_context out;
             cert ← or_panic (slice out 0 cert_end);
             let transcript := transcript_update transcript cert in
             th_through_cert ← map_err CaTranscript (transcript_snapshot transcript);
             tail ← or_panic (slice_from out cert_end);
             Ok (out, cert_end, transcript, th_through_cert, tail)) with
      | Err e => (rng, Err e)
      | Panic => (rng, Panic)
      | Ok (out, cert_end, transcript, th_through_cert, tail) =>
          let '(rng, r) := build_client_certificate_verify a th_through_cert rng tail in
          (rng,
           '(tail, cv_len) ← r;
           out ← or_panic (splice out cert_end tail);
           let cv_end := cert_end + cv_len in
           cv ← or_panic (slice out cert_end cv_end);
           append_finished c_hs_traffic_secret (transcript_update transcript cv) out cv_end)
      end
  end.
End policies.
#[global] Arguments NoClientAuth {_ w}.
#[global] Arguments DeclineClientAuth {_ w}.
#[global] Arguments WithClientAuth {_ w} a.

(** ** The messages on the wire *)

Definition client_cert_msg (cert_der ctx : bytes) : bytes := hs_msg HS_CERTIFICATE (cert_wire ctx [(cert_der, [])] []).
Definition client_empty_cert_msg (ctx : bytes) : bytes := hs_msg HS_CERTIFICATE (cert_wire ctx [] []).
Definition client_cv_msg (scheme : Z) (sig : bytes) : bytes := hs_msg HS_CERTIFICATE_VERIFY (be_bytes 2 scheme ++ vec16 sig).

(** What the client's CertificateVerify signs. *)
Definition client_cv_content (th : bytes) : bytes := replicate 64 0x20 ++ CLIENT_CV_CTX ++ [0] ++ th.

Lemma u24_small n : 0 <= n < U24 -> u24 n = be_bytes 3 n.
Proof.
  intros Hn. unfold u24. change (drop 1 (be_bytes 4 (as_u32 n))) with (be_bytes 3 (as_u32 n)).
  unfold as_u32. by rewrite Z.mod_small by (unfold U24, U32 in *; lia).
Qed.

Lemma length_u24 n : length (u24 n) = 3%nat.
Proof. done. Qed.

Lemma as_u8_byte n : 0 <= n <= 255 -> [as_u8 n] = [n].
Proof. intros. unfold as_u8. by rewrite Z.mod_small by (unfold U8; lia). Qed.

(** Writes that follow one another fill the buffer from its front. *)
Ltac fill :=
  repeat (first
    [ rewrite splice_append by (unfold blen in *; rewrite ?length_app, ?length_drop, ?length_be_bytes, ?length_u24; cbn [length]; lia)
    | rewrite copy_at_append by (unfold blen in *; rewrite ?length_app, ?length_drop, ?length_be_bytes, ?length_u24; cbn [length]; lia) ];
    run).

(** A writer that fills its slice with [msg]. *)
Lemma on_prefix_fills out total f msg :
  total = blen msg -> 0 <= total ->
  (forall head, blen head = total -> f head = Ok msg) ->
  on_prefix out total f = if total <=? blen out then Ok (msg ++ drop (length msg) out, blen msg) else Err CaBufferTooSmall.
Proof.
  intros Ht H0 Hf. unfold on_prefix. destruct (Z.leb_spec total (blen out)) as [Hl | Hl].
  - destruct (cut_at out total) as (a & b & -> & Ha & _); [lia |].
    rewrite slice_prefix by done. run. rewrite Hf by done. run.
    replace (length msg) with (length a) by (unfold blen in *; lia).
    replace (Z.to_nat total) with (length a) by (unfold blen in *; lia). by rewrite drop_app_length.
  - destruct (slice out 0 total) eqn:Hs; [| done]. apply slice_Some_inv in Hs as (? & ? & ? & _). lia.
Qed.

Lemma drop_all (l : bytes) n : (length l <= n)%nat -> drop n l = [].
Proof. apply drop_ge. Qed.

(** The wire forms agree once their lengths do. *)
Ltac same_wire :=
  rewrite ?blen_cons, ?blen_app, ?blen_cons, ?blen_app, ?blen_be_bytes; change (blen (@nil Z)) with 0; change (be_bytes 2 0) with [0; 0];
  wire_eq.

Lemma client_cert_msg_len cert ctx : blen (client_cert_msg cert ctx) = 13 + blen ctx + blen cert.
Proof.
  unfold client_cert_msg, cert_wire. rewrite blen_hs_msg, !blen_app. cbn [fmap list_fmap concat].
  unfold cert_entry. cbn [fst snd]. rewrite !blen_app, !blen_be_bytes. change (blen [blen ctx]) with 1.
  change (blen (@nil Z)) with 0. lia.
Qed.

Lemma client_certificate_eq w cert ctx out :
  build_client_certificate w cert ctx out =
  if blen cert =? 0 then Err CaEmptyCertificate else
  if MAX_CLIENT_CERT_DER w <? blen cert then Err CaCertificateTooLong else
  if 255 <? blen ctx then Err CaContextTooLong else
  let msg := client_cert_msg cert ctx in
  if blen msg <=? blen out then Ok (msg ++ drop (length msg) out, blen msg) else Err CaBufferTooSmall.
Proof.
  unfold build_client_certificate. cbv zeta. destruct (blen cert =? 0); [done |].
  destruct (Z.ltb_spec (MAX_CLIENT_CERT_DER w) (blen cert)) as [| Hc]; [done |].
  destruct (Z.ltb_spec 255 (blen ctx)) as [| Hx]; [done |].
  pose proof (blen_nonneg cert). pose proof (blen_nonneg ctx).
  assert (blen cert <= 1536) by (destruct w; cbn in Hc; lia).
  pose proof (client_cert_msg_len cert ctx) as Hl.
  rewrite (on_prefix_fills _ _ _ (client_cert_msg cert ctx)); [| lia | lia |].
  { by replace (4 + _) with (blen (client_cert_msg cert ctx)) by lia. }
  intros head Hh. rewrite <- (app_nil_l head). fill.
  rewrite !u24_small, as_u8_byte by (unfold U24; lia).
  rewrite !drop_drop, drop_all by (unfold blen in *; cbn [length]; rewrite ?length_be_bytes; lia).
  unfold client_cert_msg, hs_msg, cert_wire. cbn [fmap list_fmap concat]. unfold cert_entry. cbn [fst snd].
  rewrite !app_nil_r, <- !app_assoc. cbn [app]. f_equal. same_wire.
Qed.

Lemma client_empty_cert_msg_len ctx : blen (client_empty_cert_msg ctx) = 8 + blen ctx.
Proof.
  unfold client_empty_cert_msg, cert_wire. rewrite blen_hs_msg, !blen_app. cbn [fmap list_fmap concat].
  rewrite !blen_be_bytes. change (blen [blen ctx]) with 1. change (blen (@nil Z)) with 0. lia.
Qed.

Lemma client_empty_certificate_eq ctx out :
  build_client_empty_certificate ctx out =
  if 255 <? blen ctx then Err CaContextTooLong else
  let msg := client_empty_cert_msg ctx in
  if blen msg <=? blen out then Ok (msg ++ drop (length msg) out, blen msg) else Err CaBufferTooSmall.
Proof.
  unfold build_client_empty_certificate. cbv zeta. destruct (Z.ltb_spec 255 (blen ctx)) as [| Hx]; [done |].
  pose proof (blen_nonneg ctx). pose proof (client_empty_cert_msg_len ctx) as Hl.
  rewrite (on_prefix_fills _ _ _ (client_empty_cert_msg ctx)); [| lia | lia |].
  { by replace (4 + _) with (blen (client_empty_cert_msg ctx)) by lia. }
  intros head Hh. rewrite <- (app_nil_l head). fill.
  rewrite !u24_small, as_u8_byte by (unfold U24; lia).
  rewrite !drop_drop, drop_all by (unfold blen in *; cbn [length]; rewrite ?length_be_bytes; lia).
  unfold client_empty_cert_msg, hs_msg, cert_wire. cbn [fmap list_fmap concat].
  rewrite !app_nil_r, <- !app_assoc. cbn [app]. f_equal. change (be_bytes 3 (blen (@nil Z))) with [0; 0; 0]. same_wire.
Qed.

Lemma client_signed_content_eq th : blen th = 32 -> certificate_verify_signed_content th = Ok (client_cv_content th).
Proof.
  intros Hth. unfold certificate_verify_signed_content. change CLIENT_CV_SIGNED_LEN with 130.
  change (blen CLIENT_CV_CTX) with 33. change (zeros (130 - 64)) with (zeros 33 ++ zeros 1 ++ zeros 32).
  rewrite (splice_middle (replicate 64 0x20)) by done. run.
  rewrite (app_assoc (replicate 64 0x20)), (splice_middle (replicate 64 0x20 ++ CLIENT_CV_CTX)) by done. run.
  rewrite (app_assoc _ [0]). set (pre := (replicate 64 0x20 ++ CLIENT_CV_CTX) ++ [0]).
  assert (blen pre = 98) as Hp by done. rewrite blen_app, Hp, Hth. change (98 + blen (zeros 32) - (64 + 33 + 1) =? 32) with true. cbn [negb].
  rewrite <- (app_nil_r (zeros 32)), (splice_middle pre) by (done || by rewrite Hth). run.
  unfold pre, client_cv_content. by rewrite app_nil_r, <- !app_assoc.
Qed.

Section policy_specs.
Context `{Usize, HeaplessVec, HkdfSha256, CryptoRng}.

Lemma client_cv_msg_len scheme sig : blen (client_cv_msg scheme sig) = 8 + blen sig.
Proof. unfold client_cv_msg. rewrite blen_hs_msg, blen_app, blen_vec16, blen_be_bytes. lia. Qed.

Lemma max_sig_u16 w : MAX_CLIENT_SIG_LEN w <= 512.
Proof. by destruct w. Qed.

Lemma client_certificate_verify_eq {w} (auth : ClientAuth w) th rng out :
  blen th = 32 ->
  build_client_certificate_verify auth th rng out =
  ((sign (client_cv_content th) rng).1,
   sig ← map_err (fun _ => CaSign) (sign (client_cv_content th) rng).2;
   let msg := client_cv_msg scheme sig in
   if blen msg <=? blen out then Ok (msg ++ drop (length msg) out, blen msg) else Err CaBufferTooSmall).
Proof.
  intros Hth. unfold build_client_certificate_verify. rewrite client_signed_content_eq by done.
  pose proof (sign_len (client_cv_content th) rng) as Hs.
  destruct (sign (client_cv_content th) rng) as [rng' [sig | e |]]; cbn [fst snd map_err mbind outcome_bind]; [| done..].
  specialize (Hs sig eq_refl). pose proof (max_sig_u16 w). pose proof (blen_nonneg sig). f_equal. cbv zeta.
  pose proof (client_cv_msg_len scheme sig) as Hl.
  rewrite (on_prefix_fills _ _ _ (client_cv_msg scheme sig)); [| lia | lia |].
  { by replace (4 + _) with (blen (client_cv_msg scheme sig)) by lia. }
  intros head Hh. rewrite <- (app_nil_l head). rewrite (proj2 (Z.ltb_lt _ _)) by (unfold U16; lia). fill.
  assert (forall l : bytes, blen l = blen sig -> forall a : bytes, blen a = 8 -> (blen (a ++ l) - 8 =? blen sig) = true) as Hc.
  { intros l Hll a Ha. apply Z.eqb_eq. rewrite blen_app. lia. }
  rewrite Hc; [| unfold blen in *; rewrite ?length_drop, ?length_be_bytes, ?length_u24; cbn [length]; lia | done]. cbn [negb].
  rewrite u24_small by (unfold U24; lia).
  rewrite !drop_drop, drop_all by (unfold blen in *; cbn [length]; rewrite ?length_be_bytes; lia).
  unfold client_cv_msg, hs_msg, vec16. rewrite app_nil_r, <- !app_assoc. cbn [app]. f_equal. same_wire.
Qed.

(** The client [Finished] over a transcript hash. *)
Definition client_finished_msg (secret th : bytes) : bytes := hs_msg HS_FINISHED (Finished_Mac TLS13_LABEL_PREFIX secret th).

Lemma blen_finished_mac secret th : blen (Finished_Mac TLS13_LABEL_PREFIX secret th) = 32.
Proof. apply hkdf_extract_len. Qed.

Lemma client_finished_msg_len secret th : blen (client_finished_msg secret th) = 36.
Proof. unfold client_finished_msg. by rewrite blen_hs_msg, blen_finished_mac. Qed.

(** A backend of the key schedule or of the transcript failed. *)
Definition hkdf_failed (e : HkdfLabelError) : Prop := match e with HlExpand _ | HlBackend _ => True | _ => False end.

Lemma computes_ensures {A} (m : outcome HkdfLabelError A) v :
  computes m v -> (m = Ok v) \/ (exists e, m = Err e /\ hkdf_failed e).
Proof. destruct m as [a | e |]; cbn; [by intros ->; left | intros He; right; exists e; by destruct e | done]. Qed.

Lemma finished_mac_computes secret th : blen th = 32 -> computes (finished_mac secret th) (Finished_Mac TLS13_LABEL_PREFIX secret th).
Proof. intros Hth. by apply (tls_schedule_eq [] [] [] secret th 16). Qed.

Lemma build_finished_cases secret th :
  blen th = 32 ->
  build_finished_plaintext secret th = Ok (client_finished_msg secret th) \/
  exists e, build_finished_plaintext secret th = Err (CfHkdf e) /\ hkdf_failed e.
Proof.
  intros Hth. unfold build_finished_plaintext.
  destruct (computes_ensures _ _ (finished_mac_computes secret th Hth)) as [-> | (e & -> & He)]; [left | right; by exists e].
  set (mac := Finished_Mac TLS13_LABEL_PREFIX secret th). assert (blen mac = 32) as Hm by apply blen_finished_mac.
  run. change (splice (zeros 36) 0 [HS_FINISHED]) with (Some ([HS_FINISHED] ++ zeros 3 ++ zeros 32)). run.
  rewrite copy_at_splice by done.
  rewrite (splice_middle [HS_FINISHED] (zeros 3)) by done. run. rewrite Hm. cbn [negb Z.eqb Pos.eqb].
  rewrite app_assoc, <- (app_nil_r (zeros 32)), (splice_middle ([HS_FINISHED] ++ [0; 0; 0x20]) (zeros 32)) by (done || by rewrite Hm). run.
  unfold client_finished_msg, hs_msg. fold mac. rewrite Hm, app_nil_r, <- app_assoc. done.
Qed.

(** What [append_finished] leaves, from a buffer that starts with the flight so far. *)
Definition backend_failed (e : ClientAuthFlightError) : Prop :=
  match e with CaTranscript _ => True | CaFinished (CfHkdf e) => hkdf_failed e | _ => False end.

Lemma append_finished_cases secret t head rest :
  let fin := client_finished_msg secret (sha256 (hashed t)) in
  match append_finished secret t (head ++ rest) (blen head) with
  | Ok (t', out, flight) => flight = head ++ fin /\ out = head ++ fin ++ drop 36 rest /\ hashed t' = hashed t ++ fin /\ 36 <= blen rest
  | Err e => backend_failed e \/ (e = CaBufferTooSmall /\ blen rest < 36)
  | Panic => False
  end.
Proof.
  intros fin. unfold append_finished. pose proof (snapshot_total t) as Ht.
  destruct (transcript_snapshot t) as [th | e |] eqn:Hth; [| by left | done]. cbn [map_err mbind outcome_bind].
  apply snapshot_Ok in Hth as [-> Hl].
  destruct (build_finished_cases secret _ Hl) as [-> | (e & -> & He)]; [| by left]. cbn [map_err mbind outcome_bind]. fold fin.
  assert (blen fin = 36) as Hf by apply client_finished_msg_len. clearbody fin. pose proof (blen_nonneg head).
  destruct (Z.lt_ge_cases (blen rest) 36) as [Hr | Hr].
  - destruct (slice (head ++ rest) (blen head) (blen head + blen fin)) eqn:Hs.
    + apply slice_Some_inv in Hs as (_ & _ & Hs & _). rewrite blen_app in Hs. lia.
    + by right.
  - destruct (cut_at rest 36) as (a & b & -> & Ha & _); [lia |].
    rewrite (slice_middle head a b) by lia. run. rewrite (splice_middle head a fin b) by lia. run.
    rewrite (slice_middle head fin b (blen head) (blen head + blen fin) eq_refl eq_refl). run.
    rewrite app_assoc, slice_prefix by (rewrite ?blen_app; lia). run.
    split_and!; [done | | by rewrite hashed_update | lia].
    rewrite <- app_assoc. replace 36%nat with (length a) by (unfold blen in *; lia). by rewrite drop_app_length.
Qed.

(** ** The whole flight *)

(** The transcript hash after the messages [ms]. *)
Definition th_after (t : TranscriptHash) (ms : bytes) : bytes := sha256 (hashed t ++ ms).

(** The flight a policy describes: the messages, given the signature. *)
Definition auth_flight (t : TranscriptHash) (secret cert ctx : bytes) (scheme : Z) (sig : bytes) : bytes :=
  let head := client_cert_msg cert ctx ++ client_cv_msg scheme sig in
  head ++ client_finished_msg secret (th_after t head).
Definition decline_flight (t : TranscriptHash) (secret ctx : bytes) : bytes :=
  client_empty_cert_msg ctx ++ client_finished_msg secret (th_after t (client_empty_cert_msg ctx)).

Definition flight_result (t : TranscriptHash) (out flight : bytes) (r : TranscriptHash * bytes * bytes) : Prop :=
  r.2 = flight /\ blen flight <= blen out /\ r.1.2 = flight ++ drop (length flight) out /\ hashed r.1.1 = hashed t ++ flight.

Lemma decline_flight_cases {w} ctx algs rng secret t out :
  let '(rng', r) := build_flight (w := w) DeclineClientAuth ctx algs rng secret t out in
  rng' = rng /\
  match r with
  | Ok res => blen ctx <= 255 /\ flight_result t out (decline_flight t secret ctx) res
  | Err e => (e = CaContextTooLong /\ 255 < blen ctx) \/ (e = CaBufferTooSmall /\ blen out < MAX_CLIENT_EMPTY_AUTH_FLIGHT) \/ backend_failed e
  | Panic => False
  end.
Proof.
  unfold build_flight. split; [done |]. rewrite client_empty_certificate_eq. change MAX_CLIENT_EMPTY_AUTH_FLIGHT with 299. pose proof (client_empty_cert_msg_len ctx) as Hl.
  destruct (Z.ltb_spec 255 (blen ctx)); [by left |]. cbv zeta. set (msg := client_empty_cert_msg ctx) in *.
  destruct (Z.leb_spec (blen msg) (blen out)) as [Ho |]; cbn [mbind outcome_bind]; [| right; left; split; [done | lia]].
  rewrite slice_prefix by done. run.
  pose proof (append_finished_cases secret (transcript_update t msg) msg (drop (length msg) out)) as Ha. cbv zeta in Ha.
  destruct (append_finished _ _ _ _) as [[[t' out'] flight] | e |]; [| | done].
  - destruct Ha as (-> & -> & Ht & Hr). split; [lia |]. unfold flight_result, decline_flight, th_after. fold msg. cbn [fst snd].
    rewrite hashed_update in *. set (fin := client_finished_msg _ _) in *. assert (blen fin = 36) as Hf by apply client_finished_msg_len.
    split_and!; [done | rewrite blen_drop in Hr; rewrite blen_app; unfold blen in *; lia | | by rewrite Ht, app_assoc].
    rewrite drop_drop, length_app, <- app_assoc. do 3 f_equal. unfold blen in *. lia.
  - destruct Ha as [Ha | [-> Hr]]; [by right; right |]. right. left. rewrite blen_drop in Hr. split; [done |]. unfold blen in *. lia.
Qed.

(** The offered schemes, as a list of code points. *)
Lemma offers_u16s l sch : Forall is_u16 l -> offers (u16s l) sch = true <-> sch ∈ l.
Proof.
  induction 1 as [| v l Hv _ IH]; [split; [done | by intros ?%not_elem_of_nil] |].
  unfold u16s. cbn [flat_map]. fold (u16s l). destruct (be_bytes 2 v) as [| x [| y [| ? ?]]] eqn:Hb; [done.. | | done].
  cbn [app offers]. rewrite (be16_be_bytes v Hv _ _ Hb), orb_true_iff, IH, Z.eqb_eq, elem_of_cons. naive_solver.
Qed.

Lemma sig_algs_offer_iff algs sch :
  bytes_ok algs -> sig_algs_offer algs sch = true <-> exists l, algs = u16s l /\ Forall is_u16 l /\ sch ∈ l.
Proof.
  intros Hok. unfold sig_algs_offer. change 1 with (Z.ones 1). rewrite Z.land_ones, Z.pow_1_r, Zmod_even by lia.
  destruct (Z.even (blen algs)) eqn:He; cbn [Z.eqb negb].
  - destruct (u16s_exists algs Hok He) as (l & -> & Hl). rewrite offers_u16s by done. split; [by exists l |].
    intros (l' & Heq & Hl' & Hs). by rewrite <- (offers_u16s l'), <- Heq, offers_u16s in Hs.
  - split; [done |]. intros (l & -> & _). by rewrite blen_u16s, Z.even_mul in He.
Qed.

Lemma auth_flight_cases {w} (a : ClientAuth w) ctx algs rng secret t out :
  bytes_ok algs ->
  let cert_msg := client_cert_msg cert_der ctx in
  let signed := sign (client_cv_content (th_after t cert_msg)) rng in
  match build_flight (WithClientAuth a) ctx algs rng secret t out with
  | (rng', Ok res) => exists sig, signed = (rng', Ok sig) /\ 1 <= blen cert_der <= MAX_CLIENT_CERT_DER w /\ blen ctx <= 255 /\
      (exists l, algs = u16s l /\ Forall is_u16 l /\ scheme ∈ l) /\
      flight_result t out (auth_flight t secret cert_der ctx scheme sig) res
  | (_, Err e) => (e = CaNoMutualSignatureAlgorithm /\ sig_algs_offer algs scheme = false)
      \/ (e = CaEmptyCertificate /\ cert_der = []) \/ (e = CaCertificateTooLong /\ MAX_CLIENT_CERT_DER w < blen cert_der)
      \/ (e = CaContextTooLong /\ 255 < blen ctx)
      \/ (e = CaBufferTooSmall /\ blen out < MAX_CLIENT_AUTH_FLIGHT w) \/ (e = CaSign /\ exists x, signed.2 = Err x) \/ backend_failed e
  | (_, Panic) => False
  end.
Proof.
  intros Hok cert_msg signed. unfold build_flight.
  destruct (sig_algs_offer algs scheme) eqn:Hoff; cbn [negb]; [| by left].
  apply sig_algs_offer_iff in Hoff; [| done].
  rewrite client_certificate_eq. fold cert_msg. destruct (Z.eqb_spec (blen cert_der) 0) as [Hz |]; [right; left; by apply blen_zero_nil in Hz |].
  destruct (Z.ltb_spec (MAX_CLIENT_CERT_DER w) (blen cert_der)); [by right; right; left |].
  destruct (Z.ltb_spec 255 (blen ctx)); [by do 3 right; left |]. cbv zeta.
  pose proof (client_cert_msg_len cert_der ctx) as Hcl. fold cert_msg in Hcl.
  pose proof (blen_nonneg cert_der). pose proof (blen_nonneg ctx).
  assert (MAX_CLIENT_AUTH_FLIGHT w = 312 + MAX_CLIENT_CERT_DER w + MAX_CLIENT_SIG_LEN w /\ 0 <= MAX_CLIENT_SIG_LEN w) as [Hmax ?] by
    (destruct w; split; vm_compute; congruence).
  destruct (Z.leb_spec (blen cert_msg) (blen out)) as [Ho |]; cbn [mbind outcome_bind];
    [| do 4 right; left; split; [done | lia]].
  rewrite slice_prefix by done. run. pose proof (snapshot_total (transcript_update t cert_msg)) as Hst.
  destruct (transcript_snapshot (transcript_update t cert_msg)) as [th | e |] eqn:Hth; cbn [map_err mbind outcome_bind]; [| by do 6 right | done].
  apply snapshot_Ok in Hth as [-> Hthl]. rewrite hashed_update in *. fold (th_after t cert_msg) in *.
  set (rest := drop (length cert_msg) out). assert (blen rest = blen out - blen cert_msg) as Hrest.
  { unfold rest. rewrite blen_drop. unfold blen in *. lia. }
  assert (slice_from (cert_msg ++ rest) (blen cert_msg) = Some rest) as ->.
  { unfold slice_from. apply slice_suffix; [done | by rewrite blen_app]. }
  run. rewrite client_certificate_verify_eq by done. fold signed.
  assert (forall sig, signed.2 = Ok sig -> blen sig <= MAX_CLIENT_SIG_LEN w) as Hsl by (intros sig; apply sign_len).
  pose proof (sign_total (client_cv_content (th_after t cert_msg)) rng) as Hnp. fold signed in Hnp.
  destruct signed as [rng' [sig | e |]]; cbn [fst snd map_err mbind outcome_bind] in *; [| | done].
  2: { do 5 right. left. by eauto. }
  specialize (Hsl sig eq_refl). cbv zeta. set (cv := client_cv_msg scheme sig).
  assert (blen cv = 8 + blen sig) as Hcv by apply client_cv_msg_len. pose proof (blen_nonneg sig).
  destruct (Z.leb_spec (blen cv) (blen rest)) as [Hr |]; cbn [mbind outcome_bind]; [| do 4 right; left; split; [done | lia]].
  destruct (cut_at rest (blen cv)) as (x & y & Hxy & Hx & _); [lia |].
  assert (drop (length cv) rest = y) as -> by (rewrite Hxy; replace (length cv) with (length x) by (unfold blen in *; lia); by rewrite drop_app_length).
  rewrite <- (app_nil_r rest), (splice_middle cert_msg rest (cv ++ y) []) by (rewrite ?Hxy, ?blen_app; lia). run.
  rewrite app_nil_r, (slice_middle cert_msg cv y (blen cert_msg) (blen cert_msg + blen cv) eq_refl eq_refl). run.
  pose proof (append_finished_cases secret (transcript_update (transcript_update t cert_msg) cv) (cert_msg ++ cv) y) as Ha.
  cbv zeta in Ha. rewrite blen_app, <- app_assoc in Ha. rewrite !hashed_update in Ha.
  destruct (append_finished _ _ _ _) as [[[t' out'] flight] | e |]; [| | done].
  - destruct Ha as (-> & -> & Ht & Hy). exists sig. split_and!; [done | lia | done | done | done |].
    unfold flight_result, auth_flight, th_after. fold cert_msg cv. cbn [fst snd]. rewrite <- !app_assoc in Ht |- *.
    set (fin := client_finished_msg _ _) in *. assert (blen fin = 36) as Hf by apply client_finished_msg_len.
    split_and!; [done | apply (f_equal blen) in Hxy; rewrite blen_app in Hxy; rewrite !blen_app; lia | | by rewrite Ht].
    assert (y = drop (length cert_msg + length cv) out) as ->.
    { rewrite <- drop_drop. fold rest. rewrite Hxy. replace (length cv) with (length x) by (unfold blen in *; lia). by rewrite drop_app_length. }
    rewrite drop_drop, !length_app. rewrite <- !app_assoc; do 4 f_equal. unfold blen in *. lia.
  - destruct Ha as [Ha | [-> Hy]]; [by do 6 right |]. do 4 right. left. split; [done |].
    apply (f_equal blen) in Hxy. rewrite blen_app in Hxy. lia.
Qed.
End policy_specs.

(** [build_flight] on every policy. *)
Lemma build_flight_spec `{Usize, HeaplessVec, HkdfSha256, CryptoRng} {w} (p : ClientAuthPolicy w)
    (ctx algs : bytes) (rng : Rng) (secret : bytes) (t : TranscriptHash) (out : bytes) :
  bytes_ok algs ->
  match build_flight p ctx algs rng secret t out with
  | (rng', Ok (t', out', flight)) =>
      blen flight <= MAX_FLIGHT_LEN p /\ blen flight <= blen out /\ out' = flight ++ drop (length flight) out /\ hashed t' = hashed t ++ flight /\
      match p with
      | NoClientAuth => False
      | DeclineClientAuth => rng' = rng /\ flight = decline_flight t secret ctx
      | WithClientAuth a => exists sig,
          sign (client_cv_content (th_after t (client_cert_msg cert_der ctx))) rng = (rng', Ok sig) /\
          (exists l, algs = u16s l /\ Forall is_u16 l /\ scheme ∈ l) /\
          flight = auth_flight t secret cert_der ctx scheme sig
      end
  | (_, Err e) => (p = NoClientAuth <-> e = CaCertificateRequested) /\ (MAX_FLIGHT_LEN p <= blen out -> e <> CaBufferTooSmall)
  | (_, Panic) => False
  end.
Proof.
  intros Hok. destruct p as [| | a]; [done | |].
  - pose proof (decline_flight_cases (w := w) ctx algs rng secret t out) as Hd.
    destruct (build_flight _ _ _ _ _ _ _) as [rng' [[[t' out'] flight] | e |]]; [| | by destruct Hd].
    + destruct Hd as (-> & Hc & Hf & Hfit & Ho & Ht). cbn [fst snd] in *. subst flight. split_and!; [| done..].
      unfold decline_flight. rewrite blen_app, client_finished_msg_len, client_empty_cert_msg_len. cbn [MAX_FLIGHT_LEN].
      change MAX_CLIENT_EMPTY_AUTH_FLIGHT with 299. lia.
    + destruct Hd as (_ & [[-> Hl] | [[-> Hl] | Hb]]).
      * by split; [split |].
      * split; [by split |]. cbn [MAX_FLIGHT_LEN]. intros Hm. lia.
      * split; [split; [done | intros ->; done] | by intros _ ->].
  - pose proof (auth_flight_cases a ctx algs rng secret t out Hok) as Ha. cbv zeta in Ha.
    destruct (build_flight _ _ _ _ _ _ _) as [rng' [[[t' out'] flight] | e |]]; [| | done].
    + destruct Ha as (sig & Hs & Hc & Hx & Hoff & Hf & Hfit & Ho & Ht). cbn [fst snd] in *. subst flight. split_and!; [| done | done | done | by exists sig].
      unfold auth_flight. rewrite !blen_app, client_finished_msg_len, client_cert_msg_len, client_cv_msg_len.
      assert (blen sig <= MAX_CLIENT_SIG_LEN w) by (eapply sign_len; by rewrite Hs). cbn [MAX_FLIGHT_LEN].
      unfold MAX_CLIENT_AUTH_FLIGHT, HS_HEADER, CERT_FRAMING, CV_FRAMING, FINISHED_MSG, HS_HEADER. lia.
    + split; [split; [done | intros ->; naive_solver] |]. cbn [MAX_FLIGHT_LEN]. intros Hm ->.
      destruct Ha as [[? _] | [[? _] | [[? _] | [[? _] | [[_ ?] | [[? _] | ?]]]]]]; try done. lia.
Qed.

(** The flight's messages are bytes. *)
Lemma bytes_ok_hs_msg ty body : is_u8 ty -> bytes_ok body -> bytes_ok (hs_msg ty body).
Proof. intros Ht Hb. unfold hs_msg. rewrite !bytes_ok_app. split_and!; [by constructor | apply bytes_ok_be_bytes | done]. Qed.

Lemma bytes_ok_cert_wire ctx es :
  bytes_ok ctx -> blen ctx <= 255 -> Forall (fun en => bytes_ok en.1 /\ bytes_ok en.2) es -> bytes_ok (cert_wire ctx es []).
Proof.
  intros Hc Hl He. unfold cert_wire. rewrite !bytes_ok_app. pose proof (blen_nonneg ctx).
  split_and!; [constructor; [unfold is_u8, U8; lia | constructor] | done | apply bytes_ok_be_bytes | | constructor].
  induction He as [| en es [? ?] _ IH]; cbn [fmap list_fmap concat]; [constructor |]. rewrite bytes_ok_app. split; [| done].
  unfold cert_entry, vec24, vec16. rewrite !bytes_ok_app. split_and!; try done; apply bytes_ok_be_bytes.
Qed.

Lemma build_flight_bytes `{Usize, HeaplessVec, HkdfSha256, CryptoRng} {w} (p : ClientAuthPolicy w) ctx algs rng secret t out rng' t' out' flight :
  bytes_ok algs -> bytes_ok ctx -> build_flight p ctx algs rng secret t out = (rng', Ok (t', out', flight)) -> bytes_ok flight.
Proof.
  intros Ha Hc Hb.
  assert (forall th, bytes_ok (client_finished_msg secret th)) as Hf.
  { intros th. apply bytes_ok_hs_msg; [done | apply hkdf_extract_bytes]. }
  destruct p as [| | a]; [done | |].
  - pose proof (decline_flight_cases (w := w) ctx algs rng secret t out) as Hd. rewrite Hb in Hd.
    destruct Hd as (_ & Hl & Hfl & _). cbn [fst snd] in Hfl. rewrite Hfl. unfold decline_flight. rewrite bytes_ok_app. split; [| done].
    apply bytes_ok_hs_msg; [done |]. by apply bytes_ok_cert_wire.
  - pose proof (auth_flight_cases a ctx algs rng secret t out Ha) as Hd. cbv zeta in Hd. rewrite Hb in Hd.
    destruct Hd as (sig & Hs & _ & Hl & _ & Hfl & _). cbn [fst snd] in Hfl. rewrite Hfl. unfold auth_flight. rewrite !bytes_ok_app. split_and!; [| | done].
    + apply bytes_ok_hs_msg; [done |]. apply bytes_ok_cert_wire; [done | done |]. constructor; [| constructor]. split; [apply cert_der_bytes | constructor].
    + apply bytes_ok_hs_msg; [done |]. unfold vec16. rewrite !bytes_ok_app. split_and!; [apply bytes_ok_be_bytes.. |]. eapply sign_bytes. by rewrite Hs.
Qed.

(** C26. The client's second flight: [build_flight] never panics; a policy that accepts
    returns, at the front of the scratch buffer, exactly its messages (Certificate echoing
    the request's context, CertificateVerify with the signer's signature over the transcript
    through Certificate, Finished keyed by the handshake secret over the transcript through
    CertificateVerify; or the empty Certificate and Finished), folds exactly those bytes into
    the transcript and stays within [MAX_FLIGHT_LEN]; [WithClientAuth] signs only with a
    scheme that the server offered; a scratch buffer of [MAX_FLIGHT_LEN] bytes is always
    enough; and [NoClientAuth] always refuses. *)
Theorem client_second_flight `{Usize, HeaplessVec, HkdfSha256, CryptoRng} {w} (p : ClientAuthPolicy w)
    (ctx algs : bytes) (rng : Rng) (secret : bytes) (t : TranscriptHash) (out : bytes) :
  bytes_ok algs ->
  match build_flight p ctx algs rng secret t out with
  | (rng', Ok (t', out', flight)) =>
      blen flight <= MAX_FLIGHT_LEN p /\ blen flight <= blen out /\ out' = flight ++ drop (length flight) out /\ hashed t' = hashed t ++ flight /\
      match p with
      | NoClientAuth => False
      | DeclineClientAuth => rng' = rng /\ flight = decline_flight t secret ctx
      | WithClientAuth a => exists sig,
          sign (client_cv_content (th_after t (client_cert_msg cert_der ctx))) rng = (rng', Ok sig) /\
          (exists l, algs = u16s l /\ Forall is_u16 l /\ scheme ∈ l) /\
          flight = auth_flight t secret cert_der ctx scheme sig
      end
  | (_, Err e) => (p = NoClientAuth <-> e = CaCertificateRequested) /\ (MAX_FLIGHT_LEN p <= blen out -> e <> CaBufferTooSmall)
  | (_, Panic) => False
  end.
Proof. apply build_flight_spec. Qed.

Section flight_witness.
#[local] Existing Instances usize32 heapless_model hkdf_model rng_model.

(** A signer that repeats a checksum of the message. *)
Definition toy_signer : ClientAuth NoRsa.
Proof.
  refine {| cert_der := [48; 3; 2; 1; 5]; scheme := SIG_SCHEME_ED25519; sign m r := (r, Ok (be_bytes 64 (toy_sum m))) |}.
  - done.
  - done.
  - intros m r sig Hs. apply Ok_inj in Hs as <-. rewrite blen_be_bytes. vm_compute. congruence.
  - by apply bytes_okb_sound.
  - intros m r sig Hs. apply Ok_inj in Hs as <-. apply bytes_ok_be_bytes.
Defined.

Definition demo_rng : Rng := 5.

Lemma client_second_flight_witness :
  match build_flight (WithClientAuth toy_signer) [7] [8; 7] demo_rng (zeros 32) hasher (zeros 800) with
  | (_, Ok (t', out', flight)) => blen flight = 127 /\ out' = flight ++ drop (length flight) (zeros 800)
  | _ => False
  end.
Proof.
  assert (bytes_ok [8; 7]) as Hok by (apply bytes_okb_sound; vm_compute; reflexivity).
  pose proof (client_second_flight (WithClientAuth toy_signer) [7] [8; 7] demo_rng (zeros 32) hasher (zeros 800) Hok) as Hs.
  assert (match build_flight (WithClientAuth toy_signer) [7] [8; 7] demo_rng (zeros 32) hasher (zeros 800) with
          | (_, Ok (_, _, flight)) => blen flight = 127 | _ => False end) as Hl by (vm_compute; exact eq_refl).
  destruct (build_flight (WithClientAuth toy_signer) [7] [8; 7] demo_rng (zeros 32) hasher (zeros 800)) as [rng' [[[t' out'] flight] | e |]];
    [| exact Hl..].
  destruct Hs as (_ & _ & Ho & _). exact (conj Hl Ho).
Defined.
End flight_witness.
