(* ===== verification/EcdsaSig.v ===== *)
(** * [backends/ecdsa_verify.rs], [backends/client_auth.rs]: the DER form of an ECDSA signature

    The strict decoder of a received [ECDSA-Sig-Value] and the encoder of the client's own:
    the decoder accepts exactly what the encoder writes, so that a signature has one wire
    form. *)
From S2P Require Import Prelude Deps Identity ClientFlight.

(** ** The decoder ([ecdsa_verify.rs]) *)

Inductive EcdsaVerifyError := EcdsaVerify.
Notation EC := (outcome EcdsaVerifyError).

(** [take(p, n)]: the head, and the cursor. *)
Definition take_bytes (p : bytes) (n : Z) : EC (bytes * bytes) :=
  if blen p <? n then Err EcdsaVerify else
  hd ← or_panic (slice p 0 n);
  tl ← or_panic (slice_from p n);
  Ok (hd, tl).

Definition sig_read_len (p : bytes) : EC (Z * bytes) :=
  '(l, p) ← take_bytes p 1;
  n ← or_panic (at_idx l 0);
  if n <? 0x80 then Ok (n, p) else
  if n =? 0x81 then
    '(b, p) ← take_bytes p 1;
    n ← or_panic (at_idx b 0);
    if 0x80 <=? n then Ok (n, p) else Err EcdsaVerify
  else if n =? 0x82 then
    '(b, p) ← take_bytes p 2;
    b0 ← or_panic (at_idx b 0);
    b1 ← or_panic (at_idx b 1);
    let n := Z.lor (Z.shiftl b0 8) b1 in
    if n <? 0x100 then Err EcdsaVerify else Ok (n, p)
  else Err EcdsaVerify.

Definition sig_read_tlv (p : bytes) (tag : Z) : EC (bytes * bytes) :=
  '(t, p) ← take_bytes p 1;
  t0 ← or_panic (at_idx t 0);
  if negb (t0 =? tag) then Err EcdsaVerify else
  '(len, p) ← sig_read_len p;
  take_bytes p len.

(** The value, left-padded into [out]. *)
Definition int_to_padded (v out : bytes) : EC bytes :=
  match v with
  | [] => Err EcdsaVerify
  | v0 :: rest =>
      if negb (Z.land v0 0x80 =? 0) then Err EcdsaVerify else
      if (1 <? blen v) && (v0 =? 0) && (match head rest with Some v1 => Z.land v1 0x80 =? 0 | None => false end) then Err EcdsaVerify else
      let val := if (1 <? blen v) && (v0 =? 0) then rest else v in
      if blen out <? blen val then Err EcdsaVerify else
      or_panic (splice (zeros (blen out)) (blen out - blen val) val)
  end.

Definition der_sig_to_p1363 (der : bytes) (eb : Z) (out : bytes) : EC bytes :=
  if negb (blen out =? 2 * eb) then Err EcdsaVerify else
  '(body, outer) ← sig_read_tlv der 0x30;
  if negb (blen outer =? 0) then Err EcdsaVerify else
  '(r, body) ← sig_read_tlv body 0x02;
  '(s, body) ← sig_read_tlv body 0x02;
  if negb (blen body =? 0) then Err EcdsaVerify else
  out_r ← or_panic (slice out 0 eb);
  out_s ← or_panic (slice_from out eb);
  r ← int_to_padded r out_r;
  s ← int_to_padded s out_s;
  Ok (r ++ s).

(** ** The encoder ([client_auth.rs]) *)

(** [while v.len() > 1 && v[0] == 0] *)
Fixpoint strip_zeros (v : bytes) : bytes :=
  match v with
  | b :: ((_ :: _) as rest) => if b =? 0 then strip_zeros rest else v
  | _ => v
  end.

Section encode.
Context `{HeaplessVec} (w : RsaWidth).

Definition sig_push (out : bytes) (b : Z) : outcome ClientAuthError bytes := ok_or (vec_push (MAX_CLIENT_SIG_LEN w) out b) ClientAuthErr.
Definition sig_extend (out bs : bytes) : outcome ClientAuthError bytes := ok_or (vec_extend (MAX_CLIENT_SIG_LEN w) out bs) ClientAuthErr.

Definition der_int (bs out : bytes) : outcome ClientAuthError bytes :=
  let v := strip_zeros bs in
  v0 ← or_panic (at_idx v 0);
  let pad := negb (Z.land v0 0x80 =? 0) in
  out ← sig_push out 0x02;
  out ← sig_push out (as_u8 (blen v + (if pad then 1 else 0)));
  out ← (if pad then sig_push out 0x00 else Ok out);
  sig_extend out v.

Definition der_ecdsa_sig (r s : bytes) : outcome ClientAuthError bytes :=
  body ← der_int r [];
  body ← der_int s body;
  out ← sig_push [] 0x30;
  out ← sig_push out (as_u8 (blen body));
  sig_extend out body.
End encode.

(** ** Minimal INTEGERs *)

(** The body of the INTEGER with the magnitude of a big-endian half. *)
Definition int_body (h : bytes) : bytes :=
  let v := strip_zeros h in
  match head v with Some b => if negb (Z.land b 0x80 =? 0) then 0 :: v else v | None => v end.

Definition sig_der (r s : bytes) : bytes := tlv_encode 0x30 (tlv_encode 0x02 (int_body r) ++ tlv_encode 0x02 (int_body s)).

Lemma strip_zeros_spec h :
  h <> [] -> exists k b t, strip_zeros h = b :: t /\ h = zeros k ++ b :: t /\ 0 <= k /\ (b = 0 -> t = []).
Proof.
  induction h as [| b h IH]; [done |]. intros _. destruct h as [| c h]; [by exists 0, b, [] |].
  cbn [strip_zeros]. destruct (Z.eqb_spec b 0) as [-> | Hb].
  - destruct IH as (k & b & t & Hs & Hh & Hk & Hb); [done |]. exists (k + 1), b, t. split; [done |]. rewrite Hh.
    split_and!; [| lia | done]. unfold zeros. by replace (Z.to_nat (k + 1)) with (S (Z.to_nat k)) by lia.
  - by exists 0, b, (c :: h).
Qed.

Lemma strip_zeros_pad k b t : (b = 0 -> t = []) -> strip_zeros (zeros k ++ b :: t) = b :: t.
Proof.
  intros Hb. unfold zeros. induction (Z.to_nat k) as [| n IH]; cbn [replicate app].
  - cbn. destruct t as [| c t]; [done |]. destruct (Z.eqb_spec b 0) as [-> |]; [by specialize (Hb eq_refl) | done].
  - cbn [strip_zeros]. destruct (replicate n 0 ++ b :: t) eqn:Hr; [by destruct n |]. by rewrite Z.eqb_refl.
Qed.

Lemma blen_zeros_max n : blen (zeros n) = Z.max 0 n.
Proof. unfold zeros. rewrite blen_replicate. lia. Qed.

Lemma splice_pad n val : blen val <= n -> splice (zeros n) (n - blen val) val = Some (zeros (n - blen val) ++ val).
Proof.
  intros Hl. pose proof (blen_nonneg val).
  assert (zeros n = zeros (n - blen val) ++ zeros (blen val)) as ->.
  { unfold zeros. rewrite <- replicate_add. f_equal. lia. }
  rewrite <- (app_nil_r (zeros (blen val))).
  replace (n - blen val) with (blen (zeros (n - blen val))) at 2 by (rewrite blen_zeros_max; lia).
  rewrite (splice_middle _ _ val); [by rewrite app_nil_r | done | rewrite blen_zeros_max; lia].
Qed.

(** A value [b :: t] without a redundant zero, and its two encodings. *)
Lemma int_body_pad k b t : (b = 0 -> t = []) ->
  int_body (zeros k ++ b :: t) = if negb (Z.land b 0x80 =? 0) then 0 :: b :: t else b :: t.
Proof. intros Hb. unfold int_body. by rewrite strip_zeros_pad. Qed.

(** The decoder reads the INTEGER with the minimal body, and no other. *)
Lemma int_to_padded_sound v out h :
  int_to_padded v out = Ok h -> blen h = blen out /\ v = int_body h.
Proof.
  destruct v as [| v0 rest]; cbn [int_to_padded]; [done |].
  destruct (Z.land v0 0x80 =? 0) eqn:Hv0; cbn [negb]; [| done].
  assert (forall b t, (b = 0 -> t = []) ->
    (if blen out <? blen (b :: t) then Err EcdsaVerify else or_panic (splice (zeros (blen out)) (blen out - blen (b :: t)) (b :: t))) = Ok h ->
    blen h = blen out /\ int_body h = if negb (Z.land b 0x80 =? 0) then 0 :: b :: t else b :: t) as Hput.
  { intros b t Hb. destruct (Z.ltb_spec (blen out) (blen (b :: t))); [done |]. rewrite splice_pad by done. intros [= <-].
    rewrite int_body_pad by done. split; [rewrite blen_app, blen_zeros_max; lia | done]. }
  destruct rest as [| v1 t].
  - change (1 <? blen [v0]) with false. cbn [andb]. intros Hr. apply Hput in Hr as [? Hi]; [| done]. by rewrite Hv0 in Hi.
  - replace (1 <? blen (v0 :: v1 :: t)) with true by (symmetry; apply Z.ltb_lt; rewrite !blen_cons; pose proof (blen_nonneg t); lia).
    cbn [andb head]. destruct (Z.eqb_spec v0 0) as [-> | Hz]; cbn [andb].
    + destruct (Z.land v1 0x80 =? 0) eqn:Hv1; [done |]. intros Hr. apply Hput in Hr as [? Hi]; [| by intros ->]. by rewrite Hv1 in Hi.
    + intros Hr. apply Hput in Hr as [? Hi]; [| done]. by rewrite Hv0 in Hi.
Qed.

Lemma int_to_padded_complete out h :
  0 < blen out -> blen h = blen out -> int_to_padded (int_body h) out = Ok h.
Proof.
  intros Ho Hh. destruct (strip_zeros_spec h) as (k & b & t & _ & -> & Hk & Hb); [by destruct h; [rewrite blen_nil in Hh; lia |] |].
  rewrite int_body_pad by done. rewrite blen_app, blen_zeros_max in Hh. pose proof (blen_nonneg t).
  assert (splice (zeros (blen out)) (blen out - blen (b :: t)) (b :: t) = Some (zeros k ++ b :: t)) as Hs.
  { rewrite splice_pad by lia. do 3 f_equal. lia. }
  assert ((blen out <? blen (b :: t)) = false) as Hlt by (apply Z.ltb_ge; lia).
  destruct (Z.land b 0x80 =? 0) eqn:Hb0; cbn [negb int_to_padded].
  - rewrite Hb0. cbn [negb]. destruct t as [| c t].
    + change (1 <? blen [b]) with false. cbn [andb]. by rewrite Hlt, Hs.
    + destruct (Z.eqb_spec b 0) as [-> | _]; [by specialize (Hb eq_refl) |]. rewrite andb_false_r. cbn [andb]. by rewrite Hlt, Hs.
  - replace (1 <? blen (0 :: b :: t)) with true by (symmetry; apply Z.ltb_lt; rewrite !blen_cons; lia).
    cbn [Z.land Z.eqb negb andb head]. rewrite Hb0. by rewrite Hlt, Hs.
Qed.

Lemma int_body_len h : h <> [] -> 1 <= blen (int_body h) <= blen h + 1.
Proof.
  intros Hh. destruct (strip_zeros_spec h) as (k & b & t & Hs & -> & Hk & Hb); [done |]. rewrite int_body_pad by done.
  rewrite blen_app, blen_zeros_max, !blen_cons. pose proof (blen_nonneg t). case_match; rewrite ?blen_cons; lia.
Qed.

(** ** The lengths *)

Lemma take_bytes_app (a b : bytes) n : n = blen a -> take_bytes (a ++ b) n = Ok (a, b).
Proof.
  intros ->. unfold take_bytes. rewrite blen_app. pose proof (blen_nonneg b).
  destruct (Z.ltb_spec (blen a + blen b) (blen a)); [lia |]. rewrite slice_prefix by done. run.
  unfold slice_from. by rewrite slice_suffix by (rewrite ?blen_app; lia).
Qed.

Lemma take_bytes_spec p n :
  bytes_ok p -> 0 <= n -> ensures (take_bytes p n) (fun '(a, b) => p = a ++ b /\ blen a = n /\ bytes_ok a /\ bytes_ok b).
Proof.
  intros Hok Hn. unfold take_bytes. destruct (Z.ltb_spec (blen p) n); [done |].
  destruct (cut_at p n) as (a & b & -> & Ha & Hb); [lia |]. apply bytes_ok_app in Hok as [? ?].
  rewrite slice_prefix by done. run. unfold slice_from. by rewrite slice_suffix by (rewrite ?blen_app; lia).
Qed.

(** One octet, as the code takes it. *)
Lemma take_byte_spec p :
  bytes_ok p -> ensures (take_bytes p 1) (fun '(a, b) => exists x, a = [x] /\ p = x :: b /\ is_u8 x /\ bytes_ok b).
Proof.
  intros Hok. eapply ensures_weaken; [by apply take_bytes_spec |]. intros [a b] (-> & Ha & Hak & Hb).
  destruct a as [| x [| ? ?]]; [done | | by rewrite !blen_cons in Ha; pose proof (blen_nonneg l); lia].
  apply Forall_cons in Hak as [? _]. by exists x.
Qed.

Lemma two_octets n : 0x100 <= n < U16 -> der_len n = [0x82; n / 256; n mod 256].
Proof.
  intros Hn. unfold der_len, len_octets. rewrite (proj2 (Z.ltb_ge n 128)), (proj2 (Z.ltb_ge n 256)), (proj2 (Z.ltb_lt n U16)) by lia.
  cbn. unfold U16 in Hn. rewrite Z.div_1_r, (Z.mod_small (n / 256)); [done |].
  split; [apply Z.div_pos; lia | apply Z.div_lt_upper_bound; lia].
Qed.

Lemma one_octet n : 0x80 <= n < 0x100 -> der_len n = [0x81; n].
Proof.
  intros Hn. unfold der_len, len_octets. rewrite (proj2 (Z.ltb_ge n 128)), (proj2 (Z.ltb_lt n 256)) by lia.
  cbn. by rewrite Z.div_1_r, Z.mod_small by lia.
Qed.

Lemma sig_read_len_spec p :
  bytes_ok p -> ensures (sig_read_len p) (fun '(n, rest) => 0 <= n < U16 /\ p = der_len n ++ rest /\ bytes_ok rest).
Proof.
  intros Hok. unfold sig_read_len. eapply ensures_bind; [by apply take_byte_spec |].
  intros [? p1] (n & -> & -> & Hn & Hp1). change (at_idx [n] 0) with (Some n). run. unfold is_u8, U8 in Hn.
  destruct (Z.ltb_spec n 0x80).
  { cbn. unfold U16. split_and!; [lia | lia | | done]. unfold der_len. by rewrite (proj2 (Z.ltb_lt _ _)) by lia. }
  destruct (Z.eqb_spec n 0x81) as [-> |].
  { eapply ensures_bind; [by apply take_byte_spec |]. intros [? p2] (m & -> & -> & Hm & Hp2).
    change (at_idx [m] 0) with (Some m). run. destruct (Z.leb_spec 0x80 m); cbn; [| done]. unfold is_u8, U8 in Hm.
    rewrite one_octet by lia. split; [unfold U16; lia | done]. }
  destruct (Z.eqb_spec n 0x82) as [-> |]; [| done].
  eapply ensures_bind; [by apply take_bytes_spec |]. intros [b p2] (-> & Hb & Hbo & Hp2).
  destruct b as [| b0 [| b1 [| ? ?]]]; [done | done | | by rewrite !blen_cons in Hb; pose proof (blen_nonneg l); lia].
  change (at_idx [b0; b1] 0) with (Some b0). change (at_idx [b0; b1] 1) with (Some b1). run.
  apply Forall_cons in Hbo as [Hb0 Hbo]. apply Forall_cons in Hbo as [Hb1 _].
  unfold is_u8, U8 in *. rewrite lor_shiftl_byte by (unfold is_u8, U8; lia).
  destruct (Z.ltb_spec (b0 * 256 + b1) 0x100); cbn; [done |]. split; [unfold U16; lia |].
  rewrite two_octets by (unfold U16; lia). rewrite Z.div_add_l, (Z.div_small b1), Z.add_0_r by lia.
  rewrite Z.add_comm, Z.mod_add, Z.mod_small by lia. done.
Qed.

Lemma sig_read_len_encode n rest : 0 <= n < U16 -> sig_read_len (der_len n ++ rest) = Ok (n, rest).
Proof.
  intros Hn. unfold sig_read_len.
  assert (n < 0x80 \/ 0x80 <= n < 0x100 \/ 0x100 <= n) as [Hs | [Hs | Hs]] by lia.
  - unfold der_len. rewrite (proj2 (Z.ltb_lt _ _)) by lia. rewrite take_bytes_app by done. run.
    change (at_idx [n] 0) with (Some n). run. by rewrite (proj2 (Z.ltb_lt _ _)) by lia.
  - rewrite one_octet by lia. change ([0x81; n] ++ rest) with ([0x81] ++ [n] ++ rest).
    rewrite take_bytes_app by done. run. cbn [at_idx]. change (at_idx [0x81] 0) with (Some 0x81). run. cbn [Z.ltb Z.compare Pos.compare Pos.compare_cont Z.eqb Pos.eqb].
    rewrite take_bytes_app by done. run. change (at_idx [n] 0) with (Some n). run. by rewrite (proj2 (Z.leb_le _ _)) by lia.
  - rewrite two_octets by lia. change ([0x82; n / 256; n mod 256] ++ rest) with ([0x82] ++ [n / 256; n mod 256] ++ rest).
    rewrite take_bytes_app by done. run. change (at_idx [0x82] 0) with (Some 0x82). run. cbn [Z.ltb Z.compare Pos.compare Pos.compare_cont Z.eqb Pos.eqb].
    rewrite take_bytes_app by done. run. change (at_idx [n / 256; n mod 256] 0) with (Some (n / 256)).
    change (at_idx [n / 256; n mod 256] 1) with (Some (n mod 256)). run. unfold U16 in Hn. pose proof (Z.div_mod n 256).
    pose proof (Z.mod_pos_bound n 256). rewrite lor_shiftl_byte by (unfold is_u8, U8; try apply Z.div_pos; lia).
    replace (n / 256 * 256 + n mod 256) with n by lia. by rewrite (proj2 (Z.ltb_ge _ _)) by lia.
Qed.

Lemma sig_read_tlv_spec p tag :
  bytes_ok p -> ensures (sig_read_tlv p tag) (fun '(body, rest) =>
    p = tlv_encode tag body ++ rest /\ blen body < U16 /\ bytes_ok body /\ bytes_ok rest).
Proof.
  intros Hok. unfold sig_read_tlv. eapply ensures_bind; [by apply take_byte_spec |].
  intros [? p1] (t & -> & -> & _ & Hp1). change (at_idx [t] 0) with (Some t). run.
  destruct (Z.eqb_spec t tag) as [-> |]; cbn [negb]; [| done].
  eapply ensures_bind; [by apply sig_read_len_spec |]. intros [n p2] (Hn & -> & Hp2).
  eapply ensures_weaken; [apply take_bytes_spec; [done | lia] |]. intros [body rest] (-> & Hb & ? & ?).
  unfold tlv_encode. rewrite Hb. cbn [app]. rewrite <- app_assoc. split_and!; [done | lia | done..].
Qed.

Lemma sig_read_tlv_encode tag body rest : blen body < U16 -> sig_read_tlv (tlv_encode tag body ++ rest) tag = Ok (body, rest).
Proof.
  intros Hb. pose proof (blen_nonneg body). unfold sig_read_tlv, tlv_encode.
  change ((tag :: der_len (blen body) ++ body) ++ rest) with ([tag] ++ (der_len (blen body) ++ body) ++ rest).
  rewrite take_bytes_app by done. run. change (at_idx [tag] 0) with (Some tag). run. rewrite Z.eqb_refl. cbn [negb].
  rewrite <- app_assoc, sig_read_len_encode by lia. run. by apply take_bytes_app.
Qed.

(** ** Decoding and encoding *)

Lemma int_to_padded_total v out : no_panic (int_to_padded v out).
Proof.
  destruct v as [| v0 rest]; cbn [int_to_padded]; [done |]. do 2 (case_match; [done |]).
  match goal with |- no_panic (if blen out <? blen ?x then _ else _) => destruct (Z.ltb_spec (blen out) (blen x)) as [| Hl]; [done |]; by rewrite splice_pad end.
Qed.

Lemma int_to_padded_spec v out : ensures (int_to_padded v out) (fun h => blen h = blen out /\ v = int_body h).
Proof. apply ensures_intro; [apply int_to_padded_total | intros h; apply int_to_padded_sound]. Qed.

(** A signature is two halves of [eb] octets in the one encoding. *)
Lemma der_sig_spec der eb out :
  bytes_ok der -> 0 < eb -> ensures (der_sig_to_p1363 der eb out) (fun rs =>
    exists r s, rs = r ++ s /\ blen r = eb /\ blen s = eb /\ der = sig_der r s).
Proof.
  intros Hok Heb. unfold der_sig_to_p1363. destruct (Z.eqb_spec (blen out) (2 * eb)) as [Ho |]; cbn [negb]; [| done].
  eapply ensures_bind; [by apply sig_read_tlv_spec |]. intros [body outer] (-> & _ & Hb & _).
  destruct (Z.eqb_spec (blen outer) 0) as [->%blen_zero_nil |]; cbn [negb]; [| done].
  eapply ensures_bind; [by apply sig_read_tlv_spec |]. intros [r b1] (-> & _ & Hr & Hb1).
  eapply ensures_bind; [by apply sig_read_tlv_spec |]. intros [s b2] (-> & _ & Hs & Hb2).
  destruct (Z.eqb_spec (blen b2) 0) as [->%blen_zero_nil |]; cbn [negb]; [| done].
  destruct (cut_at out eb) as (o1 & o2 & -> & Ho1 & Ho2); [lia |]. rewrite blen_app in *.
  rewrite slice_prefix by done. run. unfold slice_from. rewrite slice_suffix by (rewrite ?blen_app; lia). run.
  eapply ensures_bind; [apply int_to_padded_spec |]. intros hr [Hlr ->].
  eapply ensures_bind; [apply int_to_padded_spec |]. intros hs [Hls ->]. cbn.
  exists hr, hs. split_and!; [done | lia | lia | by rewrite !app_nil_r].
Qed.

Lemma int_body_ok h : bytes_ok h -> bytes_ok (int_body h).
Proof.
  intros Hok. unfold int_body. assert (bytes_ok (strip_zeros h)) as Hs.
  { induction h as [| b h IH]; [done |]. destruct h as [| c h]; [done |]. cbn [strip_zeros]. case_match; [| done].
    apply IH. by apply Forall_cons in Hok as [_ ?]. }
  case_match; [| done]. case_match; [| done]. by constructor.
Qed.

Lemma halves_nonempty (h : bytes) eb : 0 < eb -> blen h = eb -> h <> [].
Proof. intros ? Hl ->. rewrite blen_nil in Hl. lia. Qed.

Lemma der_sig_encode eb out r s :
  0 < eb <= 1024 -> blen out = 2 * eb -> blen r = eb -> blen s = eb -> der_sig_to_p1363 (sig_der r s) eb out = Ok (r ++ s).
Proof.
  intros Heb Ho Hr Hs. unfold der_sig_to_p1363. rewrite (proj2 (Z.eqb_eq _ _) Ho). cbn [negb].
  pose proof (int_body_len r (halves_nonempty r eb ltac:(lia) Hr)). pose proof (int_body_len s (halves_nonempty s eb ltac:(lia) Hs)).
  assert (forall h, 1 <= blen (int_body h) <= 1025 -> blen (tlv_encode 2 (int_body h)) <= 1030) as Hlen.
  { intros h Hh. unfold tlv_encode, der_len, len_octets. rewrite blen_cons, blen_app.
    destruct (Z.ltb_spec (blen (int_body h)) 128); [change (blen [_]) with 1; lia |]. unfold U16, U24.
    rewrite blen_cons, blen_be_bytes. repeat case_match; lia. }
  pose proof (Hlen r). pose proof (Hlen s).
  unfold sig_der. rewrite <- (app_nil_r (tlv_encode 0x30 _)), sig_read_tlv_encode by (rewrite blen_app; unfold U16; lia). run.
  change (negb (blen [] =? 0)) with false. cbn [negb].
  rewrite sig_read_tlv_encode by (unfold U16; lia). run.
  rewrite <- (app_nil_r (tlv_encode 2 (int_body s))), sig_read_tlv_encode by (unfold U16; lia). run.
  change (negb (blen [] =? 0)) with false. cbn iota.
  destruct (cut_at out eb) as (o1 & o2 & -> & Ho1 & Ho2); [lia |]. rewrite blen_app in *.
  rewrite slice_prefix by done. run. unfold slice_from. rewrite slice_suffix by (rewrite ?blen_app; lia). run.
  rewrite !int_to_padded_complete by lia. done.
Qed.

Section encoder.
Context `{HeaplessVec} (w : RsaWidth).

Lemma max_sig_len : 104 <= MAX_CLIENT_SIG_LEN w.
Proof. destruct w; cbn; lia. Qed.

Lemma sig_push_ok out b : blen out < 104 -> sig_push w out b = Ok (out ++ [b]).
Proof. intros Hl. unfold sig_push. rewrite vec_push_spec. pose proof max_sig_len. by rewrite (proj2 (Z.ltb_lt _ _)) by lia. Qed.

Lemma sig_extend_ok out bs : blen out + blen bs <= 104 -> sig_extend w out bs = Ok (out ++ bs).
Proof. intros Hl. unfold sig_extend. rewrite vec_extend_spec. pose proof max_sig_len. by rewrite (proj2 (Z.leb_le _ _)) by lia. Qed.

Lemma short_tlv tag body : blen body < 128 -> tlv_encode tag body = [tag; blen body] ++ body.
Proof. intros Hl. unfold tlv_encode, der_len. by rewrite (proj2 (Z.ltb_lt _ _)). Qed.

Lemma der_int_ok h out :
  h <> [] -> blen h <= 48 -> blen out <= 51 -> der_int w h out = Ok (out ++ tlv_encode 2 (int_body h)).
Proof.
  intros Hh Hl Ho. pose proof (int_body_len h Hh) as Hb. rewrite short_tlv by lia. unfold der_int, int_body in *.
  destruct (strip_zeros_spec h Hh) as (k & b & t & Hst & _). rewrite Hst in *. change (at_idx (b :: t) 0) with (Some b). run. cbn [head] in *.
  pose proof (blen_nonneg out).
  destruct (Z.land b 0x80 =? 0); cbn [negb] in *; rewrite ?blen_cons in *; pose proof (blen_nonneg t);
    rewrite sig_push_ok by lia; run; rewrite sig_push_ok by (rewrite blen_app, blen_cons, ?blen_nil; lia); run.
  - rewrite sig_extend_ok by (rewrite !blen_app, !blen_cons, ?blen_nil; lia).
    f_equal. rewrite <- !app_assoc. cbn [app]. unfold as_u8, U8. do 4 f_equal. rewrite Z.mod_small by lia. lia.
  - rewrite sig_push_ok by (rewrite !blen_app, !blen_cons, ?blen_nil; lia). run.
    rewrite sig_extend_ok by (rewrite !blen_app, !blen_cons, ?blen_nil; lia).
    f_equal. rewrite <- !app_assoc. cbn [app]. unfold as_u8, U8. do 4 f_equal. rewrite Z.mod_small by lia. lia.
Qed.

(** The wire form of two halves. *)
Lemma sig_der_wire r s :
  r <> [] -> s <> [] -> bytes_ok r -> bytes_ok s -> blen r <= 48 -> blen s <= 48 -> bytes_ok (sig_der r s) /\ blen (sig_der r s) <= 104.
Proof.
  intros Hr Hs Hro Hso Hlr Hls. pose proof (int_body_len r Hr). pose proof (int_body_len s Hs). unfold sig_der.
  assert (forall tag b, is_u8 tag -> 0 <= blen b < 128 -> bytes_ok b -> bytes_ok (tlv_encode tag b) /\ blen (tlv_encode tag b) = 2 + blen b) as Hone.
  { intros tag b Ht Hb Hok. rewrite short_tlv by lia. split; [| by rewrite blen_app].
    repeat (constructor; [by unfold is_u8, U8 in *; lia |]). done. }
  destruct (Hone 2 (int_body r)) as [? Hl1]; [done | lia | by apply int_body_ok |].
  destruct (Hone 2 (int_body s)) as [? Hl2]; [done | lia | by apply int_body_ok |].
  destruct (Hone 0x30 (tlv_encode 2 (int_body r) ++ tlv_encode 2 (int_body s))) as [? Hl3];
    [done | rewrite blen_app; lia | by apply bytes_ok_app |]. split; [done |]. rewrite Hl3, blen_app. lia.
Qed.

Lemma der_ecdsa_sig_ok r s :
  r <> [] -> s <> [] -> blen r <= 48 -> blen s <= 48 -> der_ecdsa_sig w r s = Ok (sig_der r s).
Proof.
  intros Hr Hs Hlr Hls. pose proof (int_body_len r Hr). pose proof (int_body_len s Hs). unfold der_ecdsa_sig.
  rewrite der_int_ok by (done || cbv; lia). cbn [app]. run.
  assert (forall h, blen (int_body h) <= 49 -> blen (tlv_encode 2 (int_body h)) = 2 + blen (int_body h)) as Hlen.
  { intros h Hh. rewrite short_tlv by lia. by rewrite blen_app. }
  rewrite der_int_ok by (try done; rewrite Hlen; lia). run.
  rewrite sig_push_ok by done. run. rewrite sig_push_ok by done. run.
  rewrite sig_extend_ok by (rewrite !blen_app, !Hlen by lia; change (blen [_]) with 1; change (blen (@nil Z)) with 0; lia).
  f_equal. unfold sig_der. rewrite (short_tlv 0x30) by (rewrite blen_app, !Hlen; lia). cbn [app]. unfold as_u8, U8.
  rewrite Z.mod_small; [done |]. rewrite blen_app, !Hlen by lia. lia.
Qed.
End encoder.

(** C17. The decoder of a received ECDSA signature accepts exactly what the encoder of the
    client's signatures writes, so every pair of halves has one wire form (no signature can be
    rewritten into another); neither panics, and the encoder fits its buffer at every width. *)
Theorem ecdsa_sig_exact `{HeaplessVec} (w : RsaWidth) (eb : Z) (out der r s : bytes) :
  eb = 32 \/ eb = 48 -> blen out = 2 * eb -> blen r = eb -> blen s = eb -> bytes_ok der ->
  no_panic (der_sig_to_p1363 der eb out) /\ is_ok (der_ecdsa_sig w r s) = true /\
  (der_sig_to_p1363 der eb out = Ok (r ++ s) <-> der_ecdsa_sig w r s = Ok der).
Proof.
  intros Heb Ho Hr Hs Hok. assert (0 < eb <= 48) as Hb by (destruct Heb; lia).
  pose proof (der_sig_spec der eb out Hok ltac:(lia)) as Hspec.
  rewrite der_ecdsa_sig_ok by (try (eapply halves_nonempty; [| done]); lia).
  split_and!; [by eapply ensures_no_panic | done |]. split.
  - intros Hd. rewrite Hd in Hspec. destruct Hspec as (r' & s' & Heq & Hr' & Hs' & ->).
    apply app_inj_1 in Heq as [-> ->]; [done |]. unfold blen in *. lia.
  - intros [= <-]. apply der_sig_encode; lia.
Qed.

Lemma ecdsa_sig_exact_witness :
  let r := zeros 31 ++ [0x80] in let s := 1 :: zeros 31 in
  der_sig_to_p1363 (0x30 :: 38 :: [2; 2; 0; 0x80] ++ [2; 32] ++ s) 32 (zeros 64) = Ok (r ++ s) /\
  @der_ecdsa_sig heapless_model Rsa2048 r s = Ok (0x30 :: 38 :: [2; 2; 0; 0x80] ++ [2; 32] ++ s).
Proof.
  cbv zeta. split; [vm_compute; reflexivity |].
  apply (@ecdsa_sig_exact heapless_model Rsa2048 32 (zeros 64) (0x30 :: 38 :: [2; 2; 0; 0x80] ++ [2; 32] ++ 1 :: zeros 31)
    (zeros 31 ++ [0x80]) (1 :: zeros 31)); [by left | done | done | done | by apply bytes_okb_sound | vm_compute; reflexivity].
Defined.
