(* ===== verification/SigBackends.v ===== *)
(** * [backends/rsa_verify.rs], [ecdsa_verify.rs], [mldsa_verify.rs], [rustcrypto.rs]: the verifiers

    The signature backend [RustCrypto]: which keys it prepares, what it checks around the
    third-party verification of each algorithm, and the key it compares.  It is an instance
    of the interface [VerifierBackend] that the trust strategies and the server flight rely
    on. *)
From S2P Require Import Prelude Deps Consts Cert Identity ClientFlight TlvCert EcdsaSig.

(** ** The third-party crates *)

(** [sha2] *)
Class Sha2Crate := { sha256_digest : bytes -> bytes; sha384_digest : bytes -> bytes }.

(** [ed25519_heapless]: the curve constants, and verification with them. *)
Class Ed25519Crate := {
  CurveField : Type;
  curve25519 : option CurveField;
  verify_with_field : CurveField -> bytes -> bytes -> bytes -> bool
}.

(** [krabiecdsa]: verification of a prehash under a SEC1 point and a fixed-width signature. *)
Class EcdsaCrate := { p256_verify_prehash : bytes -> bytes -> bytes -> bool; p384_verify_prehash : bytes -> bytes -> bytes -> bool }.

(** [rsa_heapless], by the number of octets of the carrier. *)
Class RsaCrate := {
  RsaPublicKey : Type; RsaValue : Type; Pkcs1Vk : Type; PssVk : Type;
  public_key_from_be_bytes : Z -> bytes -> Z -> option RsaPublicKey;
  try_from_be_bytes_vartime : Z -> bytes -> option RsaValue;
  Pkcs1Vk_new : RsaPublicKey -> Pkcs1Vk;
  PssVk_new : RsaPublicKey -> PssVk;
  pkcs1_verify_prehash : Pkcs1Vk -> bytes -> RsaValue -> bool;
  pss_verify_prehash : PssVk -> bytes -> RsaValue -> bool
}.

(** [krabipqc]: the parameter sets of FIPS 204, their sizes and verification with a context. *)
Inductive MlDsaSet := Ml44 | Ml65 | Ml87.
Class MlDsaCrate := {
  ml_dsa_sizes :: MlDsaKeySizes;
  SIG_BYTES : MlDsaSet -> Z;
  ml_dsa_verify : MlDsaSet -> bytes -> bytes -> bytes -> bytes -> bool
}.

(** ** [rustcrypto.rs]: Ed25519 *)
Section ed25519.
Context `{Ed25519Crate}.

Record PreparedEd25519 := { pe_pubkey : bytes; pe_field : option CurveField }.

Definition PreparedEd25519_build (pubkey : bytes) : PreparedEd25519 := {| pe_pubkey := pubkey; pe_field := curve25519 |}.

Definition ed25519_verify (v : PreparedEd25519) (msg signature : bytes) : bool :=
  match pe_field v with
  | None => false
  | Some field => verify_with_field field (pe_pubkey v) msg signature
  end.

Definition ed25519_matches `{SubtleCt} (v : PreparedEd25519) (candidate : bytes) : bool := ct_eq (pe_pubkey v) candidate.
End ed25519.

(** ** [ecdsa_verify.rs] *)
Section ecdsa.
Context `{Sha2Crate, EcdsaCrate}.

(** [pk.copy_from_slice(pubkey_sec1)] *)
Definition copy_array (n : Z) (src : bytes) : outcome EcdsaVerifyError bytes :=
  if negb (blen src =? n) then Panic else or_panic (splice (zeros n) 0 src).

Definition verify_p256 (pubkey_sec1 prehash der_sig : bytes) : outcome EcdsaVerifyError unit :=
  if negb (blen pubkey_sec1 =? 65) then Err EcdsaVerify else
  pk ← copy_array 65 pubkey_sec1;
  rs ← der_sig_to_p1363 der_sig 32 (zeros 64);
  if p256_verify_prehash pk prehash rs then Ok tt else Err EcdsaVerify.

Definition verify_p384 (pubkey_sec1 prehash der_sig : bytes) : outcome EcdsaVerifyError unit :=
  if negb (blen pubkey_sec1 =? 97) then Err EcdsaVerify else
  pk ← copy_array 97 pubkey_sec1;
  rs ← der_sig_to_p1363 der_sig 48 (zeros 96);
  if p384_verify_prehash pk prehash rs then Ok tt else Err EcdsaVerify.

(** [PreparedEcdsaP256] and [PreparedEcdsaP384] hold the point. *)
Definition PreparedEcdsa_verify_p256 (v msg sig : bytes) : outcome EcdsaVerifyError unit := verify_p256 v (sha256_digest msg) sig.
Definition PreparedEcdsa_verify_p384 (v msg sig : bytes) : outcome EcdsaVerifyError unit := verify_p384 v (sha384_digest msg) sig.
Definition PreparedEcdsa_matches `{SubtleCt} (v candidate : bytes) : bool := ct_eq v candidate.
End ecdsa.

(** ** [mldsa_verify.rs] *)
Section mldsa.
Context `{MlDsaCrate}.

Inductive MlDsaVerifyError := MlDsaVerify.
Inductive MlDsaVerifierKey := MlDsa44 (pk : bytes) | MlDsa65 (pk : bytes) | MlDsa87 (pk : bytes).

Definition mldsa_pubkey (v : MlDsaVerifierKey) : bytes := match v with MlDsa44 pk | MlDsa65 pk | MlDsa87 pk => pk end.

Definition MlDsaVerifierKey_new (pubkey : bytes) : outcome MlDsaVerifyError MlDsaVerifierKey :=
  if blen pubkey =? ml_dsa_44_PK_BYTES then Ok (MlDsa44 pubkey)
  else if blen pubkey =? ml_dsa_65_PK_BYTES then Ok (MlDsa65 pubkey)
  else if blen pubkey =? ml_dsa_87_PK_BYTES then Ok (MlDsa87 pubkey)
  else Err MlDsaVerify.

Definition mldsa_set (v : MlDsaVerifierKey) : MlDsaSet := match v with MlDsa44 _ => Ml44 | MlDsa65 _ => Ml65 | MlDsa87 _ => Ml87 end.

(** A signature of another length than the set's is a failure. *)
Definition mldsa_verify (v : MlDsaVerifierKey) (msg signature : bytes) : bool :=
  (blen signature =? SIG_BYTES (mldsa_set v)) && ml_dsa_verify (mldsa_set v) (mldsa_pubkey v) msg [] signature.

Definition mldsa_matches `{SubtleCt} (v : MlDsaVerifierKey) (candidate : bytes) : bool :=
  if negb (blen (mldsa_pubkey v) =? blen candidate) then false else ct_eq (mldsa_pubkey v) candidate.
End mldsa.

(** ** [rsa_verify.rs] *)
Section rsa.
Context `{Sha2Crate, RsaCrate} (rf : RsaFeatures).

Inductive RsaVerifyError := RsaVerify.
Record VkPair := { vp_pkcs1 : Pkcs1Vk; vp_pss : PssVk }.

(** The variants [U1024] to [U4096], by their width in octets. *)
Record RsaVerifierKey := { rv_width : Z; rv_vk : VkPair; rv_modulus_be : bytes; rv_exponent : Z }.

Definition build_vk_pair (width : Z) (modulus : bytes) (exponent : Z) : outcome RsaVerifyError VkPair :=
  key ← ok_or (public_key_from_be_bytes width modulus exponent) RsaVerify;
  Ok {| vp_pkcs1 := Pkcs1Vk_new key; vp_pss := PssVk_new key |}.

(** The widths of the build, as the parser accepts them. *)
Definition RsaVerifierKey_new (modulus : bytes) (exponent : Z) : outcome RsaVerifyError RsaVerifierKey :=
  let width := blen modulus in
  if negb (modulus_ok rf width) then Err RsaVerify else
  modulus_be ← or_panic (splice (zeros width) 0 modulus);
  vk ← build_vk_pair width modulus exponent;
  Ok {| rv_width := width; rv_vk := vk; rv_modulus_be := modulus_be; rv_exponent := exponent |}.

(** [verify_scheme!] *)
Definition verify_scheme (scheme : RsaCertSigAlg) (v : RsaVerifierKey) (message signature : bytes) : outcome RsaVerifyError unit :=
  let prehash := sha256_digest message in
  if negb (blen signature =? rv_width v) then Err RsaVerify else
  val ← ok_or (try_from_be_bytes_vartime (rv_width v) signature) RsaVerify;
  if (match scheme with
      | Pkcs1v15Sha256 => pkcs1_verify_prehash (vp_pkcs1 (rv_vk v)) prehash val
      | PssSha256 => pss_verify_prehash (vp_pss (rv_vk v)) prehash val
      end) then Ok tt else Err RsaVerify.

(** [Verifier<RsaSig>]; without PKCS#1 there is no such scheme. *)
Definition rsa_verify (v : RsaVerifierKey) (msg : bytes) (sig : RsaSig) : outcome RsaVerifyError unit :=
  match rs_scheme sig with
  | Pkcs1v15Sha256 => if f_rsa_pss_only rf then Err RsaVerify else verify_scheme Pkcs1v15Sha256 v msg (rs_bytes sig)
  | PssSha256 => verify_scheme PssSha256 v msg (rs_bytes sig)
  end.

Definition rsa_matches `{SubtleCt} (v : RsaVerifierKey) (candidate : RsaKeyMaterial) : bool :=
  if negb (blen (rk_modulus candidate) =? blen (rv_modulus_be v)) then false else
  ct_eq (rv_modulus_be v) (rk_modulus candidate) && (rv_exponent v =? rk_exponent candidate).
End rsa.

(** ** What a valid signature is *)
Section valid.
Context `{Sha2Crate, Ed25519Crate, EcdsaCrate, RsaCrate, MlDsaCrate} (rf : RsaFeatures).

Definition ed25519_valid (k m s : bytes) : Prop := exists field, curve25519 = Some field /\ verify_with_field field k m s = true.
Definition ecdsa_valid (eb : Z) (vp : bytes -> bytes -> bytes -> bool) (k prehash s : bytes) : Prop :=
  blen k = 2 * eb + 1 /\ exists rs, der_sig_to_p1363 s eb (zeros (2 * eb)) = Ok rs /\ vp k prehash rs = true.
Definition mldsa_valid (k m s : bytes) : Prop :=
  exists v, MlDsaVerifierKey_new k = Ok v /\ blen s = SIG_BYTES (mldsa_set v) /\ ml_dsa_verify (mldsa_set v) k m [] s = true.
Definition rsa_valid (k : RsaKeyMaterial) (m : bytes) (s : RsaSig) : Prop :=
  let n := blen (rk_modulus k) in
  modulus_ok rf n = true /\ blen (rs_bytes s) = n /\
  exists pub val, public_key_from_be_bytes n (rk_modulus k) (rk_exponent k) = Some pub /\
    try_from_be_bytes_vartime n (rs_bytes s) = Some val /\
    match rs_scheme s with
    | Pkcs1v15Sha256 => f_rsa_pss_only rf = false /\ pkcs1_verify_prehash (Pkcs1Vk_new pub) (sha256_digest m) val = true
    | PssSha256 => pss_verify_prehash (PssVk_new pub) (sha256_digest m) val = true
    end.
End valid.

(** ** [impl SigVerifierProvider<A> for RustCrypto]

    A prepared verifier is one that the constructor built. *)
Definition built {E K V} (new : K -> outcome E V) : Type := { v : V | exists k, new k = Ok v }.
Definition certify {E K V} (new : K -> outcome E V) (k : K) : option (built new) :=
  match new k as o return new k = o -> option (built new) with
  | Ok v => fun Hv => Some (exist _ v (ex_intro _ k Hv))
  | _ => fun _ => None
  end eq_refl.

Lemma certify_Some {E K V} (new : K -> outcome E V) k v : certify new k = Some v -> new k = Ok (proj1_sig v).
Proof.
  unfold certify. generalize (eq_refl (new k)). generalize (new k) at 2 3. intros [a | e |] He Hs; [| done..].
  injection Hs as <-. by cbn.
Qed.

Lemma certify_is_Some {E K V} (new : K -> outcome E V) k : is_ok (new k) = true -> exists v, certify new k = Some v.
Proof.
  unfold certify. generalize (eq_refl (new k)). generalize (new k) at 2 3 4. intros [a | e |] He Hs; [by eexists | done..].
Qed.

Section rust_crypto.
Context `{SubtleCt, Sha2Crate, Ed25519Crate, EcdsaCrate, RsaCrate, MlDsaCrate} (rf : RsaFeatures).

Definition rsa_new (k : RsaKeyMaterial) : outcome RsaVerifyError RsaVerifierKey := RsaVerifierKey_new rf (rk_modulus k) (rk_exponent k).
Definition rsa_key_of (v : RsaVerifierKey) : RsaKeyMaterial := {| rk_modulus := rv_modulus_be v; rk_exponent := rv_exponent v |}.
Definition ed25519_new (k : bytes) : outcome Empty_set PreparedEd25519 := Ok (PreparedEd25519_build k).

Lemma rsa_new_inv k v : rsa_new k = Ok v ->
  modulus_ok rf (rv_width v) = true /\ rv_width v = blen (rk_modulus k) /\ rsa_key_of v = k /\
  exists pub, public_key_from_be_bytes (rv_width v) (rk_modulus k) (rk_exponent k) = Some pub /\
    rv_vk v = {| vp_pkcs1 := Pkcs1Vk_new pub; vp_pss := PssVk_new pub |}.
Proof.
  unfold rsa_new, RsaVerifierKey_new, build_vk_pair, rsa_key_of. destruct k as [n e]. cbn [rk_modulus rk_exponent].
  destruct (modulus_ok rf (blen n)) eqn:Hm; cbn [negb]; [| done]. pose proof (blen_nonneg n).
  assert (splice (zeros (blen n)) 0 n = Some n) as ->.
  { pose proof (splice_pad (blen n) n ltac:(lia)) as Hs. by rewrite Z.sub_diag in Hs. }
  run. destruct (public_key_from_be_bytes _ _ _) as [pub |] eqn:Hp; run; [| done]. intros [= <-]. cbn.
  split_and!; [done.. |]. by exists pub.
Qed.

Lemma mldsa_new_inv k v : MlDsaVerifierKey_new k = Ok v -> mldsa_pubkey v = k.
Proof. unfold MlDsaVerifierKey_new. repeat case_match; by intros [= <-]. Qed.

Lemma rsa_verify_valid k v m s : rsa_new k = Ok v -> rsa_verify rf v m s = Ok tt <-> rsa_valid rf k m s.
Proof.
  intros (Hm & Hw & <- & pub & Hp & Hvk)%rsa_new_inv. unfold rsa_valid, rsa_verify, verify_scheme. rewrite <- Hw, Hp, Hm, Hvk.
  assert (forall b : bool, (if b then Ok tt else Err RsaVerify) = Ok tt <-> b = true) as Hif by (intros []; naive_solver).
  destruct (rs_scheme s); [destruct (f_rsa_pss_only rf) |];
    destruct (Z.eqb_spec (blen (rs_bytes s)) (rv_width v)); cbn [negb]; try naive_solver;
    destruct (try_from_be_bytes_vartime _ _); cbn [ok_or vp_pkcs1 vp_pss]; rewrite ?bind_Ok, ?Hif; naive_solver.
Qed.

Lemma copy_array_ok n src : blen src = n -> copy_array n src = Ok src.
Proof.
  intros <-. unfold copy_array. rewrite Z.eqb_refl. cbn [negb].
  pose proof (splice_pad (blen src) src ltac:(lia)) as Hs. rewrite Z.sub_diag in Hs. by rewrite Hs.
Qed.

(** A check on a decoded value. *)
Lemma checked_by {A} (o : outcome EcdsaVerifyError A) (f : A -> bool) (P : Prop) :
  P -> (o ≫= fun a => if f a then Ok tt else Err EcdsaVerify) = Ok tt <-> P /\ exists a, o = Ok a /\ f a = true.
Proof.
  intros HP. split.
  - intros (a & Ha & Hf)%bind_Ok_inv. split; [done |]. exists a. split; [done |]. by destruct (f a).
  - intros (_ & a & -> & Hf). run. by rewrite Hf.
Qed.

Lemma verify_p256_valid k d s : verify_p256 k d s = Ok tt <-> ecdsa_valid 32 p256_verify_prehash k d s.
Proof.
  unfold verify_p256, ecdsa_valid. change (2 * 32 + 1) with 65. change (2 * 32) with 64.
  destruct (Z.eqb_spec (blen k) 65); cbn [negb]; [| naive_solver]. rewrite copy_array_ok by done. run.
  by apply checked_by.
Qed.

Lemma verify_p384_valid k d s : verify_p384 k d s = Ok tt <-> ecdsa_valid 48 p384_verify_prehash k d s.
Proof.
  unfold verify_p384, ecdsa_valid. change (2 * 48 + 1) with 97. change (2 * 48) with 96.
  destruct (Z.eqb_spec (blen k) 97); cbn [negb]; [| naive_solver]. rewrite copy_array_ok by done. run.
  by apply checked_by.
Qed.

Lemma is_ok_tt {E} (o : outcome E unit) : is_ok o = true <-> o = Ok tt.
Proof. destruct o as [[] | |]; cbn; naive_solver. Qed.

Lemma mldsa_verify_valid k v m s : MlDsaVerifierKey_new k = Ok v -> mldsa_verify v m s = true <-> mldsa_valid k m s.
Proof.
  intros Hn. unfold mldsa_verify, mldsa_valid. rewrite (mldsa_new_inv k v Hn), andb_true_iff, Z.eqb_eq.
  split; [intros [? ?]; by exists v |]. intros (v' & Hv' & ? & ?). rewrite Hn in Hv'. by injection Hv' as <-.
Qed.

Lemma ed25519_verify_valid k m s : ed25519_verify (PreparedEd25519_build k) m s = true <-> ed25519_valid k m s.
Proof.
  unfold ed25519_verify, ed25519_valid. cbn. destruct curve25519 as [f |].
  - split; [intros Hv; by exists f | by intros (f' & [= <-] & Hv)].
  - split; [done | by intros (f & ? & _)].
Qed.

Lemma ct_eq_len (a b : bytes) : (if negb (blen a =? blen b) then false else ct_eq a b) = true <-> a = b.
Proof.
  rewrite <- ct_eq_spec. destruct (Z.eqb_spec (blen a) (blen b)) as [| Hne]; cbn [negb]; [done |].
  split; [done |]. intros Heq%ct_eq_spec. by subst.
Qed.

Definition ed25519_provider : SigVerifierProvider AlgEd25519.
Proof.
  refine (Build_SigVerifierProvider AlgEd25519 (built ed25519_new) (certify ed25519_new)
    (fun v m s => ed25519_verify (proj1_sig v) m s) (fun v k => ed25519_matches (proj1_sig v) k)
    (fun v => pe_pubkey (proj1_sig v)) (ed25519_valid) _ _ _).
  - intros k v Hv%certify_Some. by injection Hv as <-.
  - intros [v (k & Hk)] m s. cbn. injection Hk as Hv. rewrite <- Hv. apply ed25519_verify_valid.
  - intros v k. apply ct_eq_spec.
Defined.

Definition rsa_provider : SigVerifierProvider AlgRsa.
Proof.
  refine (Build_SigVerifierProvider AlgRsa (built rsa_new) (certify rsa_new)
    (fun v m s => is_ok (rsa_verify rf (proj1_sig v) m s)) (fun v k => rsa_matches (proj1_sig v) k)
    (fun v => rsa_key_of (proj1_sig v)) (rsa_valid rf) _ _ _).
  - intros k v Hv%certify_Some. by apply rsa_new_inv in Hv as (_ & _ & ? & _).
  - intros [v (k & Hk)] m s Hv%is_ok_tt. cbn in *. pose proof Hk as (_ & _ & Hkey & _)%rsa_new_inv. rewrite Hkey. by apply (rsa_verify_valid k v).
  - intros v [n e]. unfold rsa_matches, rsa_key_of. cbn [rk_modulus rk_exponent]. rewrite (Z.eqb_sym (blen n)).
    transitivity ((if negb (blen (rv_modulus_be (proj1_sig v)) =? blen n) then false else ct_eq (rv_modulus_be (proj1_sig v)) n) = true /\ rv_exponent (proj1_sig v) = e).
    + case_match; [naive_solver |]. by rewrite andb_true_iff, Z.eqb_eq.
    + rewrite ct_eq_len. split; [by intros [-> ->] | by intros [= -> ->]].
Defined.

Definition p256_provider : SigVerifierProvider AlgEcdsaP256.
Proof.
  refine (Build_SigVerifierProvider AlgEcdsaP256 (bytes) (fun k => Some k)
    (fun v m s => is_ok (PreparedEcdsa_verify_p256 v m s)) (fun v k => PreparedEcdsa_matches v k)
    (fun v => v) (fun k m s => ecdsa_valid 32 p256_verify_prehash k (sha256_digest m) s) _ _ _).
  - by intros k v [= ->].
  - intros v m s. by rewrite is_ok_tt, <- verify_p256_valid.
  - intros v k. apply ct_eq_spec.
Defined.

Definition p384_provider : SigVerifierProvider AlgEcdsaP384.
Proof.
  refine (Build_SigVerifierProvider AlgEcdsaP384 (bytes) (fun k => Some k)
    (fun v m s => is_ok (PreparedEcdsa_verify_p384 v m s)) (fun v k => PreparedEcdsa_matches v k)
    (fun v => v) (fun k m s => ecdsa_valid 48 p384_verify_prehash k (sha384_digest m) s) _ _ _).
  - by intros k v [= ->].
  - intros v m s. by rewrite is_ok_tt, <- verify_p384_valid.
  - intros v k. apply ct_eq_spec.
Defined.

Definition mldsa_provider : SigVerifierProvider AlgMlDsa.
Proof.
  refine (Build_SigVerifierProvider AlgMlDsa (built MlDsaVerifierKey_new) (certify MlDsaVerifierKey_new)
    (fun v m s => mldsa_verify (proj1_sig v) m s) (fun v k => mldsa_matches (proj1_sig v) k)
    (fun v => mldsa_pubkey (proj1_sig v)) (mldsa_valid) _ _ _).
  - intros k v Hv%certify_Some. by apply mldsa_new_inv.
  - intros [v (k & Hk)] m s Hv. cbn in *. rewrite (mldsa_new_inv k v Hk). by apply (mldsa_verify_valid k v).
  - intros v k. apply ct_eq_len.
Defined.

(** [RustCrypto] as the backend of the verify stack. *)
Definition rust_crypto : VerifierBackend := {| provider a :=
  match a with
  | AlgEd25519 => ed25519_provider | AlgRsa => rsa_provider
  | AlgEcdsaP256 => p256_provider | AlgEcdsaP384 => p384_provider | AlgMlDsa => mldsa_provider
  end |}.
End rust_crypto.

Section exact.
Context `{SubtleCt, Sha2Crate, Ed25519Crate, EcdsaCrate, RsaCrate, MlDsaCrate} (rf : RsaFeatures).

(** Verification of a wire signature: the DER form is the one of two halves. *)
Lemma ecdsa_valid_wire eb vp k d s :
  0 < eb <= 1024 -> bytes_ok s ->
  ecdsa_valid eb vp k d s <-> blen k = 2 * eb + 1 /\ exists r h, blen r = eb /\ blen h = eb /\ s = sig_der r h /\ vp k d (r ++ h) = true.
Proof.
  intros Heb Hok. unfold ecdsa_valid. split; intros [Hk Hv]; (split; [done |]).
  - destruct Hv as (rs & Hrs & Hv). pose proof (der_sig_spec s eb (zeros (2 * eb)) Hok ltac:(lia)) as Hs. rewrite Hrs in Hs.
    destruct Hs as (r & h & -> & ? & ? & ->). by exists r, h.
  - destruct Hv as (r & h & ? & ? & -> & Hv). exists (r ++ h). split; [| done].
    apply der_sig_encode; [done | rewrite blen_zeros_max; lia | done..].
Qed.

Lemma verify_p256_total k d s : bytes_ok s -> no_panic (verify_p256 k d s).
Proof.
  intros Hok. unfold verify_p256. destruct (Z.eqb_spec (blen k) 65); cbn [negb]; [| done]. rewrite copy_array_ok by done. run.
  pose proof (der_sig_spec s 32 (zeros 64) Hok ltac:(lia)) as Hs. destruct (der_sig_to_p1363 s 32 _); cbn; [by case_match | done | done].
Qed.

Lemma verify_p384_total k d s : bytes_ok s -> no_panic (verify_p384 k d s).
Proof.
  intros Hok. unfold verify_p384. destruct (Z.eqb_spec (blen k) 97); cbn [negb]; [| done]. rewrite copy_array_ok by done. run.
  pose proof (der_sig_spec s 48 (zeros 96) Hok ltac:(lia)) as Hs. destruct (der_sig_to_p1363 s 48 _); cbn; [by case_match | done | done].
Qed.

(** C16. The backend implements the verifier interface exactly: a verifier prepared for a key
    accepts a signature if and only if it is valid under that key (for each algorithm: the
    lengths, the DER form, the padding scheme and the third-party verification), and
    matches that key and no other.  The ECDSA verifiers return on every slice. *)
Theorem rust_crypto_exact (a : SigAlgo) (k : Pubkey a) :
  let B := @provider (rust_crypto rf) a in
  forall v, @prepare a B k = Some v ->
  (forall m s, @verify a B v m s = true <-> @valid_sig a B k m s) /\
  (forall k', @matches a B v k' = true <-> k = k') /\
  (forall key d s, bytes_ok s -> no_panic (verify_p256 key d s) /\ no_panic (verify_p384 key d s)).
Proof.
  intros B v Hv. split; [| split; [intros k'; rewrite matches_key; by rewrite (@prepare_key a B _ _ Hv) |
    intros; split; [by apply verify_p256_total | by apply verify_p384_total]]].
  intros m s. subst B. destruct a; cbn in *.
  - injection Hv as <-. apply ed25519_verify_valid.
  - rewrite is_ok_tt. by apply rsa_verify_valid, certify_Some.
  - injection Hv as ->. by rewrite is_ok_tt, <- verify_p256_valid.
  - injection Hv as ->. by rewrite is_ok_tt, <- verify_p384_valid.
  - by apply mldsa_verify_valid, certify_Some.
Qed.

(** Which keys are prepared. *)
Lemma rust_crypto_prepares :
  (forall k, exists v, @prepare AlgEd25519 (@provider (rust_crypto rf) AlgEd25519) k = Some v) /\
  (forall k v, @prepare AlgMlDsa (@provider (rust_crypto rf) AlgMlDsa) k = Some v ->
     blen k = ml_dsa_44_PK_BYTES \/ blen k = ml_dsa_65_PK_BYTES \/ blen k = ml_dsa_87_PK_BYTES) /\
  (forall k v, @prepare AlgRsa (@provider (rust_crypto rf) AlgRsa) k = Some v -> modulus_ok rf (blen (rk_modulus k)) = true).
Proof.
  split_and!.
  - intros k. by apply certify_is_Some.
  - intros k v Hv%certify_Some. revert Hv. unfold MlDsaVerifierKey_new.
    repeat (case_match; [intros _; bool_to_prop; by auto |]). by intros.
  - intros k v (Hm & Hw & _)%certify_Some%rsa_new_inv. by rewrite <- Hw.
Qed.
End exact.

(** ** Concrete crates, for evaluating examples: a signature repeats the message's length. *)
Definition sha2_model : Sha2Crate := {| sha256_digest m := be_bytes 32 (blen m); sha384_digest m := be_bytes 48 (blen m) |}.
Definition ed25519_model : Ed25519Crate := {| CurveField := unit; curve25519 := Some tt; verify_with_field _ _ m s := from_be s =? blen m |}.
Definition ecdsa_model : EcdsaCrate :=
  {| p256_verify_prehash _ d rs := bool_decide (drop 32 rs = d); p384_verify_prehash _ d rs := bool_decide (drop 48 rs = d) |}.
Definition rsa_model : RsaCrate := {|
  RsaPublicKey := bytes; RsaValue := bytes; Pkcs1Vk := bytes; PssVk := bytes;
  public_key_from_be_bytes _ n _ := Some n; try_from_be_bytes_vartime _ s := Some s; Pkcs1Vk_new n := n; PssVk_new n := n;
  pkcs1_verify_prehash _ d s := from_be s =? from_be d; pss_verify_prehash _ d s := from_be s =? from_be d |}.
Definition mldsa_model : MlDsaCrate := {|
  ml_dsa_sizes := {| ml_dsa_44_PK_BYTES := 1312; ml_dsa_65_PK_BYTES := 1952; ml_dsa_87_PK_BYTES := 2592 |};
  SIG_BYTES s := match s with Ml44 => 2420 | Ml65 => 3309 | Ml87 => 4627 end;
  ml_dsa_verify _ _ m _ s := from_be s =? blen m |}.
Definition rust_crypto_model (rf : RsaFeatures) : VerifierBackend :=
  @rust_crypto subtle_model sha2_model ed25519_model ecdsa_model rsa_model mldsa_model rf.

Lemma rust_crypto_exact_witness :
  let B := rust_crypto_model {| f_rsa_pss_only := false; f_rsa_1024 := false; f_rsa_3072 := false; f_rsa_4096 := false |} in
  let s := sig_der (1 :: zeros 31) (be_bytes 32 3) in
  @verify AlgEcdsaP256 (@provider B AlgEcdsaP256) (4 :: zeros 64) [7; 8; 9] s = true /\
  @valid_sig AlgEcdsaP256 (@provider B AlgEcdsaP256) (4 :: zeros 64) [7; 8; 9] s.
Proof.
  intros B s. split; [vm_compute; reflexivity |].
  apply (@rust_crypto_exact subtle_model sha2_model ed25519_model ecdsa_model rsa_model mldsa_model
    {| f_rsa_pss_only := false; f_rsa_1024 := false; f_rsa_3072 := false; f_rsa_4096 := false |} AlgEcdsaP256 (4 :: zeros 64) (4 :: zeros 64));
    [reflexivity | vm_compute; reflexivity].
Defined.
