(* ===== verification/ClientSign.v ===== *)
(** * [backends/client_auth.rs]: the client's signers

    The three [ClientAuth] implementations (Ed25519, RSA-PSS, ECDSA) over third-party signing
    keys, as instances of the interface of the client's second flight. *)
From S2P Require Import Prelude Deps Consts Cert Kx Identity ClientFlight TlvCert EcdsaSig SigBackends.

(** ** The third-party signing keys

    With the [blinding] feature a signature draws from the connection's random source. *)
Class Ed25519Signer `{CryptoRng} := {
  EdSigningKey : Type;
  ed_from_seed : bytes -> option EdSigningKey;
  ed_public_key : EdSigningKey -> bytes;
  ed_try_sign : EdSigningKey -> bytes -> option bytes;
  ed_try_sign_with_rng : EdSigningKey -> Rng -> bytes -> Rng * option bytes;
  ed_try_sign_ok k m s : ed_try_sign k m = Some s -> blen s = 64 /\ bytes_ok s;
  ed_try_sign_with_rng_ok k r m s : (ed_try_sign_with_rng k r m).2 = Some s -> blen s = 64 /\ bytes_ok s
}.

(** [rsa_heapless]: [em_len] and [sig_len] are the scratch buffers of the caller. *)
Class RsaSigner `{CryptoRng} := {
  RsaCtPublicKey : Type; RsaSignBn : Type; RsaSigningKey : Type;
  public_key_ct_from_be_bytes : bytes -> Z -> option RsaCtPublicKey;
  sign_bn_from_be_bytes : bytes -> option RsaSignBn;
  from_public_and_d : RsaCtPublicKey -> RsaSignBn -> Z -> RsaSigningKey;
  rsa_sign_with_salt : RsaSigningKey -> bytes -> bytes -> Z -> Z -> option bytes;
  rsa_sign_with_rng : RsaSigningKey -> Rng -> bytes -> Z -> Z -> Z -> Rng * option bytes;
  rsa_sign_with_salt_ok k d salt em sl s : rsa_sign_with_salt k d salt em sl = Some s -> blen s <= sl /\ bytes_ok s;
  rsa_sign_with_rng_ok k r d em sl n s : (rsa_sign_with_rng k r d em sl n).2 = Some s -> blen s <= sl /\ bytes_ok s
}.

(** [krabiecdsa]: the fixed-width signature of a prehash verifies under the key's point. *)
Inductive EcCurve := CurveP256 | CurveP384.
Definition curve_bytes (c : EcCurve) : Z := match c with CurveP256 => 32 | CurveP384 => 48 end.

Definition curve_verify_prehash `{EcdsaCrate} (c : EcCurve) : bytes -> bytes -> bytes -> bool :=
  match c with CurveP256 => p256_verify_prehash | CurveP384 => p384_verify_prehash end.

Class EcdsaSigner `{CryptoRng, EcdsaCrate} := {
  EcSigningKey : EcCurve -> Type;
  ec_from_bytes c : bytes -> option (EcSigningKey c);
  verifying_key_sec1 c : EcSigningKey c -> bytes;
  sign_prehash c : EcSigningKey c -> bytes -> option bytes;
  sign_prehash_with_rng c : EcSigningKey c -> Rng -> bytes -> Rng * option bytes;
  verifying_key_len c k : blen (verifying_key_sec1 c k) = 2 * curve_bytes c + 1;
  sign_prehash_ok c k d s : sign_prehash c k d = Some s ->
    blen s = 2 * curve_bytes c /\ bytes_ok s /\ curve_verify_prehash c (verifying_key_sec1 c k) d s = true;
  sign_prehash_with_rng_ok c k r d s : (sign_prehash_with_rng c k r d).2 = Some s ->
    blen s = 2 * curve_bytes c /\ bytes_ok s /\ curve_verify_prehash c (verifying_key_sec1 c k) d s = true
}.

Notation CA := (outcome ClientAuthError).

Section signers.
Context `{HeaplessVec, CryptoRng, Sha2Crate, EcdsaCrate} (w : RsaWidth) (blinding : bool).

(** The signature copied into a [ClientSignature]. *)
Definition signature_of (s : bytes) : CA bytes := sig_extend w [] s.

(** ** Ed25519 *)
Section ed.
Context `{!Ed25519Signer}.

Record Ed25519ClientAuth := { ed_signing_key : EdSigningKey; ed_cert_der : bytes }.

Definition ed25519_from_seed (seed cert : bytes) : CA Ed25519ClientAuth :=
  signing_key ← ok_or (ed_from_seed seed) ClientAuthErr; Ok {| ed_signing_key := signing_key; ed_cert_der := cert |}.
Definition ed25519_public_key (self : Ed25519ClientAuth) : bytes := ed_public_key (ed_signing_key self).
Definition ed25519_scheme : Z := SIG_SCHEME_ED25519.

Definition ed25519_sign (self : Ed25519ClientAuth) (content : bytes) (rng : Rng) : Rng * CA bytes :=
  if blinding then
    let '(rng, s) := ed_try_sign_with_rng (ed_signing_key self) rng content in
    (rng, s ← ok_or s ClientAuthErr; signature_of s)
  else (rng, s ← ok_or (ed_try_sign (ed_signing_key self) content) ClientAuthErr; signature_of s).
End ed.

(** ** RSA *)
Section rsa.
Context `{!RsaSigner} (rf : RsaFeatures).

Record RsaClientAuth := { rsa_signing_key : RsaSigningKey; rsa_cert_der : bytes }.

Definition rsa_from_components (n : bytes) (e : Z) (d cert : bytes) : CA RsaClientAuth :=
  if negb (modulus_ok rf (blen n)) || (blen d =? 0) || (blen n <? blen d) then Err ClientAuthErr else
  pubkey ← ok_or (public_key_ct_from_be_bytes n e) ClientAuthErr;
  d ← ok_or (sign_bn_from_be_bytes d) ClientAuthErr;
  Ok {| rsa_signing_key := from_public_and_d pubkey d 32; rsa_cert_der := cert |}.
Definition rsa_scheme : Z := SIG_SCHEME_RSA_PSS_RSAE_SHA256.

Definition rsa_sign (self : RsaClientAuth) (content : bytes) (rng : Rng) : Rng * CA bytes :=
  let prehash := sha256_digest content in
  let cap := MAX_CLIENT_SIG_LEN w in
  let '(rng, s) :=
    (if blinding then
       let '(rng, s) := rsa_sign_with_rng (rsa_signing_key self) rng prehash cap cap 32 in (rng, ok_or s ClientAuthErr)
     else
       let '(rng, salt) := fill_bytes rng 32 in
       (rng, salt ← map_err (fun _ => ClientAuthErr) salt;
             ok_or (rsa_sign_with_salt (rsa_signing_key self) prehash salt cap cap) ClientAuthErr)) in
  (rng, s ← s; signature_of s).
End rsa.

(** ** ECDSA *)
Section ec.
Context `{!EcdsaSigner}.

(** [EcdsaClientAuth(EcdsaKey)] *)
Inductive EcdsaClientAuth := EcdsaKey (c : EcCurve) (key : EcSigningKey c) (cert : bytes).

Definition ecdsa_from_scalar (c : EcCurve) (scalar cert : bytes) : CA EcdsaClientAuth :=
  key ← ok_or (ec_from_bytes c scalar) ClientAuthErr; Ok (EcdsaKey c key cert).
Definition ecdsa_cert_der (self : EcdsaClientAuth) : bytes := let '(EcdsaKey _ _ cert) := self in cert.
Definition ecdsa_point (self : EcdsaClientAuth) : bytes := let '(EcdsaKey c key _) := self in verifying_key_sec1 c key.
Definition ecdsa_scheme (self : EcdsaClientAuth) : Z :=
  match self with EcdsaKey CurveP256 _ _ => SIG_SCHEME_ECDSA_P256 | EcdsaKey CurveP384 _ _ => SIG_SCHEME_ECDSA_P384 end.

Definition curve_digest (c : EcCurve) : bytes -> bytes := match c with CurveP256 => sha256_digest | CurveP384 => sha384_digest end.

(** [sig.split_at(32)] or [(48)], re-encoded. *)
Definition encode_p1363 (c : EcCurve) (s : bytes) : CA bytes :=
  r ← or_panic (slice s 0 (curve_bytes c));
  s ← or_panic (slice_from s (curve_bytes c));
  der_ecdsa_sig w r s.

Definition ecdsa_sign (self : EcdsaClientAuth) (content : bytes) (rng : Rng) : Rng * CA bytes :=
  let '(EcdsaKey c key _) := self in
  let digest := curve_digest c content in
  if blinding then
    let '(rng, s) := sign_prehash_with_rng c key rng digest in
    (rng, s ← ok_or s ClientAuthErr; encode_p1363 c s)
  else (rng, s ← ok_or (sign_prehash c key digest) ClientAuthErr; encode_p1363 c s).
End ec.
End signers.

(** ** The signers as instances *)
Section instances.
Context `{HeaplessVec, CryptoRng, Sha2Crate, EcdsaCrate} (w : RsaWidth) (blinding : bool).

Lemma signature_of_spec s : blen s <= MAX_CLIENT_SIG_LEN w -> signature_of w s = Ok s.
Proof. intros Hl. unfold signature_of, sig_extend. rewrite vec_extend_spec, blen_nil, (proj2 (Z.leb_le _ _)) by lia. done. Qed.

Lemma ed25519_sign_spec `{!Ed25519Signer} self content rng :
  ensures (ed25519_sign w blinding self content rng).2 (fun s => blen s = 64 /\ bytes_ok s).
Proof.
  pose proof (max_sig_len w). unfold ed25519_sign. destruct blinding.
  - destruct (ed_try_sign_with_rng _ _ _) as [rng' s] eqn:Hs. cbn [snd]. eapply ensures_bind; [apply ensures_ok_or_eq |].
    intros sig ->. pose proof (ed_try_sign_with_rng_ok _ _ _ sig (f_equal snd Hs)) as [Hl ?]. by rewrite signature_of_spec by lia.
  - cbn [snd]. eapply ensures_bind; [apply ensures_ok_or_eq |]. intros sig Hs. pose proof (ed_try_sign_ok _ _ _ Hs) as [Hl ?].
    by rewrite signature_of_spec by lia.
Qed.

Lemma rsa_sign_spec `{!RsaSigner} self content rng :
  ensures (rsa_sign w blinding self content rng).2 (fun s => blen s <= MAX_CLIENT_SIG_LEN w /\ bytes_ok s).
Proof.
  unfold rsa_sign. destruct blinding.
  - destruct (rsa_sign_with_rng _ _ _ _ _ _) as [rng' s] eqn:Hs. cbn [snd]. eapply ensures_bind; [apply ensures_ok_or_eq |].
    intros sig ->. pose proof (rsa_sign_with_rng_ok _ _ _ _ _ _ sig (f_equal snd Hs)) as [Hl ?]. by rewrite signature_of_spec.
  - pose proof (fill_bytes_total rng 32) as Ht. destruct (fill_bytes rng 32) as [rng' salt]. cbn [snd] in *.
    rewrite bind_assoc. apply (ensures_bind _ _ (fun _ => True)); [by apply ensures_map_err, ensures_intro |]. intros sl _.
    eapply ensures_bind; [apply ensures_ok_or_eq |]. intros sig Hs. pose proof (rsa_sign_with_salt_ok _ _ _ _ _ _ Hs) as [Hl ?].
    by rewrite signature_of_spec.
Qed.

(** The DER form of a fixed-width signature decodes to it. *)
Lemma encode_p1363_spec c s :
  blen s = 2 * curve_bytes c -> bytes_ok s -> exists r h, s = r ++ h /\ blen r = curve_bytes c /\ blen h = curve_bytes c /\
    encode_p1363 w c s = Ok (sig_der r h) /\ bytes_ok (sig_der r h) /\ blen (sig_der r h) <= 104.
Proof.
  intros Hl Hok. assert (0 < curve_bytes c <= 48) as Hc by (destruct c; cbn; lia).
  destruct (cut_at s (curve_bytes c)) as (r & h & -> & Hr & Hh); [lia |]. exists r, h. apply bytes_ok_app in Hok as [Hro Hho].
  rewrite blen_app in Hl. assert (r <> [] /\ h <> []) as [Hrn Hhn] by (split; eapply halves_nonempty; [| done | | done]; lia).
  unfold encode_p1363. rewrite slice_prefix by done. run. unfold slice_from. rewrite slice_suffix by (rewrite ?blen_app; lia). run.
  rewrite der_ecdsa_sig_ok by (done || lia). destruct (sig_der_wire r h) as [? ?]; [done.. | lia | lia |].
  split_and!; [done | done | lia | done..].
Qed.

(** What the instances promise, with the certificate that goes with the key. *)
Definition ed25519_client_auth `{!Ed25519Signer} (self : Ed25519ClientAuth) (Hcert : bytes_ok (ed_cert_der self)) : ClientAuth w.
Proof.
  refine {| cert_der := ed_cert_der self; scheme := ed25519_scheme; sign := ed25519_sign w blinding self; cert_der_bytes := Hcert |}.
  - done.
  - intros m r. eapply ensures_no_panic, ed25519_sign_spec.
  - intros m r sig Hs. pose proof (ed25519_sign_spec self m r) as He. rewrite Hs in He. pose proof (max_sig_len w). destruct He. lia.
  - intros m r sig Hs. pose proof (ed25519_sign_spec self m r) as He. rewrite Hs in He. by destruct He.
Defined.

Definition rsa_client_auth `{!RsaSigner} (self : RsaClientAuth) (Hcert : bytes_ok (rsa_cert_der self)) : ClientAuth w.
Proof.
  refine {| cert_der := rsa_cert_der self; scheme := rsa_scheme; sign := rsa_sign w blinding self; cert_der_bytes := Hcert |}.
  - done.
  - intros m r. eapply ensures_no_panic, rsa_sign_spec.
  - intros m r sig Hs. pose proof (rsa_sign_spec self m r) as He. rewrite Hs in He. by destruct He.
  - intros m r sig Hs. pose proof (rsa_sign_spec self m r) as He. rewrite Hs in He. by destruct He.
Defined.

(** The verifier of the crate for a curve. *)
Definition curve_verify (c : EcCurve) : bytes -> bytes -> bytes -> outcome EcdsaVerifyError unit :=
  match c with CurveP256 => verify_p256 | CurveP384 => verify_p384 end.
Definition ecdsa_curve `{!EcdsaSigner} (self : EcdsaClientAuth) : EcCurve := let '(EcdsaKey c _ _) := self in c.

Lemma ecdsa_sign_spec `{!EcdsaSigner} self content rng :
  ensures (ecdsa_sign w blinding self content rng).2 (fun sig =>
    blen sig <= 104 /\ bytes_ok sig /\
    curve_verify (ecdsa_curve self) (ecdsa_point self) (curve_digest (ecdsa_curve self) content) sig = Ok tt).
Proof.
  destruct self as [c key cert]. cbn [ecdsa_curve ecdsa_point].
  assert (forall s, blen s = 2 * curve_bytes c /\ bytes_ok s /\ curve_verify_prehash c (verifying_key_sec1 c key) (curve_digest c content) s = true ->
    ensures (encode_p1363 w c s) (fun sig => blen sig <= 104 /\ bytes_ok sig /\
      curve_verify c (verifying_key_sec1 c key) (curve_digest c content) sig = Ok tt)) as Henc.
  { intros s (Hl & Hok & Hv). destruct (encode_p1363_spec c s Hl Hok) as (r & h & -> & Hr & Hh & -> & Hb & Hle). cbn [ensures].
    split_and!; [done.. |]. pose proof (verifying_key_len c key) as Hk.
    destruct c; cbn [curve_verify curve_bytes curve_verify_prehash] in *.
    - apply verify_p256_valid, ecdsa_valid_wire; [lia | done |]. split; [done |]. by exists r, h.
    - apply verify_p384_valid, ecdsa_valid_wire; [lia | done |]. split; [done |]. by exists r, h. }
  unfold ecdsa_sign. destruct blinding.
  - destruct (sign_prehash_with_rng _ _ _ _) as [rng' s] eqn:Hs. cbn [snd]. eapply ensures_bind; [apply ensures_ok_or_eq |].
    intros sig ->. apply Henc. by apply (sign_prehash_with_rng_ok c key rng (curve_digest c content) sig (f_equal snd Hs)).
  - cbn [snd]. eapply ensures_bind; [apply ensures_ok_or_eq |]. intros sig Hs. apply Henc. by apply sign_prehash_ok.
Qed.

Definition ecdsa_client_auth `{!EcdsaSigner} (self : EcdsaClientAuth) (Hcert : bytes_ok (ecdsa_cert_der self)) : ClientAuth w.
Proof.
  refine {| cert_der := ecdsa_cert_der self; scheme := ecdsa_scheme self; sign := ecdsa_sign w blinding self; cert_der_bytes := Hcert |}.
  - by destruct self as [[] ? ?].
  - intros m r. eapply ensures_no_panic, ecdsa_sign_spec.
  - intros m r sig Hs. pose proof (ecdsa_sign_spec self m r) as He. rewrite Hs in He. pose proof (max_sig_len w). destruct He. lia.
  - intros m r sig Hs. pose proof (ecdsa_sign_spec self m r) as He. rewrite Hs in He. by destruct He as (_ & ? & _).
Defined.

(** C19. The client's ECDSA signer never panics, its signature fits the buffer of every build,
    and the crate's own verifier accepts it under the key's point: encoding for the wire
    loses nothing that decoding needs. *)
Theorem ecdsa_client_verifies `{!EcdsaSigner} (self : EcdsaClientAuth) (content : bytes) (rng : Rng) :
  no_panic (ecdsa_sign w blinding self content rng).2 /\
  forall sig, (ecdsa_sign w blinding self content rng).2 = Ok sig ->
    blen sig <= MAX_CLIENT_SIG_LEN w /\
    curve_verify (ecdsa_curve self) (ecdsa_point self) (curve_digest (ecdsa_curve self) content) sig = Ok tt.
Proof.
  pose proof (ecdsa_sign_spec self content rng) as He. split; [by eapply ensures_no_panic |].
  intros sig Hs. rewrite Hs in He. pose proof (max_sig_len w). destruct He as (? & _ & ?). split; [lia | done].
Qed.
End instances.

(** A signer that repeats the digest, for evaluating examples. *)
Definition digest_signature (c : EcCurve) (d : bytes) : option bytes :=
  if (blen d =? curve_bytes c) && forallb byte_okb d then Some (zeros (curve_bytes c) ++ d) else None.

Lemma digest_signature_ok c (k d s : bytes) :
  digest_signature c d = Some s -> blen s = 2 * curve_bytes c /\ bytes_ok s /\ @curve_verify_prehash ecdsa_model c k d s = true.
Proof.
  unfold digest_signature. destruct (Z.eqb_spec (blen d) (curve_bytes c)) as [Hl |]; cbn [andb]; [| done].
  destruct (forallb byte_okb d) eqn:Hok; [| done]. intros [= <-]. rewrite blen_app, blen_zeros_max, Hl.
  split_and!; [destruct c; cbn; lia | apply bytes_ok_app; split; [apply Forall_replicate; done | by apply bytes_okb_sound] |].
  by destruct c; apply bool_decide_eq_true.
Qed.

Definition ecdsa_signer_model : @EcdsaSigner rng_model ecdsa_model.
Proof.
  refine (@Build_EcdsaSigner rng_model ecdsa_model (fun _ => unit) (fun _ _ => Some tt) (fun c _ => 4 :: zeros (2 * curve_bytes c))
    (fun c _ d => digest_signature c d) (fun c _ r d => (r, digest_signature c d)) _ _ _).
  - by intros [] _.
  - intros c k d s. apply digest_signature_ok.
  - intros c k r d s. apply digest_signature_ok.
Defined.

Notation demo_signed := (@ecdsa_sign heapless_model rng_model sha2_model ecdsa_model NoRsa true ecdsa_signer_model
  (@EcdsaKey rng_model ecdsa_model ecdsa_signer_model CurveP256 tt [1]) [7; 8] 0).

Lemma ecdsa_client_verifies_witness :
  exists sig, demo_signed.2 = Ok sig /\ blen sig <= 112 /\
    @verify_p256 ecdsa_model (4 :: zeros 64) (@sha256_digest sha2_model [7; 8]) sig = Ok tt.
Proof.
  exists (sig_der (zeros 32) (be_bytes 32 2)).
  assert (demo_signed.2 = Ok (sig_der (zeros 32) (be_bytes 32 2))) as Hs by (vm_compute; reflexivity).
  split; [exact Hs |].
  apply (proj2 (@ecdsa_client_verifies heapless_model rng_model sha2_model ecdsa_model NoRsa true ecdsa_signer_model
    (@EcdsaKey rng_model ecdsa_model ecdsa_signer_model CurveP256 tt [1]) [7; 8] 0) _ Hs).
Defined.
