(* ===== verification/PinTrust.v ===== *)
(** * [backends/pin_or_self_signed.rs]: the pin-or-self-signed strategy

    The trust decision of a client that pins the server's public key, or that accepts a
    certificate signed by its own key, and what [SafeStrategy] with it accepts. *)
From S2P Require Import Prelude Deps Consts Cert Identity ClientFlight TlvCert EcdsaSig SigBackends Kx.

Inductive PinnedPubkeyOwned :=
| PinEd25519 (pubkey : bytes)
| PinRsa (modulus : bytes) (exponent : Z)
| PinMlDsa (pubkey : bytes)
| PinEcdsaP256 (pubkey : bytes)
| PinEcdsaP384 (pubkey : bytes).

Definition MAX_RSA_MODULUS_BYTES : Z := 256.
Definition MAX_MLDSA_PUBKEY_BYTES : Z := 2592.

Inductive PinnedPubkeyOwnedError := PpModulusTooLong | PpPubkeyTooLong.

Section owned.
Context `{HeaplessVec}.

(** [PinnedPubkeyOwned::rsa], [PinnedPubkeyOwned::mldsa]: copies into fixed buffers. *)
Definition pinned_rsa (modulus : bytes) (exponent : Z) : outcome PinnedPubkeyOwnedError PinnedPubkeyOwned :=
  v ← ok_or (vec_extend MAX_RSA_MODULUS_BYTES [] modulus) PpModulusTooLong; Ok (PinRsa v exponent).
Definition pinned_mldsa (pubkey : bytes) : outcome PinnedPubkeyOwnedError PinnedPubkeyOwned :=
  v ← ok_or (vec_extend MAX_MLDSA_PUBKEY_BYTES [] pubkey) PpPubkeyTooLong; Ok (PinMlDsa v).
End owned.

Inductive PinMode := ModePinned (pin : PinnedPubkeyOwned) | ModeSelfSigned.
Record PinOrSelfSigned := { mode : PinMode }.
Definition pinned (pin : PinnedPubkeyOwned) : PinOrSelfSigned := {| mode := ModePinned pin |}.
Definition self_signed : PinOrSelfSigned := {| mode := ModeSelfSigned |}.

Inductive PinOrSelfSignedError :=
| PsMultiCertChain | PsPinMismatch | PsPinAlgorithmMismatch | PsSelfSignatureInvalid
| PsRsaVerifierInvalid | PsMlDsaVerifierInvalid | PsUnknownSigAlg.
Notation PS := (outcome PinOrSelfSignedError).

Section pin.
Context `{SubtleCt}.

Definition ct_eq_pin (pubkey pin : bytes) : PS unit :=
  if (blen pubkey =? blen pin) && ct_eq pubkey pin then Ok tt else Err PsPinMismatch.

Definition verify_pin (leaf : CertView) (pin : PinnedPubkeyOwned) : PS unit :=
  match leaf, pin with
  | CvEd25519 _ _ pubkey _ _, PinEd25519 expected => if ct_eq pubkey expected then Ok tt else Err PsPinMismatch
  | CvRsa _ _ _ modulus exponent _ _, PinRsa pm pe =>
      if negb (blen modulus =? blen pm) then Err PsPinMismatch else
      if ct_eq modulus pm && (exponent =? pe) then Ok tt else Err PsPinMismatch
  | CvMlDsa _ _ pubkey _ _, PinMlDsa pin =>
      if negb (blen pubkey =? blen pin) then Err PsPinMismatch else
      if ct_eq pubkey pin then Ok tt else Err PsPinMismatch
  | CvEcdsaP256 _ _ pubkey _ _ _, PinEcdsaP256 pin => ct_eq_pin pubkey pin
  | CvEcdsaP384 _ _ pubkey _ _ _, PinEcdsaP384 pin => ct_eq_pin pubkey pin
  | _, _ => Err PsPinAlgorithmMismatch
  end.

(** The certified key is the pinned one. *)
Definition key_pinned (leaf : CertView) (pin : PinnedPubkeyOwned) : Prop :=
  match leaf, pin with
  | CvEd25519 _ _ k _ _, PinEd25519 k' | CvMlDsa _ _ k _ _, PinMlDsa k'
  | CvEcdsaP256 _ _ k _ _ _, PinEcdsaP256 k' | CvEcdsaP384 _ _ k _ _ _, PinEcdsaP384 k' => k = k'
  | CvRsa _ _ _ n e _ _, PinRsa n' e' => n = n' /\ e = e'
  | _, _ => False
  end.

Lemma verify_pin_exact leaf pin : verify_pin leaf pin = Ok tt <-> key_pinned leaf pin.
Proof.
  assert (forall (b : bool) (e : PinOrSelfSignedError), (if b then Ok tt else Err e) = Ok tt <-> b = true) as Hif.
  { intros [] ?; split; done. }
  destruct leaf, pin; cbn [verify_pin key_pinned]; try done.
  - by rewrite Hif, ct_eq_spec.
  - destruct (Z.eqb_spec (blen modulus) (blen modulus0)) as [| Hne]; cbn [negb].
    + by rewrite Hif, andb_true_iff, ct_eq_spec, Z.eqb_eq.
    + split; [done |]. by intros [-> _].
  - destruct (Z.eqb_spec (blen pubkey) (blen pubkey0)) as [| Hne]; cbn [negb]; [by rewrite Hif, ct_eq_spec |].
    split; [done |]. by intros ->.
  - unfold ct_eq_pin. rewrite Hif, andb_true_iff, ct_eq_spec, Z.eqb_eq. split; [by intros [_ ?] | by intros ->].
  - unfold ct_eq_pin. rewrite Hif, andb_true_iff, ct_eq_spec, Z.eqb_eq. split; [by intros [_ ?] | by intros ->].
Qed.

Lemma verify_pin_total leaf pin : no_panic (verify_pin leaf pin).
Proof. destruct leaf, pin; cbn; unfold ct_eq_pin; repeat case_match; done. Qed.
End pin.

(** ** Self-signed certificates

    Ed25519 and RSA keys go through the caller's backend; ML-DSA and ECDSA keys through the
    crate's own verifiers. *)
Section self_sig.
Context `{VerifierBackend, Sha2Crate, EcdsaCrate, MlDsaCrate}.

Definition self_invalid {E} (_ : E) : PinOrSelfSignedError := PsSelfSignatureInvalid.

Definition verify_self_sig (leaf : CertView) : PS unit :=
  match leaf with
  | CvEd25519 tbs signature pubkey _ _ =>
      v ← ok_or (prepare AlgEd25519 pubkey) PsSelfSignatureInvalid;
      check (verify AlgEd25519 v tbs signature) PsSelfSignatureInvalid
  | CvRsa tbs signature outer_sig_alg modulus exponent _ _ =>
      alg ← ok_or outer_sig_alg PsUnknownSigAlg;
      v ← ok_or (prepare AlgRsa {| rk_modulus := modulus; rk_exponent := exponent |}) PsRsaVerifierInvalid;
      check (verify AlgRsa v tbs {| rs_scheme := alg; rs_bytes := signature |}) PsSelfSignatureInvalid
  | CvMlDsa tbs signature pubkey _ _ =>
      v ← map_err (fun _ => PsMlDsaVerifierInvalid) (MlDsaVerifierKey_new pubkey);
      check (mldsa_verify v tbs signature) PsSelfSignatureInvalid
  | CvEcdsaP256 tbs signature pubkey _ _ _ => map_err self_invalid (verify_p256 pubkey (sha256_digest tbs) signature)
  | CvEcdsaP384 tbs signature pubkey _ _ _ => map_err self_invalid (verify_p384 pubkey (sha384_digest tbs) signature)
  end.

(** The certificate is signed by the key it certifies. *)
Definition signs_itself (leaf : CertView) : Prop :=
  let tbs := cv_tbs leaf in
  let sig := cv_signature leaf in
  match leaf with
  | CvEd25519 _ _ k _ _ => valid_sig AlgEd25519 k tbs sig
  | CvRsa _ _ alg n e _ _ => exists a, alg = Some a /\ valid_sig AlgRsa {| rk_modulus := n; rk_exponent := e |} tbs {| rs_scheme := a; rs_bytes := sig |}
  | CvMlDsa _ _ k _ _ => mldsa_valid k tbs sig
  | CvEcdsaP256 _ _ k _ _ _ => ecdsa_valid 32 p256_verify_prehash k (sha256_digest tbs) sig
  | CvEcdsaP384 _ _ k _ _ _ => ecdsa_valid 48 p384_verify_prehash k (sha384_digest tbs) sig
  end.

Lemma verify_self_sig_sound leaf : verify_self_sig leaf = Ok tt -> signs_itself leaf.
Proof.
  destruct leaf; cbn [verify_self_sig]; unfold signs_itself; cbn [cv_tbs cv_signature]; intros Hv.
  - apply bind_Ok_inv in Hv as (v & Hp%ok_or_Ok_inv & Hv%check_Ok_inv). by apply (verify_key AlgEd25519 v).
  - apply bind_Ok_inv in Hv as (a & Ha%ok_or_Ok_inv & Hv). apply bind_Ok_inv in Hv as (v & Hp%ok_or_Ok_inv & Hv%check_Ok_inv).
    exists a. split; [done |]. by apply (verify_key AlgRsa v).
  - apply bind_Ok_inv in Hv as (v & Hp%map_err_Ok_inv & Hv%check_Ok_inv). by apply (mldsa_verify_valid _ v).
  - by apply map_err_Ok_inv, verify_p256_valid in Hv.
  - by apply map_err_Ok_inv, verify_p384_valid in Hv.
Qed.

Lemma verify_self_sig_total leaf : view_bytes_ok leaf -> no_panic (verify_self_sig leaf).
Proof.
  intros [_ Hs]. destruct leaf; cbn [verify_self_sig cv_signature] in *; unfold check.
  - destruct (prepare AlgEd25519 pubkey); run; [by case_match | done].
  - destruct outer_sig_alg; run; [| done]. destruct (prepare AlgRsa _); run; [by case_match | done].
  - unfold MlDsaVerifierKey_new. repeat (case_match; run; try done); by case_match.
  - by apply no_panic_map_err, verify_p256_total.
  - by apply no_panic_map_err, verify_p384_total.
Qed.

(** ** [impl TrustRootDecision for PinOrSelfSigned] *)
Context `{SubtleCt}.

Definition pin_anchors_at_leaf (self : PinOrSelfSigned) : bool := match mode self with ModePinned _ => true | ModeSelfSigned => false end.

Definition pin_accept_chain (self : PinOrSelfSigned) (chain : list CertView) : PS unit :=
  leaf ← ok_or (head chain) PsMultiCertChain;
  match mode self with
  | ModePinned pin => verify_pin leaf pin
  | ModeSelfSigned => if negb (blen chain =? 1) then Err PsMultiCertChain else verify_self_sig leaf
  end.

Definition pin_decision (self : PinOrSelfSigned) : TrustRootDecision PinOrSelfSignedError :=
  {| anchors_at_leaf := pin_anchors_at_leaf self; accept_chain := pin_accept_chain self |}.

Lemma pin_decision_total self views : Forall view_bytes_ok views -> no_panic (accept_chain (pin_decision self) views).
Proof.
  intros Hv. cbn. unfold pin_accept_chain. destruct views as [| leaf views]; [done |]. cbn [head]. run.
  apply Forall_cons in Hv as [Hl _]. destruct (mode self); [apply verify_pin_total |].
  case_match; [done | by apply verify_self_sig_total].
Qed.
End self_sig.

(** The strategies of [ClientParams::pinned] and [self_signed], as the interface of the
    handshake. *)
Definition pin_strategy `{HeaplessVec, VerifierBackend, CertParser, Clock, Sha2Crate, EcdsaCrate, MlDsaCrate, SubtleCt}
    (self : PinOrSelfSigned) : VerifyStrategy := safe_strategy (pin_decision self) (pin_decision_total self).

Section sound.
Context `{HeaplessVec, VerifierBackend, CertParser, Clock, Sha2Crate, EcdsaCrate, MlDsaCrate, SubtleCt}.

Lemma pin_accepts pin certs pv :
  safe_verify_chain (pin_decision (pinned pin)) certs = Ok pv <->
  exists d rest leaf, certs = d :: rest /\ blen certs <= SAFE_STRATEGY_CHAIN_CAP /\ parse d = Ok leaf /\
    key_pinned leaf pin /\ check_validity leaf = true /\ prepare_leaf leaf = Ok pv.
Proof.
  rewrite safe_verify_chain_exact. cbn [pin_decision anchors_at_leaf accept_chain pinned pin_anchors_at_leaf mode].
  unfold presented, pin_accept_chain. cbn [pin_decision anchors_at_leaf pinned pin_anchors_at_leaf mode]. split.
  - intros (Hl & leaf & uppers & Hp & _ & Ha & Hval & Hprep). cbn [head] in Ha. run.
    destruct certs as [| d rest]; [rewrite blen_nil in Hl; lia |]. apply Forall_cons in Hval as [Hval _].
    cbn [take] in Hp. apply Forall2_cons in Hp as [Hd Hnil]. exists d, rest, leaf.
    cbn [ok_or] in Ha. rewrite bind_Ok in Ha. apply verify_pin_exact in Ha. split_and!; try done. lia.
  - intros (d & rest & leaf & -> & Hl & Hd & Hk & Hval & Hprep). split; [rewrite blen_cons in *; pose proof (blen_nonneg rest); lia |].
    exists leaf, []. cbn [take head]. split_and!; [by constructor; [| constructor] | done | | by repeat constructor | done].
    run. by apply verify_pin_exact.
Qed.

Lemma self_signed_accepts certs pv :
  safe_verify_chain (pin_decision self_signed) certs = Ok pv ->
  exists d leaf, certs = [d] /\ parse d = Ok leaf /\ signs_itself leaf /\ check_validity leaf = true /\ prepare_leaf leaf = Ok pv.
Proof.
  rewrite safe_verify_chain_exact. intros (_ & leaf & uppers & Hp & _ & Ha & Hval & Hprep).
  cbn [pin_decision accept_chain] in Ha. unfold pin_accept_chain in Ha. cbn [head mode self_signed ok_or] in Ha. rewrite bind_Ok in Ha.
  destruct (Z.eqb_spec (blen (leaf :: uppers)) 1) as [Hl |]; cbn [negb] in Ha; [| done].
  rewrite blen_cons in Hl. assert (uppers = []) as -> by (apply blen_zero_nil; lia).
  unfold presented in Hp. cbn [pin_decision anchors_at_leaf pin_anchors_at_leaf mode self_signed] in Hp.
  apply Forall2_cons_inv_r in Hp as (d & rest & Hd & Hn & ->). apply Forall2_nil_inv_r in Hn as ->.
  apply Forall_cons in Hval as [Hval _]. exists d, leaf. split_and!; try done. by apply verify_self_sig_sound.
Qed.

(** C15. The pin-or-self-signed strategy never panics.  With a pin it accepts exactly the
    chains of one to eight entries whose first certificate parses, has the pinned key of
    the pinned kind, is inside its validity window and yields a verifier, whatever the other
    entries are (the documentation of the module says that a longer chain is rejected in
    both modes, but the code anchors a pin at the leaf and says so); without one it accepts
    only a single certificate whose signature is valid under the key it certifies.  The
    verifier handed back holds the key of that certificate. *)
Theorem pin_or_self_signed_exact (certs : list bytes) :
  Forall bytes_ok certs ->
  (forall self, no_panic (safe_verify_chain (pin_decision self) certs)) /\
  (forall pin pv, safe_verify_chain (pin_decision (pinned pin)) certs = Ok pv <->
     exists d rest leaf, certs = d :: rest /\ blen certs <= SAFE_STRATEGY_CHAIN_CAP /\ parse d = Ok leaf /\
       key_pinned leaf pin /\ check_validity leaf = true /\ prepare_leaf leaf = Ok pv) /\
  (forall pv, safe_verify_chain (pin_decision self_signed) certs = Ok pv ->
     exists d leaf, certs = [d] /\ parse d = Ok leaf /\ signs_itself leaf /\ check_validity leaf = true /\ prepared_for pv leaf).
Proof.
  intros Hok. split_and!.
  - intros self. apply safe_verify_chain_total; [apply pin_decision_total | done].
  - intros. apply pin_accepts.
  - intros pv (d & leaf & -> & Hp & Hs & Hc & Hl)%self_signed_accepts. exists d, leaf. split_and!; try done. by apply prepare_leaf_for.
Qed.
End sound.

Lemma pin_or_self_signed_exact_witness :
  @safe_verify_chain heapless_model backend_model cert_model NoClock _
    (@pin_decision backend_model sha2_model ecdsa_model mldsa_model subtle_model (pinned (PinEd25519 (be_bytes 32 5)))) [[5]; [7]]
  = Ok (@PvEd25519 backend_model (be_bytes 32 5)).
Proof.
  apply (@pin_or_self_signed_exact heapless_model backend_model cert_model NoClock sha2_model ecdsa_model mldsa_model subtle_model
    [[5]; [7]]); [repeat constructor; done |].
  exists [5], [[7]], (toy_view [5]). split_and!; [done | vm_compute; discriminate | reflexivity | reflexivity | reflexivity | reflexivity].
Defined.
