(* ===== verification/Connection.v ===== *)
(** * [connection.rs]: the TLS 1.3 client's typestates

    One record per state; a transition consumes its state and returns the next one.
    The suite that a state's type fixes in the code is an argument here, and selects
    the cipher. *)
From stdpp Require Import strings.
From S2P Require Import Prelude Deps Bytecopy Consts Aead Hkdf Kx Cert TlsHello ServerFlight Reassembler ClientFlight.

Definition CH_SCRATCH (ft : Features) : Z := if f_mlkem ft then 2048 else 768.

Inductive ConnectionError (E : Type) :=
| CeClientHello (e : ClientHelloError E) | CeParse (e : ParseError) | CeHkdf (e : HkdfLabelError)
| CeFlight (e : FlightError) | CeDecrypt (e : DecryptError) | CeEncrypt (e : EncryptError)
| CeTranscript (e : TranscriptError) | CeReassembly (e : ReassemblyError)
| CeClientFinished (e : ClientFinishedError) | CeClientAuth (e : ClientAuthFlightError)
| CeWrongSuite (expected got : Z) | CeIncompleteFlight | CeUnexpectedSuite (selected_id : Z)
| CeAlert (level description : Z) | CeUnknownContentType (ct : Z) | CeMlKemDecapsulation.
Arguments CeClientHello {E} e. Arguments CeParse {E} e. Arguments CeHkdf {E} e. Arguments CeFlight {E} e.
Arguments CeDecrypt {E} e. Arguments CeEncrypt {E} e. Arguments CeTranscript {E} e. Arguments CeReassembly {E} e.
Arguments CeClientFinished {E} e. Arguments CeClientAuth {E} e. Arguments CeWrongSuite {E} expected got.
Arguments CeIncompleteFlight {E}. Arguments CeUnexpectedSuite {E} selected_id. Arguments CeAlert {E} level description.
Arguments CeUnknownContentType {E} ct. Arguments CeMlKemDecapsulation {E}.

(** [ConnectionError<Infallible>], of the transitions that write no record. *)
Notation ConnError := (ConnectionError Empty_set).

(** ** Parameters: a writer over a slice, the groups of a build *)

(** [embedded_io::Write for &mut [u8]]: a cursor over the free part of a slice. *)
Class SliceWrite := {
  slice_write : Write;
  slice_cursor : Z -> @W slice_write;
  slice_left : @W slice_write -> Z;
  slice_cursor_spec n : 0 <= n -> written (slice_cursor n) = [] /\ slice_left (slice_cursor n) = n;
  slice_write_fits w bs : blen bs <= slice_left w ->
    (write_all w bs).2 = Ok tt /\ slice_left (write_all w bs).1 = slice_left w - blen bs;
  slice_write_full w bs : slice_left w < blen bs -> exists e, (write_all w bs).2 = Err e
}.

Class KxBackend `{CryptoRng} := { kx_x25519 : KxGroup; kx_hybrid : KxGroup; kx_p256 : KxGroup }.

(** The ephemeral secrets; a build has those of its groups. *)
Record KxSecrets `{KxBackend} := {
  ks_x25519 : option (@KxSecret _ kx_x25519);
  ks_mlkem : option (@KxSecret _ kx_hybrid);
  ks_ecdhe : option (@KxSecret _ kx_p256)
}.

(** ** The states *)

Section states.
Context `{HkdfSha256, KxBackend}.

Record Init := { in_transcript : TranscriptHash; in_client_random : bytes; in_secrets : KxSecrets }.

Record WaitServerHello := {
  wsh_transcript : TranscriptHash;
  wsh_session_id : option bytes;
  wsh_secrets : KxSecrets;
  wsh_advertised : SuiteList
}.

Record WaitServerFlight := {
  wsf_transcript : TranscriptHash;
  wsf_hs : bytes; wsf_c_hs_ts : bytes; wsf_s_hs_ts : bytes;
  wsf_s_hs_keys : RecordKeys;
  wsf_seq_in : Z
}.

(** The owned copy of the server's key. *)
Record ServerFlightDone := {
  sfd_transcript : TranscriptHash;
  sfd_hs : bytes; sfd_c_hs_ts : bytes;
  sfd_server_pubkey : ServerPubkey
}.

Record AppData := {
  ad_transcript : TranscriptHash;
  ad_c_ap_keys : RecordKeys; ad_s_ap_keys : RecordKeys;
  ad_c_ap_ts : bytes; ad_s_ap_ts : bytes;
  ad_seq_out : Z; ad_seq_in : Z
}.

Definition Init_new (client_random : bytes) (secrets : KxSecrets) : Init :=
  {| in_transcript := TranscriptHash_new; in_client_random := client_random; in_secrets := secrets |}.
End states.

Inductive FlightStep := FsPending | FsReady.

(** ** [Init -> WaitServerHello] *)

Section write_hello.
Context `{Usize, HkdfSha256, KxBackend, MlKemSizes, SliceWrite} (ft : Features).

(** The scratch writer's errors, as the caller sees them. *)
Definition scratch_error {E E'} (e : ClientHelloError E) : ConnectionError E' :=
  CeClientHello (match e with
    | ChHostnameTooLong => ChHostnameTooLong
    | ChMessageTooLong | ChWrite _ => ChMessageTooLong
    | ChIntegerOverflow => ChIntegerOverflow
    | ChRecordSizeLimitOutOfRange => ChRecordSizeLimitOutOfRange
    | ChAlpnNameLen => ChAlpnNameLen
    | ChMissingMlKemKeyShare => ChMissingMlKemKeyShare
    | ChMissingP256KeyShare => ChMissingP256KeyShare
    end).

(** The writer afterwards, and the next state. *)
Definition conn_write_client_hello_with `{O : Write} (c : Init) (primary_pub : bytes) (opts : ClientHelloOptions) (out : @W O)
    : @W O * outcome (ConnectionError (@WError O)) WaitServerHello :=
  let '(cursor, r) := @write_client_hello_with _ slice_write ft (in_client_random c) primary_pub opts
                        (slice_cursor (CH_SCRATCH ft)) in
  match (n ← map_err scratch_error r; or_panic (slice (written cursor) 0 n)) with
  | Err e => (out, Err e)
  | Panic => (out, Panic)
  | Ok ch_bytes =>
      let '(out, r) := @write_all O out ch_bytes in
      (out,
       _ ← map_err (fun e => CeClientHello (ChWrite e)) r;
       transcript ← map_err CeTranscript (update_record (in_transcript c) ch_bytes);
       Ok {| wsh_transcript := transcript; wsh_session_id := co_session_id opts;
             wsh_secrets := in_secrets c; wsh_advertised := co_suites opts |})
  end.

(** Over a buffer of [total] bytes: the bytes written, their number and the next state. *)
Definition write_client_hello_to_slice_with (c : Init) (total : Z) (primary_pub : bytes) (opts : ClientHelloOptions)
    : outcome (ConnectionError (@WError slice_write)) (bytes * Z * WaitServerHello) :=
  let '(cursor, r) := @conn_write_client_hello_with slice_write c primary_pub opts (slice_cursor total) in
  next ← r;
  Ok (written cursor, total - slice_left cursor, next).
End write_hello.

(** ** [WaitServerHello -> WaitServerFlight] *)

Section read_hello.
Context `{Usize, HeaplessVec, HkdfSha256, KxBackend, MlKemSizes} (ft : Features).

Definition advertised_ok (advertised : SuiteList) (cipher_suite : Z) : bool :=
  if f_cipher_aes ft && (cipher_suite =? CIPHER_AES_128_GCM_SHA256) then
    negb (f_chacha20 ft) || match advertised with SlChaChaOnly => false | _ => true end
  else if f_chacha20 ft && (cipher_suite =? CIPHER_CHACHA20_POLY1305_SHA256) then
    match advertised with SlDefault | SlChaChaOnly => true | SlAesOnly => false end
  else false.

(** One group's share of the shared secret. *)
Definition derive_share (G : KxGroup) (secret : option (@KxSecret _ G)) (share : option bytes) : outcome ConnError SharedSecretBuf :=
  server_share ← ok_or share (CeParse PeBadKeyShare);
  s ← or_panic secret;
  map_err (fun _ => CeParse PeDhAllZero) (kx_derive s server_share).

Definition shared_ikm (secrets : KxSecrets) (sh : ServerHelloView) : outcome ConnError SharedSecretBuf :=
  if f_p256_kx ft && (sh_selected_group sh =? NAMED_GROUP_SECP256R1) then
    derive_share kx_p256 (ks_ecdhe secrets) (sh_p256_share sh)
  else if negb (f_x25519_kx ft) then Err (CeParse PeBadKeyShare)
  else if f_mlkem ft then derive_share kx_hybrid (ks_mlkem secrets) (sh_hybrid_share sh)
  else derive_share kx_x25519 (ks_x25519 secrets) (sh_x25519_share sh).

(** The suite of a [NegotiatedSuite] and its connection. *)
Definition read_server_hello_with_backend (c : WaitServerHello) (sh_record : bytes)
    : outcome ConnError (Suite * WaitServerFlight) :=
  sh ← map_err CeParse (parse_server_hello ft sh_record);
  let sent_id := default [] (wsh_session_id c) in
  if negb (bool_decide (sh_session_id_echo sh = sent_id)) then Err (CeParse PeUnexpectedSessionIdEcho) else
  if negb (advertised_ok (wsh_advertised c) (sh_cipher_suite sh)) then Err (CeUnexpectedSuite (sh_cipher_suite sh)) else
  ikm ← shared_ikm (wsh_secrets c) sh;
  transcript ← map_err CeTranscript (update_record (wsh_transcript c) sh_record);
  th_ch_sh ← map_err CeTranscript (transcript_snapshot transcript);
  ikm ← shared_secret_slice ikm;
  hs ← map_err CeHkdf (handshake_secret ikm);
  '(c_hs_ts, s_hs_ts) ← map_err CeHkdf (handshake_traffic_secrets hs th_ch_sh);
  s ← (if f_cipher_aes ft && (sh_cipher_suite sh =? CIPHER_AES_128_GCM_SHA256) then Ok Aes128GcmSha256
       else if f_chacha20 ft && (sh_cipher_suite sh =? CIPHER_CHACHA20_POLY1305_SHA256) then Ok ChaCha20Poly1305Sha256
       else Err (CeParse (PeUnsupportedCipherSuite (sh_cipher_suite sh))));
  s_hs_keys ← map_err CeHkdf (RecordKeys_derive s s_hs_ts);
  Ok (s, {| wsf_transcript := transcript; wsf_hs := hs; wsf_c_hs_ts := c_hs_ts; wsf_s_hs_ts := s_hs_ts;
            wsf_s_hs_keys := s_hs_keys; wsf_seq_in := 0 |}).
End read_hello.

(** ** [WaitServerFlight] *)

Section flight.
Context `{Usize, HeaplessVec, HkdfSha256, SubtleCt, AeadBackend} (S_ : Suite) (FLIGHT : Z).

Definition flight_step (r : ServerFlightReassembler) : outcome ConnError FlightStep :=
  c ← is_complete r; Ok (if c : bool then FsReady else FsPending).

(** The connection, the record buffer and the reassembler afterwards. *)
Definition feed_server_record_inplace (c : WaitServerFlight) (record : bytes) (reassembler : ServerFlightReassembler)
    : (WaitServerFlight * bytes * ServerFlightReassembler) * outcome ConnError FlightStep :=
  match at_idx record 0 with
  | None => ((c, record, reassembler), Err (CeDecrypt DecTruncated))
  | Some ct =>
      if ct =? CT_CHANGE_CIPHER_SPEC then ((c, record, reassembler), flight_step reassembler)
      else if ct =? CT_APPLICATION_DATA then
        let '(record, r) := @decrypt_record_inplace (cipher S_) (wsf_s_hs_keys c) record (wsf_seq_in c) in
        match (inner_len ← map_err CeDecrypt r;
               inner ← or_panic (slice record 5 (5 + inner_len));
               '(content, inner_ct) ← map_err CeDecrypt (split_inner_plaintext inner);
               if negb (inner_ct =? CT_HANDSHAKE) then Err (CeDecrypt (DecUnexpectedContentType inner_ct)) else
               map_err CeReassembly (push_content FLIGHT reassembler content)) with
        | Err e => ((c, record, reassembler), Err e)
        | Panic => ((c, record, reassembler), Panic)
        | Ok reassembler =>
            let c := {| wsf_transcript := wsf_transcript c; wsf_hs := wsf_hs c; wsf_c_hs_ts := wsf_c_hs_ts c;
                        wsf_s_hs_ts := wsf_s_hs_ts c; wsf_s_hs_keys := wsf_s_hs_keys c;
                        wsf_seq_in := (wsf_seq_in c + 1) mod U64 |} in
            ((c, record, reassembler), flight_step reassembler)
        end
      else ((c, record, reassembler), Err (CeDecrypt (DecUnexpectedContentType ct)))
  end.
End flight.

Section finalize.
Context `{Usize, HeaplessVec, HkdfSha256, SubtleCt, VerifierBackend, MlDsaSizes}.

(** [ServerPubkeyOwned::from_view]: the key is copied into buffers of fixed capacity. *)
Definition from_view (view : ServerPubkey) : outcome FlightError ServerPubkey :=
  match view with
  | SpEd25519 k => Ok (SpEd25519 k)
  | SpRsa modulus exponent =>
      v ← ok_or (vec_extend 256 [] modulus) FlInternalEncoding; Ok (SpRsa v exponent)
  | SpMlDsa pk => v ← ok_or (vec_extend 2592 [] pk) FlInternalEncoding; Ok (SpMlDsa v)
  | SpEcdsaP256 pk => if blen pk =? 65 then Ok (SpEcdsaP256 pk) else Err FlInternalEncoding
  | SpEcdsaP384 pk => if blen pk =? 97 then Ok (SpEcdsaP384 pk) else Err FlInternalEncoding
  end.

Definition finalize_server_flight (c : WaitServerFlight) (reassembler : ServerFlightReassembler)
    (prepared : PreparedVerifier) (leaf_view : CertView) : outcome ConnError ServerFlightDone :=
  if negb (matches_cert prepared leaf_view) then Err (CeFlight FlCertVerifyInvalid) else
  o ← flight_bytes reassembler;
  plaintext ← ok_or o CeIncompleteFlight;
  '(transcript, pubkey) ← map_err CeFlight
    (verify_server_flight (wsf_transcript c) plaintext (wsf_s_hs_ts c) prepared leaf_view);
  server_pubkey ← map_err CeFlight (from_view pubkey);
  Ok {| sfd_transcript := transcript; sfd_hs := wsf_hs c; sfd_c_hs_ts := wsf_c_hs_ts c;
        sfd_server_pubkey := server_pubkey |}.
End finalize.

(** ** [ServerFlightDone -> AppData] *)

Section finish.
Context `{Usize, HeaplessVec, HkdfSha256, AeadBackend} (S_ : Suite).

(** The application keys, bound to the transcript through the server Finished. *)
Definition application_keys (hs th_through_sfin : bytes) (transcript : TranscriptHash) : outcome ConnError AppData :=
  ms ← map_err CeHkdf (master_secret hs);
  '(c_ap_ts, s_ap_ts) ← map_err CeHkdf (application_traffic_secrets ms th_through_sfin);
  c_ap_keys ← map_err CeHkdf (RecordKeys_derive S_ c_ap_ts);
  s_ap_keys ← map_err CeHkdf (RecordKeys_derive S_ s_ap_ts);
  Ok {| ad_transcript := transcript; ad_c_ap_keys := c_ap_keys; ad_s_ap_keys := s_ap_keys;
        ad_c_ap_ts := c_ap_ts; ad_s_ap_ts := s_ap_ts; ad_seq_out := 0; ad_seq_in := 0 |}.

(** The output buffer, the client Finished record and the data phase. *)
Definition finish_handshake (c : ServerFlightDone) (out_buf : bytes) : outcome ConnError (bytes * bytes * AppData) :=
  th ← map_err CeTranscript (transcript_snapshot (sfd_transcript c));
  '(out_buf, record) ← map_err CeClientFinished (build_client_finished S_ (sfd_c_hs_ts c) th 0 out_buf);
  app ← application_keys (sfd_hs c) th (sfd_transcript c);
  Ok (out_buf, record, app).

(** [chunks]: pieces of [n] elements, the last one possibly shorter. *)
Fixpoint chunks (fuel : nat) (n : Z) (l : bytes) : list bytes :=
  match fuel, l with
  | _, [] => []
  | O, _ => []
  | S fuel, _ => take (Z.to_nat n) l :: chunks fuel n (drop (Z.to_nat n) l)
  end.

Fixpoint encrypt_chunks (keys : RecordKeys) (cs : list bytes) (i written_ : Z) (out : bytes)
    : outcome EncryptError (bytes * Z) :=
  match cs with
  | [] => Ok (out, written_)
  | chunk :: cs =>
      tail ← or_panic (slice_from out written_);
      '(tail, record) ← @encrypt_record _ (cipher S_) keys chunk CT_HANDSHAKE i tail;
      out ← or_panic (splice out written_ tail);
      encrypt_chunks keys cs (i + 1) (written_ + blen record) out
  end.

Definition encrypt_handshake_flight (keys : RecordKeys) (plaintext : bytes) (peer_rsl : Z) (out : bytes)
    : outcome ConnError (bytes * bytes) :=
  let max_chunk := Z.max (saturating_sub peer_rsl CONTENT_TYPE_LEN) 1 in
  '(out, written_) ← map_err CeEncrypt (encrypt_chunks keys (chunks (length plaintext) max_chunk plaintext) 0 0 out);
  records ← or_panic (slice out 0 written_);
  Ok (out, records).

(** The random source; the scratch and output buffers, the records and the data phase. *)
Definition finish_handshake_with_policy `{CryptoRng} {w} (c : ServerFlightDone) (policy : ClientAuthPolicy w)
    (ctx sig_algs : bytes) (rng : Rng) (peer_record_size_limit : Z) (flight_scratch out_buf : bytes)
    : Rng * outcome ConnError (bytes * bytes * bytes * AppData) :=
  match map_err CeTranscript (transcript_snapshot (sfd_transcript c)) with
  | Err e => (rng, Err e)
  | Panic => (rng, Panic)
  | Ok th_through_sfin =>
      let '(rng, r) := build_flight policy ctx sig_algs rng (sfd_c_hs_ts c) (sfd_transcript c) flight_scratch in
      (rng,
       '(transcript, flight_scratch, plaintext) ← map_err CeClientAuth r;
       keys ← map_err CeHkdf (RecordKeys_derive S_ (sfd_c_hs_ts c));
       '(out_buf, record) ← encrypt_handshake_flight keys plaintext peer_record_size_limit out_buf;
       app ← application_keys (sfd_hs c) th_through_sfin transcript;
       Ok (flight_scratch, out_buf, record, app))
  end.
End finish.

(** ** [AppData] *)

Section app_data.
Context `{Usize, HeaplessVec, HkdfSha256, SubtleCt, AeadBackend} (S_ : Suite).

Definition set_seq_out (n : Z) (c : AppData) : AppData :=
  {| ad_transcript := ad_transcript c; ad_c_ap_keys := ad_c_ap_keys c; ad_s_ap_keys := ad_s_ap_keys c;
     ad_c_ap_ts := ad_c_ap_ts c; ad_s_ap_ts := ad_s_ap_ts c; ad_seq_out := n; ad_seq_in := ad_seq_in c |}.
Definition set_seq_in (n : Z) (c : AppData) : AppData :=
  {| ad_transcript := ad_transcript c; ad_c_ap_keys := ad_c_ap_keys c; ad_s_ap_keys := ad_s_ap_keys c;
     ad_c_ap_ts := ad_c_ap_ts c; ad_s_ap_ts := ad_s_ap_ts c; ad_seq_out := ad_seq_out c; ad_seq_in := n |}.

(** The output buffer and the record; a sequence number is a [u64]. *)
Definition app_encrypt_record (c : AppData) (content : bytes) (content_type : Z) (out_buf : bytes)
    : outcome ConnError (AppData * bytes * bytes) :=
  '(out_buf, record) ← map_err CeEncrypt
    (@encrypt_record _ (cipher S_) (ad_c_ap_keys c) content content_type (ad_seq_out c) out_buf);
  Ok (set_seq_out ((ad_seq_out c + 1) mod U64) c, out_buf, record).

(** The connection and the record buffer; the length of the content and its type. *)
Definition app_decrypt_record_inplace (c : AppData) (record : bytes) : (AppData * bytes) * outcome ConnError (Z * Z) :=
  let '(record, r) := @decrypt_record_inplace (cipher S_) (ad_s_ap_keys c) record (ad_seq_in c) in
  match (inner_len ← map_err CeDecrypt r;
         inner ← or_panic (slice record 5 (5 + inner_len));
         '(content, ct) ← map_err CeDecrypt (split_inner_plaintext inner);
         Ok (blen content, ct)) with
  | Ok res => ((set_seq_in ((ad_seq_in c + 1) mod U64) c, record), Ok res)
  | Err e => ((c, record), Err e)
  | Panic => ((c, record), Panic)
  end.

Definition encrypt_key_update (c : AppData) (request_update : bool) (out_buf : bytes)
    : outcome ConnError (AppData * bytes * bytes) :=
  let msg := [HS_KEY_UPDATE; 0; 0; 1; if request_update then 1 else 0] in
  app_encrypt_record c msg CT_HANDSHAKE out_buf.

Definition apply_recv_key_update (c : AppData) : outcome ConnError AppData :=
  next ← map_err CeHkdf (next_application_traffic_secret (ad_s_ap_ts c));
  keys ← map_err CeHkdf (RecordKeys_derive S_ next);
  Ok {| ad_transcript := ad_transcript c; ad_c_ap_keys := ad_c_ap_keys c; ad_s_ap_keys := keys;
        ad_c_ap_ts := ad_c_ap_ts c; ad_s_ap_ts := next; ad_seq_out := ad_seq_out c; ad_seq_in := 0 |}.

Definition apply_send_key_update (c : AppData) : outcome ConnError AppData :=
  next ← map_err CeHkdf (next_application_traffic_secret (ad_c_ap_ts c));
  keys ← map_err CeHkdf (RecordKeys_derive S_ next);
  Ok {| ad_transcript := ad_transcript c; ad_c_ap_keys := keys; ad_s_ap_keys := ad_s_ap_keys c;
        ad_c_ap_ts := next; ad_s_ap_ts := ad_s_ap_ts c; ad_seq_out := 0; ad_seq_in := ad_seq_in c |}.
End app_data.

(** ** What the transitions compute *)

(** The record keys RFC 8446 derives from a traffic secret. *)
Definition Record_Keys `{HkdfSha256} (S_ : Suite) (ts : bytes) : RecordKeys :=
  {| rk_key := Expand_Label TLS13_LABEL_PREFIX ts (label "key") [] (suite_key_len S_);
     rk_iv := Expand_Label TLS13_LABEL_PREFIX ts (label "iv") [] 12 |}.

Definition suite_id (s : Suite) : Z :=
  match s with Aes128GcmSha256 => CIPHER_AES_128_GCM_SHA256 | ChaCha20Poly1305Sha256 => CIPHER_CHACHA20_POLY1305_SHA256 end.

(** The suites of a build that a ClientHello names. *)
Definition offered (ft : Features) (l : SuiteList) (s : Suite) : Prop :=
  match s with
  | Aes128GcmSha256 => f_cipher_aes ft = true /\ (f_chacha20 ft = true -> l <> SlChaChaOnly)
  | ChaCha20Poly1305Sha256 => f_chacha20 ft = true /\ l <> SlAesOnly
  end.

Section schedule_specs.
Context `{HeaplessVec, HkdfSha256}.

Lemma ensures_derived {E A} (f : HkdfLabelError -> E) (m : outcome HkdfLabelError A) v :
  computes m v -> ensures (map_err f m) (fun a => a = v).
Proof. destruct m; cbn; auto. Qed.

Lemma derive_computes S_ ts : computes (RecordKeys_derive S_ ts) (Record_Keys S_ ts).
Proof.
  destruct (tls_schedule_eq [] [] [] ts (zeros 32) (suite_key_len S_)) as (_ & _ & _ & _ & _ & Hk & _);
    [done | by destruct S_ |].
  unfold RecordKeys_derive. by eapply computes_bind; [exact Hk |].
Qed.

Lemma handshake_secret_computes dhe : computes (handshake_secret dhe) (Handshake_Secret TLS13_LABEL_PREFIX dhe).
Proof. destruct (tls_schedule_eq dhe [] [] [] (zeros 32) 16) as (_ & Hk & _); [done.. | exact Hk]. Qed.

Lemma handshake_traffic_computes hs th :
  blen th = 32 -> computes (handshake_traffic_secrets hs th)
    (Derive_Secret TLS13_LABEL_PREFIX hs "c hs traffic" th, Derive_Secret TLS13_LABEL_PREFIX hs "s hs traffic" th).
Proof. intros Hth. destruct (tls_schedule_eq [] hs [] [] th 16) as (_ & _ & Hk & _); [done.. | exact Hk]. Qed.

Lemma master_computes hs : computes (master_secret hs) (Master_Secret TLS13_LABEL_PREFIX hs).
Proof. destruct (tls_schedule_eq [] hs [] [] (zeros 32) 16) as (_ & _ & _ & Hk & _); [done.. | exact Hk]. Qed.

Lemma application_traffic_computes ms th :
  blen th = 32 -> computes (application_traffic_secrets ms th)
    (Derive_Secret TLS13_LABEL_PREFIX ms "c ap traffic" th, Derive_Secret TLS13_LABEL_PREFIX ms "s ap traffic" th).
Proof. intros Hth. destruct (tls_schedule_eq [] [] ms [] th 16) as (_ & _ & _ & _ & Hk & _); [done.. | exact Hk]. Qed.

(** The next generation of a traffic secret. *)
Definition Next_Secret (ts : bytes) : bytes := Expand_Label TLS13_LABEL_PREFIX ts (label "traffic upd") [] 32.

Lemma next_secret_computes ts : computes (next_application_traffic_secret ts) (Next_Secret ts).
Proof. destruct (tls_schedule_eq [] [] [] ts (zeros 32) 16) as (_ & _ & _ & _ & _ & _ & Hk & _); [done.. | exact Hk]. Qed.

Lemma ensures_snapshot {E} (f : TranscriptError -> E) t :
  ensures (map_err f (transcript_snapshot t)) (fun d => d = sha256 (hashed t) /\ blen d = 32).
Proof.
  apply ensures_map_err, ensures_intro; [apply snapshot_total | apply snapshot_Ok].
Qed.
End schedule_specs.

(** ** The ServerHello *)

Section hello_specs.
Context `{Usize, HeaplessVec, HkdfSha256, KxBackend, MlKemSizes} (ft : Features).

(** The secret that one group's share and the server's agree on. *)
Definition agreed (G : KxGroup) (secret : option (@KxSecret _ G)) (share : option bytes) (ikm : bytes) : Prop :=
  exists s sh c, secret = Some s /\ share = Some sh /\ kx_derive s sh = Ok c /\
    ikm = take (Z.to_nat (ss_len c)) (ss_buf c).

(** The secret of the group that the server selected. *)
Definition agreed_ikm (secrets : KxSecrets) (v : ServerHelloView) (ikm : bytes) : Prop :=
  if sh_selected_group v =? NAMED_GROUP_SECP256R1 then agreed kx_p256 (ks_ecdhe secrets) (sh_p256_share v) ikm
  else if f_mlkem ft then agreed kx_hybrid (ks_mlkem secrets) (sh_hybrid_share v) ikm
  else agreed kx_x25519 (ks_x25519 secrets) (sh_x25519_share v) ikm.

(** A build has the secrets of its groups. *)
Definition secrets_ok (secrets : KxSecrets) : Prop :=
  (f_p256_kx ft = true -> is_Some (ks_ecdhe secrets)) /\
  (f_x25519_kx ft = true -> if f_mlkem ft then is_Some (ks_mlkem secrets) else is_Some (ks_x25519 secrets)).

Lemma derive_share_spec G secret share :
  is_Some secret ->
  ensures (derive_share G secret share) (fun c => exists ikm,
    shared_secret_slice (E := ConnError) c = Ok ikm /\ agreed G secret share ikm).
Proof.
  intros [s ->]. unfold derive_share. destruct share as [sh |]; [| done]. run.
  pose proof (kx_derive_total s sh). destruct (kx_derive s sh) as [c | e |] eqn:Hd; [cbn | done | done].
  pose proof (kx_derive_ok _ _ _ Hd) as Hok. eexists. split; [by apply secret_slice_eq |]. by exists s, sh, c.
Qed.

(** A selected secp256r1 has been advertised. *)
Lemma shared_ikm_spec secrets v input :
  (f_mlkem ft = true -> f_x25519_kx ft = true) -> secrets_ok secrets -> sh_accepts ft v input ->
  ensures (shared_ikm ft secrets v) (fun c => exists ikm,
    shared_secret_slice (E := ConnError) c = Ok ikm /\ agreed_ikm secrets v ikm).
Proof.
  intros Hfeat [Hp Hx] Hv. unfold shared_ikm, agreed_ikm.
  destruct (Z.eqb_spec (sh_selected_group v) NAMED_GROUP_SECP256R1) as [Hg | Hg].
  - destruct (f_p256_kx ft) eqn:Hf; cbn [andb]; [by apply derive_share_spec, Hp |].
    destruct (f_x25519_kx ft) eqn:Hx'; cbn [negb]; [exfalso | done].
    destruct Hv as (_ & _ & _ & _ & _ & _ & _ & key & exts & _ & _ & (_ & _ & Hr) & _).
    unfold KEY_SHARE_GROUP, second_group in Hr. rewrite Hg, Hx', Hf in Hr. by destruct (f_mlkem ft), Hr.
  - rewrite andb_false_r. destruct (f_x25519_kx ft); cbn [negb]; [| done].
    specialize (Hx eq_refl). by destruct (f_mlkem ft); apply derive_share_spec.
Qed.

Lemma advertised_ok_spec l cs :
  advertised_ok ft l cs = true -> exists s, cs = suite_id s /\ offered ft l s.
Proof.
  unfold advertised_ok. intros Ha.
  destruct (f_cipher_aes ft) eqn:Haes, (Z.eqb_spec cs CIPHER_AES_128_GCM_SHA256) as [-> | Hne]; cbn [andb] in Ha.
  1: { exists Aes128GcmSha256. split; [done | split; [done |]]. intros Hc. rewrite Hc in Ha. by destruct l. }
  all: destruct (f_chacha20 ft) eqn:Hcha; cbn [andb] in Ha; try done.
  all: destruct (Z.eqb_spec cs CIPHER_CHACHA20_POLY1305_SHA256) as [-> |]; [| done].
  all: exists ChaCha20Poly1305Sha256; split; [done | split; [done | by destruct l]].
Qed.

(** The record of an accepted ServerHello is a header of five bytes and the message. *)
Lemma sh_accepts_record v input (t : TranscriptHash) :
  sh_accepts ft v input ->
  exists hd msg t', input = hd ++ msg /\ blen hd = 5 /\ update_record t input = Ok t' /\ hashed t' = hashed t ++ msg.
Proof.
  intros (_ & _ & _ & _ & _ & _ & _ & key & exts & _ & _ & _ & _ & Hw & Hl).
  unfold server_hello_wire, vec16 in Hw. set (msg := be_bytes 1 HS_SERVER_HELLO ++ _) in Hw.
  set (pre := be_bytes 1 CT_HANDSHAKE ++ be_bytes 2 LEGACY_VERSION).
  assert (input = (pre ++ be_bytes 2 (blen msg)) ++ msg) as Hi by (rewrite Hw; unfold pre; by rewrite <- !app_assoc).
  assert (blen (pre ++ be_bytes 2 (blen msg)) = 5) as Hpre by done.
  assert (is_u16 (blen msg)) as Hm by (rewrite Hi, blen_app, Hpre in Hl; pose proof (blen_nonneg msg); unfold_width; lia).
  destruct (be_bytes 2 (blen msg)) as [| l0 [| l1 [| ? ?]]] eqn:Hb; try done.
  destruct (update_record_ok t pre l0 l1 msg [] eq_refl (be16_be_bytes _ Hm _ _ Hb) Hm) as (t' & Ht & Hh).
  exists (pre ++ [l0; l1]), msg, t'. rewrite app_nil_r, app_assoc, <- Hi in Ht. done.
Qed.

(** The keys that the handshake derives from the hellos [hellos] and the secret [ikm]. *)
Definition keyed (S_ : Suite) (hellos ikm : bytes) (c : WaitServerFlight) : Prop :=
  let hs := Handshake_Secret TLS13_LABEL_PREFIX ikm in
  let th := sha256 hellos in
  hashed (wsf_transcript c) = hellos /\ wsf_hs c = hs /\
  wsf_c_hs_ts c = Derive_Secret TLS13_LABEL_PREFIX hs "c hs traffic" th /\
  wsf_s_hs_ts c = Derive_Secret TLS13_LABEL_PREFIX hs "s hs traffic" th /\
  wsf_s_hs_keys c = Record_Keys S_ (wsf_s_hs_ts c).

(** What a processed ServerHello establishes. *)
Definition negotiated (c : WaitServerHello) (sh_record : bytes) (S_ : Suite) (ikm : bytes) (c' : WaitServerFlight) : Prop :=
  exists v hd msg, sh_accepts ft v sh_record /\ sh_record = hd ++ msg /\ blen hd = 5 /\
    sh_session_id_echo v = default [] (wsh_session_id c) /\
    sh_cipher_suite v = suite_id S_ /\ offered ft (wsh_advertised c) S_ /\
    agreed_ikm (wsh_secrets c) v ikm /\
    keyed S_ (hashed (wsh_transcript c) ++ msg) ikm c' /\ wsf_seq_in c' = 0.

Lemma suite_id_inj s s' : suite_id s = suite_id s' -> s = s'.
Proof. by destruct s, s'. Qed.

Lemma read_server_hello_spec c sh_record :
  (f_mlkem ft = true -> f_x25519_kx ft = true) -> secrets_ok (wsh_secrets c) -> bytes_ok sh_record ->
  ensures (read_server_hello_with_backend ft c sh_record) (fun '(S_, c') => exists ikm, negotiated c sh_record S_ ikm c').
Proof.
  intros Hfeat Hsec Hok. unfold read_server_hello_with_backend.
  eapply ensures_bind; [apply ensures_map_err, (parse_server_hello_ok ft _ Hok) |]. intros v Hv. cbv zeta.
  case_bool_decide as Hid; cbn [negb]; [| done].
  destruct (advertised_ok ft (wsh_advertised c) (sh_cipher_suite v)) eqn:Hadv; cbn [negb]; [| done].
  apply advertised_ok_spec in Hadv as (S_ & Hcs & Hoff).
  eapply ensures_bind; [exact (shared_ikm_spec _ _ _ Hfeat Hsec Hv) |]. intros sec (ikm & Hslice & Hagree).
  destruct (sh_accepts_record v sh_record (wsh_transcript c) Hv) as (hd & msg & t' & Hrec & Hhd & Hupd & Hhash).
  rewrite Hupd. cbn [map_err]. rewrite bind_Ok.
  eapply ensures_bind; [apply ensures_snapshot |]. intros th [-> Hth].
  rewrite Hslice, bind_Ok.
  eapply ensures_bind; [apply ensures_derived, handshake_secret_computes |]. intros hs ->.
  eapply ensures_bind; [by apply ensures_derived, handshake_traffic_computes |]. intros [c_ts s_ts] Hts.
  apply pair_equal_spec in Hts as [-> ->].
  eapply (ensures_bind _ _ (fun s => s = S_)).
  { rewrite Hcs. destruct S_; cbn [offered] in Hoff; destruct Hoff as [Hf _]; rewrite Hf; [done |].
    replace (suite_id ChaCha20Poly1305Sha256 =? CIPHER_AES_128_GCM_SHA256) with false by done. by rewrite andb_false_r. }
  intros s ->. eapply ensures_bind; [apply ensures_derived, derive_computes |]. intros keys ->.
  exists ikm, v, hd, msg. unfold keyed. cbn [wsf_transcript wsf_hs wsf_c_hs_ts wsf_s_hs_ts wsf_s_hs_keys wsf_seq_in].
  rewrite Hhash in *. done.
Qed.
End hello_specs.

(** ** The server's flight *)

Section flight_specs.
Context `{Usize, HeaplessVec, HkdfSha256, SubtleCt, AeadBackend} (S_ : Suite) (FLIGHT : Z).

Definition set_flight_seq (n : Z) (c : WaitServerFlight) : WaitServerFlight :=
  {| wsf_transcript := wsf_transcript c; wsf_hs := wsf_hs c; wsf_c_hs_ts := wsf_c_hs_ts c;
     wsf_s_hs_ts := wsf_s_hs_ts c; wsf_s_hs_keys := wsf_s_hs_keys c; wsf_seq_in := n |}.

(** What one record adds to the flight: nothing when it is a change_cipher_spec, and
    otherwise handshake bytes that the holder of the keys sealed for the next number. *)
Definition flight_record (c c' : WaitServerFlight) (record content : bytes) : Prop :=
  (head record = Some CT_CHANGE_CIPHER_SPEC /\ content = [] /\ c' = c) \/
  (@protects (cipher S_) (wsf_s_hs_keys c) (wsf_seq_in c) record content CT_HANDSHAKE /\
   c' = set_flight_seq ((wsf_seq_in c + 1) mod U64) c).

Lemma flight_step_spec r :
  bytes_ok (sfr_buf r) ->
  exists step, flight_step r = Ok step /\ (step = FsReady <-> exists fl, flight_of (sfr_buf r) fl).
Proof.
  intros Hok. destruct (flight_bytes_spec (E := ConnError) r Hok) as (o & _ & Hc & Ho).
  unfold flight_step. rewrite Hc, bind_Ok. eexists. split; [done |]. destruct o as [fl |].
  - rewrite bool_decide_eq_true_2 by eauto. split; [| done]. intros _. exists fl. by apply Ho.
  - rewrite bool_decide_eq_false_2 by (by intros [? ?]). split; [done |]. intros [fl Hfl%Ho]. done.
Qed.

Lemma feed_spec c record r :
  bytes_ok record -> bytes_ok (sfr_buf r) ->
  let '((c', record', r'), res) := feed_server_record_inplace S_ FLIGHT c record r in
  blen record' = blen record /\ bytes_ok record' /\
  match res with
  | Ok step => exists content, flight_record c c' record content /\ sfr_buf r' = sfr_buf r ++ content /\
      (content <> [] -> blen (sfr_buf r') <= FLIGHT) /\ bytes_ok (sfr_buf r') /\ (step = FsReady <-> exists fl, flight_of (sfr_buf r') fl)
  | Err _ => c' = c /\ r' = r
  | Panic => False
  end.
Proof.
  intros Hok Hr. unfold feed_server_record_inplace. destruct record as [| ct record0] eqn:Hrec; [done |].
  change (at_idx (ct :: record0) 0) with (Some ct). rewrite <- Hrec in *.
  destruct (Z.eqb_spec ct CT_CHANGE_CIPHER_SPEC) as [-> | _].
  { destruct (flight_step_spec r Hr) as (step & -> & Hstep). split_and!; [done | done |].
    exists []. rewrite app_nil_r. split_and!; [left; by rewrite Hrec | done | done | done | apply Hstep..]. }
  destruct (Z.eqb_spec ct CT_APPLICATION_DATA) as [_ | _]; [| done].
  pose proof (@decrypt_split_spec (cipher S_) _ (wsf_s_hs_keys c) record (wsf_seq_in c) Hok) as Hd.
  destruct (decrypt_record_inplace _ record _) as [record' [inner_len | e |]]; [| by destruct Hd as (? & ? & _) | by destruct Hd as (_ & _ & [])].
  destruct Hd as (Hl & Hb & inner & Hs & Hsplit). run. rewrite Hs. run.
  pose proof (split_no_panic inner) as Hnp. destruct (split_inner_plaintext inner) as [[content ict] | e |]; [| done | done]. run.
  destruct (Z.eqb_spec ict CT_HANDSHAKE) as [-> |]; cbn [negb]; [| done].
  destruct (Hsplit _ _ eq_refl) as [Hp Hc]. rewrite push_content_eq.
  destruct (Z.leb_spec (blen (sfr_buf r) + blen content) FLIGHT); run; [| done].
  assert (bytes_ok (sfr_buf r ++ content)) as Hr'.
  { rewrite bytes_ok_app. split; [done |]. eapply bytes_ok_slice; [exact Hb | exact Hc]. }
  destruct (flight_step_spec {| sfr_buf := sfr_buf r ++ content |} Hr') as (step & -> & Hstep).
  split_and!; [done | done |]. exists content. cbn [sfr_buf] in *.
  split_and!; [by right | done | by rewrite blen_app | done | apply Hstep..].
Qed.

(** The records of the flight, one by one. *)
Fixpoint feed_all (c : WaitServerFlight) (r : ServerFlightReassembler) (records : list bytes)
    : outcome ConnError (WaitServerFlight * ServerFlightReassembler) :=
  match records with
  | [] => Ok (c, r)
  | record :: records =>
      match feed_server_record_inplace S_ FLIGHT c record r with
      | ((c, _, r), Ok _) => feed_all c r records
      | (_, Err e) => Err e
      | (_, Panic) => Panic
      end
  end.

(** The contents that a sequence of records protects, under consecutive numbers. *)
Inductive flight_records : WaitServerFlight -> list bytes -> WaitServerFlight -> bytes -> Prop :=
| fr_nil c : flight_records c [] c []
| fr_cons c record content c1 records c2 rest :
    flight_record c c1 record content -> flight_records c1 records c2 rest ->
    flight_records c (record :: records) c2 (content ++ rest).

Lemma feed_all_spec c r records :
  Forall bytes_ok records -> bytes_ok (sfr_buf r) ->
  ensures (feed_all c r records) (fun '(c', r') => exists content,
    flight_records c records c' content /\ sfr_buf r' = sfr_buf r ++ content /\ bytes_ok (sfr_buf r')).
Proof.
  revert c r. induction records as [| record records IH]; intros c r Hok Hr; cbn [feed_all].
  - exists []. rewrite app_nil_r. split_and!; [constructor | done | done].
  - apply Forall_cons in Hok as [Hrec Hok]. pose proof (feed_spec c record r Hrec Hr) as Hf.
    destruct (feed_server_record_inplace _ _ _ _ _) as [[[c1 record'] r1] [step | e |]]; [| done | by destruct Hf as (_ & _ & [])].
    destruct Hf as (_ & _ & content & Hf & Hb & _ & Hr1 & _).
    eapply ensures_weaken; [by apply IH |]. intros [c2 r2] (rest & Hfs & Hb2 & Hr2).
    exists (content ++ rest). split_and!; [by econstructor | by rewrite Hb2, Hb, app_assoc | done].
Qed.

(** Receiving records touches only the sequence number. *)
Lemma flight_records_keyed hellos ikm c records c' content :
  flight_records c records c' content -> keyed S_ hellos ikm c -> keyed S_ hellos ikm c'.
Proof. induction 1 as [| c record content c1 records c2 rest [(_ & _ & ->) | [_ ->]] _ IH]; auto. Qed.
End flight_specs.

(** ** The end of the handshake *)

(** The flight proves possession of the prepared key and of the handshake secret, over the
    transcript that starts with [before]. *)
Definition authenticates `{HkdfSha256, VerifierBackend, MlDsaSizes} (prepared : PreparedVerifier) (before secret flight : bytes) : Prop :=
  exists ee creq cert scheme sig fin,
    let cv := be_bytes 2 scheme ++ be_bytes 2 (blen sig) ++ sig in
    let th1 := sha256 (before ++ through_cert ee creq cert) in
    let th2 := sha256 (before ++ through_cert ee creq cert ++ hs_msg HS_CERTIFICATE_VERIFY cv) in
    bodies_ok ee creq cert cv fin /\ flight = flight_wire ee creq cert cv fin /\
    cv_valid prepared scheme sig (cv_content th1) /\ fin = Finished_Mac TLS13_LABEL_PREFIX secret th2.

Section finalize_specs.
Context `{Usize, HeaplessVec, HkdfSha256, SubtleCt, VerifierBackend, MlDsaSizes}.

Lemma from_view_id view : ensures (from_view view) (fun v => v = view).
Proof.
  unfold from_view. destruct view; cbn; try done; try (rewrite vec_extend_spec; by destruct (_ <=? _)); by destruct (_ =? _).
Qed.

Lemma finalize_spec c r prepared leaf :
  bytes_ok (sfr_buf r) ->
  ensures (finalize_server_flight c r prepared leaf) (fun d => exists flight,
    matches_cert prepared leaf = true /\ flight_of (sfr_buf r) flight /\
    authenticates prepared (hashed (wsf_transcript c)) (wsf_s_hs_ts c) flight /\
    hashed (sfd_transcript d) = hashed (wsf_transcript c) ++ flight /\
    sfd_hs d = wsf_hs c /\ sfd_c_hs_ts d = wsf_c_hs_ts c /\ sfd_server_pubkey d = server_pubkey leaf).
Proof.
  intros Hr. unfold finalize_server_flight. destruct (matches_cert prepared leaf); cbn [negb]; [| done].
  destruct (flight_bytes_spec (E := ConnError) r Hr) as (o & -> & _ & Ho). rewrite bind_Ok.
  destruct o as [flight |]; [| done]. run. pose proof (proj1 (Ho flight) eq_refl) as Hfl.
  assert (bytes_ok flight) as Hok.
  { destruct Hfl as (? & ? & ? & _ & _ & _ & Hb). rewrite Hb, bytes_ok_app in Hr. tauto. }
  eapply ensures_bind; [apply ensures_map_err, ensures_eq; by apply verify_server_flight_total |].
  intros [t pk] Hv%verify_server_flight_spec; [| done].
  destruct Hv as (ee & creq & cert & scheme & sig & fin & Hb & Hw & Hcv & Hfin & Ht & ->).
  eapply ensures_bind; [apply ensures_map_err, from_view_id |]. intros v ->.
  exists flight. split_and!; try done. by exists ee, creq, cert, scheme, sig, fin.
Qed.
End finalize_specs.

Section finish_specs.
Context `{Usize, HeaplessVec, HkdfSha256, SubtleCt, AeadBackend} (S_ : Suite).

(** The data phase right after the handshake whose transcript hash is [th]. *)
Definition data_keys (hs th : bytes) (app : AppData) : Prop :=
  let ms := Master_Secret TLS13_LABEL_PREFIX hs in
  ad_c_ap_ts app = Derive_Secret TLS13_LABEL_PREFIX ms "c ap traffic" th /\
  ad_s_ap_ts app = Derive_Secret TLS13_LABEL_PREFIX ms "s ap traffic" th /\
  ad_c_ap_keys app = Record_Keys S_ (ad_c_ap_ts app) /\ ad_s_ap_keys app = Record_Keys S_ (ad_s_ap_ts app) /\
  ad_seq_out app = 0 /\ ad_seq_in app = 0.

Lemma application_keys_spec hs th t :
  blen th = 32 -> ensures (application_keys S_ hs th t) (fun app => data_keys hs th app /\ ad_transcript app = t).
Proof.
  intros Hth. unfold application_keys.
  eapply ensures_bind; [apply ensures_derived, master_computes |]. intros ms ->.
  eapply ensures_bind; [by apply ensures_derived, application_traffic_computes |].
  intros [cts sts] Hts. apply pair_equal_spec in Hts as [-> ->].
  eapply ensures_bind; [apply ensures_derived, derive_computes |]. intros k1 ->.
  eapply ensures_bind; [apply ensures_derived, derive_computes |]. by intros k2 ->.
Qed.

Lemma encrypt_record_total (C : AeadCipher) keys content ct seq out :
  no_panic (encrypt_record keys content ct seq out).
Proof. rewrite encrypt_record_eq. cbv zeta. repeat case_match; done. Qed.

Lemma finish_spec d out :
  ensures (finish_handshake S_ d out) (fun '(out', record, app) =>
    let th := sha256 (hashed (sfd_transcript d)) in
    @protects (cipher S_) (Record_Keys S_ (sfd_c_hs_ts d)) 0 record (client_finished_msg (sfd_c_hs_ts d) th) CT_HANDSHAKE /\
    out' = record ++ drop (length record) out /\ blen record = CLIENT_FINISHED_LEN /\ blen record <= blen out /\
    data_keys (sfd_hs d) th app /\ ad_transcript app = sfd_transcript d).
Proof.
  unfold finish_handshake. eapply ensures_bind; [apply ensures_snapshot |]. intros th [-> Hth].
  eapply (ensures_bind _ _ (fun '(out', record) =>
    @protects (cipher S_) (Record_Keys S_ (sfd_c_hs_ts d)) 0 record (client_finished_msg (sfd_c_hs_ts d) _) CT_HANDSHAKE /\
    out' = record ++ drop (length record) out /\ blen record = CLIENT_FINISHED_LEN /\ blen record <= blen out)).
  { apply ensures_map_err. unfold build_client_finished.
    destruct (build_finished_cases (sfd_c_hs_ts d) _ Hth) as [-> | (e & -> & _)]; [rewrite bind_Ok | done].
    eapply ensures_bind; [apply ensures_derived, derive_computes |]. intros keys ->.
    apply ensures_map_err, ensures_intro; [apply encrypt_record_total |]. intros [out' record] He.
    apply encrypt_record_protects in He as (Hp & Hl & Hle & Ho); [| done].
    rewrite client_finished_msg_len in Hl. done. }
  intros [out' record] (Hp & Ho & Hl & Hle).
  eapply ensures_bind; [by apply application_keys_spec |]. by intros app [Happ Ht].
Qed.
End finish_specs.

(** ** Fragmentation of the client's flight *)

(** Consecutive records protect consecutive pieces. *)
Fixpoint protected_run `{AeadCipher} (keys : RecordKeys) (ct seq : Z) (pieces records : list bytes) : Prop :=
  match pieces, records with
  | [], [] => True
  | p :: pieces, r :: records => protects keys seq r p ct /\ protected_run keys ct (seq + 1) pieces records
  | _, _ => False
  end.

Lemma chunks_spec fuel n l :
  1 <= n -> (length l <= fuel)%nat -> concat (chunks fuel n l) = l /\ Forall (fun c => 1 <= blen c <= n) (chunks fuel n l).
Proof.
  intros Hn. revert l. induction fuel as [| fuel IH]; intros [| b l] Hl; try done; [cbn in Hl; lia |].
  cbn [chunks]. destruct (IH (drop (Z.to_nat n) (b :: l))) as [Hc Hf].
  { rewrite length_drop. cbn [length] in *. lia. }
  split; [cbn [concat]; by rewrite Hc, take_drop |]. constructor; [| done].
  rewrite blen_take, blen_cons. pose proof (blen_nonneg l). lia.
Qed.

Section fragment_specs.
Context `{Usize, HeaplessVec, HkdfSha256, SubtleCt, AeadBackend} (S_ : Suite).

Lemma encrypt_chunks_spec keys cs i pre rest :
  ensures (encrypt_chunks S_ keys cs i (blen pre) (pre ++ rest)) (fun '(out, w) => exists records,
    @protected_run (cipher S_) keys CT_HANDSHAKE i cs records /\
    out = (pre ++ concat records) ++ drop (length (concat records)) rest /\ w = blen (pre ++ concat records) /\
    blen (concat records) <= blen rest).
Proof.
  revert i pre rest. induction cs as [| c cs IH]; intros i pre rest; cbn [encrypt_chunks].
  - exists []. cbn [concat]. rewrite app_nil_r. split_and!; try done. apply blen_nonneg.
  - assert (slice_from (pre ++ rest) (blen pre) = Some rest) as ->.
    { unfold slice_from. apply slice_suffix; [done | by rewrite blen_app]. }
    run. eapply ensures_bind; [apply ensures_eq, encrypt_record_total |]. intros [tail record] He.
    apply encrypt_record_protects in He as (Hp & _ & Hl & ->); [| done].
    rewrite <- (app_nil_r rest) at 1. rewrite (splice_middle pre rest _ []); [run | done |].
    2: { rewrite blen_app, blen_drop. unfold blen in *. lia. }
    rewrite app_nil_r, app_assoc, <- blen_app.
    eapply ensures_weaken; [apply IH |]. intros [out w] (records & Hr & -> & -> & Hfit).
    exists (record :: records). cbn [concat protected_run]. rewrite !app_assoc, length_app, drop_drop.
    rewrite blen_drop in Hfit. split_and!; try done. rewrite blen_app. unfold blen in *. lia.
Qed.

(** Each record stays within the peer's limit, which counts the content type byte. *)
Lemma encrypt_flight_spec keys plaintext peer_rsl out :
  ensures (encrypt_handshake_flight S_ keys plaintext peer_rsl out) (fun '(out', sent) => exists pieces records,
    concat pieces = plaintext /\ Forall (fun p => blen p + 1 <= Z.max peer_rsl 2) pieces /\
    @protected_run (cipher S_) keys CT_HANDSHAKE 0 pieces records /\
    sent = concat records /\ out' = sent ++ drop (length sent) out /\ blen sent <= blen out).
Proof.
  unfold encrypt_handshake_flight. cbv zeta. set (n := Z.max _ 1).
  destruct (chunks_spec (length plaintext) n plaintext) as [Hc Hf]; [unfold n; lia | done |].
  eapply ensures_bind; [apply ensures_map_err, (encrypt_chunks_spec keys _ 0 [] out) |].
  intros [out' w] (records & Hr & Ho & -> & Hfit). cbn [app] in *. rewrite Ho, slice_prefix by done. run.
  exists (chunks (length plaintext) n plaintext), records. split_and!; try done.
  eapply Forall_impl; [exact Hf |]. intros p Hp. cbn beta in Hp. unfold n, saturating_sub, CONTENT_TYPE_LEN in Hp. lia.
Qed.

Lemma finish_with_policy_spec `{CryptoRng} {w} d (policy : ClientAuthPolicy w) ctx algs rng limit scratch out :
  bytes_ok algs ->
  ensures (finish_handshake_with_policy S_ d policy ctx algs rng limit scratch out).2 (fun '(scratch', out', sent, app) =>
    exists t' flight pieces records,
    (build_flight policy ctx algs rng (sfd_c_hs_ts d) (sfd_transcript d) scratch).2 = Ok (t', scratch', flight) /\
    blen scratch' = blen scratch /\ (bytes_ok ctx -> bytes_ok scratch -> bytes_ok scratch') /\
    concat pieces = flight /\ Forall (fun p => blen p + 1 <= Z.max limit 2) pieces /\
    @protected_run (cipher S_) (Record_Keys S_ (sfd_c_hs_ts d)) CT_HANDSHAKE 0 pieces records /\
    sent = concat records /\ out' = sent ++ drop (length sent) out /\ blen sent <= blen out /\
    hashed (ad_transcript app) = hashed (sfd_transcript d) ++ flight /\
    data_keys S_ (sfd_hs d) (sha256 (hashed (sfd_transcript d))) app).
Proof.
  intros Halgs. unfold finish_handshake_with_policy.
  pose proof (ensures_snapshot (E := ConnError) CeTranscript (sfd_transcript d)) as Hs.
  destruct (map_err CeTranscript (transcript_snapshot (sfd_transcript d))) as [th | e |]; [| done | done].
  destruct Hs as [-> Hth].
  pose proof (build_flight_spec policy ctx algs rng (sfd_c_hs_ts d) (sfd_transcript d) scratch Halgs) as Hb.
  destruct (build_flight _ _ _ _ _ _ _) as [rng' r] eqn:Hbf; cbn [snd].
  destruct r as [[[t' scratch'] flight] | e |]; [run | done | done].
  destruct Hb as (_ & Hfit & Hsc & Ht' & _).
  eapply ensures_bind; [apply ensures_derived, derive_computes |]. intros keys ->.
  eapply ensures_bind; [apply encrypt_flight_spec |]. intros [out' sent] (pieces & records & Hp & Hf & Hr & Hsent & Ho & Hle).
  eapply ensures_bind; [by apply application_keys_spec |]. intros app [Happ Hat].
  exists t', flight, pieces, records. split_and!; try done; [| | by rewrite Hat].
  - rewrite Hsc, blen_app, blen_drop. unfold blen in *. lia.
  - intros Hctx Hsb. rewrite Hsc, bytes_ok_app. split; [exact (build_flight_bytes _ _ _ _ _ _ _ _ _ _ _ Halgs Hctx Hbf) | by apply Forall_drop].
Qed.
End fragment_specs.

(** ** The handshake as a whole *)

Section handshake.
Context `{Usize, HeaplessVec, HkdfSha256, SubtleCt, AeadBackend, KxBackend, MlKemSizes, VerifierBackend, MlDsaSizes}.

(** A TLS connection reaches its data phase only authenticated, with the keys of RFC 8446.
    When a ServerHello, any sequence of records of the server's flight, the flight's
    verification and the client's Finished all succeed, then the ServerHello is one the
    profile accepts, echoes our session id and selects a suite we offered; the secret is
    the one agreed with the selected group; every record of the flight was sealed under
    the server's handshake keys and consecutive numbers; the flight carries a signature by
    the key of the leaf certificate and a Finished MAC, both over the transcript that
    starts with both hellos; and the application secrets and keys of both directions
    derive from that secret and the transcript through the server Finished, with both
    sequence numbers at zero, while the record returned is the client Finished sealed
    under the client's handshake keys. *)
Theorem tls_handshake_authenticated (ft : Features) (FLIGHT : Z) (c : WaitServerHello) (sh_record : bytes) (records : list bytes)
    (S_ : Suite) c1 c2 r (prepared : PreparedVerifier) (leaf : CertView) d (out out' record : bytes) (app : AppData) :
  (f_mlkem ft = true -> f_x25519_kx ft = true) -> secrets_ok ft (wsh_secrets c) -> bytes_ok sh_record -> Forall bytes_ok records ->
  read_server_hello_with_backend ft c sh_record = Ok (S_, c1) ->
  feed_all S_ FLIGHT c1 ServerFlightReassembler_new records = Ok (c2, r) ->
  finalize_server_flight c2 r prepared leaf = Ok d ->
  finish_handshake S_ d out = Ok (out', record, app) ->
  exists ikm content flight,
    negotiated ft c sh_record S_ ikm c1 /\ flight_records S_ c1 records c2 content /\ flight_of content flight /\
    matches_cert prepared leaf = true /\
    let hellos := hashed (wsf_transcript c1) in
    let hs := Handshake_Secret TLS13_LABEL_PREFIX ikm in
    let th := sha256 (hellos ++ flight) in
    let c_hs_ts := Derive_Secret TLS13_LABEL_PREFIX hs "c hs traffic" (sha256 hellos) in
    authenticates prepared hellos (Derive_Secret TLS13_LABEL_PREFIX hs "s hs traffic" (sha256 hellos)) flight /\
    @protects (cipher S_) (Record_Keys S_ c_hs_ts) 0 record (client_finished_msg c_hs_ts th) CT_HANDSHAKE /\
    data_keys S_ hs th app.
Proof.
  intros Hfeat Hsec Hsh Hrec Hread Hfeed Hfin Hdone.
  pose proof (read_server_hello_spec ft c sh_record Hfeat Hsec Hsh) as Hr1. rewrite Hread in Hr1. destruct Hr1 as (ikm & Hneg).
  pose proof (feed_all_spec S_ FLIGHT c1 ServerFlightReassembler_new records Hrec (Forall_nil_2 _)) as Hr2.
  rewrite Hfeed in Hr2. destruct Hr2 as (content & Hfr & Hbuf & Hbok). cbn [sfr_buf ServerFlightReassembler_new Datatypes.app] in Hbuf.
  pose proof (finalize_spec c2 r prepared leaf Hbok) as Hr3. rewrite Hfin in Hr3.
  destruct Hr3 as (flight & Hm & Hfl & Hauth & Htr & Hhs & Hcts & _). rewrite Hbuf in Hfl.
  pose proof (finish_spec S_ d out) as Hr4. rewrite Hdone in Hr4. destruct Hr4 as (Hp & _ & _ & _ & Hkeys & _).
  pose proof Hneg as (v & hd & msg & _ & _ & _ & _ & _ & _ & _ & Hk & _).
  pose proof (proj1 Hk) as Hh1.
  pose proof (flight_records_keyed _ _ _ _ _ _ _ Hfr Hk) as (Hh & Hhs2 & Hc2 & Hs2 & _).
  exists ikm, content, flight. split_and!; try done. cbv zeta. rewrite Hh1.
  rewrite Hh, Hs2 in Hauth. rewrite Htr, Hh, Hhs, Hhs2, Hcts, Hc2 in *. done.
Qed.
End handshake.

Definition aead_backend_model : AeadBackend := {| cipher _ := aead_model |}.
Definition kx_backend_model : @KxBackend rng_model := {| kx_x25519 := kx_model; kx_hybrid := kx_model; kx_p256 := kx_model |}.

Section handshake_witness.
#[local] Existing Instances usize32 heapless_model hkdf_model subtle_model aead_backend_model rng_model kx_backend_model
  ml_kem_model backend_model ml_dsa_model.

(** A client that sent a 32-byte session id, before the ServerHello. *)
Definition demo_waiting : WaitServerHello := {|
  wsh_transcript := transcript_update TranscriptHash_new [1; 0; 0; 1; 9]; wsh_session_id := Some (zeros 32);
  wsh_secrets := {| ks_x25519 := Some (7 : @KxSecret _ kx_x25519); ks_mlkem := None; ks_ecdhe := Some (8 : @KxSecret _ kx_p256) |};
  wsh_advertised := SlDefault |}.

Definition demo_dummy_wait : WaitServerFlight :=
  {| wsf_transcript := TranscriptHash_new; wsf_hs := []; wsf_c_hs_ts := []; wsf_s_hs_ts := []; wsf_s_hs_keys := demo_keys; wsf_seq_in := 0 |}.
Definition demo_hello : Suite * WaitServerFlight :=
  ok_value (Aes128GcmSha256, demo_dummy_wait) (read_server_hello_with_backend demo_features demo_waiting demo_server_hello).
Definition demo_keyed : WaitServerFlight := demo_hello.2.

(** The flight of the server that answers it, in two records around a change_cipher_spec. *)
Definition demo_tls_flight : bytes :=
  let before := hashed (wsf_transcript demo_keyed) in
  let head := through_cert [0; 0] None [1] ++ hs_msg HS_CERTIFICATE_VERIFY demo_cv in
  head ++ hs_msg HS_FINISHED (Finished_Mac TLS13_LABEL_PREFIX (wsf_s_hs_ts demo_keyed) (sha256 (before ++ head))).
Definition demo_seal (content : bytes) (seq : Z) : bytes :=
  (ok_value ([], []) (@encrypt_record _ aead_model (wsf_s_hs_keys demo_keyed) content CT_HANDSHAKE seq (zeros 400))).2.
Definition demo_flight_records : list bytes :=
  [demo_seal (take 50 demo_tls_flight) 0; [CT_CHANGE_CIPHER_SPEC; 3; 3; 0; 1; 1]; demo_seal (drop 50 demo_tls_flight) 1].

Definition demo_prepared : PreparedVerifier := PvEd25519 (be_bytes 32 5).
Definition demo_fed : WaitServerFlight * ServerFlightReassembler :=
  ok_value (demo_dummy_wait, ServerFlightReassembler_new)
    (feed_all demo_hello.1 1024 demo_keyed ServerFlightReassembler_new demo_flight_records).
Definition demo_verified : ServerFlightDone :=
  ok_value {| sfd_transcript := TranscriptHash_new; sfd_hs := []; sfd_c_hs_ts := []; sfd_server_pubkey := SpEd25519 [] |}
    (finalize_server_flight demo_fed.1 demo_fed.2 demo_prepared (toy_view [5])).
Definition demo_finish : bytes * bytes * AppData :=
  ok_value ([], [], {| ad_transcript := TranscriptHash_new; ad_c_ap_keys := demo_keys; ad_s_ap_keys := demo_keys; ad_c_ap_ts := [];
                       ad_s_ap_ts := []; ad_seq_out := 0; ad_seq_in := 0 |})
    (finish_handshake demo_hello.1 demo_verified (zeros 60)).

Lemma tls_handshake_authenticated_witness :
  exists ikm content flight,
    negotiated demo_features demo_waiting demo_server_hello demo_hello.1 ikm demo_keyed /\
    flight_records demo_hello.1 demo_keyed demo_flight_records demo_fed.1 content /\ flight_of content flight /\
    data_keys demo_hello.1 (Handshake_Secret TLS13_LABEL_PREFIX ikm) (sha256 (hashed (wsf_transcript demo_keyed) ++ flight))
      demo_finish.2.
Proof.
  assert (secrets_ok demo_features (wsh_secrets demo_waiting)) as Hsec by (split; intros _; eexists; reflexivity).
  assert (bytes_ok demo_server_hello) as Hsh by (apply bytes_okb_sound; vm_compute; reflexivity).
  assert (Forall bytes_ok demo_flight_records) as Hrec.
  { repeat (apply List.Forall_cons; [apply bytes_okb_sound; vm_compute; reflexivity |]). apply List.Forall_nil. }
  assert (read_server_hello_with_backend demo_features demo_waiting demo_server_hello = Ok (demo_hello.1, demo_keyed)) as Hr
    by (unfold demo_keyed; rewrite <- surjective_pairing; apply ok_value_eq; vm_compute; reflexivity).
  assert (feed_all demo_hello.1 1024 demo_keyed ServerFlightReassembler_new demo_flight_records = Ok (demo_fed.1, demo_fed.2)) as Hf
    by (rewrite <- surjective_pairing; apply ok_value_eq; vm_compute; reflexivity).
  assert (finalize_server_flight demo_fed.1 demo_fed.2 demo_prepared (toy_view [5]) = Ok demo_verified) as Hz
    by (apply ok_value_eq; vm_compute; reflexivity).
  assert (finish_handshake demo_hello.1 demo_verified (zeros 60) = Ok (demo_finish.1.1, demo_finish.1.2, demo_finish.2)) as Hd
    by (rewrite <- !surjective_pairing; apply ok_value_eq; vm_compute; reflexivity).
  destruct (tls_handshake_authenticated demo_features 1024 demo_waiting demo_server_hello demo_flight_records
      demo_hello.1 demo_keyed demo_fed.1 demo_fed.2 demo_prepared (toy_view [5]) demo_verified (zeros 60)
      demo_finish.1.1 demo_finish.1.2 demo_finish.2 ltac:(discriminate) Hsec Hsh Hrec Hr Hf Hz Hd)
    as (ikm & content & flight & Hn & Hfr & Hfl & _ & _ & _ & Hk).
  exists ikm, content, flight. exact (conj Hn (conj Hfr (conj Hfl Hk))).
Defined.
End handshake_witness.

(** ** The data phase *)

(** What a sender does with its connection: a record, or a key update. *)
Inductive send_op := SoData (content : bytes) (ct : Z) | SoKeyUpdate (request_update : bool).

Definition key_update_msg (request_update : bool) : bytes := [HS_KEY_UPDATE; 0; 0; 1; if request_update then 1 else 0].
Definition op_content (op : send_op) : bytes := match op with SoData c _ => c | SoKeyUpdate b => key_update_msg b end.
Definition op_type (op : send_op) : Z := match op with SoData _ ct => ct | SoKeyUpdate _ => CT_HANDSHAKE end.
Definition op_ok (op : send_op) : Prop := match op with SoData _ ct => ct <> 0 /\ ct <> CT_HANDSHAKE | SoKeyUpdate _ => True end.

(** The traffic-secret generation and sequence number of each record of a run. *)
Fixpoint positions (g : nat) (n : Z) (ops : list send_op) : list (nat * Z) :=
  match ops with
  | [] => []
  | SoData _ _ :: ops => (g, n) :: positions g (n + 1) ops
  | SoKeyUpdate _ :: ops => (g, n) :: positions (S g) 0 ops
  end.

Lemma positions_above ops g n p : p ∈ positions g n ops -> (g < p.1)%nat \/ (g = p.1 /\ n <= p.2).
Proof.
  revert g n. induction ops as [| [] ops IH]; intros g n; cbn [positions]; [by intros ?%not_elem_of_nil | |];
    intros [-> | Hp]%elem_of_cons; try (right; cbn; lia); apply IH in Hp; lia.
Qed.

Lemma positions_NoDup ops g n : NoDup (positions g n ops).
Proof.
  revert g n. induction ops as [| [] ops IH]; intros g n; cbn [positions]; constructor; try apply IH;
    intros Hp%positions_above; cbn in Hp; lia.
Qed.

Section data_phase.
Context `{Usize, HeaplessVec, HkdfSha256, SubtleCt, AeadBackend} (S_ : Suite).

Definition send_one (c : AppData) (op : send_op) (out : bytes) : outcome ConnError (AppData * bytes) :=
  match op with
  | SoData content ct => '(c, _, record) ← app_encrypt_record S_ c content ct out; Ok (c, record)
  | SoKeyUpdate b => '(c, _, record) ← encrypt_key_update S_ c b out; c ← apply_send_key_update S_ c; Ok (c, record)
  end.

Fixpoint send_all (c : AppData) (ops : list send_op) (out : bytes) : outcome ConnError (AppData * list bytes) :=
  match ops with
  | [] => Ok (c, [])
  | op :: ops => '(c, record) ← send_one c op out; '(c, records) ← send_all c ops out; Ok (c, record :: records)
  end.

(** The receiver ratchets after a key update. *)
Definition recv_one (c : AppData) (record : bytes) : outcome ConnError (AppData * (bytes * Z)) :=
  match app_decrypt_record_inplace S_ c record with
  | ((c, record), Ok (n, ct)) =>
      content ← or_panic (slice record 5 (5 + n));
      if (ct =? CT_HANDSHAKE) && bool_decide (head content = Some HS_KEY_UPDATE)
      then c ← apply_recv_key_update S_ c; Ok (c, (content, ct)) else Ok (c, (content, ct))
  | (_, Err e) => Err e
  | (_, Panic) => Panic
  end.

Fixpoint recv_all (c : AppData) (records : list bytes) : outcome ConnError (AppData * list (bytes * Z)) :=
  match records with
  | [] => Ok (c, [])
  | record :: records => '(c, m) ← recv_one c record; '(c, ms) ← recv_all c records; Ok (c, m :: ms)
  end.

(** The receiving half of [r] follows the sending half of [c]. *)
Definition in_step (c r : AppData) : Prop :=
  ad_s_ap_ts r = ad_c_ap_ts c /\ ad_s_ap_keys r = ad_c_ap_keys c /\ ad_seq_in r = ad_seq_out c.
Definition send_keyed (c : AppData) : Prop := ad_c_ap_keys c = Record_Keys S_ (ad_c_ap_ts c) /\ is_u64 (ad_seq_out c).

(** The secret [g] generations later. *)
Fixpoint generation (ts : bytes) (g : nat) : bytes := match g with O => ts | S g => Next_Secret (generation ts g) end.

(** [app_encrypt_record] seals at the current number and advances it. *)
Lemma app_encrypt_spec c content ct out :
  ct <> 0 ->
  ensures (app_encrypt_record S_ c content ct out) (fun '(c', out', record) =>
    @protects (cipher S_) (ad_c_ap_keys c) (ad_seq_out c) record content ct /\ blen record = blen content + 22 /\
    out' = record ++ drop (length record) out /\ blen record <= blen out /\ c' = set_seq_out ((ad_seq_out c + 1) mod U64) c).
Proof.
  intros Hct. unfold app_encrypt_record.
  eapply ensures_bind; [apply ensures_map_err, ensures_eq, encrypt_record_total |]. intros [out' record] He.
  apply encrypt_record_protects in He as (Hp & Hl & Hle & Ho); done.
Qed.

Lemma app_decrypt_spec c record :
  bytes_ok record ->
  let '((c', record'), res) := app_decrypt_record_inplace S_ c record in
  blen record' = blen record /\ bytes_ok record' /\
  match res with
  | Ok (n, ct) => exists content, blen content = n /\ slice record' 5 (5 + n) = Some content /\
      @protects (cipher S_) (ad_s_ap_keys c) (ad_seq_in c) record content ct /\ c' = set_seq_in ((ad_seq_in c + 1) mod U64) c
  | Err _ => c' = c
  | Panic => False
  end.
Proof.
  intros Hok. unfold app_decrypt_record_inplace.
  pose proof (@decrypt_split_spec (cipher S_) _ (ad_s_ap_keys c) record (ad_seq_in c) Hok) as Hd.
  destruct (decrypt_record_inplace _ record _) as [record' [n | e |]]; [| by destruct Hd as (? & ? & _) | by destruct Hd as (_ & _ & [])].
  destruct Hd as (Hl & Hb & inner & Hs & Hsplit). run. rewrite Hs. run.
  pose proof (split_no_panic inner) as Hnp. destruct (split_inner_plaintext inner) as [[content ct] | e |]; [| done | done]. run.
  destruct (Hsplit _ _ eq_refl) as [Hp Hc]. split_and!; [done | done |]. by exists content.
Qed.

(** Protected content is delivered, and the number advances. *)
Lemma app_decrypt_protected c record content ct :
  @protects (cipher S_) (ad_s_ap_keys c) (ad_seq_in c) record content ct ->
  exists record', app_decrypt_record_inplace S_ c record
    = ((set_seq_in ((ad_seq_in c + 1) mod U64) c, record'), Ok (blen content, ct)) /\
    blen record' = blen record /\ slice record' 5 (5 + blen content) = Some content.
Proof.
  intros Hp. destruct (@decrypt_protected (cipher S_) _ _ _ _ _ _ Hp) as (record' & n & inner & Hd & Hl & Hs & Hi & Hc).
  exists record'. unfold app_decrypt_record_inplace. rewrite Hd. run. rewrite Hs. run. rewrite Hi. done.
Qed.

Lemma apply_send_spec c :
  computes (map_err (fun e => match e with CeHkdf e => e | _ => HlEncodedTooLong end) (apply_send_key_update S_ c))
    {| ad_transcript := ad_transcript c; ad_c_ap_keys := Record_Keys S_ (Next_Secret (ad_c_ap_ts c)); ad_s_ap_keys := ad_s_ap_keys c;
       ad_c_ap_ts := Next_Secret (ad_c_ap_ts c); ad_s_ap_ts := ad_s_ap_ts c; ad_seq_out := 0; ad_seq_in := ad_seq_in c |}.
Proof.
  unfold apply_send_key_update. destruct (computes_ensures _ _ (next_secret_computes (ad_c_ap_ts c))) as [-> | (e & -> & He)];
    run; [| by destruct e].
  by destruct (computes_ensures _ _ (derive_computes S_ (Next_Secret (ad_c_ap_ts c)))) as [-> | (e & -> & He)]; run; [| destruct e].
Qed.

Lemma apply_recv_spec c :
  computes (map_err (fun e => match e with CeHkdf e => e | _ => HlEncodedTooLong end) (apply_recv_key_update S_ c))
    {| ad_transcript := ad_transcript c; ad_c_ap_keys := ad_c_ap_keys c; ad_s_ap_keys := Record_Keys S_ (Next_Secret (ad_s_ap_ts c));
       ad_c_ap_ts := ad_c_ap_ts c; ad_s_ap_ts := Next_Secret (ad_s_ap_ts c); ad_seq_out := ad_seq_out c; ad_seq_in := 0 |}.
Proof.
  unfold apply_recv_key_update. destruct (computes_ensures _ _ (next_secret_computes (ad_s_ap_ts c))) as [-> | (e & -> & He)];
    run; [| by destruct e].
  by destruct (computes_ensures _ _ (derive_computes S_ (Next_Secret (ad_s_ap_ts c)))) as [-> | (e & -> & He)]; run; [| destruct e].
Qed.

(** A record of a run, at its generation and number. *)
Definition sealed_at (ts0 : bytes) (op : send_op * (nat * Z)) (record : bytes) : Prop :=
  @protects (cipher S_) (Record_Keys S_ (generation ts0 op.2.1)) op.2.2 record (op_content op.1) (op_type op.1).

Definition delivered (ops : list send_op) : list (bytes * Z) := (fun op => (op_content op, op_type op)) <$> ops.

(** One operation: its record, and the state the next one starts from. *)
Lemma send_one_spec c op out c1 record :
  op_ok op -> send_keyed c -> ad_seq_out c + 1 < U64 -> send_one c op out = Ok (c1, record) ->
  @protects (cipher S_) (ad_c_ap_keys c) (ad_seq_out c) record (op_content op) (op_type op) /\ send_keyed c1 /\
  match op with
  | SoData _ _ => ad_c_ap_ts c1 = ad_c_ap_ts c /\ ad_c_ap_keys c1 = ad_c_ap_keys c /\ ad_seq_out c1 = ad_seq_out c + 1
  | SoKeyUpdate _ => ad_c_ap_ts c1 = Next_Secret (ad_c_ap_ts c) /\ ad_seq_out c1 = 0
  end.
Proof.
  intros Hop [Hk Hu] Hlt Hs. destruct op as [content ct | b]; cbn [send_one op_content op_type] in *.
  - pose proof (app_encrypt_spec c content ct out (proj1 Hop)) as He.
    destruct (app_encrypt_record S_ c content ct out) as [[[c' out'] record'] | e |]; [| done | done].
    apply Ok_inj, pair_equal_spec in Hs as [<- <-]. destruct He as (Hp & _ & _ & _ & ->).
    rewrite Z.mod_small by (unfold is_u64 in *; lia). unfold is_u64 in *. split_and!; try done. split; [done |]. unfold is_u64. cbn [ad_seq_out set_seq_out]. lia.
  - unfold encrypt_key_update in Hs. fold (key_update_msg b) in Hs.
    pose proof (app_encrypt_spec c (key_update_msg b) CT_HANDSHAKE out ltac:(done)) as He.
    destruct (app_encrypt_record S_ c _ _ out) as [[[c' out'] record'] | e |]; [| done | done].
    destruct He as (Hp & _ & _ & _ & ->). cbn [mbind outcome_bind] in Hs.
    pose proof (apply_send_spec (set_seq_out ((ad_seq_out c + 1) mod U64) c)) as Ha.
    destruct (apply_send_key_update S_ _) as [c'' | e |]; [| done | done]. cbn [map_err computes] in Ha. subst c''.
    apply Ok_inj, pair_equal_spec in Hs as [<- <-]. split_and!; try done.
Qed.

(** The same operation at the receiver. *)
Lemma recv_one_spec c r op record c1 :
  op_ok op -> in_step c r -> is_u64 (ad_seq_out c) -> ad_seq_out c + 1 < U64 ->
  @protects (cipher S_) (ad_c_ap_keys c) (ad_seq_out c) record (op_content op) (op_type op) -> send_keyed c1 ->
  match op with
  | SoData _ _ => ad_c_ap_ts c1 = ad_c_ap_ts c /\ ad_c_ap_keys c1 = ad_c_ap_keys c /\ ad_seq_out c1 = ad_seq_out c + 1
  | SoKeyUpdate _ => ad_c_ap_ts c1 = Next_Secret (ad_c_ap_ts c) /\ ad_seq_out c1 = 0
  end ->
  match recv_one r record with
  | Ok (r1, m) => m = (op_content op, op_type op) /\ in_step c1 r1
  | Err (CeHkdf e) => hkdf_failed e
  | _ => False
  end.
Proof.
  intros Hop (Hts & Hks & Hseq) Hu Hlt Hp [Hk1 _] Hnext. rewrite <- Hks, <- Hseq in Hp.
  destruct (app_decrypt_protected r record _ _ Hp) as (record' & Hd & _ & Hc). unfold recv_one. rewrite Hd, Hc. run.
  rewrite Hseq, Z.mod_small by (unfold is_u64 in *; lia).
  destruct op as [content ct | b]; cbn [op_content op_type] in *.
  - destruct Hop as [_ Hct]. rewrite (proj2 (Z.eqb_neq _ _) Hct). cbn [andb]. split; [done |].
    destruct Hnext as (H1' & H2' & H3'). unfold in_step. cbn. rewrite H1', H2', H3'. done.
  - rewrite bool_decide_eq_true_2 by done. change (CT_HANDSHAKE =? CT_HANDSHAKE) with true. cbn [andb].
    pose proof (apply_recv_spec (set_seq_in (ad_seq_out c + 1) r)) as Ha.
    destruct (apply_recv_key_update S_ _) as [r1 | e |]; cbn [map_err computes] in Ha; run; [| | done].
    + subst r1. split; [done |]. destruct Hnext as [H1' H2']. unfold in_step. cbn. rewrite Hk1, H1', H2', Hts. done.
    + destruct e; done || by destruct e.
Qed.

Lemma channel_spec ts0 out ops c r g c' records :
  Forall op_ok ops -> ad_c_ap_ts c = generation ts0 g -> send_keyed c -> ad_seq_out c + blen ops < U64 -> blen ops < U64 -> in_step c r ->
  send_all c ops out = Ok (c', records) ->
  Forall2 (sealed_at ts0) (zip ops (positions g (ad_seq_out c) ops)) records /\
  match recv_all r records with
  | Ok (r', ms) => ms = delivered ops /\ in_step c' r'
  | Err (CeHkdf e) => hkdf_failed e
  | _ => False
  end.
Proof.
  revert c r g c' records. induction ops as [| op ops IH]; intros c r g c' records Hops Hg Hk Hlt Hlen Hstep Hs.
  { apply Ok_inj, pair_equal_spec in Hs as [<- <-]. by split. }
  apply Forall_cons in Hops as [Hop Hops]. rewrite blen_cons in Hlt, Hlen. pose proof (blen_nonneg ops).
  cbn [send_all] in Hs. destruct (send_one c op out) as [[c1 record] | |] eqn:Hone; [| done | done].
  cbn [mbind outcome_bind] in Hs.
  destruct (send_all c1 ops out) as [[c2 records1] | |] eqn:Hall; [| done | done].
  apply Ok_inj, pair_equal_spec in Hs as [<- <-].
  apply send_one_spec in Hone as (Hp & Hk1 & Hnext); [| done | done | lia].
  pose proof (recv_one_spec c r op record c1 Hop Hstep (proj2 Hk) ltac:(lia) Hp Hk1 Hnext) as Hrecv.
  assert (exists g1, ad_c_ap_ts c1 = generation ts0 g1 /\ ad_seq_out c1 + blen ops < U64 /\
    positions g (ad_seq_out c) (op :: ops) = (g, ad_seq_out c) :: positions g1 (ad_seq_out c1) ops) as (g1 & Hg1 & Hlt1 & Hpos).
  { destruct op; [exists g | exists (S g)]; cbn [positions generation].
    - destruct Hnext as (-> & _ & ->). split_and!; [done | lia | done].
    - destruct Hnext as (-> & ->). split_and!; [by rewrite Hg | lia | done]. }
  assert (sealed_at ts0 (op, (g, ad_seq_out c)) record) as Hsealed.
  { unfold sealed_at. cbn [fst snd]. rewrite <- Hg, <- (proj1 Hk). done. }
  rewrite Hpos. cbn [zip_with recv_all]. destruct (recv_one r record) as [[r1 m] | [] |] eqn:Hr1; try done.
  - destruct Hrecv as [-> Hstep1]. run.
    destruct (IH c1 r1 g1 c2 records1 Hops Hg1 Hk1 Hlt1 ltac:(lia) Hstep1 Hall) as [HF Hrest].
    split; [by constructor |]. destruct (recv_all r1 records1) as [[r2 ms] | [] |]; try done. destruct Hrest as [-> ?]. done.
  - split; [| done]. constructor; [done |].
    set (r1 := {| ad_transcript := ad_transcript c; ad_c_ap_keys := ad_c_ap_keys c; ad_s_ap_keys := ad_c_ap_keys c1;
                  ad_c_ap_ts := []; ad_s_ap_ts := ad_c_ap_ts c1; ad_seq_out := 0; ad_seq_in := ad_seq_out c1 |}).
    by destruct (IH c1 r1 g1 c2 records1 Hops Hg1 Hk1 Hlt1 ltac:(lia) ltac:(done) Hall) as [HF _].
Qed.
End data_phase.

(** The data phase is a channel, across key updates.  Whatever records and key updates a
    connection sends (fewer than 2^64), each record is sealed under the generation of the
    traffic secret its key updates have reached and under a sequence number of that
    generation, and no pair of generation and number is used twice; and a connection whose
    receiving half starts from the same secret opens exactly those contents, with their
    types and in that order, ratchets where the sender did and ends in step with it,
    unless its key-derivation backend fails. *)
Theorem data_phase_channel `{Usize, HeaplessVec, HkdfSha256, SubtleCt, AeadBackend} (S_ : Suite) (out : bytes)
    (ops : list send_op) (c r c' : AppData) (records : list bytes) :
  Forall op_ok ops -> send_keyed S_ c -> ad_seq_out c + blen ops < U64 -> in_step c r ->
  send_all S_ c ops out = Ok (c', records) ->
  Forall2 (sealed_at S_ (ad_c_ap_ts c)) (zip ops (positions 0 (ad_seq_out c) ops)) records /\
  NoDup (positions 0 (ad_seq_out c) ops) /\
  match recv_all S_ r records with
  | Ok (r', ms) => ms = delivered ops /\ in_step c' r'
  | Err (CeHkdf e) => hkdf_failed e
  | _ => False
  end.
Proof.
  intros Hops Hk Hlt Hstep Hs. pose proof (proj2 Hk) as Hu. unfold is_u64 in Hu.
  destruct (channel_spec S_ (ad_c_ap_ts c) out ops c r O c' records) as [HF Hr]; try done; [lia |].
  split_and!; [done | apply positions_NoDup | done].
Qed.

Section channel_witness.
#[local] Existing Instances usize32 heapless_model hkdf_model subtle_model aead_backend_model.

(** Two connections whose secrets mirror each other. *)
Definition demo_sender : AppData := {|
  ad_transcript := TranscriptHash_new; ad_c_ap_keys := Record_Keys Aes128GcmSha256 [1; 2]; ad_s_ap_keys := demo_keys;
  ad_c_ap_ts := [1; 2]; ad_s_ap_ts := [3]; ad_seq_out := 0; ad_seq_in := 0 |}.
Definition demo_receiver : AppData := {|
  ad_transcript := TranscriptHash_new; ad_c_ap_keys := demo_keys; ad_s_ap_keys := Record_Keys Aes128GcmSha256 [1; 2];
  ad_c_ap_ts := [3]; ad_s_ap_ts := [1; 2]; ad_seq_out := 0; ad_seq_in := 0 |}.
Definition demo_ops : list send_op := [SoData [104; 105] CT_APPLICATION_DATA; SoKeyUpdate true; SoData [111; 107] CT_APPLICATION_DATA].
Definition demo_sent : AppData * list bytes := ok_value (demo_sender, []) (send_all Aes128GcmSha256 demo_sender demo_ops (zeros 64)).

Lemma data_phase_channel_witness :
  Forall2 (sealed_at Aes128GcmSha256 [1; 2]) (zip demo_ops [(O, 0); (O, 1); (1%nat, 0)]) demo_sent.2 /\
  is_ok (recv_all Aes128GcmSha256 demo_receiver demo_sent.2) = true.
Proof.
  assert (send_all Aes128GcmSha256 demo_sender demo_ops (zeros 64) = Ok (demo_sent.1, demo_sent.2)) as Hs
    by (rewrite <- surjective_pairing; apply ok_value_eq; vm_compute; reflexivity).
  assert (Forall op_ok demo_ops) as Hops.
  { apply List.Forall_cons; [split; discriminate |]. apply List.Forall_cons; [exact I |].
    apply List.Forall_cons; [split; discriminate | apply List.Forall_nil]. }
  assert (send_keyed Aes128GcmSha256 demo_sender) as Hk by (split; [reflexivity | split; [apply Z.le_refl | reflexivity]]).
  destruct (data_phase_channel Aes128GcmSha256 (zeros 64) demo_ops demo_sender demo_receiver demo_sent.1 demo_sent.2
              Hops Hk ltac:(reflexivity) (conj eq_refl (conj eq_refl eq_refl)) Hs) as (HF & _ & _).
  split; [exact HF | vm_compute; reflexivity].
Defined.
End channel_witness.
