(* ===== verification/Engine.v ===== *)
(** * [client/engine.rs], [client/scratch.rs], [client/error.rs]: the client engine

    The state machine between the transport and the typestates.  It does no I/O: the
    wrapper puts received bytes into the free tail of the receive buffer ([recv_buffer],
    [advance]), sends the bytes of the send buffer ([send_bytes], [mark_sent]), and asks
    for the next event ([step_handshake], [step]).  An operation is a computation over the
    engine's state; the state it leaves on an error is part of the model. *)
From stdpp Require Import strings.
From S2P Require Import Prelude Deps Bytecopy Consts Aead Hkdf Kx Cert Identity TlsHello ServerFlight Reassembler ClientFlight Connection.

(** ** [scratch.rs] *)

Definition TLS_HEADER : Z := 5.
Definition AEAD_TAG : Z := 16.
Definition RECORD_OVERHEAD : Z := TLS_HEADER + AEAD_TAG.
Definition PROTO_MAX_INNER_PLAINTEXT : Z := 16385.
Definition MIN_RECORD_SIZE_LIMIT : Z := 64.

(** [RecordSizeLimit]: a [u16] within the two bounds. *)
Definition RecordSizeLimit_DEFAULT : Z := PROTO_MAX_INNER_PLAINTEXT.
Definition RecordSizeLimit_try_from (value : Z) : option Z :=
  if (MIN_RECORD_SIZE_LIMIT <=? value) && (value <=? PROTO_MAX_INNER_PLAINTEXT) then Some value else None.

Definition SERVER_HELLO_RECORD_LEN `{MlKemSizes} (ft : Features) : Z := if f_mlkem ft then 95 + MLKEM768_CT_BYTES else 95.
Definition MIN_RECV `{MlKemSizes} (ft : Features) : Z :=
  let proto_floor := MIN_RECORD_SIZE_LIMIT + RECORD_OVERHEAD in
  if proto_floor <? SERVER_HELLO_RECORD_LEN ft then SERVER_HELLO_RECORD_LEN ft else proto_floor.

Definition max_const (a b : Z) : Z := if b <? a then a else b.
Definition max_const_3 (a b c : Z) : Z := max_const (max_const a b) c.
Definition MIN_SEND_STANDARD : Z :=
  max_const_3 CLIENT_FINISHED_LEN (TLS_HEADER + AEAD_TAG + 2 + 1) (TLS_HEADER + AEAD_TAG + 1 + 1).

(** [div_ceil] of the standard library, for a positive divisor. *)
Definition div_ceil (a b : Z) : Z := let q := a / b in if a mod b =? 0 then q else q + 1.
Definition client_auth_send_floor (max_flight : Z) : Z :=
  if max_flight =? 0 then 0 else
  let records := div_ceil max_flight (MIN_RECORD_SIZE_LIMIT - CONTENT_TYPE_LEN) in
  max_flight + records * (RECORD_OVERHEAD + CONTENT_TYPE_LEN).

Definition FACADE_HOSTNAME_MAX : Z := 255.
Definition CH_LEN (ft : Features) : Z := CH_SCRATCH ft.

(** ** [error.rs] *)

Inductive InternalError :=
| IeRecvBufferEmptyOnRecvEvent | IeDrainStateInconsistent | IeWriteBeforeHandshake | IeMarkSentTooLarge
| IeHandshakeStepInDataPhase | IeHandshakeStepWrongState | IeServerHelloWrongState | IeFlightWrongState
| IeFinalizeWrongState | IeFrameWithParkedPlaintext | IeAdvanceWhileParked | IeAppDataDuringDriveHandshake
| IeHandshakeDoneInDataPhase | IeWriteAppZeroProgress.

Inductive HandshakeError :=
| HeConnection (e : ConnError) | HeIdentity (e : IdentityError) | HeClientHelloTooLong
| HeRecordTooLarge (limit got : Z) | HeInvalidRecordSizeLimit (v : Z) | HeAdvanceTooLarge | HeBusy | HeNotReady
| HePostHandshakeNotSupported | HeMalformedKeyUpdate | HeInterleavedPostHandshake | HeInternal (e : InternalError)
| HeRng | HeStrategyRejected | HeStrategyPubkeyMismatch.

Inductive WriteAppError := WaClosed | WaBusy | WaNotReady | WaOther (e : HandshakeError).

(** ** The state *)

Record RecvState := { rs_filled : Z; rs_plain_start : Z; rs_plain_end : Z; rs_next_record : Z }.

Definition RecvState_new : RecvState := {| rs_filled := 0; rs_plain_start := 0; rs_plain_end := 0; rs_next_record := 0 |}.
Definition plaintext_parked (r : RecvState) : bool := rs_plain_start r <? rs_plain_end r.

Definition PH_STAGE_MAX : Z := 5.

Record PostHandshakeReasm := { ph_stage : bytes; ph_stage_len : Z; ph_skip_remaining : Z }.

Definition PostHandshakeReasm_default : PostHandshakeReasm :=
  {| ph_stage := zeros PH_STAGE_MAX; ph_stage_len := 0; ph_skip_remaining := 0 |}.
Definition in_progress (p : PostHandshakeReasm) : bool :=
  negb (ph_stage_len p =? 0) || negb (ph_skip_remaining p =? 0).

Inductive EngineEvent := EvSend (n : Z) | EvRecv | EvAppData | EvHandshakeDone | EvClosed.

Inductive Framed := FrRecord (start end_ outer_type length_field : Z) | FrNeed.

Section engine_state.
Context `{HkdfSha256, KxBackend}.

Inductive EngineState :=
| EsWaitServerHello (c : WaitServerHello)
| EsWaitFlight (S_ : Suite) (c : WaitServerFlight)
| EsApp (S_ : Suite) (c : AppData)
| EsClosed.

Definition in_data_phase (s : EngineState) : bool := match s with EsApp _ _ => true | _ => false end.

(** The engine, with the buffers of its [Scratch]. *)
Record TlsEngine := {
  reassembler : ServerFlightReassembler;
  recv_record : bytes;
  send_record : bytes;
  e_state : EngineState;
  recv : RecvState;
  send_pending_len : Z;
  send_acked : Z;
  pending_handshake_done : bool;
  handshake_finished_pending_ack : bool;
  closed : bool;
  our_recv_limit : Z;
  peer_recv_limit : Z;
  ph : PostHandshakeReasm
}.

(** Assignments to one field, or to two that are always assigned together. *)
Definition set_state (s : EngineState) (e : TlsEngine) : TlsEngine :=
  {| reassembler := reassembler e; recv_record := recv_record e; send_record := send_record e; e_state := s; recv := recv e;
     send_pending_len := send_pending_len e; send_acked := send_acked e; pending_handshake_done := pending_handshake_done e;
     handshake_finished_pending_ack := handshake_finished_pending_ack e; closed := closed e;
     our_recv_limit := our_recv_limit e; peer_recv_limit := peer_recv_limit e; ph := ph e |}.
Definition set_recv (r : RecvState) (e : TlsEngine) : TlsEngine :=
  {| reassembler := reassembler e; recv_record := recv_record e; send_record := send_record e; e_state := e_state e; recv := r;
     send_pending_len := send_pending_len e; send_acked := send_acked e; pending_handshake_done := pending_handshake_done e;
     handshake_finished_pending_ack := handshake_finished_pending_ack e; closed := closed e;
     our_recv_limit := our_recv_limit e; peer_recv_limit := peer_recv_limit e; ph := ph e |}.
Definition set_recv_record (b : bytes) (e : TlsEngine) : TlsEngine :=
  {| reassembler := reassembler e; recv_record := b; send_record := send_record e; e_state := e_state e; recv := recv e;
     send_pending_len := send_pending_len e; send_acked := send_acked e; pending_handshake_done := pending_handshake_done e;
     handshake_finished_pending_ack := handshake_finished_pending_ack e; closed := closed e;
     our_recv_limit := our_recv_limit e; peer_recv_limit := peer_recv_limit e; ph := ph e |}.
Definition set_send_record (b : bytes) (e : TlsEngine) : TlsEngine :=
  {| reassembler := reassembler e; recv_record := recv_record e; send_record := b; e_state := e_state e; recv := recv e;
     send_pending_len := send_pending_len e; send_acked := send_acked e; pending_handshake_done := pending_handshake_done e;
     handshake_finished_pending_ack := handshake_finished_pending_ack e; closed := closed e;
     our_recv_limit := our_recv_limit e; peer_recv_limit := peer_recv_limit e; ph := ph e |}.
Definition set_reassembler (r : ServerFlightReassembler) (e : TlsEngine) : TlsEngine :=
  {| reassembler := r; recv_record := recv_record e; send_record := send_record e; e_state := e_state e; recv := recv e;
     send_pending_len := send_pending_len e; send_acked := send_acked e; pending_handshake_done := pending_handshake_done e;
     handshake_finished_pending_ack := handshake_finished_pending_ack e; closed := closed e;
     our_recv_limit := our_recv_limit e; peer_recv_limit := peer_recv_limit e; ph := ph e |}.
Definition set_send (pending acked : Z) (e : TlsEngine) : TlsEngine :=
  {| reassembler := reassembler e; recv_record := recv_record e; send_record := send_record e; e_state := e_state e; recv := recv e;
     send_pending_len := pending; send_acked := acked; pending_handshake_done := pending_handshake_done e;
     handshake_finished_pending_ack := handshake_finished_pending_ack e; closed := closed e;
     our_recv_limit := our_recv_limit e; peer_recv_limit := peer_recv_limit e; ph := ph e |}.
Definition set_done (done ack : bool) (e : TlsEngine) : TlsEngine :=
  {| reassembler := reassembler e; recv_record := recv_record e; send_record := send_record e; e_state := e_state e; recv := recv e;
     send_pending_len := send_pending_len e; send_acked := send_acked e; pending_handshake_done := done;
     handshake_finished_pending_ack := ack; closed := closed e;
     our_recv_limit := our_recv_limit e; peer_recv_limit := peer_recv_limit e; ph := ph e |}.
Definition set_closed (b : bool) (e : TlsEngine) : TlsEngine :=
  {| reassembler := reassembler e; recv_record := recv_record e; send_record := send_record e; e_state := e_state e; recv := recv e;
     send_pending_len := send_pending_len e; send_acked := send_acked e; pending_handshake_done := pending_handshake_done e;
     handshake_finished_pending_ack := handshake_finished_pending_ack e; closed := b;
     our_recv_limit := our_recv_limit e; peer_recv_limit := peer_recv_limit e; ph := ph e |}.
Definition set_peer_limit (l : Z) (e : TlsEngine) : TlsEngine :=
  {| reassembler := reassembler e; recv_record := recv_record e; send_record := send_record e; e_state := e_state e; recv := recv e;
     send_pending_len := send_pending_len e; send_acked := send_acked e; pending_handshake_done := pending_handshake_done e;
     handshake_finished_pending_ack := handshake_finished_pending_ack e; closed := closed e;
     our_recv_limit := our_recv_limit e; peer_recv_limit := l; ph := ph e |}.
Definition set_ph (p : PostHandshakeReasm) (e : TlsEngine) : TlsEngine :=
  {| reassembler := reassembler e; recv_record := recv_record e; send_record := send_record e; e_state := e_state e; recv := recv e;
     send_pending_len := send_pending_len e; send_acked := send_acked e; pending_handshake_done := pending_handshake_done e;
     handshake_finished_pending_ack := handshake_finished_pending_ack e; closed := closed e;
     our_recv_limit := our_recv_limit e; peer_recv_limit := peer_recv_limit e; ph := p |}.
Definition set_next_record (n : Z) (e : TlsEngine) : TlsEngine :=
  set_recv {| rs_filled := rs_filled (recv e); rs_plain_start := rs_plain_start (recv e); rs_plain_end := rs_plain_end (recv e);
              rs_next_record := n |} e.

(** [TlsEngine::new] over a scratch whose buffers may hold an earlier connection. *)
Definition TlsEngine_new (scratch_reassembler : ServerFlightReassembler) (scratch_recv scratch_send : bytes) (init_state : EngineState)
    (our_limit peer_limit : Z) : TlsEngine :=
  {| reassembler := clear scratch_reassembler; recv_record := scratch_recv; send_record := scratch_send; e_state := init_state;
     recv := RecvState_new; send_pending_len := 0; send_acked := 0; pending_handshake_done := false;
     handshake_finished_pending_ack := false; closed := false; our_recv_limit := our_limit; peer_recv_limit := peer_limit;
     ph := PostHandshakeReasm_default |}.
End engine_state.

(** [config.rs], [params.rs]: the suites of a configuration, and a connection's choice. *)
Inductive ConfigSuitePolicy := CspAesOnly | CspAesAndChaCha | CspChaChaOnly.
Inductive RuntimeSuitePolicy := RspDefault | RspAesOnly | RspChaChaOnly.

(** The parameters of a connection; the verification strategy is the class [VerifyStrategy]. *)
Record ClientParams `{CryptoRng} (w : RsaWidth) := {
  cp_hostname : bytes;
  cp_suite_policy : RuntimeSuitePolicy;
  cp_client_auth : ClientAuthPolicy w;
  cp_middlebox_compat : bool;
  cp_alpn : option (list bytes)
}.
Arguments cp_hostname {_ w}. Arguments cp_suite_policy {_ w}. Arguments cp_client_auth {_ w}.
Arguments cp_middlebox_compat {_ w}. Arguments cp_alpn {_ w}.

Section engine.
Context `{Usize, HeaplessVec, HkdfSha256, SubtleCt, AeadBackend, KxBackend, MlKemSizes, MlDsaSizes}.
Context (ft : Features) (FLIGHT RECV SEND : Z).

Definition EM : Type -> Type := SM TlsEngine HandshakeError.
Definition fail {St A} (e : HandshakeError) : SM St HandshakeError A := lift (Err e).

Definition default_our_recv_limit : Z :=
  let from_buf := saturating_sub RECV RECORD_OVERHEAD in
  if PROTO_MAX_INNER_PLAINTEXT <? from_buf then PROTO_MAX_INNER_PLAINTEXT
  else if from_buf <? MIN_RECORD_SIZE_LIMIT then MIN_RECORD_SIZE_LIMIT
  else as_u16 from_buf.

Definition is_send_pending (e : TlsEngine) : bool := send_acked e <? send_pending_len e.

Definition is_closed (e : TlsEngine) : bool := closed e || match e_state e with EsClosed => true | _ => false end.

Definition send_bytes {E} (e : TlsEngine) : outcome E bytes :=
  if send_pending_len e =? 0 then Ok [] else or_panic (slice (send_record e) (send_acked e) (send_pending_len e)).

(** *** Framing *)

(** [copy_within] panics when its range is not inside the buffer. *)
Definition compact_recv : EM unit :=
  e ← gets id;
  let src_start := rs_next_record (recv e) in
  if src_start =? 0 then mret tt else
  let count := rs_filled (recv e) - src_start in
  _ ← (if 0 <? count then
         tail ← lift (or_panic (slice (recv_record e) src_start (rs_filled (recv e))));
         b ← lift (or_panic (splice (recv_record e) 0 tail));
         modify (set_recv_record b)
       else mret tt);
  modify (set_recv {| rs_filled := count; rs_plain_start := 0; rs_plain_end := 0; rs_next_record := 0 |}).

Definition frame_one_record : EM Framed :=
  e ← gets id;
  if plaintext_parked (recv e) then fail (HeInternal IeFrameWithParkedPlaintext) else
  let start := rs_next_record (recv e) in
  let buffered := rs_filled (recv e) - start in
  if buffered <? TLS_HEADER then
    _ ← (if 0 <? rs_next_record (recv e) then compact_recv else mret tt);
    mret FrNeed
  else
  outer_type ← lift (or_panic (at_idx (recv_record e) start));
  l0 ← lift (or_panic (at_idx (recv_record e) (start + 3)));
  l1 ← lift (or_panic (at_idx (recv_record e) (start + 4)));
  let length_field := be16 l0 l1 in
  let record_body_capacity := saturating_sub RECV TLS_HEADER in
  if record_body_capacity <? length_field then fail (HeRecordTooLarge (our_recv_limit e) (as_u16 length_field)) else
  let end_ := start + TLS_HEADER + length_field in
  if rs_filled (recv e) <? end_ then
    _ ← (if 0 <? rs_next_record (recv e) then compact_recv else mret tt);
    mret FrNeed
  else mret (FrRecord start end_ outer_type length_field).

(** *** The handshake *)

(** The state is [Closed] while the typestate is consumed, and stays so on an error. *)
Definition handle_server_hello (start end_ outer_type : Z) : EM unit :=
  if negb (outer_type =? CT_HANDSHAKE) then fail (HeConnection (CeDecrypt (DecUnexpectedContentType outer_type))) else
  prev ← gets e_state;
  match prev with
  | EsWaitServerHello conn =>
      _ ← modify (set_state EsClosed);
      e ← gets id;
      record ← lift (or_panic (slice (recv_record e) start end_));
      match read_server_hello_with_backend ft conn record with
      | Ok (S_, c) => modify (set_state (EsWaitFlight S_ c))
      | Err err => _ ← modify (set_closed true); fail (HeConnection err)
      | Panic => lift Panic
      end
  | _ => fail (HeInternal IeServerHelloWrongState)
  end.

Section handshake.
Context `{VerifierBackend, !VerifyStrategy, CertParser} (ip_host : bool) (MAX_CHAIN : Z).

Definition on_flight {A} (o : outcome FlightError A) : outcome HandshakeError A := map_err (fun e => HeConnection (CeFlight e)) o.

(** The part of [finalize_and_finish] that reads the flight: the client's answer to a
    CertificateRequest, the trusted key and the leaf. *)
Definition check_flight {w} (params : ClientParams w) (r : ServerFlightReassembler)
    : outcome HandshakeError (option (bytes * bytes) * PreparedVerifier * CertView) :=
  o ← flight_bytes r;
  fb ← ok_or o (HeConnection CeIncompleteFlight);
  flight_view ← on_flight (parse_server_flight fb);
  cert_request ←
    (if ACCEPT_CERT_REQUEST (cp_client_auth params) then
       match sf_cert_request_full flight_view with
       | Some creq =>
           ctx ← on_flight (certificate_request_context creq);
           sig_algs ← on_flight (certificate_request_sig_algs creq);
           Ok (Some (ctx, sig_algs))
       | None => Ok None
       end
     else match sf_cert_request_full flight_view with
          | Some _ => Err (HeConnection (CeClientAuth CaCertificateRequested))
          | None => Ok None
          end);
  chain ← on_flight (extract_chain MAX_CHAIN (sf_cert_body flight_view));
  trusted ← map_err (fun _ => HeStrategyRejected) (verify_chain chain);
  leaf_der ← ok_or (head chain) (HeConnection (CeFlight FlTruncated));
  leaf_view ← map_err (fun e => HeConnection (CeFlight (FlBadCert e))) (parse leaf_der);
  if negb (matches_cert trusted leaf_view) then Err HeStrategyPubkeyMismatch else
  _ ← map_err HeIdentity (verify_hostname ip_host leaf_view (cp_hostname params));
  Ok (cert_request, trusted, leaf_view).

Definition peek_peer_limit : EM unit :=
  r ← gets reassembler;
  o ← lift (on_flight (peek_ee_record_size_limit r));
  match o with
  | None => mret tt
  | Some peer_limit =>
      l ← lift (ok_or (RecordSizeLimit_try_from peer_limit) (HeInvalidRecordSizeLimit peer_limit));
      modify (set_peer_limit l)
  end.

(** The engine and the random source. *)
Definition HM : Type -> Type := SM (TlsEngine * Rng) HandshakeError.
Definition zoom {A} (m : EM A) : HM A := fun '(e, rng) => let '(e, r) := m e in ((e, rng), r).

(** The client's flight goes through the receive buffer into the send buffer.  When it fails,
    the source may have written parts of it to both buffers, which the model leaves as they
    were; the engine is then [EsClosed], and the theorems speak only of the lengths of the
    buffers and of their holding octets, which is true of both. *)
Definition finish_flight {w} (S_ : Suite) (params : ClientParams w) (cert_request : option (bytes * bytes)) (d : ServerFlightDone) : HM Z :=
  fun '(e, rng) =>
    match cert_request with
    | Some (ctx, sig_algs) =>
        let '(rng, res) := finish_handshake_with_policy S_ d (cp_client_auth params) ctx sig_algs rng (peer_recv_limit e)
                             (recv_record e) (send_record e) in
        match res with
        | Ok (scratch, out, record, app) => ((set_state (EsApp S_ app) (set_send_record out (set_recv_record scratch e)), rng), Ok (blen record))
        | Err err => ((e, rng), Err (HeConnection err))
        | Panic => ((e, rng), Panic)
        end
    | None =>
        match finish_handshake S_ d (send_record e) with
        | Ok (out, record, app) => ((set_state (EsApp S_ app) (set_send_record out e), rng), Ok (blen record))
        | Err err => ((e, rng), Err (HeConnection err))
        | Panic => ((e, rng), Panic)
        end
    end.

Definition finalize_and_finish {w} (params : ClientParams w) : HM unit :=
  _ ← zoom peek_peer_limit;
  r ← zoom (gets reassembler);
  '(cert_request, prepared, leaf_view) ← lift (check_flight params r);
  prev ← zoom (gets e_state);
  match prev with
  | EsWaitFlight S_ conn =>
      _ ← zoom (modify (set_state EsClosed));
      d ← lift (map_err HeConnection (finalize_server_flight conn r prepared leaf_view));
      cf_len ← finish_flight S_ params cert_request d;
      zoom (modify (fun e => set_done true true (set_send cf_len 0 e)))
  | _ => fail (HeInternal IeFinalizeWrongState)
  end.

Definition handle_flight_record {w} (start end_ : Z) (params : ClientParams w) : HM unit :=
  e ← zoom (gets id);
  outer_type ← lift (or_panic (at_idx (recv_record e) start));
  let length_field := end_ - start - TLS_HEADER in
  if (outer_type =? CT_APPLICATION_DATA) && (our_recv_limit e + AEAD_TAG <? length_field)
  then fail (HeRecordTooLarge (our_recv_limit e) (as_u16 length_field)) else
  match e_state e with
  | EsWaitFlight S_ conn =>
      record ← lift (or_panic (slice (recv_record e) start end_));
      let '((conn, record, r), res) := feed_server_record_inplace S_ FLIGHT conn record (reassembler e) in
      b ← lift (or_panic (splice (recv_record e) start record));
      _ ← zoom (modify (fun e => set_state (EsWaitFlight S_ conn) (set_reassembler r (set_recv_record b e))));
      step ← lift (map_err HeConnection res);
      match step with FsReady => finalize_and_finish params | FsPending => mret tt end
  | _ => fail (HeInternal IeFlightWrongState)
  end.

Definition dispatch_handshake_record {w} (start end_ outer_type : Z) (params : ClientParams w) : HM unit :=
  s ← zoom (gets e_state);
  _ ← match s with
      | EsWaitServerHello _ => zoom (handle_server_hello start end_ outer_type)
      | EsWaitFlight _ _ => handle_flight_record start end_ params
      | EsApp _ _ => fail (HeInternal IeHandshakeStepInDataPhase)
      | EsClosed => fail (HeInternal IeHandshakeStepWrongState)
      end;
  zoom (modify (set_next_record end_)).

(** Every round that goes on consumes a record of at least five bytes. *)
Fixpoint step_handshake_loop {w} (fuel : nat) (params : ClientParams w) : HM EngineEvent :=
  match fuel with
  | O => lift Panic
  | S fuel =>
      e ← zoom (gets id);
      if is_send_pending e then mret (EvSend (send_pending_len e - send_acked e)) else
      if pending_handshake_done e && negb (handshake_finished_pending_ack e) then
        _ ← zoom (modify (set_done false (handshake_finished_pending_ack e))); mret EvHandshakeDone else
      if plaintext_parked (recv e) then mret EvAppData else
      if closed e then mret EvClosed else
      framed ← zoom frame_one_record;
      match framed with
      | FrNeed => mret EvRecv
      | FrRecord start end_ outer_type _ =>
          _ ← dispatch_handshake_record start end_ outer_type params;
          step_handshake_loop fuel params
      end
  end.

Definition step_handshake {w} (params : ClientParams w) : HM EngineEvent :=
  fun s => step_handshake_loop (S (length (recv_record s.1))) params s.
End handshake.

(** *** The data phase *)

Definition decrypt_current_data_record (start end_ : Z) : EM (Z * Z) :=
  e ← gets id;
  match e_state e with
  | EsApp S_ conn =>
      record ← lift (or_panic (slice (recv_record e) start end_));
      let '((conn, record), res) := app_decrypt_record_inplace S_ conn record in
      b ← lift (or_panic (splice (recv_record e) start record));
      _ ← modify (fun e => set_state (EsApp S_ conn) (set_recv_record b e));
      lift (map_err HeConnection res)
  | _ => fail (HeInternal IeHandshakeStepWrongState)
  end.

Definition process_key_update (update_requested : bool) : EM unit :=
  s ← gets e_state;
  match s with
  | EsApp S_ conn =>
      conn ← lift (map_err HeConnection (apply_recv_key_update S_ conn));
      _ ← modify (set_state (EsApp S_ conn));
      if negb update_requested then mret tt else
      e ← gets id;
      '(conn, out, record) ← lift (map_err HeConnection (encrypt_key_update S_ conn false (send_record e)));
      _ ← modify (fun e => set_state (EsApp S_ conn) (set_send_record out e));
      conn ← lift (map_err HeConnection (apply_send_key_update S_ conn));
      _ ← modify (set_state (EsApp S_ conn));
      modify (set_send (blen record) 0)
  | _ => fail (HeInternal IeHandshakeStepWrongState)
  end.

(** [while stage_len < lim && i < len]: at most [lim] bytes move into the stage. *)
Fixpoint fill_stage {E} (fuel : nat) (lim : Z) (buf : bytes) (start len : Z) (p : PostHandshakeReasm) (i : Z)
    : outcome E (PostHandshakeReasm * Z) :=
  if negb ((ph_stage_len p <? lim) && (i <? len)) then Ok (p, i) else
  match fuel with
  | O => Panic
  | S fuel =>
      b ← or_panic (at_idx buf (start + i));
      stage ← or_panic (splice (ph_stage p) (ph_stage_len p) [b]);
      fill_stage fuel lim buf start len
        {| ph_stage := stage; ph_stage_len := ph_stage_len p + 1; ph_skip_remaining := ph_skip_remaining p |} (i + 1)
  end.

Definition set_skip (n : Z) (p : PostHandshakeReasm) : PostHandshakeReasm :=
  {| ph_stage := ph_stage p; ph_stage_len := ph_stage_len p; ph_skip_remaining := n |}.
Definition set_stage_len (n : Z) (p : PostHandshakeReasm) : PostHandshakeReasm :=
  {| ph_stage := ph_stage p; ph_stage_len := n; ph_skip_remaining := ph_skip_remaining p |}.

(** The arm of a staged KeyUpdate header. *)
Definition feed_key_update (body_len : Z) (buf : bytes) (start len : Z) (p : PostHandshakeReasm) (i : Z) : EM unit :=
  if negb (body_len =? 1) then fail HeMalformedKeyUpdate else
  '(p, i) ← lift (fill_stage 5 PH_STAGE_MAX buf start len p i);
  _ ← modify (set_ph p);
  if ph_stage_len p <? PH_STAGE_MAX then mret tt else
  if negb (i =? len) then fail HeMalformedKeyUpdate else
  s4 ← lift (or_panic (at_idx (ph_stage p) 4));
  if s4 =? 0 then _ ← modify (set_ph (set_stage_len 0 p)); process_key_update false
  else if s4 =? 1 then _ ← modify (set_ph (set_stage_len 0 p)); process_key_update true
  else fail HeMalformedKeyUpdate.

(** The loop of [feed_post_handshake] from the offset [i] of the record's plaintext. *)
Fixpoint feed_post_handshake_loop (fuel : nat) (start len i : Z) : EM unit :=
  match fuel with
  | O => lift Panic
  | S fuel =>
      p ← gets ph;
      let n := if 0 <? ph_skip_remaining p then Z.min (ph_skip_remaining p) (as_u32 (len - i)) else 0 in
      let p := set_skip (ph_skip_remaining p - n) p in
      let i := i + n in
      _ ← modify (set_ph p);
      if 0 <? ph_skip_remaining p then mret tt else
      buf ← gets recv_record;
      '(p, i) ← lift (fill_stage 4 4 buf start len p i);
      _ ← modify (set_ph p);
      if ph_stage_len p <? 4 then mret tt else
      msg_type ← lift (or_panic (at_idx (ph_stage p) 0));
      s1 ← lift (or_panic (at_idx (ph_stage p) 1));
      s2 ← lift (or_panic (at_idx (ph_stage p) 2));
      s3 ← lift (or_panic (at_idx (ph_stage p) 3));
      let body_len := be24 s1 s2 s3 in
      if msg_type =? HS_NEW_SESSION_TICKET then
        let n := Z.min body_len (as_u32 (len - i)) in
        let p := set_stage_len 0 p in
        let i := i + n in
        if n <? body_len then modify (set_ph (set_skip (body_len - n) p))
        else _ ← modify (set_ph p); feed_post_handshake_loop fuel start len i
      else if msg_type =? HS_KEY_UPDATE then
        feed_key_update body_len buf start len p i
      else fail HePostHandshakeNotSupported
  end.

(** Every round that goes on takes a byte of the record. *)
Definition feed_post_handshake (start len : Z) : EM unit := feed_post_handshake_loop (S (Z.to_nat len)) start len 0.

Definition handle_inner_content (body_offset content_len inner_ct : Z) : EM unit :=
  e ← gets id;
  if negb (inner_ct =? CT_HANDSHAKE) && in_progress (ph e) then fail HeInterleavedPostHandshake else
  if inner_ct =? CT_APPLICATION_DATA then
    if 0 <? content_len then
      modify (set_recv {| rs_filled := rs_filled (recv e); rs_plain_start := body_offset; rs_plain_end := body_offset + content_len;
                          rs_next_record := rs_next_record (recv e) |})
    else mret tt
  else if inner_ct =? CT_ALERT then
    if content_len <? 2 then fail (HeConnection (CeDecrypt DecTruncated)) else
    level ← lift (or_panic (at_idx (recv_record e) body_offset));
    description ← lift (or_panic (at_idx (recv_record e) (body_offset + 1)));
    if (level =? 1) && (description =? 0) then modify (set_closed true)
    else fail (HeConnection (CeAlert level description))
  else if inner_ct =? CT_HANDSHAKE then feed_post_handshake body_offset content_len
  else fail (HeConnection (CeUnknownContentType inner_ct)).

Definition dispatch_data_record_inner (start end_ outer_type : Z) : EM unit :=
  if negb (outer_type =? CT_APPLICATION_DATA) then fail (HeConnection (CeUnknownContentType outer_type)) else
  e ← gets id;
  let length_field := end_ - start - TLS_HEADER in
  if our_recv_limit e + AEAD_TAG <? length_field then fail (HeRecordTooLarge (our_recv_limit e) (as_u16 length_field)) else
  '(content_len, inner_ct) ← decrypt_current_data_record start end_;
  _ ← modify (set_next_record end_);
  handle_inner_content (start + TLS_HEADER) content_len inner_ct.

(** Any error closes the engine. *)
Definition dispatch_data_record (start end_ outer_type : Z) : EM unit := fun e =>
  match dispatch_data_record_inner start end_ outer_type e with
  | (e, Err err) => (set_closed true e, Err err)
  | r => r
  end.

Fixpoint step_loop (fuel : nat) : EM EngineEvent :=
  match fuel with
  | O => lift Panic
  | S fuel =>
      e ← gets id;
      if is_send_pending e then mret (EvSend (send_pending_len e - send_acked e)) else
      if plaintext_parked (recv e) then mret EvAppData else
      if closed e then mret EvClosed else
      framed ← frame_one_record;
      match framed with
      | FrNeed => mret EvRecv
      | FrRecord start end_ outer_type _ => _ ← dispatch_data_record start end_ outer_type; step_loop fuel
      end
  end.

Definition step : EM EngineEvent := fun e => step_loop (S (length (recv_record e))) e.

(** *** The interface of the wrapper *)

(** The free tail of the receive buffer. *)
Definition recv_buffer {E} (e : TlsEngine) : outcome E bytes :=
  if plaintext_parked (recv e) then Ok [] else or_panic (slice_from (recv_record e) (rs_filled (recv e))).

(** The receive buffer after its free tail was overwritten with [buf]. *)
Definition put_recv {E} (buf : bytes) : SM TlsEngine E unit :=
  e ← gets id;
  if plaintext_parked (recv e) then mret tt else
  b ← lift (or_panic (splice (recv_record e) (rs_filled (recv e)) buf));
  modify (set_recv_record b).

Definition advance (n : Z) : EM unit :=
  if n =? 0 then mret tt else
  e ← gets id;
  if plaintext_parked (recv e) then fail (HeInternal IeAdvanceWhileParked) else
  new_filled ← lift (ok_or (checked_add (rs_filled (recv e)) n) HeAdvanceTooLarge);
  if blen (recv_record e) <? new_filled then fail HeAdvanceTooLarge else
  modify (set_recv {| rs_filled := new_filled; rs_plain_start := rs_plain_start (recv e); rs_plain_end := rs_plain_end (recv e);
                      rs_next_record := rs_next_record (recv e) |}).

(** The caller's buffer afterwards and the number of bytes. *)
Definition read_app (out : bytes) : EM (bytes * Z) :=
  e ← gets id;
  let parked := rs_plain_end (recv e) - rs_plain_start (recv e) in
  let n := Z.min parked (blen out) in
  if n =? 0 then mret (out, 0) else
  let src_start := rs_plain_start (recv e) in
  src ← lift (or_panic (slice (recv_record e) src_start (src_start + n)));
  out ← lift (or_panic (splice out 0 src));
  _ ← modify (set_recv {| rs_filled := rs_filled (recv e); rs_plain_start := rs_plain_start (recv e) + n;
                          rs_plain_end := rs_plain_end (recv e); rs_next_record := rs_next_record (recv e) |});
  mret (out, n).

Definition send_chunk_limit (e : TlsEngine) : Z :=
  let peer := saturating_sub (peer_recv_limit e) 1 in
  let local := saturating_sub SEND (RECORD_OVERHEAD + 1) in
  let proto := saturating_sub PROTO_MAX_INNER_PLAINTEXT 1 in
  Z.min (Z.min peer local) proto.

Definition write_app (plaintext : bytes) : SM TlsEngine WriteAppError Z :=
  e ← gets id;
  if closed e then lift (Err WaClosed) else
  if is_send_pending e then lift (Err WaBusy) else
  if negb (in_data_phase (e_state e)) then lift (Err WaNotReady) else
  let chunk_len := Z.min (blen plaintext) (send_chunk_limit e) in
  if chunk_len =? 0 then mret 0 else
  match e_state e with
  | EsApp S_ conn =>
      chunk ← lift (or_panic (slice plaintext 0 chunk_len));
      '(conn, out, record) ← lift (map_err (fun x => WaOther (HeConnection x))
                                     (app_encrypt_record S_ conn chunk CT_APPLICATION_DATA (send_record e)));
      _ ← modify (fun e => set_send (blen record) 0 (set_state (EsApp S_ conn) (set_send_record out e)));
      mret chunk_len
  | _ => lift (Err WaNotReady)
  end.

Definition mark_sent (n : Z) : EM unit :=
  e ← gets id;
  new_acked ← lift (ok_or (checked_add (send_acked e) n) (HeInternal IeMarkSentTooLarge));
  if send_pending_len e <? new_acked then fail (HeInternal IeMarkSentTooLarge) else
  if new_acked =? send_pending_len e
  then modify (fun e => set_done (pending_handshake_done e) false (set_send 0 0 e))
  else modify (set_send (send_pending_len e) new_acked).

Definition mark_terminal (e : TlsEngine) : TlsEngine :=
  set_done false false (set_send 0 0 (set_closed true (set_state EsClosed e))).

Definition close : EM unit :=
  e ← gets id;
  if closed e then mret tt else
  if is_send_pending e then fail HeBusy else
  if negb (in_data_phase (e_state e)) then modify (set_closed true) else
  match e_state e with
  | EsApp S_ conn =>
      '(conn, out, record) ← lift (map_err HeConnection (app_encrypt_record S_ conn CLOSE_NOTIFY_ALERT CT_ALERT (send_record e)));
      modify (fun e => set_closed true (set_send (blen record) 0 (set_state (EsApp S_ conn) (set_send_record out e))))
  | _ => fail (HeInternal IeHandshakeStepWrongState)
  end.
End engine.

(** ** The invariant of the engine *)

Section invariant.
Context `{Usize, HeaplessVec, HkdfSha256, SubtleCt, AeadBackend, KxBackend, MlKemSizes, MlDsaSizes}.
Context (ft : Features) (RECV SEND : Z).

(** The stage never holds a complete message between two records: with four bytes it is
    the header of a KeyUpdate. *)
Definition ph_ok (p : PostHandshakeReasm) : Prop :=
  blen (ph_stage p) = PH_STAGE_MAX /\ bytes_ok (ph_stage p) /\ 0 <= ph_stage_len p <= 4 /\ 0 <= ph_skip_remaining p < U24 /\
  (ph_stage_len p = 4 -> take 4 (ph_stage p) = [HS_KEY_UPDATE; 0; 0; 1]) /\
  (0 < ph_skip_remaining p -> ph_stage_len p = 0).

(** [I1] of [RecvState], the two buffers, the pending send and the two limits. *)
Record engine_wf (e : TlsEngine) : Prop := {
  ew_recv : blen (recv_record e) = RECV;
  ew_send : blen (send_record e) = SEND;
  ew_bytes : bytes_ok (recv_record e);
  ew_reasm : bytes_ok (sfr_buf (reassembler e));
  ew_cursor : 0 <= rs_plain_start (recv e) /\ rs_plain_start (recv e) <= rs_plain_end (recv e) /\
    rs_plain_end (recv e) <= rs_next_record (recv e) /\ rs_next_record (recv e) <= rs_filled (recv e) /\ rs_filled (recv e) <= RECV;
  ew_pending : 0 <= send_acked e /\ send_pending_len e <= SEND /\
    (send_acked e < send_pending_len e \/ send_acked e = 0 /\ send_pending_len e = 0);
  ew_our : MIN_RECORD_SIZE_LIMIT <= our_recv_limit e <= PROTO_MAX_INNER_PLAINTEXT;
  ew_peer : MIN_RECORD_SIZE_LIMIT <= peer_recv_limit e <= PROTO_MAX_INNER_PLAINTEXT;
  ew_state : match e_state e with EsWaitServerHello c => secrets_ok ft (wsh_secrets c) | _ => True end
}.

(** While the engine is open, the stage is consistent, the data phase uses the keys of its
    traffic secrets, and the handshake is reported only once it is over. *)
Definition engine_ok (e : TlsEngine) : Prop :=
  engine_wf e /\ (closed e = false ->
    ph_ok (ph e) /\ (pending_handshake_done e = true -> in_data_phase (e_state e) = true) /\
    match e_state e with
    | EsApp S_ c => ad_s_ap_keys c = Record_Keys S_ (ad_s_ap_ts c) /\ ad_c_ap_keys c = Record_Keys S_ (ad_c_ap_ts c)
    | _ => True
    end).

(** The bytes received and not yet framed, and the plaintext not yet read. *)
Definition buffered (e : TlsEngine) : bytes :=
  take (Z.to_nat (rs_filled (recv e) - rs_next_record (recv e))) (drop (Z.to_nat (rs_next_record (recv e))) (recv_record e)).
Definition parked (e : TlsEngine) : bytes :=
  take (Z.to_nat (rs_plain_end (recv e) - rs_plain_start (recv e))) (drop (Z.to_nat (rs_plain_start (recv e))) (recv_record e)).
(** The bytes queued and not yet acknowledged. *)
Definition pending (e : TlsEngine) : bytes :=
  take (Z.to_nat (send_pending_len e - send_acked e)) (drop (Z.to_nat (send_acked e)) (send_record e)).
End invariant.

(** Compute the fields of an updated engine. *)
Ltac fields := cbn [reassembler recv_record send_record e_state recv send_pending_len send_acked pending_handshake_done
  handshake_finished_pending_ack closed our_recv_limit peer_recv_limit ph set_state set_recv set_recv_record set_send_record
  set_reassembler set_send set_done set_closed set_peer_limit set_ph set_next_record TlsEngine_new
  rs_filled rs_plain_start rs_plain_end rs_next_record RecvState_new] in *.

(** An update of fields that the invariant still holds of. *)
Ltac wf_update Hwf := destruct Hwf; constructor; fields; try done; try lia.

Section framing.
Context `{Usize, HeaplessVec, HkdfSha256, SubtleCt, AeadBackend, KxBackend, MlKemSizes, MlDsaSizes}.
Context (ft : Features) (RECV SEND : Z).
Notation engine_wf := (engine_wf ft RECV SEND).

Lemma parked_false e : engine_wf e -> plaintext_parked (recv e) = false -> rs_plain_start (recv e) = rs_plain_end (recv e).
Proof. intros Hwf Hp%Z.ltb_ge. pose proof (ew_cursor _ _ _ _ Hwf). lia. Qed.

Lemma parked_nil e : engine_wf e -> plaintext_parked (recv e) = false -> parked e = [].
Proof. intros Hwf Hp. unfold parked. by rewrite (parked_false e Hwf Hp), Z.sub_diag. Qed.

(** [compact_recv] moves the unframed bytes to the front. *)
Lemma compact_spec e :
  engine_wf e -> plaintext_parked (recv e) = false -> 0 < rs_next_record (recv e) ->
  exists b, compact_recv e = (set_recv {| rs_filled := blen (buffered e); rs_plain_start := 0; rs_plain_end := 0; rs_next_record := 0 |}
                               (set_recv_record b e), Ok tt) /\
    bytes_ok b /\ blen b = RECV /\ take (length (buffered e)) b = buffered e.
Proof.
  intros Hwf Hp Hn. pose proof (ew_cursor _ _ _ _ Hwf) as Hc. pose proof (ew_recv _ _ _ _ Hwf) as Hr.
  set (n := rs_next_record (recv e)) in *. set (f := rs_filled (recv e)) in *.
  assert (blen (buffered e) = f - n) as Hb.
  { unfold buffered. fold n f. rewrite blen_take, blen_drop. lia. }
  unfold compact_recv, mbind, SM_bind, gets. cbn [id]. fold n. rewrite (proj2 (Z.eqb_neq n 0)) by lia. fold f.
  destruct (Z.ltb_spec 0 (f - n)) as [Hlt | Hle].
  - destruct (slice_in_range (recv_record e) n f) as [tail Ht]; [lia.. |]. rewrite Ht. run. unfold lift.
    pose proof Ht as (_ & _ & _ & Htl & Hte)%slice_Some_inv.
    assert (tail = buffered e) as -> by (by rewrite Hte).
    destruct (splice_in_range (recv_record e) 0 (buffered e)) as [b Hs]; [lia.. |]. rewrite Hs. run. unfold modify.
    exists b. rewrite Hb. pose proof Hs as (_ & _ & Hbl & Hbe)%splice_Some_inv.
    assert (b = buffered e ++ drop (length (buffered e)) (recv_record e)) as Hb' by (by rewrite Hbe).
    split_and!; [done | | lia |].
    + rewrite Hb', bytes_ok_app. pose proof (ew_bytes _ _ _ _ Hwf) as Hok. split; [| by apply Forall_drop].
      by apply Forall_take, Forall_drop.
    + rewrite Hb'. by rewrite take_app_length.
  - assert (buffered e = []) as Hnil by (apply blen_zero_nil; lia).
    exists (recv_record e). unfold mret, SM_ret, modify. rewrite Hnil. cbn [length take]. replace (f - n) with (blen (@nil Z)) by (rewrite blen_nil; lia).
    split_and!; [by destruct e | apply (ew_bytes _ _ _ _ Hwf) | done | done].
Qed.

Lemma buffered_len e : engine_wf e -> blen (buffered e) = rs_filled (recv e) - rs_next_record (recv e).
Proof. intros Hwf. pose proof (ew_cursor _ _ _ _ Hwf). pose proof (ew_recv _ _ _ _ Hwf). unfold buffered. rewrite blen_take, blen_drop. lia. Qed.

(** Only the receive cursors and buffer differ. *)
Definition same_but_recv (e e' : TlsEngine) : Prop := exists r b, e' = set_recv r (set_recv_record b e).

Lemma same_but_recv_refl e : same_but_recv e e.
Proof. exists (recv e), (recv_record e). by destruct e. Qed.

(** Asking for more bytes leaves the unframed ones in front of room for more. *)
Lemma need_spec e :
  engine_wf e -> plaintext_parked (recv e) = false -> blen (buffered e) < RECV ->
  wp (_ ← (if 0 <? rs_next_record (recv e) then compact_recv else mret tt); mret FrNeed)
    (fun fr e' => fr = FrNeed /\ engine_wf e' /\ buffered e' = buffered e /\ plaintext_parked (recv e') = false /\
       same_but_recv e e' /\ rs_filled (recv e') < RECV) (fun _ _ => False) e.
Proof.
  intros Hwf Hp Hb. pose proof (ew_cursor _ _ _ _ Hwf) as Hc. pose proof (ew_recv _ _ _ _ Hwf) as Hr.
  pose proof (buffered_len e Hwf) as Hbl.
  destruct (Z.ltb_spec 0 (rs_next_record (recv e))) as [Hn | Hn].
  - destruct (compact_spec e Hwf Hp Hn) as (b & Hcm & Hbok & Hbl' & Htk).
    unfold wp, mbind, SM_bind. rewrite Hcm. unfold mret, SM_ret. split_and!; [done | | | done | by eexists _, _ | fields; lia].
    + pose proof (blen_nonneg (buffered e)). wf_update Hwf.
    + unfold buffered at 1. fields. by rewrite Z.sub_0_r, drop_0, to_nat_blen, Htk.
  - unfold wp, mbind, SM_bind, mret, SM_ret. split_and!; try done; [apply same_but_recv_refl |]. lia.
Qed.

Lemma frame_spec e :
  engine_wf e -> TLS_HEADER <= RECV -> plaintext_parked (recv e) = false ->
  wp (frame_one_record RECV)
    (fun fr e' => engine_wf e' /\ buffered e' = buffered e /\ plaintext_parked (recv e') = false /\ same_but_recv e e' /\
       match fr with
       | FrNeed => rs_filled (recv e') < RECV
       | FrRecord start end_ ty len => e' = e /\ start = rs_next_record (recv e) /\ end_ = start + 5 + len /\ 0 <= len < U16 /\
           end_ <= rs_filled (recv e) /\ at_idx (recv_record e) start = Some ty
       end) (fun err e' => e' = e) e.
Proof.
  intros Hwf HR Hp. pose proof (ew_cursor _ _ _ _ Hwf) as Hc. pose proof (ew_recv _ _ _ _ Hwf) as Hr.
  unfold TLS_HEADER in HR. unfold frame_one_record. apply wp_bind, wp_gets. cbn [id]. rewrite Hp.
  pose proof (buffered_len e Hwf) as Hbl.
  set (n := rs_next_record (recv e)) in *. set (fi := rs_filled (recv e)) in *. unfold TLS_HEADER.
  destruct (Z.ltb_spec (fi - n) 5) as [Hlt | Hge].
  { eapply wp_weaken; [apply (need_spec e Hwf Hp); lia | | done].
    intros fr e' (-> & ? & ? & ? & ? & ?). by split_and!. }
  destruct (at_idx_in_range (recv_record e) n) as [ty Hty]; [lia |].
  destruct (at_idx_in_range (recv_record e) (n + 3)) as [l0 Hl0]; [lia |].
  destruct (at_idx_in_range (recv_record e) (n + 4)) as [l1 Hl1]; [lia |].
  apply wp_bind. eapply wp_or_panic; [exact Hty |]. apply wp_bind. eapply wp_or_panic; [exact Hl0 |].
  apply wp_bind. eapply wp_or_panic; [exact Hl1 |].
  pose proof (be16_bound l0 l1 (bytes_ok_at_idx _ _ _ (ew_bytes _ _ _ _ Hwf) Hl0) (bytes_ok_at_idx _ _ _ (ew_bytes _ _ _ _ Hwf) Hl1)) as Hlen.
  set (len := be16 l0 l1) in *. unfold saturating_sub.
  destruct (Z.ltb_spec (Z.max 0 (RECV - 5)) len) as [| Hfit]; [by apply wp_fail |].
  destruct (Z.ltb_spec fi (n + 5 + len)) as [Hshort | Hfull].
  { eapply wp_weaken; [apply (need_spec e Hwf Hp); lia | | done].
    intros fr e' (-> & ? & ? & ? & ? & ?). by split_and!. }
  apply wp_ret. split_and!; try done; apply same_but_recv_refl || apply Hlen.
Qed.
End framing.
