(* ===== verification/EngineData.v ===== *)
(** * The data phase of the engine

    The records one direction carries ([sealed_run]), what each operation of
    [client/engine.rs] does to them, and the runs of a data phase over arbitrary bytes from
    the transport. *)
From stdpp Require Import strings.
From S2P Require Import Prelude Deps Bytecopy Consts Aead Hkdf Kx Cert Identity TlsHello ServerFlight Reassembler ClientFlight Connection Engine.

(** ** Sealed runs

    What one direction of a connection carries: records sealed at consecutive positions, a
    position being a generation of the traffic secret and a sequence number.  A generation
    ends only with a handshake record. *)

Record entry := { en_content : bytes; en_type : Z; en_record : bytes }.

Section runs.
Context `{HkdfSha256, AeadBackend} (S_ : Suite) (ts0 : bytes).

Definition position_after (ct : Z) (p p1 : nat * Z) : Prop :=
  p1 = (p.1, (p.2 + 1) mod U64) \/ (ct = CT_HANDSHAKE /\ p1 = (S p.1, 0)).

Inductive sealed_run : nat * Z -> list entry -> nat * Z -> Prop :=
| sr_nil p : sealed_run p [] p
| sr_next p en p1 es p2 :
    @protects (cipher S_) (Record_Keys S_ (generation ts0 p.1)) p.2 (en_record en) (en_content en) (en_type en) ->
    position_after (en_type en) p p1 -> sealed_run p1 es p2 -> sealed_run p (en :: es) p2.

Lemma sealed_run_one p en p1 :
  @protects (cipher S_) (Record_Keys S_ (generation ts0 p.1)) p.2 (en_record en) (en_content en) (en_type en) ->
  position_after (en_type en) p p1 -> sealed_run p [en] p1.
Proof. intros Hp Hn. by econstructor; [| | constructor]. Qed.

Lemma sealed_run_app p es p1 es' p2 : sealed_run p es p1 -> sealed_run p1 es' p2 -> sealed_run p (es ++ es') p2.
Proof. induction 1 as [| ? ? ? ? ? Hp Hn Hr IH]; [done |]. intros Hr'. cbn [app]. econstructor; [done | done | by apply IH]. Qed.

(** The receiving and the sending half of a connection, at a position of a run. *)
Definition recv_at (p : nat * Z) (c : AppData) : Prop :=
  ad_s_ap_ts c = generation ts0 p.1 /\ ad_s_ap_keys c = Record_Keys S_ (ad_s_ap_ts c) /\ ad_seq_in c = p.2.
Definition send_at (p : nat * Z) (c : AppData) : Prop :=
  ad_c_ap_ts c = generation ts0 p.1 /\ ad_c_ap_keys c = Record_Keys S_ (ad_c_ap_ts c) /\ ad_seq_out c = p.2.
End runs.

Definition wire (es : list entry) : bytes := concat (en_record <$> es).
(** The application data of a run. *)
Definition app_bytes (es : list entry) : bytes := concat (en_content <$> filter (fun en => en_type en = CT_APPLICATION_DATA) es).

Lemma wire_app es es' : wire (es ++ es') = wire es ++ wire es'.
Proof. unfold wire. by rewrite fmap_app, concat_app. Qed.

Lemma app_bytes_app es es' : app_bytes (es ++ es') = app_bytes es ++ app_bytes es'.
Proof. unfold app_bytes. by rewrite filter_app, fmap_app, concat_app. Qed.

Lemma app_bytes_other en : en_type en <> CT_APPLICATION_DATA -> app_bytes [en] = [].
Proof. intros Ht. unfold app_bytes. by rewrite filter_cons_False. Qed.

Lemma app_bytes_data en : en_type en = CT_APPLICATION_DATA -> app_bytes [en] = en_content en.
Proof. intros Ht. unfold app_bytes. rewrite filter_cons_True by done. cbn. apply app_nil_r. Qed.

(** ** Staging *)

Lemma fill_stage_spec {E} fuel lim buf start len p i :
  lim <= PH_STAGE_MAX -> blen (ph_stage p) = PH_STAGE_MAX -> 0 <= ph_stage_len p <= lim -> lim - ph_stage_len p <= Z.of_nat fuel ->
  0 <= start -> 0 <= i <= len -> start + len <= blen buf ->
  let k := Z.min (lim - ph_stage_len p) (len - i) in
  exists p', fill_stage (E := E) fuel lim buf start len p i = Ok (p', i + k) /\
    blen (ph_stage p') = PH_STAGE_MAX /\ ph_stage_len p' = ph_stage_len p + k /\ ph_skip_remaining p' = ph_skip_remaining p /\
    (bytes_ok buf -> bytes_ok (ph_stage p) -> bytes_ok (ph_stage p')) /\
    take (Z.to_nat (ph_stage_len p')) (ph_stage p')
    = take (Z.to_nat (ph_stage_len p)) (ph_stage p) ++ take (Z.to_nat k) (drop (Z.to_nat (start + i)) buf).
Proof.
  intros Hlim. revert p i. induction fuel as [| fuel IH]; intros p i Hst Hsl Hf Hs Hi Hb k; unfold k; cbn [fill_stage].
  - destruct (Z.ltb_spec (ph_stage_len p) lim); [lia |]. cbn [andb negb]. exists p.
    rewrite Z.min_l by lia. replace (lim - ph_stage_len p) with 0 by lia. rewrite !Z.add_0_r. cbn [Z.to_nat take]. by rewrite app_nil_r.
  - destruct (Z.ltb_spec (ph_stage_len p) lim) as [Hlt |]; cbn [andb negb].
    2: { exists p. rewrite Z.min_l by lia. replace (lim - ph_stage_len p) with 0 by lia. rewrite !Z.add_0_r. cbn [Z.to_nat take]. by rewrite app_nil_r. }
    destruct (Z.ltb_spec i len) as [Hil |]; cbn [negb].
    2: { exists p. replace (len - i) with 0 by lia. rewrite Z.min_r, !Z.add_0_r by lia. cbn [Z.to_nat take]. by rewrite app_nil_r. }
    destruct (at_idx_in_range buf (start + i)) as [b Hbi]; [lia |]. rewrite Hbi. run.
    unfold PH_STAGE_MAX in *.
    destruct (splice_in_range (ph_stage p) (ph_stage_len p) [b]) as [stage Hsp]; [lia | change (blen [b]) with 1; lia |].
    rewrite Hsp. run. pose proof Hsp as (_ & _ & Hl & He)%splice_Some_inv.
    destruct (IH {| ph_stage := stage; ph_stage_len := ph_stage_len p + 1; ph_skip_remaining := ph_skip_remaining p |} (i + 1))
      as (p' & Hp' & H1' & H2' & H3' & H5' & H4'); cbn [ph_stage ph_stage_len ph_skip_remaining] in *; try lia.
    exists p'. set (k1 := Z.min (lim - (ph_stage_len p + 1)) (len - (i + 1))) in *.
    replace (Z.min (lim - ph_stage_len p) (len - i)) with (1 + k1) by lia.
    split_and!; [rewrite Hp'; do 2 f_equal; lia | done | lia | done | |].
    { intros Hb1 Hb2. apply H5'; [done |]. eapply bytes_ok_splice; [done | | exact Hsp]. constructor; [| constructor]. exact (bytes_ok_at_idx _ _ _ Hb1 Hbi). }
    rewrite H4', He. assert (Z.to_nat (ph_stage_len p + 1) = S (Z.to_nat (ph_stage_len p))) as -> by lia.
    assert (length (take (Z.to_nat (ph_stage_len p)) (ph_stage p)) = Z.to_nat (ph_stage_len p)) as Htl.
    { rewrite length_take. unfold blen in *. lia. }
    rewrite take_app_ge by lia. rewrite Htl. replace (S (Z.to_nat (ph_stage_len p)) - Z.to_nat (ph_stage_len p))%nat with 1%nat by lia.
    cbn [app take]. rewrite <- app_assoc. f_equal. unfold at_idx in Hbi. destruct (0 <=? start + i); [| done].
    apply drop_S in Hbi. rewrite Hbi. replace (Z.to_nat (1 + k1)) with (S (Z.to_nat k1)) by lia. cbn [app take].
    by replace (Z.to_nat (start + (i + 1))) with (S (Z.to_nat (start + i))) by lia.
Qed.

(** ** The data phase, operation by operation *)

Section data_specs.
Context `{Usize, HeaplessVec, HkdfSha256, SubtleCt, AeadBackend, KxBackend, MlKemSizes, MlDsaSizes}.
Context (ft : Features) (RECV SEND : Z) (S_ : Suite) (rts cts : bytes).
Notation engine_wf := (engine_wf ft RECV SEND).
Implicit Types (p q : nat * Z).

(** The connection is in its data phase, at these positions of the two directions. *)
Definition live p q (e : TlsEngine) : Prop :=
  exists c, e_state e = EsApp S_ c /\ recv_at S_ rts p c /\ send_at S_ cts q c.

(** The receive side of the engine is untouched. *)
Definition same_recv (e e' : TlsEngine) : Prop := recv e' = recv e /\ recv_record e' = recv_record e.

Lemma pending_nil e : engine_wf e -> is_send_pending e = false -> send_acked e = 0 /\ send_pending_len e = 0 /\ pending e = [].
Proof.
  intros Hwf Hp%Z.ltb_ge. pose proof (ew_pending _ _ _ _ Hwf) as Hs. assert (send_acked e = 0 /\ send_pending_len e = 0) as [Ha Hl] by lia.
  split_and!; [done | done |]. unfold pending. by rewrite Ha, Hl.
Qed.

(** A freshly queued record is what is pending. *)
Lemma pending_fresh e record out :
  send_record e = record ++ drop (length record) out -> send_pending_len e = blen record -> send_acked e = 0 -> pending e = record.
Proof.
  intros Ho Hl Ha. unfold pending. rewrite Ho, Hl, Ha, Z.sub_0_r, to_nat_blen. change (Z.to_nat 0) with O. rewrite drop_0. apply take_app_length.
Qed.

Lemma key_update_spec e p q b :
  engine_wf e -> is_send_pending e = false -> live p q e ->
  wp (process_key_update b)
    (fun _ e' => engine_wf e' /\ same_recv e e' /\ closed e' = closed e /\ ph e' = ph e /\
       exists q' es, live (S p.1, 0) q' e' /\ sealed_run S_ cts q es q' /\ pending e' = wire es /\ app_bytes es = [])
    (fun _ e' => engine_wf e' /\ same_recv e e' /\ pending e' = []) e.
Proof.
  intros Hwf Hnp (c & Hst & (Hrt & Hrk & Hrs) & (Hct & Hck & Hcs)).
  destruct (pending_nil e Hwf Hnp) as (Ha & Hl & Hpn). unfold process_key_update.
  apply wp_bind, wp_gets. rewrite Hst. pose proof (apply_recv_spec S_ c) as Hc.
  destruct (apply_recv_key_update S_ c) as [c1 | err |]; [cbn [map_err computes] in Hc; subst c1 | | by destruct Hc].
  2: { cbn [map_err]. apply wp_bind_fail. by split_and!. }
  cbn [map_err]. apply wp_bind_ok. apply wp_bind, wp_modify.
  set (c1 := {| ad_transcript := ad_transcript c |}).
  assert (recv_at S_ rts (S p.1, 0) c1 /\ send_at S_ cts q c1) as [Hr1 Hs1].
  { split; [| done]. unfold recv_at. cbn [fst snd generation c1 ad_s_ap_ts ad_s_ap_keys ad_seq_in]. by rewrite Hrt. }
  set (e1 := set_state (EsApp S_ c1) e). assert (engine_wf e1) as Hwf1 by (wf_update Hwf).
  destruct b; cbn [negb].
  2: { apply wp_ret. split_and!; [done | done | done | done |]. exists q, []. split_and!; [by exists c1 | constructor | done | done]. }
  apply wp_bind, wp_gets. change (id e1) with e1.
  pose proof (app_encrypt_spec S_ c1 (key_update_msg false) CT_HANDSHAKE (send_record e1) ltac:(done)) as He.
  change (encrypt_key_update S_ c1 false (send_record e1)) with (app_encrypt_record S_ c1 (key_update_msg false) CT_HANDSHAKE (send_record e1)).
  destruct (app_encrypt_record S_ c1 (key_update_msg false) CT_HANDSHAKE (send_record e1)) as [[[c2 out] record] | err |]; [| | done].
  2: { cbn [map_err]. apply wp_bind_fail. by split_and!. }
  destruct He as (Hp & Hrl & Hout & Hle & ->). change (send_record e1) with (send_record e) in *.
  assert (blen out = SEND) as Hol.
  { rewrite Hout, blen_app, blen_drop. pose proof (ew_send _ _ _ _ Hwf). unfold blen in *. lia. }
  cbn [map_err]. apply wp_bind_ok. apply wp_bind, wp_modify.
  set (c2 := set_seq_out _ c1). pose proof (apply_send_spec S_ c2) as Hc2.
  destruct (apply_send_key_update S_ c2) as [c3 | err |]; [cbn [map_err computes] in Hc2; subst c3 | | by destruct Hc2].
  2: { cbn [map_err]. apply wp_bind_fail. split_and!; [wf_update Hwf | done |]. unfold pending, e1. fields. by rewrite Ha, Hl. }
  cbn [map_err]. apply wp_bind_ok. apply wp_bind, wp_modify, wp_modify.
  set (c3 := {| ad_transcript := ad_transcript c2 |}).
  change (ad_seq_out c1) with (ad_seq_out c) in *. change (ad_c_ap_keys c1) with (ad_c_ap_keys c) in *.
  split_and!; [| done | done | done |].
  - change (blen (key_update_msg false)) with 5 in Hrl. pose proof (ew_send _ _ _ _ Hwf). wf_update Hwf.
  - exists (S q.1, 0), [{| en_content := key_update_msg false; en_type := CT_HANDSHAKE; en_record := record |}]. split_and!.
    + exists c3. split; [done |]. split; [done |]. unfold send_at. cbn. by rewrite Hct.
    + apply sealed_run_one; cbn [en_record en_content en_type]; [| by right]. by rewrite <- Hct, <- Hck, <- Hcs.
    + unfold wire. cbn [fmap list_fmap concat]. rewrite app_nil_r. eapply pending_fresh; [exact Hout | done | done].
    + done.
Qed.

(** What handling the content of a record leaves: at most one key update of the peer, and
    our answer to it queued. *)
Definition handled p q (e e' : TlsEngine) : Prop :=
  exists p' q' es, live p' q' e' /\ (p' = p \/ p' = (S p.1, 0)) /\ sealed_run S_ cts q es q' /\ pending e' = wire es /\ app_bytes es = [].

Lemma handled_same p q e e' : live p q e' -> pending e' = [] -> handled p q e e'.
Proof. intros Hl Hp. exists p, q, []. split_and!; [done | by left | constructor | done | done]. Qed.

Lemma set_ph_spec p q e x : engine_wf e -> live p q e -> engine_wf (set_ph x e) /\ live p q (set_ph x e).
Proof. intros Hwf Hl. split; [wf_update Hwf | exact Hl]. Qed.

Lemma stage_four (p : PostHandshakeReasm) :
  blen (ph_stage p) = PH_STAGE_MAX -> exists a b c d f, ph_stage p = [a; b; c; d; f].
Proof.
  unfold PH_STAGE_MAX. intros Hl. destruct (ph_stage p) as [| a [| b [| c [| d [| f [| ? l]]]]]]; try (unfold blen in Hl; cbn [length] in Hl; lia). eauto 6.
Qed.

(** A staged KeyUpdate header takes the byte that follows, and the update is applied when
    it is the last byte of its record. *)
Lemma feed_key_update_spec body start len x i e p q :
  engine_wf e -> is_send_pending e = false -> live p q e ->
  0 <= start -> 0 <= i <= len -> start + len <= RECV ->
  blen (ph_stage x) = PH_STAGE_MAX -> bytes_ok (ph_stage x) -> ph_stage_len x = 4 -> ph_skip_remaining x = 0 ->
  (exists b c d f, ph_stage x = [HS_KEY_UPDATE; b; c; d; f] /\ body = be24 b c d) ->
  wp (feed_key_update body (recv_record e) start len x i)
    (fun _ e' => engine_wf e' /\ same_recv e e' /\ closed e' = closed e /\ ph_ok (ph e') /\ handled p q e e')
    (fun _ e' => engine_wf e' /\ same_recv e e' /\ pending e' = []) (set_ph x e).
Proof.
  intros Hwf Hnp Hl Hs Hi Hb Hst Hsb Hfour Hsk (b & c & d & f & Hstage & Hbe).
  destruct (pending_nil e Hwf Hnp) as (Ha & Hpl & Hpn). pose proof (ew_recv _ _ _ _ Hwf) as Hr. pose proof (ew_bytes _ _ _ _ Hwf) as Hrb.
  assert (forall y, engine_wf (set_ph y e) /\ same_recv e (set_ph y e) /\ pending (set_ph y e) = []) as Herr.
  { intros y. destruct (set_ph_spec p q e y Hwf Hl). by split_and!. }
  unfold feed_key_update. destruct (Z.eqb_spec body 1) as [Hbody1 | _]; cbn [negb]; [| apply wp_fail, Herr].
  assert (b = 0 /\ c = 0 /\ d = 1) as (-> & -> & ->).
  { rewrite Hstage in Hsb. unfold bytes_ok in Hsb. repeat (apply Forall_cons in Hsb as [? Hsb]).
    rewrite Hbe, be24_eq in Hbody1. unfold is_u8, U8 in *. lia. }
  destruct (fill_stage_spec (E := HandshakeError) 5 PH_STAGE_MAX (recv_record e) start len x i)
    as (p2 & -> & Hst2 & Hsl2 & Hsk2 & Hsb2 & Htk2); [done | done | unfold PH_STAGE_MAX; lia.. |].
  rewrite Hfour in Hsl2, Htk2 |- *. specialize (Hsb2 Hrb Hsb).
  change (PH_STAGE_MAX - 4) with 1 in *. set (k2 := Z.min 1 (len - i)) in *.
  apply wp_bind_ok, wp_bind, wp_modify. change (set_ph p2 (set_ph x e)) with (set_ph p2 e). change PH_STAGE_MAX with 5.
  destruct (Z.ltb_spec (ph_stage_len p2) 5) as [Hpart | Hfull2].
  { apply wp_ret. destruct (Herr p2) as (? & ? & ?). split_and!; try done; [| by apply handled_same].
    unfold ph_ok. cbn [set_ph ph]. split_and!; try done; try (unfold U24; lia). intros H4'. rewrite H4' in Htk2. change (Z.to_nat 4) with 4%nat in Htk2.
    replace k2 with 0 in Htk2 by lia. by rewrite Hstage in Htk2. }
  destruct (Z.eqb_spec (i + k2) len) as [Hend | _]; cbn [negb]; [| apply wp_fail, Herr].
  destruct (stage_four p2 Hst2) as (a2 & b2 & c2 & d2 & f2 & Hstage2). rewrite Hstage2.
  apply wp_bind. eapply wp_or_panic; [reflexivity |].
  set (y := set_stage_len 0 p2). change (set_ph y (set_ph p2 e)) with (set_ph y e).
  assert (ph_ok y) as Hy.
  { unfold ph_ok, y. cbn [set_stage_len ph_stage ph_stage_len ph_skip_remaining]. split_and!; try done; unfold U24; lia. }
  assert (forall b, wp (process_key_update b)
    (fun _ e' => engine_wf e' /\ same_recv e e' /\ closed e' = closed e /\ ph_ok (ph e') /\ handled p q e e')
    (fun _ e' => engine_wf e' /\ same_recv e e' /\ pending e' = []) (set_ph y e)) as Hkey.
  { intros b0. eapply wp_weaken; [apply (key_update_spec (set_ph y e) p q b0 (proj1 (Herr y)) Hnp Hl) | | done].
    intros _ e' (? & ? & ? & Hphe & q' & es & ? & ? & ? & ?). split_and!; try done; [by rewrite Hphe |].
    exists (S p.1, 0), q', es. split_and!; try done. by right. }
  destruct (Z.eqb_spec f2 0) as [_ | _]; [by apply wp_bind, wp_modify |].
  destruct (Z.eqb_spec f2 1) as [_ | _]; [by apply wp_bind, wp_modify | apply wp_fail, Herr].
Qed.

(** The stage with a complete header that is not a key update's is emptied. *)
Lemma feed_post_handshake_loop_spec fuel start len i e p q :
  engine_wf e -> is_send_pending e = false -> live p q e -> ph_ok (ph e) ->
  0 <= start -> 0 <= i <= len -> start + len <= RECV -> len < U16 -> (Z.to_nat (len - i) < fuel)%nat ->
  wp (feed_post_handshake_loop fuel start len i)
    (fun _ e' => engine_wf e' /\ same_recv e e' /\ closed e' = closed e /\ ph_ok (ph e') /\ handled p q e e')
    (fun _ e' => engine_wf e' /\ same_recv e e' /\ pending e' = []) e.
Proof.
  revert i e. induction fuel as [| fuel IH]; intros i e Hwf Hnp Hl Hph Hs Hi Hb Hlen Hf; [lia |].
  destruct (pending_nil e Hwf Hnp) as (Ha & Hpl & Hpn). pose proof (ew_recv _ _ _ _ Hwf) as Hr. pose proof (ew_bytes _ _ _ _ Hwf) as Hrb.
  cbn [feed_post_handshake_loop]. apply wp_bind, wp_gets. cbv zeta.
  unfold as_u32. rewrite !(Z.mod_small (len - i)) by (unfold U16, U32 in *; lia).
  destruct Hph as (Hst & Hsb & Hsl & Hsk & Hku & Hsk0).
  set (n := if 0 <? ph_skip_remaining (ph e) then _ else 0).
  assert (0 <= n <= len - i /\ n <= ph_skip_remaining (ph e) /\ (n = len - i \/ n = ph_skip_remaining (ph e))) as Hn.
  { unfold n. destruct (Z.ltb_spec 0 (ph_skip_remaining (ph e))); lia. }
  set (p0 := set_skip (ph_skip_remaining (ph e) - n) (ph e)).
  apply wp_bind, wp_modify. set (e1 := set_ph p0 e).
  assert (forall x, engine_wf (set_ph x e) /\ live p q (set_ph x e) /\ pending (set_ph x e) = []) as Hset.
  { intros x. destruct (set_ph_spec p q e x Hwf Hl). by split_and!. }
  assert (forall x, engine_wf (set_ph x e) /\ same_recv e (set_ph x e) /\ pending (set_ph x e) = []) as Herr.
  { intros x. destruct (Hset x) as (? & _ & ?). by split_and!. }
  change (ph_skip_remaining p0) with (ph_skip_remaining (ph e) - n).
  destruct (Z.ltb_spec 0 (ph_skip_remaining (ph e) - n)) as [Hmore | Hdone].
  { apply wp_ret. destruct (Hset p0) as (? & ? & ?). split_and!; try done; [| by apply handled_same].
    unfold ph_ok. cbn [p0 ph_stage ph_stage_len ph_skip_remaining set_skip e1 set_ph ph]. split_and!; try done; try lia. }
  apply wp_bind, wp_gets. change (recv_record e1) with (recv_record e).
  destruct (fill_stage_spec (E := HandshakeError) 4 4 (recv_record e) start len p0 (i + n)) as (p1 & -> & Hst1 & Hsl1 & Hsk1 & Hsb1 & Htk1);
    [done | done | done | cbn [p0 set_skip ph_stage_len]; lia.. |].
  cbn [p0 set_skip ph_stage ph_stage_len ph_skip_remaining] in Hst1, Hsl1, Hsk1, Hsb1, Htk1. specialize (Hsb1 Hrb Hsb).
  change (ph_stage_len p0) with (ph_stage_len (ph e)).
  set (k := Z.min (4 - ph_stage_len (ph e)) (len - (i + n))) in *.
  apply wp_bind_ok, wp_bind, wp_modify. change (set_ph p1 e1) with (set_ph p1 e).
  destruct (Z.ltb_spec (ph_stage_len p1) 4) as [Hpart | Hfull].
  { apply wp_ret. destruct (Hset p1) as (? & ? & ?). split_and!; try done; [| by apply handled_same].
    unfold ph_ok. cbn [set_ph ph]. split_and!; try done; lia. }
  assert (ph_stage_len p1 = 4) as Hfour by lia. rewrite Hfour in Htk1. change (Z.to_nat 4) with 4%nat in Htk1.
  destruct (stage_four p1 Hst1) as (a & b & c & d & f & Hstage). rewrite Hstage in *.
  assert (is_u8 b /\ is_u8 c /\ is_u8 d) as (Hub & Huc & Hud).
  { unfold bytes_ok in Hsb1. by repeat (apply Forall_cons in Hsb1 as [? Hsb1]). }
  do 4 (apply wp_bind; eapply wp_or_panic; [reflexivity |]). cbv zeta.
  pose proof (be24_bound b c d Hub Huc Hud) as Hbody. set (body := be24 b c d) in *. unfold is_u24 in Hbody.
  destruct (Z.eqb_spec a HS_NEW_SESSION_TICKET) as [-> | _].
  { assert (ph_stage_len (ph e) < 4) as Hlt4.
    { destruct (Z.eq_dec (ph_stage_len (ph e)) 4) as [He |]; [| lia]. rewrite He in Htk1. change (Z.to_nat 4) with 4%nat in Htk1. by rewrite (Hku He) in Htk1. }
    rewrite (Z.mod_small (len - (i + n + k))) by (unfold U16, U32 in *; lia). set (m := Z.min body (len - (i + n + k))).
    destruct (Z.ltb_spec m body) as [Hcut | Hall].
    - apply wp_modify. set (x := set_skip (body - m) _). change (set_ph x (set_ph p1 e)) with (set_ph x e).
      destruct (Hset x) as (? & ? & ?). split_and!; try done; [| by apply handled_same].
      unfold ph_ok. cbn [set_ph ph x set_skip set_stage_len ph_stage ph_stage_len ph_skip_remaining]. rewrite Hstage. split_and!; try done; lia.
    - apply wp_bind, wp_modify. set (x := set_stage_len 0 p1). change (set_ph x (set_ph p1 e)) with (set_ph x e).
      destruct (Hset x) as (? & ? & ?). eapply wp_weaken; [apply IH; try done; [| unfold m; lia | unfold m; lia] | |].
      + unfold ph_ok. cbn [set_ph ph x set_stage_len ph_stage ph_stage_len ph_skip_remaining]. rewrite Hstage. split_and!; try done; lia.
      + done.
      + done. }
  destruct (Z.eqb_spec a HS_KEY_UPDATE) as [-> | _]; [| apply wp_fail, Herr].
  change (recv_record e1) with (recv_record e).
  apply feed_key_update_spec; rewrite ?Hstage; try done; [.. | by exists b, c, d, f]; lia.
Qed.

(** A store keeps what follows it. *)
Lemma drop_splice (l : bytes) a src l' b : splice l a src = Some l' -> a + blen src <= b -> drop (Z.to_nat b) l' = drop (Z.to_nat b) l.
Proof.
  intros (Ha & Hb & _ & ->)%splice_Some_inv Hle. pose proof (blen_nonneg src). unfold blen in *.
  replace (Z.to_nat b) with (length (take (Z.to_nat a) l ++ src) + (Z.to_nat b - (Z.to_nat a + length src)))%nat.
  2: { rewrite length_app, length_take. lia. }
  rewrite app_assoc, <- drop_drop, drop_app_length, drop_drop. f_equal. rewrite length_app, length_take. lia.
Qed.

(** A slice of what was stored. *)
Lemma slice_splice (l : bytes) a src l' x y : splice l a src = Some l' -> 0 <= x -> y <= blen src -> slice l' (a + x) (a + y) = slice src x y.
Proof.
  intros (Ha & Hb & _ & ->)%splice_Some_inv Hx Hy. pose proof (blen_nonneg src).
  assert (a = blen (take (Z.to_nat a) l)) as Hta by (rewrite blen_take; lia).
  set (t := take (Z.to_nat a) l) in *. set (r := drop _ l). rewrite Hta.
  rewrite slice_app_r by done. by apply slice_app_l.
Qed.

(** The record at a range of the receive buffer. *)
Definition record_at (e : TlsEngine) (start end_ : Z) : bytes := take (Z.to_nat (end_ - start)) (drop (Z.to_nat start) (recv_record e)).

(** Consuming a record leaves the bytes that follow it. *)
Lemma buffered_next e e' end_ :
  0 <= rs_next_record (recv e) -> rs_next_record (recv e) <= end_ <= rs_filled (recv e) ->
  drop (Z.to_nat end_) (recv_record e') = drop (Z.to_nat end_) (recv_record e) ->
  rs_filled (recv e') = rs_filled (recv e) -> rs_next_record (recv e') = end_ ->
  buffered e = record_at e (rs_next_record (recv e)) end_ ++ buffered e'.
Proof.
  intros H0' He Hd Hf Hn. unfold buffered, record_at. rewrite Hf, Hn, Hd. set (start := rs_next_record (recv e)) in *.
  replace (Z.to_nat end_) with (Z.to_nat start + Z.to_nat (end_ - start))%nat by lia. rewrite <- drop_drop.
  replace (Z.to_nat (rs_filled (recv e) - start)) with (Z.to_nat (end_ - start) + Z.to_nat (rs_filled (recv e) - end_))%nat by lia.
  by rewrite take_take_drop.
Qed.

Lemma decrypt_current_spec e p q start end_ :
  engine_wf e -> live p q e -> 0 <= start -> start <= end_ -> end_ <= RECV ->
  wp (decrypt_current_data_record start end_)
    (fun '(n, ct) e' => engine_wf e' /\ live (p.1, (p.2 + 1) mod U64) q e' /\ exists b c content,
       e' = set_state (EsApp S_ c) (set_recv_record b e) /\ blen content = n /\ start + 5 + n <= end_ /\
       slice b (start + 5) (start + 5 + n) = Some content /\ drop (Z.to_nat end_) b = drop (Z.to_nat end_) (recv_record e) /\
       @protects (cipher S_) (Record_Keys S_ (generation rts p.1)) p.2 (record_at e start end_) content ct)
    (fun _ e' => engine_wf e' /\ exists b c, e' = set_state (EsApp S_ c) (set_recv_record b e)) e.
Proof.
  intros Hwf (c & Hst & (Hrt & Hrk & Hrs) & Hsend) Hs Hse He. pose proof (ew_recv _ _ _ _ Hwf) as Hr. pose proof (ew_bytes _ _ _ _ Hwf) as Hrb.
  unfold decrypt_current_data_record. apply wp_bind, wp_gets. cbn [id]. rewrite Hst.
  destruct (slice_in_range (recv_record e) start end_) as [record Hrec]; [lia.. |].
  apply wp_bind. eapply wp_or_panic; [exact Hrec |].
  pose proof (bytes_ok_slice _ _ _ _ Hrb Hrec) as Hok. pose proof Hrec as (_ & _ & _ & Hrl & Hre)%slice_Some_inv.
  pose proof (app_decrypt_spec S_ c record Hok) as Hd.
  destruct (app_decrypt_record_inplace S_ c record) as [[c' record'] res]. destruct Hd as (Hl & Hb & Hd).
  destruct (splice_in_range (recv_record e) start record') as [b Hsp]; [lia.. |].
  apply wp_bind. eapply wp_or_panic; [exact Hsp |]. apply wp_bind, wp_modify.
  pose proof (bytes_ok_splice _ _ _ _ Hrb Hb Hsp) as Hbok. pose proof Hsp as (_ & _ & Hbl & _)%splice_Some_inv.
  assert (engine_wf (set_state (EsApp S_ c') (set_recv_record b e))) as Hwf' by (wf_update Hwf).
  destruct res as [[n ct] | err |]; [| cbn [map_err]; apply wp_fail; split; [done | by exists b, c'] | done].
  destruct Hd as (content & Hn & Hsl & Hp & ->). cbn [map_err]. split; [exact Hwf' |]. split.
  { exists (set_seq_in ((ad_seq_in c + 1) mod U64) c). split_and!; [done | | done..].
    unfold recv_at. cbn [fst snd set_seq_in ad_s_ap_ts ad_s_ap_keys ad_seq_in]. by rewrite Hrs. }
  pose proof Hsl as (_ & Hn0 & Hn1 & _)%slice_Some_inv.
  exists b, (set_seq_in ((ad_seq_in c + 1) mod U64) c), content. split_and!; try done; [lia | | |].
  - rewrite <- !Z.add_assoc. rewrite (slice_splice _ _ _ _ _ _ Hsp) by lia. done.
  - apply (drop_splice _ _ _ _ _ Hsp). lia.
  - unfold record_at. rewrite <- Hre, <- Hrt, <- Hrk, <- Hrs. done.
Qed.

(** The content of a record: application data is parked, an alert ends the connection, and
    handshake messages are walked. *)
Lemma handle_inner_spec e p q body n ct content :
  engine_wf e -> is_send_pending e = false -> plaintext_parked (recv e) = false -> live p q e -> ph_ok (ph e) -> closed e = false ->
  0 <= body -> body + n <= rs_next_record (recv e) -> n < U16 -> slice (recv_record e) body (body + n) = Some content ->
  wp (handle_inner_content body n ct)
    (fun _ e' => engine_wf e' /\ recv_record e' = recv_record e /\ rs_filled (recv e') = rs_filled (recv e) /\
       rs_next_record (recv e') = rs_next_record (recv e) /\ ph_ok (ph e') /\
       parked e' = (if ct =? CT_APPLICATION_DATA then content else []) /\
       exists p' q' es, live p' q' e' /\ (p' = p \/ ct = CT_HANDSHAKE /\ p' = (S p.1, 0)) /\ sealed_run S_ cts q es q' /\ pending e' = wire es /\ app_bytes es = [])
    (fun _ e' => engine_wf e' /\ parked e' = [] /\ pending e' = []) e.
Proof.
  intros Hwf Hnp Hpk Hl Hph Hcl Hb Hn Hn16 Hc. pose proof (ew_recv _ _ _ _ Hwf) as Hr. pose proof (ew_cursor _ _ _ _ Hwf) as Hcur.
  pose proof (parked_nil _ _ _ e Hwf Hpk) as Hpn. destruct (pending_nil e Hwf Hnp) as (Ha & Hpl & Hsn).
  pose proof Hc as (_ & Hn0 & _ & Hcl' & Hce)%slice_Some_inv.
  assert (exists p' q' es, live p' q' e /\ (p' = p \/ ct = CT_HANDSHAKE /\ p' = (S p.1, 0)) /\ sealed_run S_ cts q es q' /\ pending e = wire es /\ app_bytes es = []) as Hsame.
  { exists p, q, []. split_and!; [done | by left | constructor | done | done]. }
  unfold handle_inner_content. apply wp_bind, wp_gets. cbn [id].
  destruct (negb (ct =? CT_HANDSHAKE) && in_progress (ph e)); [by apply wp_fail |].
  destruct (Z.eqb_spec ct CT_APPLICATION_DATA) as [-> | Hnad].
  { destruct (Z.ltb_spec 0 n) as [Hpos | Hz].
    - apply wp_modify. split_and!; try done. wf_update Hwf.
    - apply wp_ret. split_and!; try done. rewrite Hpn. symmetry. apply blen_zero_nil. lia. }
  destruct (Z.eqb_spec ct CT_ALERT) as [-> | Hnal].
  { destruct (Z.ltb_spec n 2); [by apply wp_fail |].
    destruct (at_idx_in_range (recv_record e) body) as [lv Hlv]; [lia |]. destruct (at_idx_in_range (recv_record e) (body + 1)) as [ds Hds]; [lia |].
    apply wp_bind. eapply wp_or_panic; [exact Hlv |]. apply wp_bind. eapply wp_or_panic; [exact Hds |].
    destruct ((lv =? 1) && (ds =? 0)); [| by apply wp_fail]. apply wp_modify. split_and!; try done. wf_update Hwf. }
  destruct (Z.eqb_spec ct CT_HANDSHAKE) as [-> | _]; [| by apply wp_fail].
  eapply wp_weaken; [apply (feed_post_handshake_loop_spec _ body n 0 e p q); try done; lia | |].
  - intros _ e' (Hwf' & [Hrv Hrr] & _ & Hph' & p' & q' & es & Hl' & Hp' & Hrun & Hpend & Hnil).
    split_and!; try done; [by rewrite Hrv.. | unfold parked; rewrite Hrv, Hrr; exact Hpn |].
    exists p', q', es. split_and!; try done. destruct Hp'; [by left | by right].
  - intros err e' (Hwf' & [Hrv Hrr] & Hpend). split_and!; try done. unfold parked; rewrite Hrv, Hrr; exact Hpn.
Qed.

(** One record: it is authentic at its position, its application data is parked, and our
    answer to a key update is queued; or the engine closes with nothing to deliver or send. *)
Lemma dispatch_data_record_spec e p q start len outer :
  engine_wf e -> is_send_pending e = false -> plaintext_parked (recv e) = false -> live p q e -> ph_ok (ph e) -> closed e = false ->
  start = rs_next_record (recv e) -> 0 <= len < U16 -> start + 5 + len <= rs_filled (recv e) ->
  wp (dispatch_data_record start (start + 5 + len) outer)
    (fun _ e' => engine_wf e' /\ ph_ok (ph e') /\ rs_filled (recv e') = rs_filled (recv e) /\ rs_next_record (recv e') = start + 5 + len /\
       exists en p' q' es, sealed_run S_ rts p [en] p' /\ buffered e = en_record en ++ buffered e' /\ parked e' = app_bytes [en] /\
         live p' q' e' /\ sealed_run S_ cts q es q' /\ pending e' = wire es /\ app_bytes es = [])
    (fun _ e' => engine_wf e' /\ closed e' = true /\ parked e' = [] /\ pending e' = []) e.
Proof.
  intros Hwf Hnp Hpk Hl Hph Hcl Hs Hlen Hfill. set (end_ := start + 5 + len) in *.
  pose proof (ew_recv _ _ _ _ Hwf) as Hr. pose proof (ew_cursor _ _ _ _ Hwf) as Hcur.
  pose proof (parked_nil _ _ _ e Hwf Hpk) as Hpn. destruct (pending_nil e Hwf Hnp) as (Ha & Hpl & Hsn).
  enough (wp (dispatch_data_record_inner start end_ outer)
    (fun _ e' => engine_wf e' /\ ph_ok (ph e') /\ rs_filled (recv e') = rs_filled (recv e) /\ rs_next_record (recv e') = end_ /\
       exists en p' q' es, sealed_run S_ rts p [en] p' /\ buffered e = en_record en ++ buffered e' /\ parked e' = app_bytes [en] /\
         live p' q' e' /\ sealed_run S_ cts q es q' /\ pending e' = wire es /\ app_bytes es = [])
    (fun _ e' => engine_wf e' /\ parked e' = [] /\ pending e' = []) e) as Hin.
  { unfold wp, dispatch_data_record in *. destruct (dispatch_data_record_inner start end_ outer e) as [e' [[] | err |]]; try done.
    destruct Hin as (Hwf' & ? & ?). split_and!; try done. wf_update Hwf'. }
  unfold dispatch_data_record_inner. destruct (outer =? CT_APPLICATION_DATA); cbn [negb]; [| by apply wp_fail].
  apply wp_bind, wp_gets. cbv zeta. destruct (_ <? _); [by apply wp_fail |].
  apply wp_bind. eapply wp_weaken; [apply (decrypt_current_spec e p q start end_ Hwf Hl); lia | |].
  2: { intros err e' (Hwf' & b & c & ->). split_and!; [done | unfold parked; fields | done].
       by rewrite (parked_false _ _ _ e Hwf Hpk), Z.sub_diag. }
  intros [n ct] e1 (Hwf1 & Hl1 & b & c & content & -> & Hn & Hfit & Hbody & Hdrop & Hp).
  apply wp_bind, wp_modify. set (e1 := set_state (EsApp S_ c) (set_recv_record b e)) in *. set (e2 := set_next_record end_ e1).
  assert (engine_wf e2) as Hwf2 by (unfold e2, e1 in *; wf_update Hwf1). pose proof (blen_nonneg content).
  change TLS_HEADER with 5. eapply wp_weaken; [apply (handle_inner_spec e2 (p.1, (p.2 + 1) mod U64) q _ n ct content); try done; unfold e2, e1; fields; lia | | done].
  intros _ e' (Hwf' & Hrr & Hfi & Hne & Hph' & Hpark & p' & q' & es & Hl' & Hp' & Hrun & Hpend & Hnil).
  split_and!; try done. exists {| en_content := content; en_type := ct; en_record := record_at e start end_ |}, p', q', es.
  split_and!; try done.
  - apply sealed_run_one; [exact Hp |]. cbn [en_type]. destruct Hp' as [-> | [-> ->]]; [by left | by right].
  - cbn [en_record]. rewrite Hs. apply buffered_next; [lia | lia | by rewrite Hrr | by rewrite Hfi | by rewrite Hne].
  - rewrite Hpark. destruct (Z.eqb_spec ct CT_APPLICATION_DATA) as [-> | Hne']; [by rewrite app_bytes_data | by rewrite app_bytes_other].
Qed.

(** While the engine is open, it is live at these positions. *)
Definition open_at p q (e : TlsEngine) : Prop := closed e = false -> live p q e /\ ph_ok (ph e).

(** [e'] follows [e] by processing the records [ins] and queueing the records [outs]. *)
Record advanced p q (e : TlsEngine) (ins outs : list entry) p' q' (e' : TlsEngine) : Prop := {
  av_wf : engine_wf e';
  av_closed : closed e = true -> ins = [] /\ outs = [] /\ closed e' = true;
  av_open : open_at p' q' e';
  av_ins : sealed_run S_ rts p ins p';
  av_outs : sealed_run S_ cts q outs q';
  av_parked : parked e' = parked e ++ app_bytes ins;
  av_pending : pending e' = pending e ++ wire outs;
  av_buffered : exists rest, buffered e = wire ins ++ rest /\ (closed e' = false -> rest = buffered e')
}.

Lemma advanced_refl p q e : engine_wf e -> open_at p q e -> advanced p q e [] [] p q e.
Proof.
  intros Hwf Ho. constructor; [done | done | done | constructor | constructor | by rewrite app_nil_r.. | by exists (buffered e)].
Qed.

(** What an event tells the wrapper. *)
Definition event_ok (ev : EngineEvent) (e : TlsEngine) : Prop :=
  match ev with
  | EvSend n => n = blen (pending e) /\ 0 < n
  | EvRecv => plaintext_parked (recv e) = false /\ rs_filled (recv e) < RECV
  | EvAppData => parked e <> []
  | EvHandshakeDone => closed e = false -> in_data_phase (e_state e) = true
  | EvClosed => closed e = true
  end.

Lemma parked_len e : engine_wf e -> blen (parked e) = rs_plain_end (recv e) - rs_plain_start (recv e).
Proof. intros Hwf. pose proof (ew_cursor _ _ _ _ Hwf). pose proof (ew_recv _ _ _ _ Hwf). unfold parked. rewrite blen_take, blen_drop. lia. Qed.

Lemma pending_len e : engine_wf e -> blen (pending e) = send_pending_len e - send_acked e.
Proof. intros Hwf. pose proof (ew_pending _ _ _ _ Hwf). pose proof (ew_send _ _ _ _ Hwf). unfold pending. rewrite blen_take, blen_drop. lia. Qed.

Lemma send_event e : engine_wf e -> is_send_pending e = true -> event_ok (EvSend (send_pending_len e - send_acked e)) e.
Proof. intros Hwf Hp%Z.ltb_lt. unfold event_ok. rewrite pending_len by done. lia. Qed.

Lemma data_event e : engine_wf e -> plaintext_parked (recv e) = true -> event_ok EvAppData e.
Proof. intros Hwf Hp%Z.ltb_lt Hn. pose proof (parked_len e Hwf) as Hl. rewrite Hn, blen_nil in Hl. lia. Qed.

Lemma step_loop_spec fuel e p q :
  TLS_HEADER <= RECV -> engine_wf e -> open_at p q e -> (Z.to_nat (rs_filled (recv e) - rs_next_record (recv e)) < fuel)%nat ->
  wp (step_loop RECV fuel)
    (fun ev e' => event_ok ev e' /\ exists ins outs p' q', advanced p q e ins outs p' q' e' /\ app_bytes outs = [])
    (fun _ e' => exists ins outs p' q', advanced p q e ins outs p' q' e' /\ app_bytes outs = []) e.
Proof.
  intros HR. revert e p q. induction fuel as [| fuel IH]; intros e p q Hwf Hopen Hf; [lia |].
  assert (exists ins outs p' q', advanced p q e ins outs p' q' e /\ app_bytes outs = []) as Hrefl.
  { exists [], [], p, q. split; [by apply advanced_refl | done]. }
  cbn [step_loop]. apply wp_bind, wp_gets. cbn [id].
  destruct (is_send_pending e) eqn:Hnp; [apply wp_ret; split; [by apply send_event | done] |].
  destruct (plaintext_parked (recv e)) eqn:Hpk; [apply wp_ret; split; [by apply data_event | done] |].
  destruct (closed e) eqn:Hcl; [apply wp_ret; split; [done | done] |].
  destruct (Hopen Hcl) as [Hl Hph]. pose proof (parked_nil _ _ _ e Hwf Hpk) as Hpn. destruct (pending_nil e Hwf Hnp) as (Ha & Hpl & Hsn).
  apply wp_bind. eapply wp_weaken; [apply (frame_spec _ _ _ e Hwf HR Hpk) | | by intros err e' ->].
  intros fr e0 (Hwf0 & Hb0 & Hpk0 & (r & b & Hsame) & Hfr). destruct fr as [start end_ ty len |].
  2: { apply wp_ret. split; [done |]. exists [], [], p, q. split; [| done]. subst e0. constructor; try done.
       - constructor. - constructor. - rewrite Hpn. by apply (parked_nil ft RECV SEND). - by rewrite app_nil_r.
       - exists (buffered e). by rewrite Hb0. }
  destruct Hfr as (-> & Hstart & -> & Hlen & Hfi & Hty).
  apply wp_bind. eapply wp_weaken; [by apply (dispatch_data_record_spec e p q start len ty) | |].
  - intros _ e1 (Hwf1 & Hph1 & Hfi1 & Hn1 & en & p1 & q1 & es & Hin & Hbuf & Hpark & Hl1 & Hout & Hpend & Hnil1).
    assert (forall ins outs p' q' e', advanced p1 q1 e1 ins outs p' q' e' -> advanced p q e (en :: ins) (es ++ outs) p' q' e') as Htrans.
    { intros ins outs p' q' e' [? ? ? Hi Ho Hpa Hpe (rest & Hr & Hrest)]. constructor; try done.
      - congruence.
      - by apply (sealed_run_app _ _ _ [en] p1). - by eapply sealed_run_app.
      - by rewrite Hpa, Hpark, Hpn, <- app_bytes_app. - by rewrite Hpe, Hpend, Hsn, wire_app.
      - exists rest. split; [| done]. by rewrite Hbuf, Hr, app_assoc. }
    eapply wp_weaken; [apply (IH e1 p1 q1 Hwf1); [done | lia] | |].
    + intros ev e' (Hev & ins & outs & p' & q' & Hadv & Hnil). split; [done |]. eexists _, _, _, _. split; [by apply Htrans |]. by rewrite app_bytes_app, Hnil1.
    + intros err e' (ins & outs & p' & q' & Hadv & Hnil). eexists _, _, _, _. split; [by apply Htrans |]. by rewrite app_bytes_app, Hnil1.
  - intros err e1 (Hwf1 & Hcl1 & Hpark1 & Hpend1). exists [], [], p, q. split; [| done]. constructor; try done.
    + intros ?. congruence. + constructor. + constructor. + by rewrite Hpark1, Hpn. + by rewrite Hpend1, Hsn.
    + exists (buffered e). split; [done | congruence].
Qed.

Lemma step_spec e p q :
  TLS_HEADER <= RECV -> engine_wf e -> open_at p q e ->
  wp (step RECV)
    (fun ev e' => event_ok ev e' /\ exists ins outs p' q', advanced p q e ins outs p' q' e' /\ app_bytes outs = [])
    (fun _ e' => exists ins outs p' q', advanced p q e ins outs p' q' e' /\ app_bytes outs = []) e.
Proof.
  intros HR Hwf Ho. apply (step_loop_spec (S (length (recv_record e))) e p q HR Hwf Ho).
  pose proof (ew_cursor _ _ _ _ Hwf). pose proof (ew_recv _ _ _ _ Hwf). unfold blen in *. lia.
Qed.

(** A record queued by the client itself. *)
Lemma queued_spec e p q c conn content ct record out x :
  engine_wf e -> is_send_pending e = false -> closed e = false -> ph_ok (ph e) -> recv_at S_ rts p c -> send_at S_ cts q c ->
  @protects (cipher S_) (ad_c_ap_keys c) (ad_seq_out c) record content ct -> out = record ++ drop (length record) (send_record e) ->
  0 < blen record -> blen record <= blen (send_record e) -> conn = set_seq_out ((ad_seq_out c + 1) mod U64) c ->
  advanced p q e [] [{| en_content := content; en_type := ct; en_record := record |}] p (q.1, (q.2 + 1) mod U64)
    (set_closed x (set_send (blen record) 0 (set_state (EsApp S_ conn) (set_send_record out e)))).
Proof.
  intros Hwf Hnp Hcl Hph Hr Hs Hp Hout Hpos Hle ->. pose proof Hs as (Hct & Hck & Hcs). destruct (pending_nil e Hwf Hnp) as (_ & _ & Hpn).
  constructor.
  - assert (blen out = blen (send_record e)). { rewrite Hout, blen_app, blen_drop. unfold blen in *. lia. }
    pose proof (ew_send _ _ _ _ Hwf). wf_update Hwf.
  - congruence.
  - intros _. split; [| done]. exists (set_seq_out ((ad_seq_out c + 1) mod U64) c). split_and!; [done | done |]. unfold send_at. split_and!; [done | done |].
    cbn [set_seq_out ad_seq_out snd]. by rewrite Hcs.
  - constructor.
  - apply sealed_run_one; [| by left]. cbn [en_record en_content en_type]. by rewrite <- Hct, <- Hck, <- Hcs.
  - by rewrite app_nil_r.
  - rewrite Hpn. cbn [app]. unfold wire. cbn [fmap list_fmap concat]. rewrite app_nil_r. eapply pending_fresh; [exact Hout | done | done].
  - by exists (buffered e).
Qed.

(** [write_app] queues one application-data record of a prefix of the data, of at most the
    peer's and our own limit. *)
Lemma write_app_spec e p q plaintext :
  engine_wf e -> open_at p q e ->
  wp (write_app SEND plaintext)
    (fun n e' => n = Z.min (blen plaintext) (send_chunk_limit SEND e) /\
       exists outs q', advanced p q e [] outs p q' e' /\ take (Z.to_nat n) plaintext = app_bytes outs)
    (fun _ e' => e' = e) e.
Proof.
  intros Hwf Ho. unfold write_app. apply wp_bind, wp_gets. cbn [id].
  destruct (closed e) eqn:Hcl; [by apply wp_fail |]. destruct (is_send_pending e) eqn:Hnp; [by apply wp_fail |].
  destruct (Ho Hcl) as [(c & Hst & Hr & Hs) Hph]. rewrite Hst. cbn [in_data_phase negb]. cbv zeta.
  assert (0 <= send_chunk_limit SEND e) as Hlim by (unfold send_chunk_limit, saturating_sub; lia).
  pose proof (blen_nonneg plaintext). set (n := Z.min _ _).
  destruct (Z.eqb_spec n 0) as [Hz | Hnz].
  { apply wp_ret. split; [done |]. exists [], q. split; [by apply advanced_refl | done]. }
  destruct (slice_in_range plaintext 0 n) as [chunk Hc]; [lia.. |]. apply wp_bind. eapply wp_or_panic; [exact Hc |].
  pose proof Hc as (_ & _ & _ & Hcl' & Hce)%slice_Some_inv. rewrite Z.sub_0_r, drop_0 in Hce.
  pose proof (app_encrypt_spec S_ c chunk CT_APPLICATION_DATA (send_record e) ltac:(done)) as He.
  destruct (app_encrypt_record S_ c chunk CT_APPLICATION_DATA (send_record e)) as [[[conn out] record] | err |]; [| | done].
  2: { cbn [map_err]. by apply wp_bind_fail. }
  destruct He as (Hp & Hrl & Hout & Hle & Hconn). cbn [map_err]. apply wp_bind_ok, wp_bind, wp_modify, wp_ret.
  split; [done |]. eexists _, _. split; [| rewrite <- Hce; by rewrite (app_bytes_data {| en_content := chunk; en_type := CT_APPLICATION_DATA; en_record := record |})].
  pose proof (blen_nonneg chunk).
  pose proof (queued_spec e p q c conn chunk CT_APPLICATION_DATA record out (closed e) Hwf Hnp Hcl Hph Hr Hs Hp Hout ltac:(lia) Hle Hconn) as Hq.
  exact Hq.
Qed.

Lemma close_spec e p q :
  engine_wf e -> open_at p q e ->
  wp close (fun _ e' => closed e' = true /\ exists outs q', advanced p q e [] outs p q' e' /\ app_bytes outs = []) (fun _ e' => e' = e) e.
Proof.
  intros Hwf Ho. unfold close. apply wp_bind, wp_gets. cbn [id].
  destruct (closed e) eqn:Hcl; [apply wp_ret; split; [done |]; exists [], q; split; [by apply advanced_refl | done] |].
  destruct (is_send_pending e) eqn:Hnp; [by apply wp_fail |].
  destruct (Ho Hcl) as [(c & Hst & Hr & Hs) Hph]. rewrite Hst. cbn [in_data_phase negb].
  pose proof (app_encrypt_spec S_ c CLOSE_NOTIFY_ALERT CT_ALERT (send_record e) ltac:(done)) as He.
  destruct (app_encrypt_record S_ c CLOSE_NOTIFY_ALERT CT_ALERT (send_record e)) as [[[conn out] record] | err |]; [| | done].
  2: { cbn [map_err]. by apply wp_bind_fail. }
  destruct He as (Hp & Hrl & Hout & Hle & Hconn). cbn [map_err]. apply wp_bind_ok, wp_modify. split; [done |].
  eexists _, _. change (blen CLOSE_NOTIFY_ALERT) with 2 in Hrl. split; [| by apply (app_bytes_other {| en_content := CLOSE_NOTIFY_ALERT; en_type := CT_ALERT; en_record := record |})].
  apply (queued_spec e p q c conn CLOSE_NOTIFY_ALERT CT_ALERT record out true Hwf Hnp Hcl Hph Hr Hs Hp Hout ltac:(lia) Hle Hconn).
Qed.

(** Received bytes come after the unframed ones. *)
Lemma receive_spec e buf n :
  engine_wf e -> plaintext_parked (recv e) = false -> bytes_ok buf -> blen buf = RECV - rs_filled (recv e) -> 0 <= n <= blen buf ->
  wp (_ ← put_recv buf; advance n)
    (fun _ e' => engine_wf e' /\ same_but_recv e e' /\ parked e' = [] /\ plaintext_parked (recv e') = false /\
       buffered e' = buffered e ++ take (Z.to_nat n) buf)
    (fun err e' => err = HeAdvanceTooLarge /\ usize_max < RECV /\ engine_wf e' /\ same_but_recv e e' /\ parked e' = [] /\
       plaintext_parked (recv e') = false /\ buffered e' = buffered e) e.
Proof.
  intros Hwf Hpk Hok Hbl Hn. pose proof (ew_recv _ _ _ _ Hwf) as Hr. pose proof (ew_cursor _ _ _ _ Hwf) as Hcur.
  unfold put_recv. apply wp_bind, wp_bind, wp_gets. cbn [id]. rewrite Hpk.
  destruct (splice_in_range (recv_record e) (rs_filled (recv e)) buf) as [b Hsp]; [lia.. |].
  apply wp_bind. eapply wp_or_panic; [exact Hsp |]. apply wp_modify. set (e1 := set_recv_record b e).
  pose proof (bytes_ok_splice _ _ _ _ (ew_bytes _ _ _ _ Hwf) Hok Hsp) as Hbok. pose proof Hsp as (_ & _ & Hbl' & Hb)%splice_Some_inv.
  assert (engine_wf e1) as Hwf1 by (unfold e1; wf_update Hwf).
  assert (parked e1 = []) as Hpn by (apply (parked_nil _ _ _ e1 Hwf1 Hpk)).
  set (f := rs_filled (recv e)) in *. set (nx := rs_next_record (recv e)) in *.
  assert (drop (Z.to_nat nx) b = buffered e ++ buf ++ drop (Z.to_nat f + length buf) (recv_record e)) as Hdrop.
  { rewrite Hb, drop_app_le by (rewrite length_take; unfold blen in *; lia). f_equal. unfold buffered. fold nx f.
    rewrite skipn_firstn_comm. f_equal. lia. }
  assert (length (buffered e) = Z.to_nat (f - nx)) as Hlb.
  { unfold buffered. fold f nx. rewrite length_take, length_drop. unfold blen in *. lia. }
  assert (buffered e1 = buffered e) as Hb1.
  { unfold buffered at 1. change (recv_record e1) with b. change (recv e1) with (recv e). fold f nx. by rewrite Hdrop, <- Hlb, take_app_length. }
  unfold advance. destruct (Z.eqb_spec n 0) as [-> | Hnz].
  { apply wp_ret. split_and!; try done; [exists (recv e), b; by destruct e | by rewrite Hb1, app_nil_r]. }
  apply wp_bind, wp_gets. change (recv (id e1)) with (recv e). rewrite Hpk. fold f. change (recv_record (id e1)) with b. unfold checked_add.
  destruct (Z.leb_spec (f + n) usize_max) as [_ | Hbig]; cbn [ok_or].
  2: { apply wp_bind_fail. split_and!; try done; [lia | exists (recv e), b; by destruct e]. }
  apply wp_bind_ok. destruct (Z.ltb_spec (blen b) (f + n)); [lia |]. apply wp_modify.
  split_and!; [| by eexists _, _ | exact Hpn | exact Hpk |].
  - unfold e1. fold f nx in Hcur. wf_update Hwf.
  - unfold buffered at 1. fields. change (recv_record e1) with b. fold nx.
    rewrite Hdrop. replace (Z.to_nat (f + n - nx)) with (length (buffered e) + Z.to_nat n)%nat by lia.
    rewrite take_app_add. f_equal. apply take_app_le. unfold blen in *. lia.
Qed.

(** [read_app] moves parked bytes to the caller. *)
Lemma read_app_spec e out :
  engine_wf e ->
  wp (read_app out)
    (fun '(out', n) e' => engine_wf e' /\ n = Z.min (blen (parked e)) (blen out) /\ blen out' = blen out /\
       take (Z.to_nat n) out' ++ parked e' = parked e /\ exists r, e' = set_recv r e /\ rs_filled r = rs_filled (recv e) /\
         rs_next_record r = rs_next_record (recv e))
    (fun _ _ => False) e.
Proof.
  intros Hwf. pose proof (ew_recv _ _ _ _ Hwf) as Hr. pose proof (ew_cursor _ _ _ _ Hwf) as Hcur. pose proof (parked_len e Hwf) as Hpl.
  pose proof (blen_nonneg out). unfold read_app. apply wp_bind, wp_gets. cbn [id]. rewrite <- Hpl. cbv zeta. set (n := Z.min _ _).
  destruct (Z.eqb_spec n 0) as [-> | Hnz].
  { apply wp_ret. split_and!; try done. exists (recv e). by destruct e. }
  set (ps := rs_plain_start (recv e)) in *. set (pe := rs_plain_end (recv e)) in *.
  destruct (slice_in_range (recv_record e) ps (ps + n)) as [src Hs]; [lia.. |]. apply wp_bind. eapply wp_or_panic; [exact Hs |].
  pose proof Hs as (_ & _ & _ & Hsl & Hse)%slice_Some_inv. replace (ps + n - ps) with n in * by lia.
  destruct (splice_in_range out 0 src) as [out' Ho]; [lia.. |]. apply wp_bind. eapply wp_or_panic; [exact Ho |].
  apply wp_bind, wp_modify, wp_ret. pose proof Ho as (_ & _ & Hol & Hoe)%splice_Some_inv.
  split_and!; [fold ps pe in Hcur; wf_update Hwf | done | done | | by eexists].
  assert (take (Z.to_nat n) out' = src) as ->. { rewrite Hoe. change (Z.to_nat 0) with O. rewrite take_0, app_nil_l. rewrite <- Hsl, to_nat_blen. apply take_app_length. }
  unfold parked. fields. rewrite Hse. fold ps pe. replace (Z.to_nat (ps + n)) with (Z.to_nat ps + Z.to_nat n)%nat by lia. rewrite <- drop_drop.
  replace (Z.to_nat (pe - ps)) with (Z.to_nat n + Z.to_nat (pe - (ps + n)))%nat by lia. apply take_take_drop.
Qed.

(** [mark_sent] drops acknowledged bytes. *)
Lemma mark_sent_spec e n :
  engine_wf e -> 0 <= n ->
  wp (mark_sent n)
    (fun _ e' => engine_wf e' /\ n <= blen (pending e) /\ pending e' = drop (Z.to_nat n) (pending e) /\
       exists x z w, e' = set_done (pending_handshake_done e) x (set_send z w e))
    (fun _ e' => e' = e) e.
Proof.
  intros Hwf Hn. pose proof (ew_pending _ _ _ _ Hwf) as Hp. pose proof (pending_len e Hwf) as Hpl. pose proof (ew_send _ _ _ _ Hwf) as Hs.
  unfold mark_sent. apply wp_bind, wp_gets. cbn [id]. unfold checked_add.
  destruct (Z.leb_spec (send_acked e + n) usize_max); cbn [ok_or]; [apply wp_bind_ok | by apply wp_bind_fail].
  destruct (Z.ltb_spec (send_pending_len e) (send_acked e + n)); [by apply wp_fail |].
  destruct (Z.eqb_spec (send_acked e + n) (send_pending_len e)) as [Heq | Hne]; apply wp_modify.
  - split_and!; [wf_update Hwf | lia | | by eexists _, _, _].
    unfold pending at 1. fields. cbn [Z.sub Z.to_nat take]. symmetry. apply drop_ge. unfold blen in *. lia.
  - split_and!; [wf_update Hwf | lia | | by exists (handshake_finished_pending_ack e), (send_pending_len e), (send_acked e + n)].
    unfold pending. fields. rewrite skipn_firstn_comm, drop_drop. f_equal; [lia |]. f_equal. lia.
Qed.
End data_specs.

(** ** Runs of the data phase *)

(** What crosses the boundary of the engine: bytes from and to the transport, and bytes
    from and to the application. *)
Inductive io := IoReceived (data : bytes) | IoSent (data : bytes) | IoAccepted (data : bytes) | IoRead (data : bytes).

Definition received (tr : list io) : bytes := tr ≫= fun x => match x with IoReceived d => d | _ => [] end.
Definition sent (tr : list io) : bytes := tr ≫= fun x => match x with IoSent d => d | _ => [] end.
Definition accepted (tr : list io) : bytes := tr ≫= fun x => match x with IoAccepted d => d | _ => [] end.
Definition read (tr : list io) : bytes := tr ≫= fun x => match x with IoRead d => d | _ => [] end.

Lemma io_app tr tr' :
  received (tr ++ tr') = received tr ++ received tr' /\ sent (tr ++ tr') = sent tr ++ sent tr' /\
  accepted (tr ++ tr') = accepted tr ++ accepted tr' /\ read (tr ++ tr') = read tr ++ read tr'.
Proof. unfold received, sent, accepted, read. by rewrite !bind_app. Qed.

Section sessions.
Context `{Usize, HeaplessVec, HkdfSha256, SubtleCt, AeadBackend, KxBackend, MlKemSizes, MlDsaSizes}.
Context (ft : Features) (RECV SEND : Z).

(** One call of the wrapper, whatever its result, and the bytes that crossed.  The
    transport may write anything into the receive buffer, may acknowledge a part of the
    bytes to send, and may fail after having sent a part of them. *)
Inductive data_call : TlsEngine -> io -> TlsEngine -> Prop :=
| dc_step e e' r : step RECV e = (e', r) -> data_call e (IoReceived []) e'
| dc_receive e free buf n e' :
    recv_buffer (E := HandshakeError) e = Ok free -> blen buf = blen free -> bytes_ok buf -> 0 <= n <= blen buf ->
    (_ ← put_recv buf; advance n) e = (e', Ok tt) -> data_call e (IoReceived (take (Z.to_nat n) buf)) e'
| dc_read e out out' n e' : read_app out e = (e', Ok (out', n)) -> data_call e (IoRead (take (Z.to_nat n) out')) e'
| dc_write e plaintext n e' : write_app SEND plaintext e = (e', Ok n) -> data_call e (IoAccepted (take (Z.to_nat n) plaintext)) e'
| dc_write_err e plaintext err e' : write_app SEND plaintext e = (e', Err err) -> data_call e (IoAccepted []) e'
| dc_sent e bytes n e' :
    send_bytes (E := HandshakeError) e = Ok bytes -> 0 <= n -> mark_sent n e = (e', Ok tt) -> data_call e (IoSent (take (Z.to_nat n) bytes)) e'
| dc_broken e bytes n : send_bytes (E := HandshakeError) e = Ok bytes -> data_call e (IoSent (take n bytes)) (mark_terminal e)
| dc_close e e' r : close e = (e', r) -> data_call e (IoSent []) e'.

Inductive data_run : TlsEngine -> list io -> TlsEngine -> Prop :=
| dr_nil e : data_run e [] e
| dr_snoc e tr e1 x e2 : data_run e tr e1 -> data_call e1 x e2 -> data_run e (tr ++ [x]) e2.

Context (S_ : Suite) (rts cts : bytes).
Notation engine_wf := (engine_wf ft RECV SEND).

(** The state of a run that started at [e0] and has seen [tr]: what was processed of the
    input and queued for the output, what is left of the input, and what a broken
    transport lost of the output. *)
Record session (p q : nat * Z) (e0 : TlsEngine) (tr : list io) (ins outs : list entry) (p' q' : nat * Z) (rest lost : bytes) (e : TlsEngine) : Prop := {
  se_wf : engine_wf e;
  se_open : open_at S_ rts cts p' q' e;
  se_ins : sealed_run S_ rts p ins p';
  se_outs : sealed_run S_ cts q outs q';
  se_received : buffered e0 ++ received tr = wire ins ++ rest;
  se_read : parked e0 ++ app_bytes ins = read tr ++ parked e;
  se_accepted : app_bytes outs = accepted tr;
  se_sent : pending e0 ++ wire outs = sent tr ++ pending e ++ lost;
  se_rest : closed e = false -> rest = buffered e /\ lost = [];
  se_lost : lost <> [] -> pending e = []
}.

(** A call that processes and queues records. *)
Lemma session_advanced p q e0 tr ins outs p1 q1 rest lost e x ins' outs' p2 q2 e' :
  session p q e0 tr ins outs p1 q1 rest lost e -> advanced ft RECV SEND S_ rts cts p1 q1 e ins' outs' p2 q2 e' ->
  received [x] = [] -> sent [x] = [] -> read [x] = [] -> accepted [x] = app_bytes outs' ->
  exists rest', session p q e0 (tr ++ [x]) (ins ++ ins') (outs ++ outs') p2 q2 rest' lost e'.
Proof.
  intros [Hwf Ho Hi Hou Hrc Hrd Hac Hs Hrest Hlost] [Hwf' Hcl Ho' Hi' Hou' Hpa Hpe (r & Hr & Hr')] Hx1 Hx2 Hx3 Hx4.
  assert (exists rest', rest = wire ins' ++ rest' /\ (closed e' = false -> rest' = buffered e')) as (rest' & Hre & Hre').
  { destruct (closed e); [destruct (Hcl eq_refl) as (-> & _ & Hc'); exists rest; split; [done | congruence] |].
    exists r. split; [| done]. destruct (Hrest eq_refl) as [-> _]. done. }
  assert (closed e = false \/ outs' = []) as Hq by (destruct (closed e); [right; by apply Hcl | by left]).
  destruct (io_app tr [x]) as (E1 & E2 & E3 & E4).
  exists rest'. constructor; rewrite ?E1, ?E2, ?E3, ?E4, ?Hx1, ?Hx2, ?Hx3, ?Hx4, ?app_nil_r; try done.
  - by eapply sealed_run_app.
  - by eapply sealed_run_app.
  - by rewrite Hrc, Hre, wire_app, app_assoc.
  - by rewrite app_bytes_app, app_assoc, Hrd, Hpa, app_assoc.
  - by rewrite app_bytes_app, Hac.
  - rewrite wire_app, app_assoc, Hs, Hpe. destruct Hq as [Hc | ->]; [destruct (Hrest Hc) as [_ ->] |]; by rewrite ?app_nil_r, ?app_assoc.
  - intros Hc'. split; [by apply Hre' |]. destruct (closed e); [| by apply Hrest]. destruct (Hcl eq_refl) as (_ & _ & ?). congruence.
  - intros Hl. rewrite Hpe, (Hlost Hl). destruct Hq as [Hc | ->]; [| done]. by destruct (Hrest Hc) as [_ ?].
Qed.

(** The other calls move bytes across the boundary and queue nothing. *)
Lemma session_moved p q e0 tr ins outs p1 q1 rest lost e x rest' lost' e' :
  session p q e0 tr ins outs p1 q1 rest lost e -> engine_wf e' -> open_at S_ rts cts p1 q1 e' -> accepted [x] = [] ->
  rest' = rest ++ received [x] -> parked e = read [x] ++ parked e' -> pending e ++ lost = sent [x] ++ pending e' ++ lost' ->
  (closed e' = false -> closed e = false /\ (lost = [] -> lost' = []) /\ buffered e' = buffered e ++ received [x]) -> (lost' <> [] -> pending e' = []) ->
  session p q e0 (tr ++ [x]) ins outs p1 q1 rest' lost' e'.
Proof.
  intros [Hwf Ho Hi Hou Hrc Hrd Hac Hs Hrest Hlost] Hwf' Ho' Hx Hre Hpa Hpe Hcl Hlost'.
  destruct (io_app tr [x]) as (E1 & E2 & E3 & E4). constructor; rewrite ?E1, ?E2, ?E3, ?E4, ?Hx, ?app_nil_r; try done.
  - by rewrite Hre, app_assoc, Hrc, <- app_assoc.
  - by rewrite Hrd, Hpa, app_assoc.
  - by rewrite Hs, Hpe, app_assoc.
  - intros Hc. destruct (Hcl Hc) as (Hc0 & Hl & Hb). destruct (Hrest Hc0) as [-> Hl0]. rewrite Hre, Hb. by auto.
Qed.

(** Only the receive side or the send side differs. *)
Lemma open_at_same p q e e' : open_at S_ rts cts p q e -> closed e' = closed e -> e_state e' = e_state e -> ph e' = ph e -> open_at S_ rts cts p q e'.
Proof. intros Ho Hc Hs Hp Hcl. rewrite Hc in Hcl. destruct (Ho Hcl) as [(c & He & ?) ?]. rewrite Hp. split; [| done]. exists c. by rewrite Hs. Qed.

Lemma send_bytes_spec {E} e : engine_wf e -> send_bytes (E := E) e = Ok (pending e).
Proof.
  intros Hwf. pose proof (ew_pending _ _ _ _ Hwf) as Hp. pose proof (ew_send _ _ _ _ Hwf) as Hs. unfold send_bytes, pending.
  destruct (Z.eqb_spec (send_pending_len e) 0) as [Hz | _]; [by rewrite Hz, Z2Nat.nonpos by lia |].
  destruct (slice_in_range (send_record e) (send_acked e) (send_pending_len e)) as [r Hr]; [lia.. |]. rewrite Hr.
  by apply slice_Some_inv in Hr as (_ & _ & _ & _ & ->).
Qed.

Lemma recv_buffer_spec {E} e :
  engine_wf e -> exists free, recv_buffer (E := E) e = Ok free /\ blen free = (if plaintext_parked (recv e) then 0 else RECV - rs_filled (recv e)).
Proof.
  intros Hwf. pose proof (ew_cursor _ _ _ _ Hwf) as Hc. pose proof (ew_recv _ _ _ _ Hwf) as Hr. unfold recv_buffer.
  destruct (plaintext_parked (recv e)); [by exists [] |]. unfold slice_from.
  destruct (slice_in_range (recv_record e) (rs_filled (recv e)) (blen (recv_record e))) as [r Hs]; [lia.. |]. rewrite Hs.
  exists r. split; [done |]. apply slice_Some_inv in Hs as (_ & _ & _ & -> & _). lia.
Qed.

Lemma terminal_wf e : engine_wf e -> engine_wf (mark_terminal e) /\ pending (mark_terminal e) = [].
Proof. intros Hwf. split; [unfold mark_terminal; pose proof (ew_pending _ _ _ _ Hwf); pose proof (ew_send _ _ _ _ Hwf); pose proof (blen_nonneg (send_record e)); wf_update Hwf | done]. Qed.

(** Receiving while plaintext is parked puts nothing into the engine. *)
Lemma receive_parked e buf e' : plaintext_parked (recv e) = true -> blen buf = 0 -> (_ ← put_recv buf; advance 0) e = (e', Ok tt) -> e' = e.
Proof.
  intros Hp Hb. unfold put_recv, mbind, SM_bind, gets. cbn [id]. rewrite Hp. unfold advance, mret, SM_ret. cbn. by intros [= <-].
Qed.

(** A call that leaves the connection and the output alone. *)
Lemma session_same p q e0 tr ins outs p1 q1 rest lost e x e' :
  session p q e0 tr ins outs p1 q1 rest lost e -> engine_wf e' -> closed e' = closed e -> e_state e' = e_state e -> ph e' = ph e ->
  pending e' = pending e -> parked e = read [x] ++ parked e' -> buffered e' = buffered e ++ received [x] -> sent [x] = [] -> accepted [x] = [] ->
  session p q e0 (tr ++ [x]) ins outs p1 q1 (rest ++ received [x]) lost e'.
Proof.
  intros Hse Hwf Hc Hs Hp Hpe Hpa Hb Hx1 Hx2. eapply (session_moved _ _ _ _ _ _ _ _ _ _ _ _ _ _ _ Hse Hwf); try done.
  - eapply open_at_same; [apply (se_open _ _ _ _ _ _ _ _ _ _ _ Hse) | done..].
  - by rewrite Hx1, Hpe.
  - intros Hcl. by rewrite Hc in Hcl.
  - intros Hl. rewrite Hpe. by apply (se_lost _ _ _ _ _ _ _ _ _ _ _ Hse).
Qed.

Lemma io_one d :
  received [IoReceived d] = d /\ sent [IoSent d] = d /\ accepted [IoAccepted d] = d /\ read [IoRead d] = d.
Proof. unfold received, sent, accepted, read. cbn. by rewrite app_nil_r. Qed.

Lemma data_call_session p q e0 tr ins outs p1 q1 rest lost e x e' :
  TLS_HEADER <= RECV -> session p q e0 tr ins outs p1 q1 rest lost e -> data_call e x e' ->
  exists ins' outs' p2 q2 rest' lost', session p q e0 (tr ++ [x]) ins' outs' p2 q2 rest' lost' e'.
Proof.
  intros HR Hse Hcall. pose proof (se_wf _ _ _ _ _ _ _ _ _ _ _ Hse) as Hwf. pose proof (se_open _ _ _ _ _ _ _ _ _ _ _ Hse) as Ho.
  destruct Hcall as [e e' r Hstep | e free buf n e' Hfree Hbl Hok Hn Hrun | e out out' n e' Hread | e pt n e' Hw | e pt err e' Hw | e bs n e' Hb Hn Hm | e bs n Hb | e e' r Hc].
  - pose proof (step_spec ft RECV SEND S_ rts cts e p1 q1 HR Hwf Ho) as Hs. unfold wp in Hs. rewrite Hstep in Hs.
    assert (exists ins outs p' q', advanced ft RECV SEND S_ rts cts p1 q1 e ins outs p' q' e' /\ app_bytes outs = []) as (ins' & outs' & p2 & q2 & Ha & Hnil).
    { destruct r; [apply Hs | apply Hs | done]. }
    destruct (session_advanced _ _ _ _ _ _ _ _ _ _ _ (IoReceived []) _ _ _ _ _ Hse Ha) as [rest' Hse']; try done. by eexists _, _, _, _, _, _.
  - destruct (recv_buffer_spec (E := HandshakeError) e Hwf) as (free' & Hf & Hfl). rewrite Hfree in Hf. apply Ok_inj in Hf as <-.
    eexists _, _, _, _, _, _. destruct (io_one (take (Z.to_nat n) buf)) as (E1 & _ & _ & _). destruct (plaintext_parked (recv e)) eqn:Hpk.
    + assert (n = 0) as -> by lia. apply receive_parked in Hrun as ->; [| done | lia].
      apply (session_same _ _ _ _ _ _ _ _ _ _ _ _ _ Hse Hwf); try done. cbn. by rewrite app_nil_r.
    + pose proof (receive_spec ft RECV SEND e buf n Hwf Hpk Hok ltac:(lia) Hn) as Hr. unfold wp in Hr. rewrite Hrun in Hr.
      destruct Hr as (Hwf' & (rr & b & ->) & Hpn & _ & Hbuf). pose proof (parked_nil _ _ _ e Hwf Hpk) as Hpn0.
      apply (session_same _ _ _ _ _ _ _ _ _ _ _ _ _ Hse Hwf'); try done; [by rewrite Hpn, Hpn0 | by rewrite Hbuf, E1].
  - pose proof (read_app_spec ft RECV SEND e out Hwf) as Hr. unfold wp in Hr. rewrite Hread in Hr.
    destruct Hr as (Hwf' & _ & _ & Hpa & rr & -> & Hfi & Hnx). eexists _, _, _, _, _, _.
    destruct (io_one (take (Z.to_nat n) out')) as (_ & _ & _ & E4).
    apply (session_same _ _ _ _ _ _ _ _ _ _ _ _ _ Hse Hwf'); try done; [by rewrite E4, Hpa |].
    unfold buffered. fields. by rewrite Hfi, Hnx, app_nil_r.
  - pose proof (write_app_spec ft RECV SEND S_ rts cts e p1 q1 pt Hwf Ho) as Hs. unfold wp in Hs. rewrite Hw in Hs.
    destruct Hs as (_ & outs' & q2 & Ha & Hacc). destruct (io_one (take (Z.to_nat n) pt)) as (_ & _ & E3 & _). rewrite Hacc in E3 at 2.
    destruct (session_advanced _ _ _ _ _ _ _ _ _ _ _ (IoAccepted (take (Z.to_nat n) pt)) _ _ _ _ _ Hse Ha) as [rest' Hse']; try done.
    by eexists _, _, _, _, _, _.
  - pose proof (write_app_spec ft RECV SEND S_ rts cts e p1 q1 pt Hwf Ho) as Hs. unfold wp in Hs. rewrite Hw in Hs. subst e'.
    eexists _, _, _, _, _, _. apply (session_same _ _ _ _ _ _ _ _ _ _ _ _ _ Hse Hwf); try done. cbn. by rewrite app_nil_r.
  - rewrite send_bytes_spec in Hb by done. apply Ok_inj in Hb as <-. destruct (io_one (take (Z.to_nat n) (pending e))) as (_ & E2 & _ & _).
    pose proof (mark_sent_spec ft RECV SEND e n Hwf Hn) as Hs. unfold wp in Hs. rewrite Hm in Hs.
    destruct Hs as (Hwf' & Hle & Hpe & a & b & c & ->).
    eexists _, _, _, _, _, _. eapply (session_moved _ _ _ _ _ _ _ _ _ _ _ _ _ lost _ Hse Hwf'); try done.
    + by rewrite E2, Hpe, app_assoc, take_drop.
    + intros Hc. cbn. by rewrite app_nil_r.
    + intros Hl. rewrite Hpe, (se_lost _ _ _ _ _ _ _ _ _ _ _ Hse Hl). apply drop_nil.
  - rewrite send_bytes_spec in Hb by done. apply Ok_inj in Hb as <-. destruct (io_one (take n (pending e))) as (_ & E2 & _ & _).
    destruct (terminal_wf e Hwf) as [Hwf' Hpe]. 
    eexists _, _, _, _, _, _. eapply (session_moved _ _ _ _ _ _ _ _ _ _ _ _ _ (drop n (pending e) ++ lost) _ Hse Hwf'); try done.
    by rewrite E2, Hpe, app_nil_l, app_assoc, take_drop.
  - pose proof (close_spec ft RECV SEND S_ rts cts e p1 q1 Hwf Ho) as Hs. unfold wp in Hs. rewrite Hc in Hs.
    destruct r as [[] | err |]; [| subst e' | done].
    + destruct Hs as (_ & outs' & q2 & Ha & Hnil).
      destruct (session_advanced _ _ _ _ _ _ _ _ _ _ _ (IoSent []) _ _ _ _ _ Hse Ha) as [rest' Hse']; try done. by eexists _, _, _, _, _, _.
    + eexists _, _, _, _, _, _. apply (session_same _ _ _ _ _ _ _ _ _ _ _ _ _ Hse Hwf); try done. cbn. by rewrite app_nil_r.
Qed.

Lemma data_run_session p q e0 tr e :
  TLS_HEADER <= RECV -> engine_wf e0 -> open_at S_ rts cts p q e0 -> data_run e0 tr e ->
  exists ins outs p' q' rest lost, session p q e0 tr ins outs p' q' rest lost e.
Proof.
  intros HR Hwf Ho Hrun. induction Hrun as [e | e tr e1 x e2 _ IH Hcall].
  - exists [], [], p, q, (buffered e), []. constructor; try done; rewrite ?app_nil_r; try done; constructor.
  - destruct (IH Hwf Ho) as (ins & outs & p1 & q1 & rest & lost & Hse). by eapply data_call_session.
Qed.
End sessions.

(** C4. The data phase of the engine is a channel of authentic records, whatever the
    transport delivers.  Start from an engine in its data phase at position [p] of the
    server's direction and [q] of ours, and let the wrapper make any calls ([step],
    [recv_buffer]/[advance], [read_app], [write_app], [send_bytes]/[mark_sent],
    [mark_terminal], [close]) in any order, with any bytes written by the transport.
    Then the received bytes start with records sealed at consecutive positions of the
    server's direction, and the application has been given exactly the application data
    of those records, in order, up to what is still parked; the bytes given to the
    transport, up to what is still pending, are records sealed at consecutive positions
    of our direction (a broken transport loses only a tail), whose application data is
    exactly what [write_app] accepted; and while the engine is open nothing received is
    lost. *)
Theorem data_phase_session `{Usize, HeaplessVec, HkdfSha256, SubtleCt, AeadBackend, KxBackend, MlKemSizes, MlDsaSizes}
    (ft : Features) (RECV SEND : Z) (S_ : Suite) (rts cts : bytes) (p q : nat * Z) (e0 e : TlsEngine) (tr : list io) :
  TLS_HEADER <= RECV -> engine_wf ft RECV SEND e0 -> ph_ok (ph e0) -> live S_ rts cts p q e0 -> data_run RECV SEND e0 tr e ->
  engine_wf ft RECV SEND e /\ exists ins outs p' q' rest lost,
    sealed_run S_ rts p ins p' /\ buffered e0 ++ received tr = wire ins ++ rest /\ parked e0 ++ app_bytes ins = read tr ++ parked e /\
    sealed_run S_ cts q outs q' /\ pending e0 ++ wire outs = sent tr ++ pending e ++ lost /\ app_bytes outs = accepted tr /\
    (closed e = false -> rest = buffered e /\ lost = [] /\ live S_ rts cts p' q' e).
Proof.
  intros HR Hwf Hph Hl Hrun.
  destruct (data_run_session ft RECV SEND S_ rts cts p q e0 tr e HR Hwf ltac:(done) Hrun)
    as (ins & outs & p' & q' & rest & lost & [Hwf' Ho Hi Hou Hrc Hrd Hac Hs Hrest _]).
  split; [done |]. exists ins, outs, p', q', rest, lost. split_and!; try done.
  intros Hc. destruct (Hrest Hc) as [-> ->]. by destruct (Ho Hc).
Qed.

Section session_witness.
#[local] Existing Instances usize32 heapless_model hkdf_model subtle_model aead_backend_model rng_model kx_backend_model ml_kem_model ml_dsa_model.

(** A client in its data phase, and a server that sends data, asks for a key update and
    sends data again, all in one read of the transport. *)
Definition demo_conn : AppData := {|
  ad_transcript := TranscriptHash_new; ad_c_ap_keys := Record_Keys Aes128GcmSha256 [3]; ad_s_ap_keys := Record_Keys Aes128GcmSha256 [1; 2];
  ad_c_ap_ts := [3]; ad_s_ap_ts := [1; 2]; ad_seq_out := 0; ad_seq_in := 0 |}.
Definition demo_engine : TlsEngine :=
  TlsEngine_new ServerFlightReassembler_new (zeros 100) (zeros 64) (EsApp Aes128GcmSha256 demo_conn) 79 16385.
Definition demo_stream : bytes := concat demo_sent.2.
Definition demo_tail : bytes := demo_stream ++ zeros (100 - blen demo_stream).

Notation demo_received := ((_ ← put_recv demo_tail; advance (blen demo_stream)) demo_engine).
Notation demo_step1 := (step 100 demo_received.1).
Notation demo_read1 := (read_app (zeros 8) demo_step1.1).
Notation demo_step2 := (step 100 demo_read1.1).
Notation demo_answered := (mark_sent 27 demo_step2.1).
Notation demo_step3 := (step 100 demo_answered.1).
Notation demo_read2 := (read_app (zeros 8) demo_step3.1).
Notation demo_written := (write_app 64 [111; 107] demo_read2.1).

Definition demo_trace : list io :=
  ((((((([] ++ [IoReceived demo_stream]) ++ [IoReceived []]) ++ [IoRead (take 2 ([104; 105] ++ zeros 6))]) ++ [IoReceived []])
    ++ [IoSent (take 27 (pending demo_step2.1))]) ++ [IoReceived []]) ++ [IoRead (take 2 ([111; 107] ++ zeros 6))]) ++ [IoAccepted (take 2 [111; 107])].

Lemma demo_run : data_run 100 64 demo_engine demo_trace demo_written.1.
Proof.
  assert (demo_received = (demo_received.1, Ok tt)) as H1' by (apply result_eq; vm_compute; reflexivity).
  assert (demo_read1 = (demo_read1.1, Ok ([104; 105] ++ zeros 6, 2))) as H2' by (apply result_eq; vm_compute; reflexivity).
  assert (demo_answered = (demo_answered.1, Ok tt)) as H3' by (apply result_eq; vm_compute; reflexivity).
  assert (demo_read2 = (demo_read2.1, Ok ([111; 107] ++ zeros 6, 2))) as H4' by (apply result_eq; vm_compute; reflexivity).
  assert (demo_written = (demo_written.1, Ok 2)) as H5' by (apply result_eq; vm_compute; reflexivity).
  assert (send_bytes (E := HandshakeError) demo_step2.1 = Ok (pending demo_step2.1)) as H6' by (vm_compute; reflexivity).
  assert (blen demo_tail = 100 /\ bytes_ok demo_tail /\ take (Z.to_nat (blen demo_stream)) demo_tail = demo_stream) as (H7' & H8' & H9').
  { split; [vm_compute; reflexivity |]. split; [apply bytes_okb_sound; vm_compute; reflexivity | vm_compute; reflexivity]. }
  assert (data_call 100 64 demo_engine (IoReceived demo_stream) demo_received.1) as C1.
  { rewrite <- H9'. refine (dc_receive 100 64 demo_engine (zeros 100) demo_tail (blen demo_stream) demo_received.1 _ _ H8' _ H1');
      [vm_compute; reflexivity | exact H7' | rewrite H7'; vm_compute; split; discriminate]. }
  pose proof (dc_step 100 64 demo_received.1 demo_step1.1 demo_step1.2 (surjective_pairing _)) as C2.
  pose proof (dc_read 100 64 demo_step1.1 (zeros 8) _ _ _ H2') as C3.
  pose proof (dc_step 100 64 demo_read1.1 demo_step2.1 demo_step2.2 (surjective_pairing _)) as C4.
  pose proof (dc_sent 100 64 demo_step2.1 _ 27 _ H6' ltac:(discriminate) H3') as C5.
  pose proof (dc_step 100 64 demo_answered.1 demo_step3.1 demo_step3.2 (surjective_pairing _)) as C6.
  pose proof (dc_read 100 64 demo_step3.1 (zeros 8) _ _ _ H4') as C7.
  pose proof (dc_write 100 64 demo_read2.1 [111; 107] _ _ H5') as C8.
  exact (dr_snoc _ _ _ _ _ _ _ (dr_snoc _ _ _ _ _ _ _ (dr_snoc _ _ _ _ _ _ _ (dr_snoc _ _ _ _ _ _ _ (dr_snoc _ _ _ _ _ _ _
    (dr_snoc _ _ _ _ _ _ _ (dr_snoc _ _ _ _ _ _ _ (dr_snoc _ _ _ _ _ _ _ (dr_nil _ _ _) C1) C2) C3) C4) C5) C6) C7) C8).
Qed.

Lemma demo_engine_ok :
  engine_wf demo_features 100 64 demo_engine /\ ph_ok (ph demo_engine) /\ live Aes128GcmSha256 [1; 2] [3] (O, 0) (O, 0) demo_engine.
Proof.
  split; [| split].
  - constructor; try (vm_compute; reflexivity); try (vm_compute; repeat split; discriminate); try exact I.
    + apply bytes_okb_sound; vm_compute; reflexivity.
    + apply List.Forall_nil.
    + vm_compute; repeat split; try discriminate. right; split; reflexivity.
  - split; [reflexivity |]. split; [apply bytes_okb_sound; reflexivity |]. split; [split; discriminate |].
    split; [split; [discriminate | reflexivity] |]. split; discriminate.
  - exists demo_conn. split; [reflexivity |]. split; (split; [reflexivity | split; reflexivity]).
Qed.

Lemma data_phase_session_witness :
  read demo_trace = [104; 105; 111; 107] /\ accepted demo_trace = [111; 107] /\
  exists ins outs p' q' (rest lost : bytes),
    sealed_run Aes128GcmSha256 [1; 2] (O, 0) ins p' /\ demo_stream = wire ins ++ rest /\ app_bytes ins = [104; 105; 111; 107] /\
    sealed_run Aes128GcmSha256 [3] (O, 0) outs q' /\ app_bytes outs = [111; 107] /\ lost = [].
Proof.
  destruct demo_engine_ok as (Hwf & Hph & Hl).
  destruct (data_phase_session demo_features 100 64 Aes128GcmSha256 [1; 2] [3] (O, 0) (O, 0) demo_engine demo_written.1 demo_trace
              ltac:(discriminate) Hwf Hph Hl demo_run)
    as (_ & ins & outs & p' & q' & rest & lost & Hi & Hrc & Hrd & Ho & _ & Ha & Hc).
  assert (read demo_trace = [104; 105; 111; 107] /\ accepted demo_trace = [111; 107] /\ received demo_trace = demo_stream) as (E1 & E2 & E3)
    by (split; [reflexivity | split; [reflexivity | vm_compute; reflexivity]]).
  assert (closed demo_written.1 = false /\ parked demo_written.1 = []) as [Hcl Hpk] by (split; vm_compute; reflexivity).
  destruct (Hc Hcl) as (_ & Hlost & _). rewrite E1, Hpk in Hrd. rewrite E2 in Ha. rewrite E3 in Hrc.
  split; [exact E1 |]. split; [exact E2 |]. exists ins, outs, p', q', rest, lost.
  exact (conj Hi (conj Hrc (conj Hrd (conj Ho (conj Ha Hlost))))).
Defined.
End session_witness.
