(* ===== verification/EngineHandshake.v ===== *)
(** * The handshake of the engine

    What [step_handshake] of [client/engine.rs] does with the records of the server, the
    runs of a handshake over arbitrary bytes from the transport, and the invariant that
    every operation of the engine keeps. *)
From stdpp Require Import strings.
From S2P Require Import Prelude Deps Bytecopy Consts Aead Hkdf Kx Cert Identity TlsHello ServerFlight Reassembler ClientFlight Connection Engine EngineData.

Section handshake_specs.
Context `{Usize, HeaplessVec, HkdfSha256, SubtleCt, AeadBackend, KxBackend, MlKemSizes, VerifierBackend, MlDsaSizes, !VerifyStrategy, CertParser}.
Context (ft : Features) (FLIGHT RECV SEND : Z) (ip_host : bool) (MAX_CHAIN : Z).
Notation engine_wf := (engine_wf ft RECV SEND).

Lemma wp_zoom {A} (m : EM A) (Q : A -> TlsEngine * Rng -> Prop) R e rng :
  wp m (fun a e' => Q a (e', rng)) (fun err e' => R err (e', rng)) e -> wp (zoom m) Q R (e, rng).
Proof. unfold wp, zoom. destruct (m e) as [e' [a | err |]]; done. Qed.

(** The ServerHello: the typestate is replaced, or the engine closes. *)
Lemma handle_server_hello_spec e c start end_ outer :
  (f_mlkem ft = true -> f_x25519_kx ft = true) -> engine_wf e -> e_state e = EsWaitServerHello c -> 0 <= start -> start <= end_ -> end_ <= RECV ->
  wp (handle_server_hello ft start end_ outer)
    (fun _ e' => exists S_ c1 ikm, e' = set_state (EsWaitFlight S_ c1) e /\ negotiated ft c (record_at e start end_) S_ ikm c1)
    (fun _ e' => e' = e \/ e' = set_closed true (set_state EsClosed e)) e.
Proof.
  intros Hfeat Hwf Hst Hs Hse He. pose proof (ew_recv _ _ _ _ Hwf) as Hr. pose proof (ew_state _ _ _ _ Hwf) as Hsec. rewrite Hst in Hsec.
  unfold handle_server_hello. destruct (outer =? CT_HANDSHAKE); cbn [negb]; [| apply wp_fail; by left].
  apply wp_bind, wp_gets. rewrite Hst. apply wp_bind, wp_modify, wp_bind, wp_gets.
  destruct (slice_in_range (recv_record e) start end_) as [record Hrec]; [lia.. |].
  apply wp_bind. eapply wp_or_panic; [exact Hrec |].
  pose proof (bytes_ok_slice _ _ _ _ (ew_bytes _ _ _ _ Hwf) Hrec) as Hok. pose proof Hrec as (_ & _ & _ & _ & Hre)%slice_Some_inv.
  pose proof (read_server_hello_spec ft c record Hfeat Hsec Hok) as Hsh.
  destruct (read_server_hello_with_backend ft c record) as [[S_ c1] | err |]; [| | done].
  - apply wp_modify. destruct Hsh as (ikm & Hn). exists S_, c1, ikm. split; [done |]. unfold record_at. by rewrite <- Hre.
  - apply wp_bind, wp_modify, wp_fail. by right.
Qed.

(** The chain the flight carries is vouched for, its leaf has the prepared key and names the host. *)
Definition vouches (hostname flight : bytes) (prepared : PreparedVerifier) (leaf : CertView) : Prop :=
  exists ee creq cert cv fin chain leaf_der, flight = flight_wire ee creq cert cv fin /\ extract_chain MAX_CHAIN cert = Ok chain /\
    vouched chain prepared /\ head chain = Some leaf_der /\ parse leaf_der = Ok leaf /\
    matches_cert prepared leaf = true /\ verify_hostname ip_host leaf hostname = Ok tt.

(** What the CertificateRequest of the flight asks of the client, by its authentication
    policy: nothing, without one; a policy that takes none refuses the flight. *)
Definition requested {w} (policy : ClientAuthPolicy w) (flight : bytes) (request : option (bytes * bytes)) : Prop :=
  exists v, parse_server_flight flight = Ok v /\
  match sf_cert_request_full v, request with
  | None, None => True
  | Some creq, Some (ctx, algs) => ACCEPT_CERT_REQUEST policy = true /\
      certificate_request_context creq = Ok ctx /\ certificate_request_sig_algs creq = Ok algs
  | _, _ => False
  end.

Lemma check_flight_spec {w} (params : ClientParams w) r :
  bytes_ok (sfr_buf r) -> 0 <= MAX_CHAIN ->
  ensures (check_flight ip_host MAX_CHAIN params r) (fun '(creq, prepared, leaf) => exists flight,
    flight_of (sfr_buf r) flight /\ vouches (cp_hostname params) flight prepared leaf /\
    (forall ctx algs, creq = Some (ctx, algs) -> bytes_ok ctx /\ bytes_ok algs) /\ requested (cp_client_auth params) flight creq).
Proof.
  intros Hr HM. unfold check_flight, on_flight.
  destruct (flight_bytes_spec (E := HandshakeError) r Hr) as (o & -> & _ & Ho). rewrite bind_Ok.
  destruct o as [flight |]; [| done]. run. pose proof (proj1 (Ho flight) eq_refl) as Hfl.
  assert (bytes_ok flight) as Hok.
  { destruct Hfl as (? & ? & ? & _ & _ & _ & Hb). rewrite Hb, bytes_ok_app in Hr. tauto. }
  eapply ensures_bind; [apply ensures_map_err, ensures_eq; by apply parse_server_flight_total |].
  intros v Hparse. destruct (parse_server_flight_inv _ _ Hok Hparse) as (ee & creq & cert & cv & fin & Hb & -> & ->). cbn [flight_view sf_cert_body sf_cert_request_full].
  unfold flight_wire in Hok. rewrite !bytes_ok_app in Hok. destruct Hok as (_ & Hcreq & Hcert & _).
  eapply (ensures_bind _ _ (fun answer => (forall ctx algs, answer = Some (ctx, algs) -> bytes_ok ctx /\ bytes_ok algs) /\
    requested (cp_client_auth params) (flight_wire ee creq cert cv fin) answer)).
  { destruct (ACCEPT_CERT_REQUEST _) eqn:Hacc, creq as [creq |]; cbn [fmap option_fmap option_map]; try done; try (split; [done | by eexists]).
    destruct (certificate_request_ok _ Hcreq) as [Hc Ha].
    eapply ensures_bind; [apply ensures_map_err, ensures_and_eq, Hc |]. intros ctx [Hctx Hcx].
    eapply ensures_bind; [apply ensures_map_err, ensures_and_eq, Ha |]. intros algs [Halgs Hax].
    split; [by intros ? ? [= <- <-] |]. by eexists. }
  intros answer [Hans Hreq]. assert (bytes_ok cert) as Hcok.
  { unfold hs_msg in Hcert. rewrite !bytes_ok_app in Hcert. tauto. }
  eapply ensures_bind; [apply ensures_map_err, ensures_eq; by apply extract_chain_total |]. intros chain Hchain.
  pose proof (extract_chain_bytes _ _ _ HM Hcok Hchain) as Hall. pose proof (Forall_impl _ bytes_ok _ Hall (fun c Hc => proj1 Hc)) as Hbs.
  eapply ensures_bind; [by apply ensures_map_err, ensures_eq, verify_chain_total |]. intros trusted Htr%verify_chain_vouched.
  destruct (head chain) as [leaf_der |] eqn:Hhead; [| done]. run.
  assert (bytes_ok leaf_der /\ blen leaf_der < U24) as [Hlok Hll].
  { destruct chain as [| x chain]; [done |]. injection Hhead as ->. by apply Forall_cons in Hall as [? _]. }
  eapply ensures_bind; [by apply ensures_map_err, ensures_eq, parse_total |]. intros leaf Hleaf.
  destruct (matches_cert trusted leaf) eqn:Hm; cbn [negb]; [| done].
  eapply ensures_bind; [apply ensures_map_err, ensures_eq, verify_hostname_total |].
  { intros san Hsan. destruct (parse_san _ _ _ Hlok Hleaf Hsan). split; [done |]. pose proof usize_max_ge. unfold U24, U32 in *. lia. }
  intros [] Hhost. exists (flight_wire ee creq cert cv fin). split_and!; [done | | done | done].
  by exists ee, creq, cert, cv, fin, chain, leaf_der.
Qed.

Lemma peek_peer_limit_spec e :
  engine_wf e ->
  wp peek_peer_limit (fun _ e' => engine_wf e' /\ exists l, e' = set_peer_limit l e) (fun _ e' => e' = e) e.
Proof.
  intros Hwf. unfold peek_peer_limit, on_flight. apply wp_bind, wp_gets.
  destruct (peek_spec (reassembler e) (ew_reasm _ _ _ _ Hwf)) as [Hnp _].
  destruct (peek_ee_record_size_limit (reassembler e)) as [[l |] | err |]; [| | by apply wp_bind, wp_fail | done]; apply wp_bind_ok.
  - unfold RecordSizeLimit_try_from. destruct (Z.leb_spec MIN_RECORD_SIZE_LIMIT l), (Z.leb_spec l PROTO_MAX_INNER_PLAINTEXT);
      cbn [andb ok_or]; try by apply wp_bind, wp_fail. apply wp_bind_ok, wp_modify. split; [wf_update Hwf | by eexists].
  - apply wp_ret. split; [done |]. exists (peer_recv_limit e). by destruct e.
Qed.

(** What the client sends after the server's flight: its Finished alone when it is asked for
    no certificate, else the flight of its authentication policy for the request. *)
Definition client_answer {w} (policy : ClientAuthPolicy w) (request : option (bytes * bytes)) (c_hs_ts transcript msgs : bytes) : Prop :=
  match request with
  | None => msgs = client_finished_msg c_hs_ts (sha256 transcript)
  | Some (ctx, algs) => exists t rng scratch t' scratch', hashed t = transcript /\
      (build_flight policy ctx algs rng c_hs_ts t scratch).2 = Ok (t', scratch', msgs)
  end.

(** The queued records of the answer. *)
Definition answered {w} (policy : ClientAuthPolicy w) (S_ : Suite) (request : option (bytes * bytes)) (c_hs_ts transcript records : bytes) : Prop :=
  exists pieces sealed, client_answer policy request c_hs_ts transcript (concat pieces) /\
    @protected_run (cipher S_) (Record_Keys S_ c_hs_ts) CT_HANDSHAKE 0 pieces sealed /\ records = concat sealed.

Lemma engine_finish_spec {w} S_ (params : ClientParams w) creq d e rng :
  engine_wf e -> (forall ctx algs, creq = Some (ctx, algs) -> bytes_ok ctx /\ bytes_ok algs) ->
  wp (finish_flight S_ params creq d)
    (fun n '(e', _) => exists app out scratch record, e' = set_state (EsApp S_ app) (set_send_record out (set_recv_record scratch e)) /\ n = blen record /\
       bytes_ok scratch /\ blen scratch = RECV /\ blen out = SEND /\ blen record <= SEND /\ take (length record) out = record /\
       (creq = None -> scratch = recv_record e) /\
       data_keys S_ (sfd_hs d) (sha256 (hashed (sfd_transcript d))) app /\
       answered (cp_client_auth params) S_ creq (sfd_c_hs_ts d) (hashed (sfd_transcript d)) record)
    (fun _ '(e', _) => e' = e) (e, rng).
Proof.
  intros Hwf Hans. pose proof (ew_send _ _ _ _ Hwf) as Hs. pose proof (ew_recv _ _ _ _ Hwf) as Hr. pose proof (ew_bytes _ _ _ _ Hwf) as Hrb.
  unfold finish_flight, wp. destruct creq as [[ctx algs] |].
  - destruct (Hans ctx algs eq_refl) as [Hc Ha].
    pose proof (finish_with_policy_spec S_ d (cp_client_auth params) ctx algs rng (peer_recv_limit e) (recv_record e) (send_record e) Ha) as Hf.
    destruct (finish_handshake_with_policy _ _ _ _ _ _ _ _ _) as [rng' [[[[scratch out] record] app] | err |]]; [| done | done].
    destruct Hf as (t' & flight & pieces & sealed & Hbf & Hl & Hsb & Hp & _ & Hrun & Hrec & Hout & Hle & _ & Hk).
    exists app, out, scratch, record. split_and!; try done; [by apply Hsb | lia | | lia | |].
    + rewrite Hout, blen_app, blen_drop. unfold blen in *. lia.
    + rewrite Hout. apply take_app_length.
    + exists pieces, sealed. split_and!; try done. rewrite Hp. by eexists _, _, _, _, _.
  - pose proof (finish_spec S_ d (send_record e)) as Hf.
    destruct (finish_handshake S_ d (send_record e)) as [[[out record] app] | err |]; [| done | done].
    destruct Hf as (Hp & Hout & Hl & Hle & Hk & _).
    exists app, out, (recv_record e), record. split_and!; try done; [| lia | |].
    + rewrite Hout, blen_app, blen_drop. unfold blen in *. lia.
    + rewrite Hout. apply take_app_length.
    + exists [client_finished_msg (sfd_c_hs_ts d) (sha256 (hashed (sfd_transcript d)))], [record]. cbn [concat protected_run]. rewrite !app_nil_r.
      by split_and!.
Qed.

(** The handshake is over: the flight is authenticated, the answer is queued, and the data
    phase starts with the keys of the transcript. *)
Definition finished {w} (params : ClientParams w) (S_ : Suite) (c : WaitServerFlight) (buf : bytes) (app : AppData) (records : bytes) : Prop :=
  exists flight prepared leaf request, flight_of buf flight /\ vouches (cp_hostname params) flight prepared leaf /\
    requested (cp_client_auth params) flight request /\
    authenticates prepared (hashed (wsf_transcript c)) (wsf_s_hs_ts c) flight /\
    data_keys S_ (wsf_hs c) (sha256 (hashed (wsf_transcript c) ++ flight)) app /\
    answered (cp_client_auth params) S_ request (wsf_c_hs_ts c) (hashed (wsf_transcript c) ++ flight) records.

Lemma finalize_and_finish_spec {w} (params : ClientParams w) S_ c e rng :
  engine_wf e -> 0 <= MAX_CHAIN -> e_state e = EsWaitFlight S_ c ->
  wp (finalize_and_finish ip_host MAX_CHAIN params)
    (fun _ '(e', _) => engine_wf e' /\ recv e' = recv e /\ closed e' = closed e /\ ph e' = ph e /\ pending_handshake_done e' = true /\
       exists app, e_state e' = EsApp S_ app /\ finished params S_ c (sfr_buf (reassembler e)) app (pending e'))
    (fun _ '(e', _) => engine_wf e' /\ recv e' = recv e /\ ph e' = ph e /\ pending_handshake_done e' = pending_handshake_done e /\ in_data_phase (e_state e') = false) (e, rng).
Proof.
  intros Hwf HM Hst. unfold finalize_and_finish. pose proof (ew_reasm _ _ _ _ Hwf) as Hrok.
  apply wp_bind, wp_zoom. eapply wp_weaken; [by apply peek_peer_limit_spec | | intros err e' ->; by rewrite Hst].
  intros _ e1 (Hwf1 & l & ->). apply wp_bind, wp_zoom, wp_gets. set (e1 := set_peer_limit l e) in *. change (reassembler e1) with (reassembler e).
  pose proof (check_flight_spec params (reassembler e) Hrok HM) as Hc.
  destruct (check_flight ip_host MAX_CHAIN params (reassembler e)) as [[[creq prepared] leaf] | err |]; [apply wp_bind_ok | apply wp_bind_fail | done].
  2: { refine (conj Hwf1 (conj eq_refl (conj eq_refl (conj eq_refl _)))). change (e_state e1) with (e_state e). by rewrite Hst. }
  destruct Hc as (flight & Hfl & Hv & Hans & Hreq). apply wp_bind, wp_zoom, wp_gets. change (e_state e1) with (e_state e). rewrite Hst.
  apply wp_bind, wp_zoom, wp_modify. set (e2 := set_state EsClosed e1). assert (engine_wf e2) as Hwf2 by (unfold e2; wf_update Hwf1).
  pose proof (finalize_spec c (reassembler e) prepared leaf Hrok) as Hf.
  destruct (finalize_server_flight c (reassembler e) prepared leaf) as [d | err |]; cbn [map_err]; [apply wp_bind_ok | by apply wp_bind_fail | done].
  destruct Hf as (flight' & Hm & Hfl' & Hauth & Htr & Hhs & Hct & _).
  pose proof (flight_of_unique _ _ _ Hfl Hfl') as <-.
  apply wp_bind. eapply wp_weaken; [by apply (engine_finish_spec S_ params creq d e2 rng) | |].
  2: { intros err [e' rng'] ->. done. }
  intros n [e3 rng3] (app & out & scratch & record & -> & -> & Hsb & Hsl & Hol & Hle & Htake & _ & Hk & Ha).
  apply wp_zoom, wp_modify. split_and!; try done.
  - pose proof (blen_nonneg record). unfold e2, e1 in *. wf_update Hwf2.
  - exists app. split; [done |]. exists flight, prepared, leaf, creq. rewrite Htr, Hhs, Hct in *. split_and!; try done.
    assert (pending (set_done true true (set_send (blen record) 0 (set_state (EsApp S_ app) (set_send_record out (set_recv_record scratch e2))))) = record) as ->; [| done].
    unfold pending. fields. by rewrite Z.sub_0_r, drop_0, to_nat_blen.
Qed.

(** A record of the flight extends it, or completes it and ends the handshake. *)
Lemma handle_flight_record_spec {w} (params : ClientParams w) S_ c start end_ e rng :
  engine_wf e -> 0 <= MAX_CHAIN -> e_state e = EsWaitFlight S_ c -> 0 <= start -> start < end_ -> end_ <= RECV ->
  wp (handle_flight_record FLIGHT ip_host MAX_CHAIN start end_ params)
    (fun _ '(e', _) => engine_wf e' /\ recv e' = recv e /\ closed e' = closed e /\ ph e' = ph e /\
       exists c1 content, flight_record S_ c c1 (record_at e start end_) content /\
       ((e_state e' = EsWaitFlight S_ c1 /\ sfr_buf (reassembler e') = sfr_buf (reassembler e) ++ content /\ pending e' = pending e /\
         pending_handshake_done e' = pending_handshake_done e /\ drop (Z.to_nat end_) (recv_record e') = drop (Z.to_nat end_) (recv_record e)) \/
        exists app, e_state e' = EsApp S_ app /\ pending_handshake_done e' = true /\
          finished params S_ c1 (sfr_buf (reassembler e) ++ content) app (pending e')))
    (fun _ '(e', _) => engine_wf e' /\ recv e' = recv e /\ ph e' = ph e /\ pending_handshake_done e' = pending_handshake_done e /\ in_data_phase (e_state e') = false) (e, rng).
Proof.
  intros Hwf HM Hst Hs Hse He. pose proof (ew_recv _ _ _ _ Hwf) as Hr. pose proof (ew_bytes _ _ _ _ Hwf) as Hrb.
  unfold handle_flight_record. apply wp_bind, wp_zoom, wp_gets. change (id e) with e.
  destruct (at_idx_in_range (recv_record e) start) as [ty Hty]; [lia |]. apply wp_bind. eapply wp_or_panic; [exact Hty |]. cbv zeta.
  destruct (_ && _); [apply wp_fail; by rewrite Hst |]. rewrite Hst.
  destruct (slice_in_range (recv_record e) start end_) as [record Hrec]; [lia.. |]. apply wp_bind. eapply wp_or_panic; [exact Hrec |].
  pose proof (bytes_ok_slice _ _ _ _ Hrb Hrec) as Hok. pose proof Hrec as (_ & _ & _ & Hrl & Hre)%slice_Some_inv.
  pose proof (feed_spec S_ FLIGHT c record (reassembler e) Hok (ew_reasm _ _ _ _ Hwf)) as Hf.
  destruct (feed_server_record_inplace S_ FLIGHT c record (reassembler e)) as [[[c1 record'] r1] res]. destruct Hf as (Hl & Hb & Hf).
  destruct (splice_in_range (recv_record e) start record') as [b Hsp]; [lia.. |]. apply wp_bind. eapply wp_or_panic; [exact Hsp |].
  apply wp_bind, wp_zoom, wp_modify. set (e1 := set_state (EsWaitFlight S_ c1) (set_reassembler r1 (set_recv_record b e))).
  pose proof (bytes_ok_splice _ _ _ _ Hrb Hb Hsp) as Hbok. pose proof Hsp as (_ & _ & Hbl & _)%splice_Some_inv.
  assert (bytes_ok (sfr_buf r1) -> engine_wf e1) as Hwf1 by (intros Hr1; unfold e1; wf_update Hwf).
  assert (drop (Z.to_nat end_) b = drop (Z.to_nat end_) (recv_record e)) as Hdrop by (apply (drop_splice _ _ _ _ _ Hsp); lia).
  destruct res as [step | err |]; cbn [map_err]; [apply wp_bind_ok | apply wp_bind_fail | done].
  2: { destruct Hf as [_ ->]. split_and!; try done. apply Hwf1, (ew_reasm _ _ _ _ Hwf). }
  destruct Hf as (content & Hfr & Hbuf & _ & Hr1 & _). specialize (Hwf1 Hr1). rewrite Hre in Hfr. destruct step.
  - apply wp_ret. split_and!; try done. exists c1, content. split; [done |]. by left.
  - eapply wp_weaken; [by apply (finalize_and_finish_spec params S_ c1 e1 rng) | |]; [| done].
    intros _ [e2 rng2] (? & ? & ? & ? & Hdone & app & Happ & Hfin). split_and!; try done. exists c1, content. split; [done |]. right. exists app.
    split_and!; try done. change (reassembler e1) with r1 in Hfin. by rewrite Hbuf in Hfin.
Qed.

(** What a record of the server does to the handshake. *)
Inductive hs_step {w} (params : ClientParams w) (record : bytes) (e e' : TlsEngine) : Prop :=
| hs_hello c S_ ikm c1 :
    e_state e = EsWaitServerHello c -> e_state e' = EsWaitFlight S_ c1 -> negotiated ft c record S_ ikm c1 ->
    reassembler e' = reassembler e -> pending e' = pending e -> pending_handshake_done e' = pending_handshake_done e ->
    buffered e = record ++ buffered e' -> hs_step params record e e'
| hs_flight S_ c c1 content :
    e_state e = EsWaitFlight S_ c -> e_state e' = EsWaitFlight S_ c1 -> flight_record S_ c c1 record content ->
    sfr_buf (reassembler e') = sfr_buf (reassembler e) ++ content -> pending e' = pending e ->
    pending_handshake_done e' = pending_handshake_done e -> buffered e = record ++ buffered e' -> hs_step params record e e'
| hs_finished S_ c c1 content app :
    e_state e = EsWaitFlight S_ c -> e_state e' = EsApp S_ app -> flight_record S_ c c1 record content ->
    finished params S_ c1 (sfr_buf (reassembler e) ++ content) app (pending e') ->
    pending_handshake_done e' = true -> (exists rest, buffered e = record ++ rest) -> hs_step params record e e'.

Lemma set_next_wf e n :
  engine_wf e -> rs_plain_end (recv e) <= n -> n <= rs_filled (recv e) -> engine_wf (set_next_record n e).
Proof. intros Hwf H1' H2'. wf_update Hwf. Qed.

Lemma dispatch_handshake_spec {w} (params : ClientParams w) start len ty e rng :
  (f_mlkem ft = true -> f_x25519_kx ft = true) -> 0 <= MAX_CHAIN -> engine_wf e -> start = rs_next_record (recv e) -> 0 <= len ->
  start + 5 + len <= rs_filled (recv e) ->
  wp (dispatch_handshake_record ft FLIGHT ip_host MAX_CHAIN start (start + 5 + len) ty params)
    (fun _ '(e', _) => engine_wf e' /\ closed e' = closed e /\ ph e' = ph e /\ rs_filled (recv e') = rs_filled (recv e) /\
       rs_next_record (recv e') = start + 5 + len /\ plaintext_parked (recv e') = plaintext_parked (recv e) /\
       hs_step params (record_at e start (start + 5 + len)) e e')
    (fun _ '(e', _) => engine_wf e' /\ recv e' = recv e /\ ph e' = ph e /\ pending_handshake_done e' = pending_handshake_done e /\ (e' = e \/ in_data_phase (e_state e) = false /\ in_data_phase (e_state e') = false)) (e, rng).
Proof.
  intros Hfeat HM Hwf Hs Hlen Hfill. set (end_ := start + 5 + len) in *. pose proof (ew_cursor _ _ _ _ Hwf) as Hcur.
  unfold dispatch_handshake_record. apply wp_bind, wp_zoom, wp_gets. apply wp_bind. destruct (e_state e) as [c | S_ c | S_ c |] eqn:Hst.
  - apply wp_zoom. eapply wp_weaken; [apply (handle_server_hello_spec e c start end_ ty Hfeat Hwf Hst); lia | |].
    + intros _ e' (S_ & c1 & ikm & -> & Hn). apply wp_zoom, wp_modify.
      split_and!; try done; [unfold end_; apply set_next_wf; fields; [wf_update Hwf | lia | lia] |].
      eapply hs_hello; try done. rewrite Hs. apply buffered_next; try done; lia.
    + intros err e' [-> | ->]; split_and!; try done; [by left | wf_update Hwf | by right].
  - eapply wp_weaken; [apply (handle_flight_record_spec params S_ c start end_ e rng Hwf HM Hst); lia | |].
    + intros _ [e' rng'] (Hwf' & Hrv & Hcl & Hph & c1 & content & Hfr & Hcase). apply wp_zoom, wp_modify.
      split_and!; try done; [apply set_next_wf; rewrite ?Hrv; [done | lia | done] | cbn; by rewrite Hrv.. |].
      destruct Hcase as [(Hst' & Hbuf & Hpe & Hd & Hdrop) | (app & Hst' & Hd & Hfin)].
      * eapply hs_flight; try done. rewrite Hs. apply buffered_next; try done; [lia | lia | cbn; by rewrite Hrv].
      * eapply hs_finished; try done. exists (buffered (set_next_record end_ e)). rewrite Hs. apply buffered_next; try done; lia.
    + intros err [e' rng'] (? & ? & ? & ? & ?). split_and!; try done. by right.
  - apply wp_fail. split_and!; try done. by left.
  - apply wp_fail. split_and!; try done. by left.
Qed.
End handshake_specs.

(** ** The invariant *)

Section invariants.
Context `{Usize, HeaplessVec, HkdfSha256, SubtleCt, AeadBackend, KxBackend, MlKemSizes, VerifierBackend, MlDsaSizes, !VerifyStrategy, CertParser}.
Context (ft : Features) (FLIGHT RECV SEND : Z) (ip_host : bool) (MAX_CHAIN : Z).
Notation engine_wf := (engine_wf ft RECV SEND).
Notation engine_ok := (engine_ok ft RECV SEND).
Notation event_ok := (event_ok RECV).

(** The invariant carries over to an engine that only differs in its buffers and cursors. *)
Lemma engine_ok_same e e' :
  engine_ok e -> engine_wf e' -> closed e' = closed e -> ph e' = ph e -> e_state e' = e_state e ->
  pending_handshake_done e' = pending_handshake_done e -> engine_ok e'.
Proof. intros [_ Hok] Hwf Hc Hp Hs Hd. split; [done |]. intros Hcl. rewrite Hp, Hs, Hd. apply Hok. by rewrite <- Hc. Qed.

(** An engine that is closed or in its data phase is at some position. *)
Lemma engine_ok_open e :
  engine_ok e -> (closed e = false -> in_data_phase (e_state e) = true) -> exists S_ rts cts p q, open_at S_ rts cts p q e.
Proof.
  intros [_ Hok] Hd. destruct (closed e) eqn:Hc.
  - exists Aes128GcmSha256, [], [], (O, 0), (O, 0). by unfold open_at; rewrite Hc.
  - destruct (Hok eq_refl) as (Hph & _ & Hk). specialize (Hd eq_refl). destruct (e_state e) as [| | S_ c |] eqn:Hst; try done.
    exists S_, (ad_s_ap_ts c), (ad_c_ap_ts c), (O, ad_seq_in c), (O, ad_seq_out c). intros _. split; [| done]. exists c. destruct Hk.
    split; [done |]. split; by split_and!.
Qed.

Lemma open_engine_ok S_ rts cts p q e : engine_wf e -> open_at S_ rts cts p q e -> engine_ok e.
Proof.
  intros Hwf Ho. split; [done |]. intros Hc. destruct (Ho Hc) as [(c & Hst & (_ & Hr & _) & (_ & Hs & _)) Hph]. rewrite Hst. done.
Qed.

Lemma advanced_ok S_ rts cts p q e ins outs p' q' e' : advanced ft RECV SEND S_ rts cts p q e ins outs p' q' e' -> engine_ok e'.
Proof. intros Ha. eapply open_engine_ok; [apply (av_wf _ _ _ _ _ _ _ _ _ _ _ _ _ _ Ha) | apply (av_open _ _ _ _ _ _ _ _ _ _ _ _ _ _ Ha)]. Qed.

Lemma closed_engine_ok e : engine_wf e -> closed e = true -> engine_ok e.
Proof. intros Hwf Hc. split; [done |]. congruence. Qed.

(** Before the data phase a data-phase step reads nothing: it closes on a record. *)
Lemma step_not_app e :
  TLS_HEADER <= RECV -> engine_ok e -> closed e = false -> in_data_phase (e_state e) = false ->
  wp (step RECV) (fun ev e' => engine_ok e' /\ event_ok ev e') (fun _ e' => engine_ok e') e.
Proof.
  intros HR Hok Hc Hd. pose proof (proj1 Hok) as Hwf. unfold step. cbn [step_loop]. apply wp_bind, wp_gets. change (id e) with e.
  destruct (is_send_pending e) eqn:Hnp; [apply wp_ret; split; [done | by apply (send_event ft RECV SEND)] |].
  destruct (plaintext_parked (recv e)) eqn:Hpk; [apply wp_ret; split; [done | by apply (data_event ft RECV SEND)] |]. rewrite Hc.
  apply wp_bind. eapply wp_weaken; [apply (frame_spec _ _ _ e Hwf HR Hpk) | | by intros err e' ->].
  intros fr e0 (Hwf0 & Hb0 & Hpk0 & (r & b & ->) & Hfr). destruct fr as [start end_ ty len |].
  2: { apply wp_ret. split; [by apply (engine_ok_same e) | done]. }
  apply wp_bind. destruct Hfr as (-> & _).
  assert (engine_ok (set_closed true e)) as Hclosed by (apply closed_engine_ok; [wf_update Hwf | done]).
  unfold dispatch_data_record, dispatch_data_record_inner, wp. destruct (negb _); [done |].
  unfold mbind, SM_bind, gets. change (id e) with e. destruct (_ <? _); [done |].
  unfold decrypt_current_data_record, mbind, SM_bind, gets. change (id e) with e. by destruct (e_state e).
Qed.

Lemma step_ok e :
  TLS_HEADER <= RECV -> engine_ok e -> wp (step RECV) (fun ev e' => engine_ok e' /\ event_ok ev e') (fun _ e' => engine_ok e') e.
Proof.
  intros HR Hok. destruct (closed e) eqn:Hc, (in_data_phase (e_state e)) eqn:Hd; try by apply step_not_app.
  all: destruct (engine_ok_open e Hok) as (S_ & rts & cts & p & q & Ho); [congruence |];
    (eapply wp_weaken; [apply (step_spec ft RECV SEND S_ rts cts e p q HR (proj1 Hok) Ho) | |]);
    [intros ev e' (Hev & ins & outs & p' & q' & Ha & _); split; [| done] | intros err e' (ins & outs & p' & q' & Ha & _)];
    by eapply advanced_ok.
Qed.

(** A step of the handshake keeps the invariant. *)
Lemma hs_step_ok {w} (params : ClientParams w) record e e' :
  engine_ok e -> engine_wf e' -> closed e' = closed e -> ph e' = ph e -> hs_step ft ip_host MAX_CHAIN params record e e' -> engine_ok e'.
Proof.
  intros [_ Hok] Hwf Hc Hp Hs. split; [done |]. rewrite Hc, Hp. intros Hcl. destruct (Hok Hcl) as (Hph & Hd & _). split; [done |].
  destruct Hs as [? ? ? ? Hst Hst' _ _ _ Hdone | ? ? ? ? Hst Hst' _ _ _ Hdone | ? ? ? ? ? Hst Hst' _ (? & ? & ? & ? & _ & _ & _ & _ & Hk & _) _ _];
    rewrite Hst'; rewrite Hst in Hd; [rewrite Hdone.. |]; try done.
  by destruct Hk as (_ & _ & ? & ? & _).
Qed.

Lemma step_handshake_loop_ok {w} (params : ClientParams w) fuel e rng :
  (f_mlkem ft = true -> f_x25519_kx ft = true) -> 0 <= MAX_CHAIN -> TLS_HEADER <= RECV -> engine_ok e ->
  (Z.to_nat (rs_filled (recv e) - rs_next_record (recv e)) < fuel)%nat ->
  wp (step_handshake_loop ft FLIGHT RECV ip_host MAX_CHAIN fuel params)
    (fun ev '(e', _) => engine_ok e' /\ event_ok ev e') (fun _ '(e', _) => engine_ok e') (e, rng).
Proof.
  intros Hfeat HM HR. revert e rng. induction fuel as [| fuel IH]; intros e rng Hok Hf; [lia |]. pose proof (proj1 Hok) as Hwf.
  cbn [step_handshake_loop]. apply wp_bind, wp_zoom, wp_gets. change (id e) with e.
  destruct (is_send_pending e) eqn:Hnp; [apply wp_ret; split; [done | by apply (send_event ft RECV SEND)] |].
  destruct (pending_handshake_done e && negb (handshake_finished_pending_ack e)) eqn:Hd.
  { apply andb_true_iff in Hd as [Hd _]. apply wp_bind, wp_zoom, wp_modify, wp_ret. split.
    - split; [wf_update Hwf |]. intros Hc. destruct (proj2 Hok Hc) as (? & _ & ?). done.
    - intros Hc. by apply (proj2 Hok Hc). }
  destruct (plaintext_parked (recv e)) eqn:Hpk; [apply wp_ret; split; [done | by apply (data_event ft RECV SEND)] |].
  destruct (closed e) eqn:Hc; [by apply wp_ret |].
  apply wp_bind, wp_zoom. eapply wp_weaken; [apply (frame_spec _ _ _ e Hwf HR Hpk) | | by intros err e' ->].
  intros fr e0 (Hwf0 & Hb0 & Hpk0 & (r & b & ->) & Hfr). destruct fr as [start end_ ty len |].
  2: { apply wp_ret. split; [by apply (engine_ok_same e) | done]. }
  destruct Hfr as (-> & Hstart & -> & Hlen & Hfi & _). apply wp_bind.
  eapply wp_weaken; [apply (dispatch_handshake_spec ft FLIGHT RECV SEND ip_host MAX_CHAIN params start len ty e rng); try done; lia | |].
  - intros _ [e1 rng1] (Hwf1 & Hc1 & Hp1 & Hf1 & Hn1 & _ & Hs). apply IH; [by eapply hs_step_ok | lia].
  - intros err [e1 rng1] (Hwf1 & _ & Hp1 & Hd1 & Hcase). destruct Hcase as [-> | [Hna0 Hna]]; [done |]. split; [done |]. intros _.
    destruct (proj2 Hok Hc) as (Hph & Hdd & _). rewrite Hp1, Hd1. split_and!; [done | | by destruct (e_state e1)].
    intros Hd2. specialize (Hdd Hd2). congruence.
Qed.

Lemma step_handshake_ok {w} (params : ClientParams w) e rng :
  (f_mlkem ft = true -> f_x25519_kx ft = true) -> 0 <= MAX_CHAIN -> TLS_HEADER <= RECV -> engine_ok e ->
  wp (step_handshake ft FLIGHT RECV ip_host MAX_CHAIN params)
    (fun ev '(e', _) => engine_ok e' /\ event_ok ev e') (fun _ '(e', _) => engine_ok e') (e, rng).
Proof.
  intros Hfeat HM HR Hok. apply (step_handshake_loop_ok params (S (length (recv_record e))) e rng Hfeat HM HR Hok).
  pose proof (ew_cursor _ _ _ _ (proj1 Hok)). pose proof (ew_recv _ _ _ _ (proj1 Hok)). unfold blen in *. lia.
Qed.

Lemma receive_ok e free buf n :
  engine_ok e -> recv_buffer (E := HandshakeError) e = Ok free -> blen buf = blen free -> bytes_ok buf -> 0 <= n <= blen buf ->
  wp (_ ← put_recv buf; advance n) (fun _ e' => engine_ok e') (fun _ e' => engine_ok e') e.
Proof.
  intros Hok Hfree Hbl Hb Hn. pose proof (proj1 Hok) as Hwf.
  destruct (recv_buffer_spec ft RECV SEND (E := HandshakeError) e Hwf) as (free' & Hf & Hfl). rewrite Hfree in Hf. apply Ok_inj in Hf as <-.
  destruct (plaintext_parked (recv e)) eqn:Hpk.
  - assert (n = 0) as -> by lia. unfold put_recv, wp, mbind, SM_bind, gets. change (id e) with e. rewrite Hpk. done.
  - eapply wp_weaken; [apply (receive_spec ft RECV SEND e buf n Hwf Hpk Hb ltac:(lia) Hn) | |].
    + intros _ e' (Hwf' & (r & b & ->) & _). by apply (engine_ok_same e).
    + intros err e' (_ & _ & Hwf' & (r & b & ->) & _). by apply (engine_ok_same e).
Qed.

Lemma write_app_ok e plaintext :
  engine_ok e -> wp (write_app SEND plaintext) (fun n e' => engine_ok e' /\ 0 <= n <= blen plaintext) (fun _ e' => e' = e) e.
Proof.
  intros Hok. destruct (closed e) eqn:Hc; [unfold write_app, wp, mbind, SM_bind, gets; change (id e) with e; by rewrite Hc |].
  destruct (in_data_phase (e_state e)) eqn:Hd.
  2: { unfold write_app. apply wp_bind, wp_gets. change (id e) with e. rewrite Hc. destruct (is_send_pending e); [by apply wp_fail |]. rewrite Hd. by apply wp_fail. }
  destruct (engine_ok_open e Hok) as (S_ & rts & cts & p & q & Ho); [done |].
  eapply wp_weaken; [apply (write_app_spec ft RECV SEND S_ rts cts e p q plaintext (proj1 Hok) Ho) | | done].
  intros n e' (-> & outs & q' & Ha & _). split; [by eapply advanced_ok |].
  assert (0 <= send_chunk_limit SEND e) by (unfold send_chunk_limit, saturating_sub; lia). pose proof (blen_nonneg plaintext). lia.
Qed.

Lemma close_ok e : engine_ok e -> wp close (fun _ e' => engine_ok e' /\ closed e' = true) (fun _ e' => e' = e) e.
Proof.
  intros Hok. pose proof (proj1 Hok) as Hwf. destruct (closed e) eqn:Hc; [unfold close, wp, mbind, SM_bind, gets; change (id e) with e; by rewrite Hc |].
  destruct (in_data_phase (e_state e)) eqn:Hd.
  2: { unfold close. apply wp_bind, wp_gets. change (id e) with e. rewrite Hc. destruct (is_send_pending e); [by apply wp_fail |]. rewrite Hd.
       apply wp_modify. split; [| done]. apply closed_engine_ok; [wf_update Hwf | done]. }
  destruct (engine_ok_open e Hok) as (S_ & rts & cts & p & q & Ho); [done |].
  eapply wp_weaken; [apply (close_spec ft RECV SEND S_ rts cts e p q Hwf Ho) | | done].
  intros _ e' (Hcl & outs & q' & Ha & _). split; [by eapply advanced_ok | done].
Qed.

Lemma read_app_ok e out :
  engine_ok e -> wp (read_app out)
    (fun '(out', n) e' => engine_ok e' /\ blen out' = blen out /\ take (Z.to_nat n) out' ++ parked e' = parked e /\ n = Z.min (blen (parked e)) (blen out))
    (fun _ _ => False) e.
Proof.
  intros Hok. eapply wp_weaken; [apply (read_app_spec ft RECV SEND e out (proj1 Hok)) | | done].
  intros [out' n] e' (Hwf & Hn & Hl & Hp & r & -> & _). split_and!; try done. by apply (engine_ok_same e).
Qed.

Lemma mark_sent_ok e n :
  engine_ok e -> 0 <= n -> wp (mark_sent n) (fun _ e' => engine_ok e' /\ pending e' = drop (Z.to_nat n) (pending e)) (fun _ e' => e' = e) e.
Proof.
  intros Hok Hn. eapply wp_weaken; [apply (mark_sent_spec ft RECV SEND e n (proj1 Hok) Hn) | | done].
  intros _ e' (Hwf & _ & Hp & x & z & u & ->). split; [by apply (engine_ok_same e) | done].
Qed.

Lemma new_ok reassembler scratch_recv scratch_send c our_limit :
  blen scratch_recv = RECV -> blen scratch_send = SEND -> bytes_ok scratch_recv -> secrets_ok ft (wsh_secrets c) ->
  MIN_RECORD_SIZE_LIMIT <= our_limit <= PROTO_MAX_INNER_PLAINTEXT ->
  engine_ok (TlsEngine_new reassembler scratch_recv scratch_send (EsWaitServerHello c) our_limit RecordSizeLimit_DEFAULT).
Proof.
  intros Hr Hs Hb Hc Hl. pose proof (blen_nonneg scratch_recv). pose proof (blen_nonneg scratch_send). split.
  - constructor; fields; try done; try lia. constructor.
  - intros _. split_and!; try done. unfold ph_ok. cbn. unfold U24. split_and!; try done; try lia. by apply bytes_okb_sound.
Qed.
End invariants.

(** C5. Every operation of the engine keeps its invariant and none panics.  From an engine
    whose cursors are ordered inside its buffers, whose post-handshake stage is consistent
    and whose data-phase keys are those of its traffic secrets, any call with any bytes
    from the transport returns, an error included, and leaves such an engine; an event means
    what it says ([Send] counts the bytes to send, [Recv] comes with room in the receive
    buffer, [AppData] with bytes to read, [HandshakeDone] only in the data phase).  A fresh
    engine over any scratch buffers is such an engine. *)
Theorem engine_invariant `{Usize, HeaplessVec, HkdfSha256, SubtleCt, AeadBackend, KxBackend, MlKemSizes, VerifierBackend, MlDsaSizes, !VerifyStrategy, CertParser}
    (ft : Features) (FLIGHT RECV SEND : Z) (ip_host : bool) (MAX_CHAIN : Z) {w} (params : ClientParams w) :
  (f_mlkem ft = true -> f_x25519_kx ft = true) -> 0 <= MAX_CHAIN -> TLS_HEADER <= RECV ->
  let ok := engine_ok ft RECV SEND in
  (forall r scratch_recv scratch_send c limit,
     blen scratch_recv = RECV -> blen scratch_send = SEND -> bytes_ok scratch_recv -> secrets_ok ft (wsh_secrets c) ->
     MIN_RECORD_SIZE_LIMIT <= limit <= PROTO_MAX_INNER_PLAINTEXT ->
     ok (TlsEngine_new r scratch_recv scratch_send (EsWaitServerHello c) limit RecordSizeLimit_DEFAULT)) /\
  forall e, ok e ->
    (forall rng, wp (step_handshake ft FLIGHT RECV ip_host MAX_CHAIN params)
       (fun ev '(e', _) => ok e' /\ event_ok RECV ev e') (fun _ '(e', _) => ok e') (e, rng)) /\
    wp (step RECV) (fun ev e' => ok e' /\ event_ok RECV ev e') (fun _ e' => ok e') e /\
    (exists free, recv_buffer (E := HandshakeError) e = Ok free /\
       blen free = (if plaintext_parked (recv e) then 0 else RECV - rs_filled (recv e)) /\
       forall buf n, blen buf = blen free -> bytes_ok buf -> 0 <= n <= blen buf ->
         wp (_ ← put_recv buf; advance n) (fun _ e' => ok e') (fun _ e' => ok e') e) /\
    (forall out, wp (read_app out)
       (fun '(out', n) e' => ok e' /\ blen out' = blen out /\ take (Z.to_nat n) out' ++ parked e' = parked e /\
          n = Z.min (blen (parked e)) (blen out)) (fun _ _ => False) e) /\
    (forall plaintext, wp (write_app SEND plaintext) (fun n e' => ok e' /\ 0 <= n <= blen plaintext) (fun _ e' => e' = e) e) /\
    send_bytes (E := HandshakeError) e = Ok (pending e) /\
    (forall n, 0 <= n -> wp (mark_sent n) (fun _ e' => ok e' /\ pending e' = drop (Z.to_nat n) (pending e)) (fun _ e' => e' = e) e) /\
    wp close (fun _ e' => ok e' /\ closed e' = true) (fun _ e' => e' = e) e /\
    ok (mark_terminal e).
Proof.
  intros Hfeat HM HR ok. split; [intros; by apply new_ok |]. intros e Hok. pose proof (proj1 Hok) as Hwf.
  split_and!.
  - intros rng. by apply step_handshake_ok.
  - by apply step_ok.
  - destruct (recv_buffer_spec ft RECV SEND (E := HandshakeError) e Hwf) as (free & Hf & Hl). exists free. split_and!; [done | done |].
    intros buf n H1' H2' H3'. by eapply receive_ok.
  - intros out. by apply read_app_ok.
  - intros pt. by apply write_app_ok.
  - by apply (send_bytes_spec ft RECV SEND).
  - intros n Hn. by apply mark_sent_ok.
  - by apply close_ok.
  - apply closed_engine_ok; [by apply (terminal_wf ft RECV SEND) | done].
Qed.

(** ** Runs of the handshake *)

Lemma flight_records_snoc `{HkdfSha256, AeadBackend} S_ c records c1 content record c2 x :
  flight_records S_ c records c1 content -> flight_record S_ c1 c2 record x -> flight_records S_ c (records ++ [record]) c2 (content ++ x).
Proof.
  induction 1 as [c | c r ct c' rs c1 rest Hr _ IH]; intros Hl; cbn [Datatypes.app].
  - rewrite <- (app_nil_r x). econstructor; [done | constructor].
  - rewrite <- app_assoc. econstructor; [done | by apply IH].
Qed.

Section handshake_runs.
Context `{Usize, HeaplessVec, HkdfSha256, SubtleCt, AeadBackend, KxBackend, MlKemSizes, VerifierBackend, MlDsaSizes, !VerifyStrategy, CertParser}.
Context (ft : Features) (FLIGHT RECV SEND : Z) (ip_host : bool) (MAX_CHAIN : Z) {w : RsaWidth} (params : ClientParams w).

(** One successful call of the wrapper during the handshake: it gives up on any error. *)
Inductive hs_call : TlsEngine * Rng -> io -> TlsEngine * Rng -> Prop :=
| hc_step s ev s' : step_handshake ft FLIGHT RECV ip_host MAX_CHAIN params s = (s', Ok ev) -> hs_call s (IoReceived []) s'
| hc_receive e free buf n e' rng :
    recv_buffer (E := HandshakeError) e = Ok free -> blen buf = blen free -> bytes_ok buf -> 0 <= n <= blen buf ->
    (_ ← put_recv buf; advance n) e = (e', Ok tt) -> hs_call (e, rng) (IoReceived (take (Z.to_nat n) buf)) (e', rng)
| hc_sent e bytes n e' rng :
    send_bytes (E := HandshakeError) e = Ok bytes -> 0 <= n -> mark_sent n e = (e', Ok tt) ->
    hs_call (e, rng) (IoSent (take (Z.to_nat n) bytes)) (e', rng).

Inductive hs_run : TlsEngine * Rng -> list io -> TlsEngine * Rng -> Prop :=
| hr_nil s : hs_run s [] s
| hr_snoc s tr s1 x s2 : hs_run s tr s1 -> hs_call s1 x s2 -> hs_run s (tr ++ [x]) s2.

(** Where a handshake that started from [c0] stands after [tr]. *)
Definition hs_stage (c0 : WaitServerHello) (tr : list io) (e : TlsEngine) : Prop :=
  match e_state e with
  | EsWaitServerHello c => c = c0 /\ sfr_buf (reassembler e) = [] /\ received tr = buffered e /\ sent tr = [] /\ pending e = []
  | EsWaitFlight S_ c => exists sh_record ikm c1 records,
      negotiated ft c0 sh_record S_ ikm c1 /\ flight_records S_ c1 records c (sfr_buf (reassembler e)) /\
      received tr = sh_record ++ concat records ++ buffered e /\ sent tr = [] /\ pending e = []
  | EsApp S_ app => exists sh_record ikm c1 records c2 content rest,
      negotiated ft c0 sh_record S_ ikm c1 /\ flight_records S_ c1 records c2 content /\
      finished ip_host MAX_CHAIN params S_ c2 content app (sent tr ++ pending e) /\ received tr = sh_record ++ concat records ++ rest
  | EsClosed => False
  end.

Record hs_inv (c0 : WaitServerHello) (tr : list io) (e : TlsEngine) : Prop := {
  hi_wf : engine_wf ft RECV SEND e;
  hi_ph : ph_ok (ph e);
  hi_parked : plaintext_parked (recv e) = false;
  hi_closed : closed e = false;
  hi_done : pending_handshake_done e = true -> in_data_phase (e_state e) = true;
  hi_stage : hs_stage c0 tr e
}.

Lemma hs_stage_step c0 tr record e e' :
  hs_stage c0 tr e -> hs_step ft ip_host MAX_CHAIN params record e e' -> hs_stage c0 tr e'.
Proof.
  unfold hs_stage. intros Hst Hs. destruct Hs as [c S_ ikm c1 He He' Hn Hr Hp _ Hb | S_ c c1 content He He' Hf Hr Hp _ Hb | S_ c c1 content app He He' Hf Hfin _ [rest Hb]];
    rewrite He in Hst; rewrite He'.
  - destruct Hst as (-> & Hbuf & Hrc & Hs & Hpe). exists record, ikm, c1, []. rewrite Hr, Hbuf, Hp. split_and!; try done; [constructor |].
    by rewrite Hrc, Hb.
  - destruct Hst as (sh & ikm & c2 & records & Hn & Hfr & Hrc & Hs & Hpe). exists sh, ikm, c2, (records ++ [record]). rewrite Hr, Hp.
    split_and!; try done; [by eapply flight_records_snoc |]. rewrite Hrc, Hb, concat_app. cbn [concat]. by rewrite app_nil_r, <- !app_assoc.
  - destruct Hst as (sh & ikm & c2 & records & Hn & Hfr & Hrc & Hs & Hpe).
    exists sh, ikm, c2, (records ++ [record]), c1, (sfr_buf (reassembler e) ++ content), rest. rewrite Hs. split_and!; try done.
    + by eapply flight_records_snoc.
    + rewrite Hrc, Hb, concat_app. cbn [concat]. by rewrite app_nil_r, <- !app_assoc.
Qed.

(** What an event of [step_handshake] tells the wrapper: there are bytes to send, and unless
    they were pending before, a record was consumed; or there is room to receive; or the
    handshake is over and its answer has been sent. *)
Definition hs_event_ok (e : TlsEngine) (ev : EngineEvent) (e' : TlsEngine) : Prop :=
  match ev with
  | EvSend n => n = blen (pending e') /\ 0 < n /\ (e' = e \/ blen (buffered e') < blen (buffered e))
  | EvRecv => rs_filled (recv e') < RECV /\ pending e' = [] /\ blen (buffered e') <= blen (buffered e)
  | EvHandshakeDone => in_data_phase (e_state e') = true /\ pending e' = []
  | EvAppData | EvClosed => False
  end.

(** A run moves only forward, and reports the end only when the answer has been sent. *)
Lemma step_handshake_loop_hs fuel c0 tr e rng :
  (f_mlkem ft = true -> f_x25519_kx ft = true) -> 0 <= MAX_CHAIN -> TLS_HEADER <= RECV -> hs_inv c0 tr e ->
  (Z.to_nat (rs_filled (recv e) - rs_next_record (recv e)) < fuel)%nat ->
  wp (step_handshake_loop ft FLIGHT RECV ip_host MAX_CHAIN fuel params)
    (fun ev '(e', _) => hs_inv c0 tr e' /\ hs_event_ok e ev e') (fun _ _ => True) (e, rng).
Proof.
  intros Hfeat HM HR. revert e rng. induction fuel as [| fuel IH]; intros e rng Hi Hf; [lia |]. pose proof Hi as [Hwf Hph Hpk Hc Hd Hst].
  cbn [step_handshake_loop]. apply wp_bind, wp_zoom, wp_gets. change (id e) with e.
  destruct (is_send_pending e) eqn:Hnp.
  { apply wp_ret. split; [done |]. destruct (send_event ft RECV SEND e Hwf Hnp). split_and!; [done | done | by left]. }
  destruct (pending_nil ft RECV SEND e Hwf Hnp) as (_ & _ & Hpn).
  destruct (pending_handshake_done e && negb (handshake_finished_pending_ack e)) eqn:Hdone.
  { apply andb_true_iff in Hdone as [Hdone _]. apply wp_bind, wp_zoom, wp_modify, wp_ret. split; [| split; [by apply Hd | done]].
    constructor; try done. wf_update Hwf. }
  rewrite Hpk, Hc. apply wp_bind, wp_zoom. eapply wp_weaken; [apply (frame_spec _ _ _ e Hwf HR Hpk) | | done].
  intros fr e0 (Hwf0 & Hb0 & Hpk0 & (r & b & ->) & Hfr). destruct fr as [start end_ ty len |].
  2: { apply wp_ret. split; [| unfold hs_event_ok; rewrite Hb0; done]. constructor; try done. unfold hs_stage in *. fields. rewrite Hb0. exact Hst. }
  destruct Hfr as (-> & Hstart & -> & Hlen & Hfi & _). apply wp_bind.
  eapply wp_weaken; [apply (dispatch_handshake_spec ft FLIGHT RECV SEND ip_host MAX_CHAIN params start len ty e rng); try done; lia | | done].
  intros _ [e1 rng1] (Hwf1 & Hc1 & Hp1 & Hf1 & Hn1 & Hk1 & Hs).
  assert (blen (buffered e1) < blen (buffered e)) as Hless by (rewrite !(buffered_len ft RECV SEND) by done; lia).
  eapply wp_weaken; [apply IH; [| lia] | | done].
  2: { intros ev [e' rng'] [Hi' Hev]. split; [done |]. destruct ev; cbn [hs_event_ok] in *; [| | exact Hev..].
       - destruct Hev as (H1' & H2' & H3'). split_and!; [done | done |]. right. destruct H3' as [-> | ?]; lia.
       - destruct Hev as (H1' & H2' & H3'). split_and!; [done | done | lia]. }
  constructor; try done.
  - by rewrite Hp1. - by rewrite Hk1. - by rewrite Hc1.
  - destruct Hs as [? ? ? ? He He' _ _ _ Hdd | ? ? ? ? He He' _ _ _ Hdd | ? ? ? ? ? He He' _ _ _]; rewrite He'; rewrite He in Hd; [rewrite Hdd; exact Hd.. | done].
  - by eapply hs_stage_step.
Qed.

Lemma step_handshake_hs c0 tr e rng :
  (f_mlkem ft = true -> f_x25519_kx ft = true) -> 0 <= MAX_CHAIN -> TLS_HEADER <= RECV -> hs_inv c0 tr e ->
  wp (step_handshake ft FLIGHT RECV ip_host MAX_CHAIN params)
    (fun ev '(e', _) => hs_inv c0 tr e' /\ hs_event_ok e ev e') (fun _ _ => True) (e, rng).
Proof.
  intros Hfeat HM HR Hi. apply (step_handshake_loop_hs (S (length (recv_record e))) c0 tr e rng Hfeat HM HR Hi).
  pose proof (hi_wf _ _ _ Hi) as Hwf. pose proof (ew_cursor _ _ _ _ Hwf). pose proof (ew_recv _ _ _ _ Hwf). unfold blen in *. lia.
Qed.

(** Bytes received after the flight join what is left of it; sent bytes leave the queue. *)
Lemma hs_stage_moved c0 tr x e e' :
  hs_stage c0 tr e -> e_state e' = e_state e -> reassembler e' = reassembler e ->
  buffered e' = buffered e ++ received [x] -> pending e = sent [x] ++ pending e' -> hs_stage c0 (tr ++ [x]) e'.
Proof.
  unfold hs_stage. intros Hst Hs Hr Hb Hp. destruct (io_app tr [x]) as (E1 & E2 & _ & _). rewrite Hs, Hr, E1, E2, Hb.
  destruct (e_state e) as [c | S_ c | S_ app |]; [| | | done].
  - destruct Hst as (-> & ? & -> & -> & Hpn). rewrite Hpn in Hp. symmetry in Hp. apply app_nil in Hp as [-> ->]. by rewrite app_nil_r.
  - destruct Hst as (sh & ikm & c1 & records & Hn & Hf & -> & -> & Hpn). rewrite Hpn in Hp. symmetry in Hp. apply app_nil in Hp as [-> ->].
    exists sh, ikm, c1, records. rewrite app_nil_r, <- !app_assoc. done.
  - destruct Hst as (sh & ikm & c1 & records & c2 & content & rest & Hn & Hf & Hfin & ->). exists sh, ikm, c1, records, c2, content, (rest ++ received [x]).
    rewrite Hp in Hfin. rewrite <- !app_assoc. done.
Qed.

Lemma hs_call_inv c0 tr e rng x e' rng' :
  (f_mlkem ft = true -> f_x25519_kx ft = true) -> 0 <= MAX_CHAIN -> TLS_HEADER <= RECV -> hs_inv c0 tr e ->
  hs_call (e, rng) x (e', rng') -> hs_inv c0 (tr ++ [x]) e'.
Proof.
  intros Hfeat HM HR Hi Hcall. pose proof Hi as [Hwf Hph Hpk Hc Hd Hst].
  inversion Hcall as [s ev s' Hstep | e0 free buf n e1 r Hfree Hbl Hok Hn Hrun | e0 bs n e1 r Hb Hn Hm]; subst.
  - pose proof (step_handshake_hs c0 tr e rng Hfeat HM HR Hi) as Hs.
    unfold wp in Hs. rewrite Hstep in Hs. destruct Hs as [[? ? ? ? ? Hst'] _].
    constructor; try done. eapply hs_stage_moved; [exact Hst' | done | done | | done]. cbn. by rewrite app_nil_r.
  - destruct (recv_buffer_spec ft RECV SEND (E := HandshakeError) e Hwf) as (free' & Hf & Hfl). rewrite Hfree in Hf. apply Ok_inj in Hf as <-.
    rewrite Hpk in Hfl. pose proof (receive_spec ft RECV SEND e buf n Hwf Hpk Hok ltac:(lia) Hn) as Hr. unfold wp in Hr. rewrite Hrun in Hr.
    destruct Hr as (Hwf' & (rr & b & ->) & _ & Hpk' & Hbuf). destruct (io_one (take (Z.to_nat n) buf)) as (E1 & _).
    constructor; try done. eapply hs_stage_moved; [exact Hst | done | done | by rewrite E1 | done].
  - rewrite (send_bytes_spec ft RECV SEND) in Hb by done. apply Ok_inj in Hb as <-.
    pose proof (mark_sent_spec ft RECV SEND e n Hwf Hn) as Hs. unfold wp in Hs. rewrite Hm in Hs.
    destruct Hs as (Hwf' & Hle & Hpe & a & z & u & ->). destruct (io_one (take (Z.to_nat n) (pending e))) as (_ & E2 & _).
    constructor; try done. eapply hs_stage_moved; [exact Hst | done | done | cbn; by rewrite app_nil_r | by rewrite E2, Hpe, take_drop].
Qed.

Lemma hs_run_inv c0 e0 rng0 tr e rng :
  (f_mlkem ft = true -> f_x25519_kx ft = true) -> 0 <= MAX_CHAIN -> TLS_HEADER <= RECV -> hs_inv c0 [] e0 ->
  hs_run (e0, rng0) tr (e, rng) -> hs_inv c0 tr e.
Proof.
  intros Hfeat HM HR Hi Hrun. remember (e0, rng0) as s0 eqn:Hs0. remember (e, rng) as s eqn:Hs. revert e rng Hs.
  induction Hrun as [s | s tr [e1 rng1] x s2 _ IH Hcall]; intros e rng ->.
  - simplify_eq. done.
  - eapply hs_call_inv; [done | done | done | by apply (IH Hs0 e1 rng1) | exact Hcall].
Qed.

(** What a finished handshake has established, from the bytes received and sent: the
    connection [c] was answered, the server is authenticated, our answer is sent, and the
    engine is at the start of its data phase. *)
Definition established (c : WaitServerHello) (input output : bytes) (e : TlsEngine) : Prop :=
  exists sh_record ikm S_ c1 records c2 content rest flight prepared leaf request app,
    input = sh_record ++ concat records ++ rest /\
    negotiated ft c sh_record S_ ikm c1 /\ flight_records S_ c1 records c2 content /\ flight_of content flight /\
    vouches ip_host MAX_CHAIN (cp_hostname params) flight prepared leaf /\ requested (cp_client_auth params) flight request /\
    let hellos := hashed (wsf_transcript c1) in
    let hs := Handshake_Secret TLS13_LABEL_PREFIX ikm in
    authenticates prepared hellos (Derive_Secret TLS13_LABEL_PREFIX hs "s hs traffic" (sha256 hellos)) flight /\
    answered (cp_client_auth params) S_ request (Derive_Secret TLS13_LABEL_PREFIX hs "c hs traffic" (sha256 hellos)) (hellos ++ flight) output /\
    data_keys S_ hs (sha256 (hellos ++ flight)) app /\ e_state e = EsApp S_ app /\
    engine_wf ft RECV SEND e /\ ph_ok (ph e) /\ closed e = false /\ pending e = [] /\ parked e = [] /\
    live S_ (ad_s_ap_ts app) (ad_c_ap_ts app) (O, 0) (O, 0) e.

Lemma hs_inv_established c tr e :
  hs_inv c tr e -> in_data_phase (e_state e) = true -> pending e = [] -> established c (received tr) (sent tr) e.
Proof.
  intros [Hwf Hph Hpk Hcl _ Hst] Happ Hpn. unfold hs_stage in Hst.
  destruct (e_state e) as [| | S_ app |] eqn:He; [done | done | | done].
  destruct Hst as (sh & ikm & c1 & records & c2 & content & rest & Hn & Hf & (flight & prepared & leaf & request & Hfl & Hv & Hreq & Ha & Hk & Hans) & Hrc).
  rewrite Hpn, app_nil_r in Hans. pose proof Hn as (v & hd & msg & _ & _ & _ & _ & _ & _ & _ & Hkeyed & _). pose proof (proj1 Hkeyed) as Hh1.
  pose proof (flight_records_keyed _ _ _ _ _ _ _ Hf Hkeyed) as (Hh & Hhs2 & Hc2 & Hs2 & _). rewrite <- Hh1 in Hh, Hc2, Hs2.
  rewrite Hh, Hs2 in Ha. rewrite Hh, Hc2 in Hans. rewrite Hh, Hhs2 in Hk.
  exists sh, ikm, S_, c1, records, c2, content, rest, flight, prepared, leaf, request, app. cbv zeta. pose proof Hk as (_ & _ & Hck & Hsk & Ho & Hin).
  split_and!; try done; [by apply (parked_nil ft RECV SEND) |]. exists app. split; [done |]. by split; split_and!.
Qed.

Lemma new_hs_inv c reassembler scratch_recv scratch_send limit :
  blen scratch_recv = RECV -> blen scratch_send = SEND -> bytes_ok scratch_recv -> secrets_ok ft (wsh_secrets c) ->
  MIN_RECORD_SIZE_LIMIT <= limit <= PROTO_MAX_INNER_PLAINTEXT ->
  hs_inv c [] (TlsEngine_new reassembler scratch_recv scratch_send (EsWaitServerHello c) limit RecordSizeLimit_DEFAULT).
Proof.
  intros Hr Hs Hb Hc Hl. destruct (new_ok ft RECV SEND reassembler scratch_recv scratch_send c limit Hr Hs Hb Hc Hl) as [Hwf Hok].
  destruct (Hok eq_refl) as (? & ? & _). by constructor.
Qed.
End handshake_runs.

(** C3. A connection is reported only when the server is authenticated.  Start a fresh engine
    over any scratch buffers and let the wrapper drive it with any bytes from the transport
    until [step_handshake] reports [HandshakeDone].  Then the received bytes are a
    ServerHello that the profile accepts and that answers our offer, the records of a
    flight, each sealed under the server's handshake keys and consecutive numbers or a
    ChangeCipherSpec, and what follows; the chain in the flight is one the verification
    strategy vouches for, its leaf names the host and holds the key under which the
    CertificateVerify over the transcript is valid, and the Finished is the MAC of the
    handshake secret; all bytes sent are the client's answer (its Finished when the flight has no
    CertificateRequest, else what its authentication policy builds for the request), sealed under its handshake keys, and nothing is left to
    send; and the engine is in its data phase, at the start of both directions, with the
    keys that the secrets of RFC 8446 give. *)
Theorem handshake_done_authenticated `{Usize, HeaplessVec, HkdfSha256, SubtleCt, AeadBackend, KxBackend, MlKemSizes, VerifierBackend, MlDsaSizes, !VerifyStrategy, CertParser}
    (ft : Features) (FLIGHT RECV SEND : Z) (ip_host : bool) (MAX_CHAIN : Z) {w} (params : ClientParams w)
    (c : WaitServerHello) (r : ServerFlightReassembler) (scratch_recv scratch_send : bytes) (limit : Z) (rng0 rng1 rng : Rng) (tr : list io) (e1 e : TlsEngine) :
  (f_mlkem ft = true -> f_x25519_kx ft = true) -> 0 <= MAX_CHAIN -> TLS_HEADER <= RECV ->
  blen scratch_recv = RECV -> blen scratch_send = SEND -> bytes_ok scratch_recv -> secrets_ok ft (wsh_secrets c) ->
  MIN_RECORD_SIZE_LIMIT <= limit <= PROTO_MAX_INNER_PLAINTEXT ->
  hs_run ft FLIGHT RECV ip_host MAX_CHAIN params
    (TlsEngine_new r scratch_recv scratch_send (EsWaitServerHello c) limit RecordSizeLimit_DEFAULT, rng0) tr (e1, rng1) ->
  step_handshake ft FLIGHT RECV ip_host MAX_CHAIN params (e1, rng1) = ((e, rng), Ok EvHandshakeDone) ->
  established ft RECV SEND ip_host MAX_CHAIN params c (received tr) (sent tr) e.
Proof.
  intros Hfeat HM HR Hr Hs Hb Hc Hl Hrun Hstep.
  pose proof (hs_run_inv ft FLIGHT RECV SEND ip_host MAX_CHAIN params c _ _ _ _ _ Hfeat HM HR
    (new_hs_inv ft RECV SEND ip_host MAX_CHAIN params c r scratch_recv scratch_send limit Hr Hs Hb Hc Hl) Hrun) as Hi.
  pose proof (step_handshake_hs ft FLIGHT RECV SEND ip_host MAX_CHAIN params c tr e1 rng1 Hfeat HM HR Hi) as Hd.
  unfold wp in Hd. rewrite Hstep in Hd. destruct Hd as [Hi' [Happ Hpn]].
  by apply hs_inv_established.
Qed.

Section handshake_run_witness.
#[local] Existing Instances usize32 heapless_model hkdf_model subtle_model aead_backend_model rng_model kx_backend_model
  ml_kem_model backend_model ml_dsa_model cert_model NoClock.

Lemma accept_any_total views : Forall view_bytes_ok views -> no_panic (accept_chain accept_any views).
Proof. done. Qed.
#[local] Instance demo_strategy : VerifyStrategy := safe_strategy accept_any accept_any_total.

(** A client that connects to "a.b", and a server whose leaf is for it. *)
Definition demo_params : ClientParams NoRsa := {|
  cp_hostname := [97; 46; 98]; cp_suite_policy := RspDefault; cp_client_auth := NoClientAuth; cp_middlebox_compat := true; cp_alpn := None |}.
Definition demo_cert : bytes := cert_wire [] [(tlv_encode DNS_NAME_TAG [97; 46; 98], []); ([7], [])] [].
Definition demo_signed_flight : bytes :=
  let head := through_cert [0; 0] None demo_cert ++ hs_msg HS_CERTIFICATE_VERIFY demo_cv in
  head ++ hs_msg HS_FINISHED (Finished_Mac TLS13_LABEL_PREFIX (wsf_s_hs_ts demo_keyed) (sha256 (hashed (wsf_transcript demo_keyed) ++ head))).
Definition demo_input : bytes :=
  demo_server_hello ++ demo_seal (take 50 demo_signed_flight) 0 ++ [CT_CHANGE_CIPHER_SPEC; 3; 3; 0; 1; 1] ++ demo_seal (drop 50 demo_signed_flight) 1.
Definition demo_free : bytes := demo_input ++ zeros (512 - blen demo_input).
Definition demo_fresh : TlsEngine :=
  TlsEngine_new ServerFlightReassembler_new (zeros 512) (zeros 64) (EsWaitServerHello demo_waiting) 491 RecordSizeLimit_DEFAULT.

Notation demo_step := (step_handshake demo_features 1024 512 false 8 demo_params).
Notation demo_got := ((_ ← put_recv demo_free; advance (blen demo_input)) demo_fresh).
Notation demo_hs1 := (demo_step (demo_got.1, 5)).
Notation demo_sent58 := (mark_sent 58 demo_hs1.1.1).
Notation demo_hs2 := (demo_step (demo_sent58.1, demo_hs1.1.2)).

Definition demo_hs_trace : list io :=
  (([] ++ [IoReceived demo_input]) ++ [IoReceived []]) ++ [IoSent (take 58 (pending demo_hs1.1.1))].

Lemma demo_hs_run : hs_run demo_features 1024 512 false 8 demo_params (demo_fresh, 5) demo_hs_trace (demo_sent58.1, demo_hs1.1.2).
Proof.
  assert (demo_got = (demo_got.1, Ok tt)) as H1' by (apply result_eq; vm_compute; reflexivity).
  assert (demo_hs1 = (demo_hs1.1, Ok (EvSend 58))) as H2' by (apply result_eq; vm_compute; reflexivity).
  assert (demo_sent58 = (demo_sent58.1, Ok tt)) as H3' by (apply result_eq; vm_compute; reflexivity).
  assert (send_bytes (E := HandshakeError) demo_hs1.1.1 = Ok (pending demo_hs1.1.1)) as H4' by (vm_compute; reflexivity).
  assert (blen demo_free = 512 /\ bytes_ok demo_free /\ take (Z.to_nat (blen demo_input)) demo_free = demo_input) as (H7' & H8' & H9').
  { split; [vm_compute; reflexivity |]. split; [apply bytes_okb_sound; vm_compute; reflexivity | vm_compute; reflexivity]. }
  assert (hs_call demo_features 1024 512 false 8 demo_params (demo_fresh, 5) (IoReceived demo_input) (demo_got.1, 5)) as C1.
  { rewrite <- H9'. refine (hc_receive _ _ _ _ _ demo_params demo_fresh (zeros 512) demo_free (blen demo_input) demo_got.1 _ _ _ H8' _ H1');
      [vm_compute; reflexivity | exact H7' | rewrite H7'; vm_compute; split; discriminate]. }
  pose proof (hc_step demo_features 1024 512 false 8 demo_params (demo_got.1, 5) _ _ H2') as C2.
  assert (hs_call demo_features 1024 512 false 8 demo_params demo_hs1.1 (IoSent (take 58 (pending demo_hs1.1.1))) (demo_sent58.1, demo_hs1.1.2)) as C3.
  { rewrite (surjective_pairing demo_hs1.1) at 1. exact (hc_sent _ _ _ _ _ demo_params demo_hs1.1.1 _ 58 _ _ H4' ltac:(discriminate) H3'). }
  exact (hr_snoc _ _ _ _ _ _ _ _ _ _ _ (hr_snoc _ _ _ _ _ _ _ _ _ _ _ (hr_snoc _ _ _ _ _ _ _ _ _ _ _ (hr_nil _ _ _ _ _ _ _) C1) C2) C3).
Qed.

Lemma demo_buffers :
  blen (zeros 512) = 512 /\ blen (zeros 64) = 64 /\ bytes_ok (zeros 512) /\ secrets_ok demo_features (wsh_secrets demo_waiting) /\
  MIN_RECORD_SIZE_LIMIT <= 491 <= PROTO_MAX_INNER_PLAINTEXT.
Proof.
  split; [reflexivity |]. split; [reflexivity |]. split; [apply bytes_okb_sound; vm_compute; reflexivity |].
  split; [split; intros _; eexists; reflexivity | split; discriminate].
Qed.

Lemma handshake_done_authenticated_witness :
  exists sh_record ikm S_ c1 records c2 content rest flight prepared leaf app,
    demo_input = sh_record ++ concat records ++ rest /\
    negotiated demo_features demo_waiting sh_record S_ ikm c1 /\ flight_records S_ c1 records c2 content /\ flight_of content flight /\
    vouches false 8 [97; 46; 98] flight prepared leaf /\
    data_keys S_ (Handshake_Secret TLS13_LABEL_PREFIX ikm) (sha256 (hashed (wsf_transcript c1) ++ flight)) app /\
    live S_ (ad_s_ap_ts app) (ad_c_ap_ts app) (O, 0) (O, 0) demo_hs2.1.1.
Proof.
  destruct demo_buffers as (Hr & Hs & Hb & Hc & Hl).
  assert (demo_hs2 = ((demo_hs2.1.1, demo_hs2.1.2), Ok EvHandshakeDone)) as Hd by (apply result_eq_pair; vm_compute; reflexivity).
  destruct (handshake_done_authenticated demo_features 1024 512 64 false 8 demo_params demo_waiting ServerFlightReassembler_new (zeros 512) (zeros 64)
    491 5 demo_hs1.1.2 demo_hs2.1.2 demo_hs_trace demo_sent58.1 demo_hs2.1.1
    ltac:(discriminate) ltac:(discriminate) ltac:(discriminate) Hr Hs Hb Hc Hl demo_hs_run Hd)
    as (sh & ikm & S_ & c1 & records & c2 & content & rest & flight & prepared & leaf & request & app & H1' & H2' & H3' & H4' & H5' & _ & _ & _ & H6' & _ & _ & _ & _ & _ & _ & H7').
  exists sh, ikm, S_, c1, records, c2, content, rest, flight, prepared, leaf, app.
  assert (received demo_hs_trace = demo_input) as E1 by (vm_compute; reflexivity). rewrite E1 in H1'.
  exact (conj H1' (conj H2' (conj H3' (conj H4' (conj H5' (conj H6' H7')))))).
Defined.

Lemma engine_invariant_witness :
  engine_ok demo_features 512 64 demo_fresh /\
  wp (step 512) (fun ev e' => engine_ok demo_features 512 64 e' /\ event_ok 512 ev e') (fun _ e' => engine_ok demo_features 512 64 e') demo_fresh.
Proof.
  destruct demo_buffers as (Hr & Hs & Hb & Hc & Hl).
  destruct (engine_invariant demo_features 1024 512 64 false 8 demo_params ltac:(discriminate) ltac:(discriminate) ltac:(discriminate)) as [Hnew Hall].
  pose proof (Hnew ServerFlightReassembler_new (zeros 512) (zeros 64) demo_waiting 491 Hr Hs Hb Hc Hl) as Hok.
  split; [exact Hok |]. destruct (Hall demo_fresh Hok) as (_ & Hstep & _). exact Hstep.
Defined.
End handshake_run_witness.

(** [MIN_RECV] leaves no room for the ServerHello of a connection with a session id: the
    profile accepts that record, but the framer of a receive buffer of [MIN_RECV] bytes
    rejects it. *)
Section min_recv.
#[local] Existing Instances usize32 heapless_model hkdf_model subtle_model aead_backend_model rng_model kx_backend_model
  ml_kem_model ml_dsa_model.

Definition demo_min_engine : TlsEngine :=
  set_recv {| rs_filled := MIN_RECV demo_features; rs_plain_start := 0; rs_plain_end := 0; rs_next_record := 0 |}
    (TlsEngine_new ServerFlightReassembler_new (take (Z.to_nat (MIN_RECV demo_features)) demo_server_hello) (zeros 64)
       (EsWaitServerHello demo_waiting) (default_our_recv_limit (MIN_RECV demo_features)) RecordSizeLimit_DEFAULT).

Lemma min_recv_rejects_session_id :
  is_ok (read_server_hello_with_backend demo_features demo_waiting demo_server_hello) = true /\
  blen demo_server_hello = MIN_RECV demo_features + 32 /\
  (frame_one_record (MIN_RECV demo_features) demo_min_engine).2 = Err (HeRecordTooLarge 74 122).
Proof. split; [vm_compute; reflexivity |]. split; vm_compute; reflexivity. Qed.
End min_recv.
