(* ===== verification/Stream.v ===== *)
(** * [client/stream.rs], [client/transport.rs]: the blocking client

    [TlsStream] drives the engine over a transport.  Its methods are computations over the
    engine and the transport; a method that waits for the network loops an unbounded number
    of rounds, so it takes the number of rounds to run, and returns [None] while it has not
    finished. *)
From stdpp Require Import strings.
From S2P Require Import Prelude Deps Bytecopy Consts Aead Hkdf Kx Cert Identity TlsHello ServerFlight Reassembler ClientFlight Connection.
From S2P Require Import Engine EngineData EngineHandshake.

(** ** [trait Transport]

    The caller's byte stream.  [tr_input] and [tr_output] are the bytes it has delivered and
    taken so far.  A failed write may have put a prefix on the wire. *)
Class Transport := {
  Tr : Type;
  TrError : Type;
  tr_read : Tr -> bytes -> Tr * bytes * outcome TrError Z;
  tr_read_nb : Tr -> bytes -> Tr * bytes * outcome TrError (option Z);
  tr_write_all : Tr -> bytes -> Tr * outcome TrError unit;
  tr_input : Tr -> bytes;
  tr_output : Tr -> bytes;
  tr_read_spec t buf : let '(t', buf', r) := tr_read t buf in
    blen buf' = blen buf /\ (bytes_ok buf -> bytes_ok buf') /\ tr_output t' = tr_output t /\
    match r with
    | Ok n => 0 <= n <= blen buf /\ tr_input t' = tr_input t ++ take (Z.to_nat n) buf'
    | Err _ => tr_input t' = tr_input t
    | Panic => False
    end;
  tr_read_nb_spec t buf : let '(t', buf', r) := tr_read_nb t buf in
    blen buf' = blen buf /\ (bytes_ok buf -> bytes_ok buf') /\ tr_output t' = tr_output t /\
    match r with
    | Ok (Some n) => 0 <= n <= blen buf /\ tr_input t' = tr_input t ++ take (Z.to_nat n) buf'
    | Ok None | Err _ => tr_input t' = tr_input t
    | Panic => False
    end;
  tr_write_spec t data : let '(t', r) := tr_write_all t data in
    tr_input t' = tr_input t /\
    match r with
    | Ok _ => tr_output t' = tr_output t ++ data
    | Err _ => exists k, tr_output t' = tr_output t ++ take k data
    | Panic => False
    end
}.

(** ** Errors *)

Inductive ConfigError := CfgHostnameTooLong | CfgBufferTooSmall (needed got : Z).

Inductive ConnectError (E : Type) :=
| CoIo (e : E) | CoUnexpectedEof | CoClosed | CoHandshake (e : HandshakeError) | CoConfig (e : ConfigError).
Arguments CoIo {E} e. Arguments CoUnexpectedEof {E}. Arguments CoClosed {E}. Arguments CoHandshake {E} e. Arguments CoConfig {E} e.

Section stream.
Context `{Usize, HeaplessVec, HkdfSha256, SubtleCt, AeadBackend, KxBackend, MlKemSizes, MlDsaSizes, Transport}.
Context (ft : Features) (FLIGHT RECV SEND : Z).

Definition TlsStream : Type := TlsEngine * Tr.
Definition SS : Type -> Type := SM TlsStream (ConnectError TrError).

Definition raise {A} (e : ConnectError TrError) : SS A := lift (Err e).
Definition internal {A} (e : InternalError) : SS A := raise (CoHandshake (HeInternal e)).
(** A call of the engine, followed by [?]. *)
Definition eng {A} (m : EM A) : SS A := fun '(e, t) => let '(e, r) := m e in ((e, t), map_err CoHandshake r).

(** A field of the engine. *)
Definition peek {A} (f : TlsEngine -> A) : SS A := gets (fun '(e, _) => f e).

(** [transport.read(buf)] into the free tail of the engine's receive buffer. *)
Definition pull {A} (f : Tr -> bytes -> Tr * bytes * outcome TrError A) (buf : bytes) : SS A := fun '(e, t) =>
  let '(t, buf, r) := f t buf in
  match put_recv (E := HandshakeError) buf e with
  | (e, Ok _) => ((e, t), map_err CoIo r)
  | (e, _) => ((e, t), Panic)
  end.

(** *** Drive helpers *)

(** [transport.write_all(bytes)]; a failure ends the connection. *)
Definition transmit (bytes : bytes) : SS unit := fun '(e, t) =>
  match tr_write_all t bytes with
  | (t, Ok _) => ((e, t), Ok tt)
  | (t, Err err) => ((mark_terminal e, t), Err (CoIo err))
  | (t, Panic) => ((e, t), Panic)
  end.

Definition drive_one_send_step : SS unit :=
  bytes ← eng (fun e => (e, send_bytes e));
  if blen bytes =? 0 then internal IeDrainStateInconsistent else
  _ ← transmit bytes;
  eng (mark_sent (blen bytes)).

Definition drive_one_recv_step : SS unit :=
  buf ← eng (fun e => (e, recv_buffer e));
  if blen buf =? 0 then internal IeRecvBufferEmptyOnRecvEvent else
  n ← pull tr_read buf;
  if n =? 0 then raise CoUnexpectedEof else eng (advance n).

Inductive RecvProgress := RpFed | RpWouldBlock | RpEof.

Definition drive_one_recv_step_nb : SS RecvProgress :=
  buf ← eng (fun e => (e, recv_buffer e));
  if blen buf =? 0 then internal IeRecvBufferEmptyOnRecvEvent else
  o ← pull tr_read_nb buf;
  match o with
  | None => mret RpWouldBlock
  | Some n => if n =? 0 then mret RpEof else _ ← eng (advance n); mret RpFed
  end.

(** [drain_pending_send]: one round drains a pending record. *)
Fixpoint drain_loop (fuel : nat) : SS unit :=
  match fuel with
  | O => lift Panic
  | S fuel =>
      ev ← eng (step RECV);
      match ev with
      | EvSend _ =>
          _ ← drive_one_send_step;
          pending ← peek is_send_pending;
          if negb pending then mret tt else drain_loop fuel
      | EvAppData => mret tt
      | EvClosed => raise CoClosed
      | EvHandshakeDone => drain_loop fuel
      | EvRecv => internal IeDrainStateInconsistent
      end
  end.

Definition drain_pending_send : SS unit :=
  pending ← peek is_send_pending;
  if negb pending then mret tt else drain_loop 1.

(** *** The public methods *)

(** [loop]: rounds of [m] until one returns. *)
Fixpoint rounds {St E A} (fuel : nat) (m : SM St E (option A)) : SM St E (option A) :=
  match fuel with
  | O => mret None
  | S fuel => r ← m; match r with Some a => mret (Some a) | None => rounds fuel m end
  end.

(** The caller's buffer afterwards and the number of bytes. *)
Definition read_round (out : bytes) : SS (option (bytes * Z)) :=
  ev ← eng (step RECV);
  match ev with
  | EvSend _ => _ ← drive_one_send_step; mret None
  | EvRecv => _ ← drive_one_recv_step; mret None
  | EvAppData => r ← eng (read_app out); mret (Some r)
  | EvHandshakeDone => internal IeHandshakeDoneInDataPhase
  | EvClosed => mret (Some (out, 0))
  end.
Definition stream_read (fuel : nat) (out : bytes) : SS (option (bytes * Z)) :=
  if blen out =? 0 then mret (Some (out, 0)) else rounds fuel (read_round out).

(** The inner [None]: no application data is ready yet. *)
Definition try_read_round (out : bytes) : SS (option (option (bytes * Z))) :=
  ev ← eng (step RECV);
  match ev with
  | EvSend _ => _ ← drive_one_send_step; mret None
  | EvRecv =>
      p ← drive_one_recv_step_nb;
      match p with RpFed => mret None | RpWouldBlock => mret (Some None) | RpEof => raise CoUnexpectedEof end
  | EvAppData => r ← eng (read_app out); mret (Some (Some r))
  | EvHandshakeDone => internal IeHandshakeDoneInDataPhase
  | EvClosed => mret (Some (Some (out, 0)))
  end.
Definition try_read (fuel : nat) (out : bytes) : SS (option (option (bytes * Z))) :=
  if blen out =? 0 then mret (Some (Some (out, 0))) else rounds fuel (try_read_round out).

(** [write_app], its error as a value. *)
Definition attempt_write (buf : bytes) : SS (WriteAppError + Z) := fun '(e, t) =>
  match write_app SEND buf e with
  | (e, Ok n) => ((e, t), Ok (inr n))
  | (e, Err err) => ((e, t), Ok (inl err))
  | (e, Panic) => ((e, t), Panic)
  end.

(** Every round that goes on writes at least a byte. *)
Fixpoint write_all_loop (fuel : nat) (buf : bytes) : SS unit :=
  if blen buf =? 0 then mret tt else
  match fuel with
  | O => lift Panic
  | S fuel =>
      _ ← drain_pending_send;
      r ← attempt_write buf;
      match r with
      | inr n =>
          if n =? 0 then internal IeWriteAppZeroProgress else
          rest ← lift (or_panic (slice_from buf n));
          _ ← drain_pending_send;
          write_all_loop fuel rest
      | inl WaClosed => raise CoClosed
      | inl WaBusy => _ ← drain_pending_send; write_all_loop fuel buf
      | inl WaNotReady => internal IeWriteBeforeHandshake
      | inl (WaOther err) => raise (CoHandshake err)
      end
  end.
Definition stream_write_all (buf : bytes) : SS unit := write_all_loop (length buf) buf.

Definition stream_close : SS unit :=
  _ ← drain_pending_send;
  c ← peek is_closed;
  if (c : bool) then mret tt else
  _ ← eng close;
  drain_pending_send.

(** [Drop]: a close whose result is ignored. *)
Definition stream_drop (s : TlsStream) : TlsStream := (stream_close s).1.

(** The [embedded_io] traits, whose error is a newtype around [ConnectError]. *)
Definition io_read (fuel : nat) (buf : bytes) : SS (option (bytes * Z)) := stream_read fuel buf.
Definition io_write (buf : bytes) : SS Z := _ ← stream_write_all buf; mret (blen buf).
Definition io_flush : SS unit := mret tt.

(** *** The handshake *)

Section connect.
Context `{VerifierBackend, !VerifyStrategy, CertParser, SliceWrite} (ip_host : bool) (MAX_CHAIN : Z) (SUITES : ConfigSuitePolicy).

Definition HS : Type -> Type := SM (TlsStream * Rng) (ConnectError TrError).
Definition on_stream {A} (m : SS A) : HS A := fun '(s, rng) => let '(s, r) := m s in ((s, rng), r).
Definition hs_event {w} (params : ClientParams w) : HS EngineEvent := fun '((e, t), rng) =>
  let '((e, rng), r) := step_handshake ft FLIGHT RECV ip_host MAX_CHAIN params (e, rng) in
  (((e, t), rng), map_err CoHandshake r).

Definition drive_round {w} (params : ClientParams w) : HS (option unit) :=
  ev ← hs_event params;
  match ev with
  | EvHandshakeDone => mret (Some tt)
  | EvSend _ => _ ← on_stream drive_one_send_step; mret None
  | EvRecv => _ ← on_stream drive_one_recv_step; mret None
  | EvAppData => on_stream (internal IeAppDataDuringDriveHandshake)
  | EvClosed => on_stream (raise CoClosed)
  end.
Definition drive_handshake {w} (fuel : nat) (params : ClientParams w) : HS (option unit) := rounds fuel (drive_round params).

Definition validate_construction {w} (params : ClientParams w) : outcome ConfigError unit :=
  if FACADE_HOSTNAME_MAX <? blen (cp_hostname params) then Err CfgHostnameTooLong else
  if RECV <? MIN_RECV ft then Err (CfgBufferTooSmall (MIN_RECV ft) RECV) else
  if SEND <? MIN_SEND_STANDARD then Err (CfgBufferTooSmall MIN_SEND_STANDARD SEND) else
  let max_flight := MAX_FLIGHT_LEN (cp_client_auth params) in
  if 0 <? max_flight then
    let needed := client_auth_send_floor max_flight in
    if SEND <? needed then Err (CfgBufferTooSmall needed SEND) else
    if RECV <? max_flight then Err (CfgBufferTooSmall max_flight RECV) else Ok tt
  else Ok tt.

Definition effective_suite_list (runtime : RuntimeSuitePolicy) : SuiteList :=
  match SUITES, runtime with
  | CspAesOnly, _ => SlAesOnly
  | CspAesAndChaCha, RspAesOnly => SlAesOnly
  | CspAesAndChaCha, RspChaChaOnly => SlChaChaOnly
  | CspAesAndChaCha, RspDefault => SlDefault
  | CspChaChaOnly, _ => SlChaChaOnly
  end.

(** A [ConnectionError] that carries no writer error; [unreachable!] otherwise. *)
Definition map_writer {E} (e : ConnectionError E) : option ConnError :=
  match e with
  | CeClientHello ChHostnameTooLong => Some (CeClientHello ChHostnameTooLong)
  | CeClientHello ChMessageTooLong => Some (CeClientHello ChMessageTooLong)
  | CeClientHello (ChWrite _) => None
  | CeClientHello ChIntegerOverflow => Some (CeClientHello ChIntegerOverflow)
  | CeClientHello ChRecordSizeLimitOutOfRange => Some (CeClientHello ChRecordSizeLimitOutOfRange)
  | CeClientHello ChAlpnNameLen => Some (CeClientHello ChAlpnNameLen)
  | CeClientHello ChMissingMlKemKeyShare => Some (CeClientHello ChMissingMlKemKeyShare)
  | CeClientHello ChMissingP256KeyShare => Some (CeClientHello ChMissingP256KeyShare)
  | CeParse x => Some (CeParse x) | CeHkdf x => Some (CeHkdf x) | CeFlight x => Some (CeFlight x)
  | CeDecrypt x => Some (CeDecrypt x) | CeEncrypt x => Some (CeEncrypt x) | CeTranscript x => Some (CeTranscript x)
  | CeReassembly x => Some (CeReassembly x) | CeClientFinished x => Some (CeClientFinished x)
  | CeClientAuth x => Some (CeClientAuth x) | CeWrongSuite a b => Some (CeWrongSuite a b)
  | CeIncompleteFlight => Some CeIncompleteFlight | CeUnexpectedSuite a => Some (CeUnexpectedSuite a)
  | CeAlert a b => Some (CeAlert a b) | CeUnknownContentType a => Some (CeUnknownContentType a)
  | CeMlKemDecapsulation => Some CeMlKemDecapsulation
  end.

Definition map_client_hello_error {E A} (e : ConnectionError E) : outcome (ConnectError TrError) A :=
  match e with
  | CeClientHello ChHostnameTooLong => Err (CoConfig CfgHostnameTooLong)
  | CeClientHello (ChWrite _) | CeClientHello ChMessageTooLong => Err (CoHandshake HeClientHelloTooLong)
  | other => c ← or_panic (map_writer other); Err (CoHandshake (HeConnection c))
  end.

(** *** The offer *)

Definition RM : Type -> Type := SM Rng HandshakeError.
Definition draw (n : Z) : RM bytes := fun rng => let '(rng, r) := fill_bytes rng n in (rng, map_err (fun _ => HeRng) r).
Definition generate (G : KxGroup) : RM (@KxSecret _ G * bytes) := fun rng =>
  let '(rng, r) := @kx_generate _ G rng in
  (rng, '(secret, share) ← map_err (fun _ => HeRng) r; s ← client_share_slice share; Ok (secret, s)).
(** [as_slice().get(a..b)] as an array of [n] bytes. *)
Definition array_of (n : Z) (o : option bytes) : outcome HandshakeError bytes :=
  match o with Some s => if blen s =? n then Ok s else Err HeRng | None => Err HeRng end.

(** The draws of [connect], in their order: the typestate, the primary share and the options. *)
Definition offer {w} (params : ClientParams w) : RM (Init * bytes * ClientHelloOptions) :=
  client_random ← draw 32;
  x ← (if f_x25519_kx ft && negb (f_mlkem ft) then p ← generate kx_x25519; mret (Some p) else mret None);
  m ← (if f_mlkem ft then p ← generate kx_hybrid; mret (Some p) else mret None);
  session_id ← (if cp_middlebox_compat params then id ← draw 32; mret (Some id) else mret None);
  q ← (if f_p256_kx ft then p ← generate kx_p256; mret (Some p) else mret None);
  ek ← lift (match m with
             | Some (_, s) => ek ← array_of MLKEM768_EK_BYTES (slice s 0 MLKEM768_EK_BYTES); Ok (Some ek)
             | None => Ok None end);
  xpub ← lift (match m with
               | Some (_, s) => p ← array_of 32 (slice_from s MLKEM768_EK_BYTES); Ok (Some p)
               | None => Ok (snd <$> x) end);
  qpub ← lift (match q with
               | Some (_, s) => if f_x25519_kx ft then p ← array_of P256_SHARE_BYTES (Some s); Ok (Some p) else Ok None
               | None => Ok None end);
  primary_pub ← lift (or_panic (if f_x25519_kx ft then xpub else snd <$> q));
  mret (Init_new client_random {| ks_x25519 := fst <$> x; ks_mlkem := fst <$> m; ks_ecdhe := fst <$> q |},
        primary_pub,
        {| co_hostname := Some (cp_hostname params); co_record_size_limit := Some (default_our_recv_limit RECV);
           co_session_id := session_id; co_alpn := cp_alpn params; co_suites := effective_suite_list (cp_suite_policy params);
           co_mlkem_ek := ek; co_p256_pub := qpub |}).

(** [TlsStream::connect] over a scratch that may hold an earlier connection. *)
Definition stream_connect {w} (fuel : nat) (params : ClientParams w) (reassembler : ServerFlightReassembler) (scratch_recv scratch_send : bytes)
    (t : Tr) (rng : Rng) : (Tr * Rng) * outcome (ConnectError TrError) (option TlsStream) :=
  match validate_construction params with
  | Err e => ((t, rng), Err (CoConfig e))
  | Panic => ((t, rng), Panic)
  | Ok _ =>
  match offer params rng with
  | (rng, Err e) => ((t, rng), Err (CoHandshake e))
  | (rng, Panic) => ((t, rng), Panic)
  | (rng, Ok (init, primary_pub, opts)) =>
  match write_client_hello_to_slice_with ft init (CH_LEN ft) primary_pub opts with
  | Err e => ((t, rng), map_client_hello_error e)
  | Panic => ((t, rng), Panic)
  | Ok (ch, ch_len, wait_sh) =>
  match slice ch 0 ch_len with
  | None => ((t, rng), Panic)
  | Some hello =>
  match tr_write_all t hello with
  | (t, Err e) => ((t, rng), Err (CoIo e))
  | (t, Panic) => ((t, rng), Panic)
  | (t, Ok _) =>
      let engine := TlsEngine_new reassembler scratch_recv scratch_send (EsWaitServerHello wait_sh) (default_our_recv_limit RECV)
                      RecordSizeLimit_DEFAULT in
      match drive_handshake fuel params ((engine, t), rng) with
      | ((s, rng), Ok (Some _)) => ((s.2, rng), Ok (Some s))
      | ((s, rng), Ok None) => ((s.2, rng), Ok None)
      | ((s, rng), Err e) => ((s.2, rng), Err e)
      | ((s, rng), Panic) => ((s.2, rng), Panic)
      end
  end
  end
  end
  end
  end.
End connect.
End stream.
