(* ===== verification/StreamSpec.v ===== *)
(** * The blocking client over the data phase of the engine

    Every method of [TlsStream] is a run of data-phase calls of the engine: the bytes the
    transport has delivered and taken, and the bytes the application has read and written,
    are those of the run.  The errors of a method come from the transport or from the
    engine: the stream's own internal errors are not reachable. *)
From stdpp Require Import strings.
From S2P Require Import Prelude Deps Bytecopy Consts Aead Hkdf Kx Cert Identity TlsHello ServerFlight Reassembler ClientFlight Connection.
From S2P Require Import Engine EngineData EngineHandshake Stream.

(** Rounds that keep an invariant, and rounds that make progress. *)
Lemma wp_rounds {St E A} (m : SM St E (option A)) (I : St -> Prop) (Q : A -> St -> Prop) (R : E -> St -> Prop) fuel s :
  (forall s, I s -> wp m (fun o s' => match o with Some a => Q a s' | None => I s' end) R s) -> I s ->
  wp (rounds fuel m) (fun o s' => match o with Some a => Q a s' | None => I s' end) R s.
Proof.
  intros Hm. revert s. induction fuel as [| fuel IH]; intros s Hs; [by apply wp_ret |]. cbn [rounds]. apply wp_bind.
  eapply wp_weaken; [by apply Hm | | done]. intros [a |] s' Hs'; [by apply wp_ret | by apply IH].
Qed.

Lemma wp_rounds_total {St E A} (m : SM St E (option A)) (I : St -> Prop) (rank : St -> Z) (Q : A -> St -> Prop) (R : E -> St -> Prop) fuel s :
  (forall s, I s -> 0 <= rank s) ->
  (forall s, I s -> wp m (fun o s' => match o with Some a => Q a s' | None => I s' /\ rank s' < rank s end) R s) -> I s ->
  rank s < Z.of_nat fuel ->
  wp (rounds fuel m) (fun o s' => match o with Some a => Q a s' | None => False end) R s.
Proof.
  intros Hr Hm. revert s. induction fuel as [| fuel IH]; intros s Hs Hf; [specialize (Hr s Hs); lia |]. cbn [rounds]. apply wp_bind.
  eapply wp_weaken; [by apply Hm | | done]. intros [a |] s' Hs'; [by apply wp_ret |]. apply IH; [apply Hs' | lia].
Qed.

Section stream_specs.
Context `{Usize, HeaplessVec, HkdfSha256, SubtleCt, AeadBackend, KxBackend, MlKemSizes, MlDsaSizes, Transport}.
Context (ft : Features) (RECV SEND : Z) (S_ : Suite) (rts cts : bytes).
Context (Hrecv : TLS_HEADER <= RECV <= usize_max) (Hsend : MIN_SEND_STANDARD <= SEND <= usize_max).
Notation engine_wf := (engine_wf ft RECV SEND).
Implicit Types (s : TlsStream).

(** One call of the transport. *)
Inductive tr_step (t : Tr) : Tr -> Prop :=
| ts_read buf : tr_step t (tr_read t buf).1.1
| ts_read_nb buf : tr_step t (tr_read_nb t buf).1.1
| ts_write data : tr_step t (tr_write_all t data).1.

(** The engine is in its data phase, or closed. *)
Definition ready (e : TlsEngine) : Prop := engine_wf e /\ exists p q, open_at S_ rts cts p q e.

(** [s'] follows [s] by the run [tr], seen by the transport. *)
Definition moved s (tr : list io) s' : Prop :=
  data_run RECV SEND s.1 tr s'.1 /\ tr_input s'.2 = tr_input s.2 ++ received tr /\ tr_output s'.2 = tr_output s.2 ++ sent tr.

(** [s'] follows [s], the application having read [rd] and written [wr]. *)
Definition follows (rd wr : bytes) s s' : Prop := exists tr, moved s tr s' /\ read tr = rd /\ accepted tr = wr.

Lemma data_run_app e tr e1 tr' e2 : data_run RECV SEND e tr e1 -> data_run RECV SEND e1 tr' e2 -> data_run RECV SEND e (tr ++ tr') e2.
Proof.
  intros H1' H2'. induction H2' as [| e1 tr' e2 x e3 _ IH Hc]; [by rewrite app_nil_r |]. rewrite app_assoc. by eapply dr_snoc; [apply IH |].
Qed.

Lemma follows_refl s : follows [] [] s s.
Proof. exists []. split_and!; [| done | done]. split_and!; [constructor | by rewrite app_nil_r..]. Qed.

Lemma follows_trans rd wr rd' wr' s s1 s2 : follows rd wr s s1 -> follows rd' wr' s1 s2 -> follows (rd ++ rd') (wr ++ wr') s s2.
Proof.
  intros (tr & (Hr & Hi & Ho) & <- & <-) (tr' & (Hr' & Hi' & Ho') & <- & <-). destruct (io_app tr tr') as (E1 & E2 & E3 & E4).
  exists (tr ++ tr'). split_and!; [| done | done]. split_and!; [by eapply data_run_app | by rewrite E1, Hi', Hi, app_assoc | by rewrite E2, Ho', Ho, app_assoc].
Qed.

Lemma follows_quiet rd wr s s1 s2 : follows [] [] s s1 -> follows rd wr s1 s2 -> follows rd wr s s2.
Proof. apply (follows_trans [] [] rd wr). Qed.

Lemma follows_call s x s' :
  data_call RECV SEND s.1 x s'.1 -> tr_input s'.2 = tr_input s.2 ++ received [x] -> tr_output s'.2 = tr_output s.2 ++ sent [x] ->
  follows (read [x]) (accepted [x]) s s'.
Proof. intros Hc Hi Ho. exists [x]. split_and!; [| done | done]. split_and!; [| done | done]. apply (dr_snoc _ _ _ [] _ _ _ (dr_nil _ _ _) Hc). Qed.

Lemma ready_follows rd wr s s' : ready s.1 -> follows rd wr s s' -> ready s'.1.
Proof.
  intros (Hwf & p & q & Ho) (tr & (Hr & _ & _) & _).
  destruct (data_run_session ft RECV SEND S_ rts cts p q s.1 tr s'.1 ltac:(lia) Hwf Ho Hr) as (ins & outs & p' & q' & rest & lost & [Hwf' Ho' _ _ _ _ _ _ _ _]).
  split; [done | by exists p', q'].
Qed.

Lemma wp_eng {A} (m : EM A) (Q : A -> TlsStream -> Prop) R e t :
  wp m (fun a e' => Q a (e', t)) (fun err e' => R (CoHandshake err) (e', t)) e -> wp (eng m) Q R (e, t).
Proof. unfold wp, eng. destruct (m e) as [e' [a | err |]]; done. Qed.

(** [step] never reports the end of the handshake again. *)
Lemma step_not_done fuel e : (step_loop RECV fuel e).2 <> Ok EvHandshakeDone.
Proof.
  revert e. induction fuel as [| fuel IH]; intros e; [done |]. cbn [step_loop]. unfold mbind, SM_bind, gets. cbn [id].
  destruct (is_send_pending e); [done |]. destruct (plaintext_parked (recv e)); [done |]. destruct (closed e); [done |].
  destruct (frame_one_record _ e) as [e1 [[st en ty len |] | err |]]; try done.
  destruct (dispatch_data_record st en ty e1) as [e2 [[] | err |]]; try done.
Qed.

(** An error of the engine on the way. *)
Definition engine_error s (err : ConnectError TrError) : Prop :=
  exists s1 he, follows [] [] s s1 /\ (step RECV s1.1).2 = Err he /\ err = CoHandshake he.
Definition io_error (err : ConnectError TrError) : Prop := exists x, err = CoIo x.

Lemma eng_step_spec e t :
  ready e ->
  wp (eng (step RECV)) (fun ev s' => follows [] [] (e, t) s' /\ event_ok RECV ev s'.1 /\ ev <> EvHandshakeDone)
    (fun err s' => follows [] [] (e, t) s' /\ engine_error (e, t) err) (e, t).
Proof.
  intros (Hwf & p & q & Ho). apply wp_eng. pose proof (step_spec ft RECV SEND S_ rts cts e p q ltac:(lia) Hwf Ho) as Hs.
  pose proof (step_not_done (S (length (recv_record e))) e) as Hnd. change (step_loop RECV (S (length (recv_record e))) e) with (step RECV e) in Hnd.
  unfold wp in *. destruct (step RECV e) as [e' r] eqn:Hst.
  assert (follows [] [] (e, t) (e', t)) as Hf.
  { apply (follows_call (e, t) (IoReceived []) (e', t)); [by eapply dc_step | by cbn; rewrite app_nil_r..]. }
  destruct r as [ev | err |]; [| | done].
  - split_and!; [done | apply Hs |]. intros ->. by apply Hnd.
  - split; [done |]. exists (e, t), err. split_and!; [apply follows_refl | cbn [fst]; by rewrite Hst | done].
Qed.

Lemma pending_true e : engine_wf e -> pending e <> [] -> is_send_pending e = true.
Proof. intros Hwf Hp. destruct (is_send_pending e) eqn:Hx; [done |]. by destruct (pending_nil _ _ _ e Hwf Hx) as (_ & _ & ?). Qed.
Lemma pending_false e : engine_wf e -> pending e = [] -> is_send_pending e = false.
Proof. intros Hwf Hp. pose proof (pending_len _ _ _ e Hwf) as Hl. rewrite Hp, blen_nil in Hl. apply Z.ltb_ge. lia. Qed.

(** The pending bytes went out whole; the transport failed after a part of them. *)
Definition sent_by e t s' : Prop :=
  mark_sent (blen (pending e)) e = (s'.1, Ok tt) /\ tr_output s'.2 = tr_output t ++ pending e /\ tr_input s'.2 = tr_input t /\ tr_step t s'.2.
Definition broken_by e t s' : Prop :=
  s'.1 = mark_terminal e /\ tr_input s'.2 = tr_input t /\ exists k, tr_output s'.2 = tr_output t ++ take k (pending e).

Lemma mark_all_sent e : engine_wf e -> (mark_sent (blen (pending e)) e).2 = Ok tt.
Proof.
  intros Hwf. pose proof (ew_pending _ _ _ _ Hwf) as Hpd. pose proof (pending_len _ _ _ e Hwf) as Hpl.
  unfold mark_sent, mbind, SM_bind, gets, lift, checked_add. cbn [id].
  destruct (Z.leb_spec (send_acked e + blen (pending e)) usize_max); [| lia]. cbn [ok_or].
  destruct (Z.ltb_spec (send_pending_len e) (send_acked e + blen (pending e))); [lia |]. by destruct (_ =? _).
Qed.

Lemma send_step_core e t :
  engine_wf e -> pending e <> [] ->
  wp drive_one_send_step (fun _ s' => sent_by e t s') (fun err s' => broken_by e t s' /\ io_error err) (e, t).
Proof.
  intros Hwf Hp. unfold drive_one_send_step. apply wp_bind, wp_eng. unfold wp at 1. rewrite (send_bytes_spec ft RECV SEND e Hwf).
  destruct (Z.eqb_spec (blen (pending e)) 0) as [Hz%blen_zero_nil | _]; [done |].
  apply wp_bind. unfold wp at 1, transmit. pose proof (tr_write_spec t (pending e)) as Hw. pose proof (ts_write t (pending e)) as Hts.
  destruct (tr_write_all t (pending e)) as [t' [[] | err |]]; [| | by destruct Hw].
  - destruct Hw as [Hi Hout]. apply wp_eng. pose proof (mark_all_sent e Hwf) as Hok.
    unfold wp. destruct (mark_sent (blen (pending e)) e) as [e' r] eqn:Hms. cbn [snd] in Hok. subst r. done.
  - destruct Hw as (Hi & k & Hout). split; [| by exists err]. split_and!; [done | done | by exists k].
Qed.

Lemma sent_follows e t s' :
  engine_wf e -> sent_by e t s' -> follows [] [] (e, t) s' /\ pending s'.1 = [] /\ closed s'.1 = closed e /\ e_state s'.1 = e_state e /\ buffered s'.1 = buffered e.
Proof.
  intros Hwf (Hms & Hout & Hi & _). pose proof (mark_sent_spec ft RECV SEND e (blen (pending e)) Hwf (blen_nonneg _)) as Hm.
  unfold wp in Hm. rewrite Hms in Hm. destruct Hm as (_ & _ & Hpe & x & z & w & He). split_and!; [| | by rewrite He..].
  - destruct (io_one (pending e)) as (_ & E2 & _ & _).
    pose proof (dc_sent RECV SEND e (pending e) (blen (pending e)) _ (send_bytes_spec ft RECV SEND e Hwf) (blen_nonneg _) Hms) as Hc.
    rewrite to_nat_blen, firstn_all in Hc.
    apply (follows_call (e, t) _ s') in Hc; [done | cbn; by rewrite app_nil_r | by rewrite E2].
  - rewrite Hpe. apply drop_ge. unfold blen. lia.
Qed.

Lemma broken_follows e t s' : engine_wf e -> broken_by e t s' -> follows [] [] (e, t) s'.
Proof.
  intros Hwf (He & Hi & k & Hout). destruct (io_one (take k (pending e))) as (_ & E2 & _ & _).
  pose proof (dc_broken RECV SEND e _ k (send_bytes_spec ft RECV SEND e Hwf)) as Hc. rewrite <- He in Hc.
  apply (follows_call (e, t) _ s') in Hc; [done | cbn; by rewrite app_nil_r | by rewrite E2].
Qed.

Lemma send_step_spec e t :
  ready e -> pending e <> [] ->
  wp drive_one_send_step (fun _ s' => follows [] [] (e, t) s' /\ pending s'.1 = [] /\ closed s'.1 = closed e /\ e_state s'.1 = e_state e /\
       buffered s'.1 = buffered e /\ tr_input s'.2 = tr_input t /\ tr_step t s'.2)
    (fun err s' => follows [] [] (e, t) s' /\ io_error err) (e, t).
Proof.
  intros [Hwf _] Hp. eapply wp_weaken; [apply (send_step_core e t Hwf Hp) | |].
  - intros ? s' Hs. cbv beta in Hs. destruct (sent_follows e t s' Hwf Hs) as (? & ? & ? & ? & ?). destruct Hs as (_ & _ & ? & ?). by split_and!.
  - intros err s' [Hb He]. split; [by apply broken_follows | done].
Qed.

(** The transport put [n] bytes into the receive buffer. *)
Definition received_by e t n s' : Prop :=
  exists free buf, recv_buffer (E := HandshakeError) e = Ok free /\ blen buf = blen free /\ bytes_ok buf /\ 0 <= n <= blen buf /\
    (_ ← put_recv buf; advance n) e = (s'.1, Ok tt) /\
    tr_output s'.2 = tr_output t /\ tr_input s'.2 = tr_input t ++ take (Z.to_nat n) buf /\ tr_step t s'.2.

Lemma received_follows e t n s' : received_by e t n s' -> follows [] [] (e, t) s'.
Proof.
  intros (free & buf & Hf & Hbl & Hok & Hn & Hr & Hout & Hin & _). destruct (io_one (take (Z.to_nat n) buf)) as (E1 & _ & _ & _).
  pose proof (dc_receive RECV SEND e free buf n s'.1 Hf Hbl Hok Hn Hr) as Hc.
  apply (follows_call (e, t) _ s') in Hc; [done | by rewrite E1 | by cbn; rewrite app_nil_r].
Qed.

(** Bytes written into the free tail, and acknowledged. *)
Lemma receive_core e t t' buf free n :
  engine_wf e -> plaintext_parked (recv e) = false -> recv_buffer (E := HandshakeError) e = Ok free -> blen buf = blen free ->
  (bytes_ok free -> bytes_ok buf) -> 0 <= n <= blen buf -> tr_output t' = tr_output t -> tr_input t' = tr_input t ++ take (Z.to_nat n) buf -> tr_step t t' ->
  exists e1 e', put_recv (E := HandshakeError) buf e = (e1, Ok tt) /\ advance n e1 = (e', Ok tt) /\ received_by e t n (e', t') /\
    closed e' = closed e /\ pending e' = pending e /\ blen (buffered e') = blen (buffered e) + n.
Proof.
  intros Hwf Hpk Hf Hbl Hbok Hn Hout Hin Hts.
  destruct (recv_buffer_spec (E := HandshakeError) ft RECV SEND e Hwf) as (free' & Hf' & Hfl). rewrite Hf in Hf'. apply Ok_inj in Hf' as <-.
  rewrite Hpk in Hfl.
  assert (bytes_ok free) as Hfok.
  { unfold recv_buffer in Hf. rewrite Hpk in Hf. apply or_panic_Ok_inv in Hf. unfold slice_from in Hf.
    eapply bytes_ok_slice; [apply (ew_bytes _ _ _ _ Hwf) | exact Hf]. }
  pose proof (ew_cursor _ _ _ _ Hwf) as Hcur.
  pose proof (receive_spec ft RECV SEND e buf n Hwf Hpk (Hbok Hfok) ltac:(lia) Hn) as Hr. unfold wp, mbind, SM_bind in Hr.
  destruct (put_recv buf e) as [e1 [[] | err |]] eqn:Hput; [| destruct Hr as (_ & ? & _); lia | done].
  destruct (advance n e1) as [e' [[] | err |]] eqn:Hadv; [| destruct Hr as (_ & ? & _); lia | done].
  destruct Hr as (Hwf' & (rr & b & ->) & _ & _ & Hbuf). exists e1. eexists. split_and!; [done | done | | done | done |].
  - exists free, buf. split_and!; try done; [by auto | lia | lia |]. unfold mbind, SM_bind. by rewrite Hput, Hadv.
  - rewrite Hbuf, blen_app, blen_take. lia.
Qed.

(** What a read that fed the engine did. *)
Definition fed e t s' : Prop :=
  tr_step t s'.2 /\ closed s'.1 = closed e /\ pending s'.1 = pending e /\
  exists n, 0 < n /\ blen (tr_input s'.2) = blen (tr_input t) + n /\ blen (buffered s'.1) = blen (buffered e) + n.

Lemma recv_step_core e t :
  engine_wf e -> event_ok RECV EvRecv e ->
  wp drive_one_recv_step (fun _ s' => (exists n, received_by e t n s') /\ fed e t s')
    (fun err s' => received_by e t 0 s' /\ (io_error err \/ err = CoUnexpectedEof)) (e, t).
Proof.
  intros Hwf [Hpk Hfi].
  destruct (recv_buffer_spec (E := HandshakeError) ft RECV SEND e Hwf) as (free & Hf & Hfl). rewrite Hpk in Hfl.
  unfold drive_one_recv_step. apply wp_bind, wp_eng. unfold wp at 1. rewrite Hf.
  destruct (Z.eqb_spec (blen free) 0) as [? | _]; [lia |]. apply wp_bind. unfold wp at 1, pull. pose proof (tr_read_spec t free) as Hr. pose proof (ts_read t free) as Hts.
  destruct (tr_read t free) as [[t' buf] r]. destruct Hr as (Hbl & Hbok & Hout & Hr). pose proof (blen_nonneg buf).
  destruct r as [n | err |]; [destruct Hr as [Hn Hin] | | done].
  - destruct (receive_core e t t' buf free n Hwf Hpk Hf Hbl Hbok ltac:(lia) Hout Hin Hts) as (e1 & e' & -> & Hadv & Hby & Hcl & Hpe & Hb).
    cbn [map_err]. destruct (Z.eqb_spec n 0) as [-> | Hnz].
    + apply wp_fail. unfold advance in Hadv. injection Hadv as <-. by auto.
    + apply wp_eng. unfold wp. rewrite Hadv. split; [by exists n |]. unfold fed. split_and!; [done.. |]. exists n. cbn [fst snd]. rewrite Hin, blen_app, blen_take. lia.
  - destruct (receive_core e t t' buf free 0 Hwf Hpk Hf Hbl Hbok ltac:(lia) Hout) as (e1 & e' & -> & Hadv & Hby & _); [by rewrite Hr, app_nil_r | done |].
    cbn [map_err]. injection Hadv as <-. split; [done |]. left. by exists err.
Qed.

Lemma recv_step_spec e t :
  ready e -> event_ok RECV EvRecv e ->
  wp drive_one_recv_step (fun _ s' => follows [] [] (e, t) s' /\ fed e t s')
    (fun err s' => follows [] [] (e, t) s' /\ (io_error err \/ err = CoUnexpectedEof)) (e, t).
Proof.
  intros [Hwf _] Hev. eapply wp_weaken; [apply (recv_step_core e t Hwf Hev) | |].
  - intros _ s' [[n Hby] ?]. split; [by eapply received_follows | done].
  - intros err s' [Hby ?]. split; [by eapply received_follows | done].
Qed.

Lemma recv_step_nb_spec e t :
  ready e -> event_ok RECV EvRecv e ->
  wp drive_one_recv_step_nb (fun p s' => follows [] [] (e, t) s' /\ (p = RpFed -> fed e t s'))
    (fun err s' => follows [] [] (e, t) s' /\ io_error err) (e, t).
Proof.
  intros [Hwf _] [Hpk Hfi].
  destruct (recv_buffer_spec (E := HandshakeError) ft RECV SEND e Hwf) as (free & Hf & Hfl). rewrite Hpk in Hfl.
  unfold drive_one_recv_step_nb. apply wp_bind, wp_eng. unfold wp at 1. rewrite Hf.
  destruct (Z.eqb_spec (blen free) 0) as [? | _]; [lia |]. apply wp_bind. unfold wp at 1, pull. pose proof (tr_read_nb_spec t free) as Hr. pose proof (ts_read_nb t free) as Hts.
  destruct (tr_read_nb t free) as [[t' buf] r]. destruct Hr as (Hbl & Hbok & Hout & Hr). pose proof (blen_nonneg buf).
  assert (forall n, 0 <= n <= blen buf -> tr_input t' = tr_input t ++ take (Z.to_nat n) buf ->
    exists e1 e', put_recv (E := HandshakeError) buf e = (e1, Ok tt) /\ advance n e1 = (e', Ok tt) /\ follows [] [] (e, t) (e', t') /\
      closed e' = closed e /\ pending e' = pending e /\ blen (buffered e') = blen (buffered e) + n) as Hcore.
  { intros n Hn Hin. destruct (receive_core e t t' buf free n Hwf Hpk Hf Hbl Hbok Hn Hout Hin Hts) as (e1 & e' & ? & ? & Hby & ?).
    exists e1, e'. split_and!; try done; [by eapply received_follows | naive_solver..]. }
  destruct r as [[n |] | err |]; [destruct Hr as [Hn Hin] | | | done].
  - destruct (Hcore n ltac:(lia) Hin) as (e1 & e' & -> & Hadv & Hfo & Hcl & Hpe & Hb).
    cbn [map_err]. destruct (Z.eqb_spec n 0) as [-> | Hnz].
    + apply wp_ret. unfold advance in Hadv. injection Hadv as <-. by split.
    + apply wp_bind, wp_eng. unfold wp at 1. rewrite Hadv. apply wp_ret. split; [done |]. intros _. unfold fed. split_and!; [done.. |].
      exists n. cbn [fst snd]. rewrite Hin, blen_app, blen_take. lia.
  - destruct (Hcore 0 ltac:(lia)) as (e1 & e' & -> & Hadv & Hfo & _); [by rewrite Hr, app_nil_r |].
    cbn [map_err]. injection Hadv as <-. by apply wp_ret.
  - destruct (Hcore 0 ltac:(lia)) as (e1 & e' & -> & Hadv & Hfo & _); [by rewrite Hr, app_nil_r |].
    cbn [map_err]. injection Hadv as <-. split; [done |]. by exists err.
Qed.

Lemma wp_peek {A} (f : TlsEngine -> A) (Q : A -> TlsStream -> Prop) R e t : Q (f e) (e, t) -> wp (peek f) Q R (e, t).
Proof. done. Qed.

(** [drain_pending_send] empties the send buffer in one round, or the transport fails. *)
Lemma drain_spec e t :
  ready e ->
  wp (drain_pending_send RECV) (fun _ s' => follows [] [] (e, t) s' /\ pending s'.1 = [] /\ closed s'.1 = closed e /\ e_state s'.1 = e_state e)
    (fun err s' => follows [] [] (e, t) s' /\ io_error err) (e, t).
Proof.
  intros Hrd. pose proof Hrd as (Hwf & _). unfold drain_pending_send. apply wp_bind, wp_peek. destruct (is_send_pending e) eqn:Hp; cbn [negb].
  2: { apply wp_ret. split_and!; [apply follows_refl | by apply (pending_nil ft RECV SEND) | done | done]. }
  assert (pending e <> []) as Hne.
  { intros Hn. rewrite (pending_false e Hwf Hn) in Hp. done. }
  cbn [drain_loop]. apply wp_bind, wp_eng. unfold wp at 1, step. cbn [step_loop]. unfold mbind at 1, SM_bind at 1, gets at 1. cbn [id]. rewrite Hp.
  apply wp_bind. eapply wp_weaken; [apply (send_step_spec e t Hrd Hne) | | done].
  intros _ [e' t'] (Hf & Hpn & Hcl & Hst & _ & _ & _). apply wp_bind, wp_peek. cbn [fst] in *.
  destruct (ready_follows _ _ (e, t) (e', t') Hrd Hf) as [Hwf' _]. cbn [fst] in Hwf'. rewrite (pending_false e' Hwf' Hpn). by apply wp_ret.
Qed.

(** *** Progress *)

(** The unframed bytes of an open engine. *)
Definition weight (e : TlsEngine) : Z := if closed e then 0 else blen (buffered e).

Lemma weight_bounds e : 0 <= weight e <= blen (buffered e).
Proof. unfold weight. pose proof (blen_nonneg (buffered e)). destruct (closed e); lia. Qed.

(** A step that reports bytes to send has either done nothing, or consumed a record. *)
Lemma step_loop_progress fuel e p q :
  engine_wf e -> open_at S_ rts cts p q e -> (Z.to_nat (rs_filled (recv e) - rs_next_record (recv e)) < fuel)%nat ->
  wp (step_loop RECV fuel) 
    (fun ev e' => match ev with
                  | EvSend _ => e' = e \/ weight e' < weight e
                  | EvRecv => weight e' <= weight e /\ is_send_pending e' = false /\ closed e' = false
                  | _ => weight e' <= weight e end) (fun _ _ => True) e.
Proof.
  revert e p q. induction fuel as [| fuel IH]; intros e p q Hwf Hopen Hf; [lia |].
  cbn [step_loop]. apply wp_bind, wp_gets. cbn [id].
  destruct (is_send_pending e) eqn:Hnp; [apply wp_ret; by left |]. destruct (plaintext_parked (recv e)) eqn:Hpk; [apply wp_ret; lia |].
  destruct (closed e) eqn:Hcl; [apply wp_ret; lia |]. destruct (Hopen Hcl) as [Hl Hph].
  apply wp_bind. eapply wp_weaken; [apply (frame_spec _ _ _ e Hwf ltac:(lia) Hpk) | | done].
  intros fr e0 (Hwf0 & Hb0 & Hpk0 & (r & b & Hsame) & Hfr). destruct fr as [start end_ ty len |].
  2: { apply wp_ret. unfold weight. rewrite Hb0. subst e0. fields. rewrite Hcl. split_and!; [lia | exact Hnp | done]. }
  destruct Hfr as (-> & Hstart & -> & Hlen & Hfi & Hty).
  apply wp_bind. eapply wp_weaken; [by apply (dispatch_data_record_spec ft RECV SEND S_ rts cts e p q start len ty) | | done].
  intros _ e1 (Hwf1 & Hph1 & Hfi1 & Hn1 & en & p1 & q1 & es & _ & _ & _ & Hl1 & _).
  pose proof (ew_cursor _ _ _ _ Hwf) as Hc. pose proof (ew_cursor _ _ _ _ Hwf1) as Hc1.
  assert (weight e1 < weight e) as Hlt.
  { pose proof (weight_bounds e1). rewrite (buffered_len ft RECV SEND e1 Hwf1) in *. unfold weight at 2. rewrite Hcl, (buffered_len ft RECV SEND e Hwf). lia. }
  eapply wp_weaken; [apply (IH e1 p1 q1 Hwf1); [done | lia] | | done].
  intros ev e' Hev. destruct ev; [destruct Hev as [-> | Hev]; right | destruct Hev as (? & ? & ?); split_and!; [| done | done] | ..]; lia.
Qed.

Definition unsent (e : TlsEngine) : Z := if is_send_pending e then 1 else 0.

(** A round consumed bytes of the engine or of the transport. *)
Definition progress s s' : Prop :=
  tr_step s.2 s'.2 /\ weight s'.1 + unsent s'.1 < weight s.1 + unsent s.1 + 2 * (blen (tr_input s'.2) - blen (tr_input s.2)).

(** What an event of [step] means for the next call. *)
Lemma eng_step_progress e t :
  ready e ->
  wp (eng (step RECV)) (fun ev s' => ready s'.1 /\ s'.2 = t /\ follows [] [] (e, t) s' /\ event_ok RECV ev s'.1 /\ ev <> EvHandshakeDone /\
      match ev with
      | EvSend _ => weight s'.1 < weight e + unsent e
      | EvRecv => weight s'.1 <= weight e + unsent e /\ pending s'.1 = [] /\ closed s'.1 = false
      | _ => True
      end)
    (fun err s' => follows [] [] (e, t) s' /\ engine_error (e, t) err) (e, t).
Proof.
  intros Hrd. pose proof Hrd as (Hwf & p & q & Ho). pose proof (eng_step_spec e t Hrd) as Hs.
  pose proof (step_loop_progress (S (length (recv_record e))) e p q Hwf Ho) as Hp.
  pose proof (ew_cursor _ _ _ _ Hwf). pose proof (ew_recv _ _ _ _ Hwf).
  assert (Z.to_nat (rs_filled (recv e) - rs_next_record (recv e)) < S (length (recv_record e)))%nat as Hlt by (unfold blen in *; lia).
  specialize (Hp Hlt). unfold wp, eng in *. change (step_loop RECV (S (length (recv_record e))) e) with (step RECV e) in Hp.
  destruct (step RECV e) as [e' [ev | err |]] eqn:Hst; cbn [map_err] in *; [| done | done].
  destruct Hs as (Hf & Hev & Hnd). assert (ready e') as Hrd' by apply (ready_follows _ _ (e, t) (e', t) Hrd Hf).
  split_and!; try done. cbn [fst]. unfold unsent. destruct ev as [n | | | |]; cbn [event_ok fst] in *; try done.
  - destruct Hp as [-> | Hp]; [| destruct (is_send_pending e); lia].
    rewrite (pending_true e Hwf); [lia |]. intros Hn. rewrite Hn, blen_nil in Hev. lia.
  - destruct Hp as (Hp & Hnp & Hcl), Hrd' as [Hwf' _]. split_and!; [destruct (is_send_pending e); lia | by apply (pending_nil ft RECV SEND) | done].
Qed.

(** *** Reading *)

(** An error of a read. *)
Definition read_error s (err : ConnectError TrError) : Prop := engine_error s err \/ io_error err \/ err = CoUnexpectedEof.

(** A read of [n] bytes into the caller's buffer [out]; zero means that the engine is closed. *)
Definition read_ok (out : bytes) s '(out', n) s' : Prop :=
  follows (take (Z.to_nat n) out') [] s s' /\ blen out' = blen out /\ 0 <= n <= blen out /\ (n = 0 -> closed s'.1 = true).

(** Data is ready: some of it goes to the caller. *)
Lemma hand_over_spec e t out :
  ready e -> parked e <> [] -> 0 < blen out -> wp (eng (read_app out)) (read_ok out (e, t)) (fun _ _ => False) (e, t).
Proof.
  intros Hrd Hp Ho. pose proof Hrd as (Hwf & _). apply wp_eng. pose proof (read_app_spec ft RECV SEND e out Hwf) as Hr. unfold wp in *.
  destruct (read_app out e) as [e' [[out' n] | err |]] eqn:Hra; [| done | done]. destruct Hr as (_ & Hn & Hl & _).
  assert (0 < blen (parked e)). { destruct (parked e); [done |]. unfold blen. cbn [length]. lia. }
  split_and!; [| done | lia | lia | lia]. destruct (io_one (take (Z.to_nat n) out')) as (_ & _ & _ & E4).
  pose proof (dc_read RECV SEND e out out' n e' Hra) as Hc.
  apply (follows_call (e, t) _ (e', t)) in Hc; [by rewrite E4 in Hc | by cbn; rewrite app_nil_r..].
Qed.

Lemma send_round_progress e t e1 :
  ready e1 -> follows [] [] (e, t) (e1, t) -> weight e1 < weight e + unsent e -> pending e1 <> [] ->
  wp drive_one_send_step (fun _ s' => follows [] [] (e, t) s' /\ progress (e, t) s') (fun err s' => follows [] [] (e, t) s' /\ read_error (e, t) err) (e1, t).
Proof.
  intros Hrd Hf Hw Hp. eapply wp_weaken; [apply (send_step_spec e1 t Hrd Hp) | |].
  - intros _ [e' t'] (Hf' & Hpn & Hcl & _ & Hb & Hin & Hts). assert (ready e') as [Hwf' _] by apply (ready_follows _ _ (e1, t) (e', t') Hrd Hf').
    cbn [fst snd] in *. split; [by eapply follows_quiet |]. split; [done |]. cbn [fst snd]. rewrite Hin.
    unfold weight at 1, unsent at 1. rewrite Hcl, Hb, (pending_false e' Hwf' Hpn). fold (weight e1). lia.
  - intros err s' [Hf' He]. split; [by eapply follows_quiet |]. right. by left.
Qed.

Lemma fed_progress e t e1 s' :
  ready e1 -> ready s'.1 -> weight e1 <= weight e + unsent e -> fed e1 t s' -> pending e1 = [] -> closed e1 = false -> progress (e, t) s'.
Proof.
  intros _ [Hwf' _] Hw (Hts & Hcl & Hpe & n & Hn & Hin & Hb) Hp Hc. split; [done |]. cbn [fst snd].
  rewrite Hp in Hpe. unfold weight at 1, unsent at 1. rewrite (pending_false _ Hwf' Hpe), Hcl, Hc, Hb, Hin. unfold weight in Hw at 1. rewrite Hc in Hw. lia.
Qed.

Lemma read_round_spec out e t :
  ready e -> 0 < blen out ->
  wp (read_round RECV out) (fun o s' => match o with Some r => read_ok out (e, t) r s' | None => follows [] [] (e, t) s' /\ progress (e, t) s' end)
    (fun err s' => follows [] [] (e, t) s' /\ read_error (e, t) err) (e, t).
Proof.
  intros Hrd Hout. unfold read_round. apply wp_bind. eapply wp_weaken; [apply (eng_step_progress e t Hrd) | |].
  2: { intros err s' [? ?]. split; [done | by left]. }
  intros ev [e1 t1] (Hrd1 & Ht & Hf & Hev & Hnd & Hw). cbn [fst snd] in *. subst t1. destruct ev as [n | | | |].
  - apply wp_bind. eapply wp_weaken; [apply (send_round_progress e t e1 Hrd1 Hf Hw) | done | done].
    intros Hn. cbn [event_ok] in Hev. rewrite Hn, blen_nil in Hev. lia.
  - apply wp_bind. eapply wp_weaken; [apply (recv_step_spec e1 t Hrd1 Hev) | |].
    + intros _ s' [Hf' Hfed]. apply wp_ret. split; [by eapply follows_quiet |].
      eapply fed_progress; [exact Hrd1 | by eapply (ready_follows _ _ (e1, t)) | apply Hw | done | apply Hw..].
    + intros err s' [Hf' He]. split; [by eapply follows_quiet |]. by right.
  - apply wp_bind. eapply wp_weaken; [apply (hand_over_spec e1 t out Hrd1 Hev Hout) | | done].
    intros [out' n] s' (Hf' & ?). apply wp_ret. split; [by eapply follows_quiet | done].
  - done.
  - apply wp_ret. split_and!; try done; lia.
Qed.

Lemma engine_error_later s s1 err : follows [] [] s s1 -> engine_error s1 err -> engine_error s err.
Proof. intros Hf (s2 & he & Hf2 & ?). exists s2, he. split; [by eapply follows_quiet | done]. Qed.

Lemma read_error_later s s1 err : follows [] [] s s1 -> read_error s1 err -> read_error s err.
Proof. intros Hf [He | He]; [left; by eapply engine_error_later | by right]. Qed.

Lemma read_ok_later out s s1 r s2 : follows [] [] s s1 -> read_ok out s1 r s2 -> read_ok out s r s2.
Proof. intros Hf. destruct r as [out' n]. intros (Hf2 & ?). split; [by eapply follows_quiet | done]. Qed.

(** A transport that delivers at most [left t] more bytes. *)
Definition delivers_at_most (left : Tr -> Z) : Prop :=
  forall t t', tr_step t t' -> 0 <= left t' /\ left t' + blen (tr_input t') <= left t + blen (tr_input t).

Definition rank (left : Tr -> Z) s : Z := 2 * left s.2 + weight s.1 + unsent s.1.

Lemma rank_progress left s s' : delivers_at_most left -> progress s s' -> rank left s' < rank left s.
Proof. intros Hl [Hts Hp]. destruct (Hl _ _ Hts). unfold rank. lia. Qed.

Lemma rank_nonneg left s : 0 <= left s.2 -> 0 <= rank left s.
Proof. intros Hl. pose proof (weight_bounds s.1). unfold rank, unsent. destruct (is_send_pending s.1); lia. Qed.

(** [read]: while it has not returned, it has only moved bytes between the transport and
    the engine. *)
Lemma read_spec fuel out e t :
  ready e -> 0 < blen out ->
  wp (stream_read RECV fuel out) (fun o s' => match o with Some r => read_ok out (e, t) r s' | None => follows [] [] (e, t) s' end)
    (fun err s' => follows [] [] (e, t) s' /\ read_error (e, t) err) (e, t).
Proof.
  intros Hrd Hout. unfold stream_read. destruct (Z.eqb_spec (blen out) 0); [lia |].
  apply (wp_rounds _ (follows [] [] (e, t))); [| apply follows_refl].
  intros [e1 t1] Hf. eapply wp_weaken; [apply (read_round_spec out e1 t1); [by apply (ready_follows [] [] (e, t) (e1, t1)) | done] | |].
  - intros [r |] s' Hs'; [by eapply read_ok_later |]. eapply follows_quiet; [exact Hf | apply Hs'].
  - intros err s' [Hf' He]. split; [by eapply follows_quiet | by eapply read_error_later].
Qed.

(** [read] returns, when the peer sends finitely many bytes. *)
Lemma read_total left fuel out e t :
  delivers_at_most left -> 0 <= left t -> ready e -> 0 < blen out -> rank left (e, t) < Z.of_nat fuel ->
  wp (stream_read RECV fuel out) (fun o s' => match o with Some r => read_ok out (e, t) r s' | None => False end)
    (fun err s' => follows [] [] (e, t) s' /\ read_error (e, t) err) (e, t).
Proof.
  intros Hl Hl0 Hrd Hout Hfuel. unfold stream_read. destruct (Z.eqb_spec (blen out) 0); [lia |].
  apply (wp_rounds_total _ (fun s => follows [] [] (e, t) s /\ 0 <= left s.2) (rank left)); [| | | done].
  - intros s [_ Hs]. by apply rank_nonneg.
  - intros [e1 t1] [Hf Hs]. eapply wp_weaken; [apply (read_round_spec out e1 t1); [by apply (ready_follows [] [] (e, t) (e1, t1)) | done] | |].
    + intros [r |] s' Hs'; [by eapply read_ok_later |]. destruct Hs' as [Hf' Hp]. split_and!; [by eapply follows_quiet | | by apply rank_progress].
      by apply (Hl t1), Hp.
    + intros err s' [Hf' He]. split; [by eapply follows_quiet | by eapply read_error_later].
  - split; [apply follows_refl | done].
Qed.

(** *** [try_read] *)

Lemma try_read_round_spec out e t :
  ready e -> 0 < blen out ->
  wp (try_read_round RECV out)
    (fun o s' => match o with
                 | Some (Some r) => read_ok out (e, t) r s'
                 | Some None => follows [] [] (e, t) s'
                 | None => follows [] [] (e, t) s' /\ progress (e, t) s' end)
    (fun err s' => follows [] [] (e, t) s' /\ read_error (e, t) err) (e, t).
Proof.
  intros Hrd Hout. unfold try_read_round. apply wp_bind. eapply wp_weaken; [apply (eng_step_progress e t Hrd) | |].
  2: { intros err s' [? ?]. split; [done | by left]. }
  intros ev [e1 t1] (Hrd1 & Ht & Hf & Hev & Hnd & Hw). cbn [fst snd] in *. subst t1. destruct ev as [n | | | |].
  - apply wp_bind. eapply wp_weaken; [apply (send_round_progress e t e1 Hrd1 Hf Hw) | done | done].
    intros Hn. cbn [event_ok] in Hev. rewrite Hn, blen_nil in Hev. lia.
  - apply wp_bind. eapply wp_weaken; [apply (recv_step_nb_spec e1 t Hrd1 Hev) | |].
    + intros p s' [Hf' Hfed]. assert (follows [] [] (e, t) s') as Hf2 by (by eapply follows_quiet). destruct p.
      * apply wp_ret. split; [done |].
        eapply fed_progress; [exact Hrd1 | by eapply (ready_follows _ _ (e1, t)) | apply Hw | by apply Hfed | apply Hw..].
      * by apply wp_ret.
      * apply wp_fail. split; [done |]. right. by right.
    + intros err s' [Hf' He]. split; [by eapply follows_quiet |]. right. by left.
  - apply wp_bind. eapply wp_weaken; [apply (hand_over_spec e1 t out Hrd1 Hev Hout) | | done].
    intros [out' n] s' (Hf' & ?). apply wp_ret. split; [by eapply follows_quiet | done].
  - done.
  - apply wp_ret. split_and!; try done; lia.
Qed.

Lemma try_read_spec fuel out e t :
  ready e -> 0 < blen out ->
  wp (try_read RECV fuel out) (fun o s' => match o with Some (Some r) => read_ok out (e, t) r s' | _ => follows [] [] (e, t) s' end)
    (fun err s' => follows [] [] (e, t) s' /\ read_error (e, t) err) (e, t).
Proof.
  intros Hrd Hout. unfold try_read. destruct (Z.eqb_spec (blen out) 0); [lia |].
  eapply wp_weaken; [apply (wp_rounds _ (follows [] [] (e, t)) (fun o s' => match o with Some r => read_ok out (e, t) r s' | None => follows [] [] (e, t) s' end)
    (fun err s' => follows [] [] (e, t) s' /\ read_error (e, t) err)); [| apply follows_refl] | | done].
  - intros [e1 t1] Hf. eapply wp_weaken; [apply (try_read_round_spec out e1 t1); [by apply (ready_follows [] [] (e, t) (e1, t1)) | done] | |].
    + intros [[r |] |] s' Hs'; [by eapply read_ok_later | by eapply follows_quiet |]. eapply follows_quiet; [exact Hf | apply Hs'].
    + intros err s' [Hf' He]. split; [by eapply follows_quiet | by eapply read_error_later].
  - intros [[r |] |] s' Hs'; done.
Qed.

(** *** Writing and closing *)

(** An error of the record protection. *)
Definition seal_error (err : ConnectError TrError) : Prop := exists x, err = CoHandshake (HeConnection x).

(** With nothing pending, [write_app] takes at least a byte, or fails for a reason that is
    not the stream's. *)
Lemma attempt_spec buf e t :
  ready e -> pending e = [] -> 0 < blen buf ->
  wp (attempt_write SEND buf)
    (fun r s' => match r with
                 | inr n => 0 < n <= blen buf /\ follows [] (take (Z.to_nat n) buf) (e, t) s'
                 | inl WaClosed => closed e = true /\ s' = (e, t)
                 | inl (WaOther he) => (exists x, he = HeConnection x) /\ s' = (e, t)
                 | inl _ => False
                 end) (fun _ _ => False) (e, t).
Proof.
  intros Hrd Hp Hb. pose proof Hrd as (Hwf & p & q & Ho). pose proof (write_app_spec ft RECV SEND S_ rts cts e p q buf Hwf Ho) as Hs.
  unfold wp, attempt_write in *. destruct (write_app SEND buf e) as [e' [n | err |]] eqn:Hw; [| subst e' | done].
  - destruct Hs as (Hn & _). split.
    + pose proof (ew_peer _ _ _ _ Hwf) as Hpeer. change MIN_SEND_STANDARD with 58 in Hsend.
      assert (0 < send_chunk_limit SEND e); [| lia]. unfold send_chunk_limit, saturating_sub.
      change MIN_RECORD_SIZE_LIMIT with 64 in *. change RECORD_OVERHEAD with 21. change PROTO_MAX_INNER_PLAINTEXT with 16385. lia.
    + destruct (io_one (take (Z.to_nat n) buf)) as (_ & _ & E3 & _). pose proof (dc_write RECV SEND e buf n e' Hw) as Hc.
      apply (follows_call (e, t) _ (e', t)) in Hc; [by rewrite E3 in Hc | by cbn; rewrite app_nil_r..].
  - unfold write_app, mbind, SM_bind, gets, lift in Hw. cbn [id] in Hw. rewrite (pending_false e Hwf Hp) in Hw.
    destruct (closed e) eqn:Hcl; [injection Hw as <-; by split |]. destruct (Ho Hcl) as [(c & Hst & _) _]. rewrite Hst in Hw. cbn [in_data_phase negb] in Hw.
    destruct (_ =? 0); [done |]. destruct (slice buf 0 _) as [chunk |]; cbn [or_panic] in Hw; [| done].
    destruct (app_encrypt_record S_ c chunk CT_APPLICATION_DATA (send_record e)) as [[[? ?] ?] | x |]; [done | | done].
    injection Hw as <-. split; [by exists x | done].
Qed.

(** An error of [write_all] or [close]. *)
Definition write_error (err : ConnectError TrError) s' : Prop := io_error err \/ seal_error err \/ err = CoClosed /\ closed s'.1 = true.

Lemma write_all_loop_spec fuel buf e t :
  ready e -> (length buf <= fuel)%nat ->
  wp (write_all_loop RECV SEND fuel buf) (fun _ s' => follows [] buf (e, t) s' /\ (buf <> [] \/ pending e = [] -> pending s'.1 = []))
    (fun err s' => (exists k, follows [] (take k buf) (e, t) s') /\ write_error err s') (e, t).
Proof.
  revert buf e t. induction fuel as [| fuel IH]; intros buf e t Hrd Hf.
  { assert (buf = []) as -> by (destruct buf; [done | cbn [length] in Hf; lia]). apply wp_ret. split; [apply follows_refl | by intros [? | ?]]. }
  cbn [write_all_loop]. destruct (Z.eqb_spec (blen buf) 0) as [->%blen_zero_nil | Hne]; [apply wp_ret; split; [apply follows_refl | by intros [? | ?]] |].
  assert (0 < blen buf) as Hpos by (pose proof (blen_nonneg buf); lia).
  apply wp_bind. eapply wp_weaken; [apply (drain_spec e t Hrd) | |].
  2: { intros err s' [Hf1 He]. split; [by exists O | by left]. }
  intros _ [e1 t1] (Hf1 & Hp1 & Hcl1 & _). cbn [fst] in *. assert (ready e1) as Hrd1 by apply (ready_follows [] [] (e, t) (e1, t1) Hrd Hf1).
  apply wp_bind. eapply wp_weaken; [apply (attempt_spec buf e1 t1 Hrd1 Hp1 Hpos) | | done].
  intros [[| | | he] | n] s' Hr; [destruct Hr as [Hcl ->] | done | done | destruct Hr as [[x ->] ->] |].
  - apply wp_fail. split; [by exists O |]. right. by right.
  - apply wp_fail. split; [by exists O |]. right. left. by exists x.
  - destruct Hr as [Hn Hf2], s' as [e2 t2]. destruct (Z.eqb_spec n 0); [lia |].
    destruct (slice_in_range buf n (blen buf)) as [rest Hrest]; [lia.. |]. apply wp_bind. eapply wp_or_panic; [exact Hrest |].
    apply slice_Some_inv in Hrest as (_ & _ & _ & Hrl & Hre). rewrite take_ge in Hre by (rewrite length_drop; unfold blen in *; lia).
    assert (ready e2) as Hrd2 by apply (ready_follows [] (take (Z.to_nat n) buf) (e1, t1) (e2, t2) Hrd1 Hf2).
    pose proof (follows_quiet _ _ _ _ _ Hf1 Hf2) as Hf12.
    apply wp_bind. eapply wp_weaken; [apply (drain_spec e2 t2 Hrd2) | |].
    2: { intros err s' [Hf3 He]. split; [| by left]. exists (Z.to_nat n). pose proof (follows_trans _ _ _ _ _ _ _ Hf12 Hf3) as Hf'. by rewrite !app_nil_r in Hf'. }
    intros _ [e3 t3] (Hf3 & Hp3 & _). cbn [fst] in *. assert (ready e3) as Hrd3 by apply (ready_follows [] [] (e2, t2) (e3, t3) Hrd2 Hf3).
    pose proof (follows_trans _ _ _ _ _ _ _ Hf12 Hf3) as Hf'. rewrite !app_nil_r in Hf'.
    eapply wp_weaken; [apply (IH rest e3 t3 Hrd3); unfold blen in *; lia | |].
    + intros _ s' [Hf4 Hp4]. pose proof (follows_trans _ _ _ _ _ _ _ Hf' Hf4) as Hall. rewrite Hre in Hall. cbn [app] in Hall. rewrite take_drop in Hall.
      split; [done |]. intros _. apply Hp4. by right.
    + intros err s' [[k Hf4] He]. split; [| done]. pose proof (follows_trans _ _ _ _ _ _ _ Hf' Hf4) as Hall. cbn [app] in Hall.
      exists (Z.to_nat n + k)%nat. rewrite <- (take_drop (Z.to_nat n) buf), <- Hre. rewrite take_app_add'; [done |]. rewrite length_take. unfold blen in *. lia.
Qed.

Lemma stream_write_all_spec buf e t :
  ready e ->
  wp (stream_write_all RECV SEND buf) (fun _ s' => follows [] buf (e, t) s' /\ (buf <> [] -> pending s'.1 = []))
    (fun err s' => (exists k, follows [] (take k buf) (e, t) s') /\ write_error err s') (e, t).
Proof.
  intros Hrd. eapply wp_weaken; [by apply (write_all_loop_spec (length buf) buf e t Hrd) | | done]. intros _ s' [? Hp]. split; [done |]. auto.
Qed.

(** With nothing pending, an open engine queues a [close_notify]. *)
Lemma eng_close_spec e t :
  ready e -> pending e = [] ->
  wp (eng close) (fun _ s' => follows [] [] (e, t) s' /\ closed s'.1 = true) (fun err s' => follows [] [] (e, t) s' /\ seal_error err) (e, t).
Proof.
  intros (Hwf & p & q & Ho) Hp. apply wp_eng. pose proof (close_spec ft RECV SEND S_ rts cts e p q Hwf Ho) as Hs. unfold wp in *.
  destruct (close e) as [e' r] eqn:Hc.
  assert (follows [] [] (e, t) (e', t)) as Hf.
  { pose proof (dc_close RECV SEND e e' r Hc) as Hx. apply (follows_call (e, t) _ (e', t)) in Hx; [done | by cbn; rewrite app_nil_r..]. }
  destruct r as [[] | err |]; [split; [done | apply Hs] | | done]. split; [done |].
  unfold close, mbind, SM_bind, gets, lift in Hc. cbn [id] in Hc. rewrite (pending_false e Hwf Hp) in Hc.
  destruct (closed e) eqn:Hcl; [done |]. destruct (Ho Hcl) as [(c & Hst & _) _]. rewrite Hst in Hc. cbn [in_data_phase negb] in Hc.
  destruct (app_encrypt_record _ _ _ _ _) as [[[? ?] ?] | x |]; [done | | done]. injection Hc as _ <-. by exists x.
Qed.

Lemma stream_close_spec e t :
  ready e ->
  wp (stream_close RECV) (fun _ s' => follows [] [] (e, t) s' /\ pending s'.1 = [] /\ is_closed s'.1 = true)
    (fun err s' => follows [] [] (e, t) s' /\ (io_error err \/ seal_error err)) (e, t).
Proof.
  intros Hrd. unfold stream_close. apply wp_bind. eapply wp_weaken; [apply (drain_spec e t Hrd) | |].
  2: { intros err s' [? ?]. auto. }
  intros _ [e1 t1] (Hf1 & Hp1 & _). cbn [fst] in *. assert (ready e1) as Hrd1 by apply (ready_follows [] [] (e, t) (e1, t1) Hrd Hf1).
  apply wp_bind, wp_peek. destruct (is_closed e1) eqn:Hc1; [by apply wp_ret |].
  apply wp_bind. eapply wp_weaken; [apply (eng_close_spec e1 t1 Hrd1 Hp1) | |].
  2: { intros err s' [Hf2 He]. split; [by eapply follows_quiet | by right]. }
  intros _ [e2 t2] [Hf2 Hc2]. cbn [fst] in *. assert (ready e2) as Hrd2 by apply (ready_follows [] [] (e1, t1) (e2, t2) Hrd1 Hf2).
  pose proof (follows_quiet _ _ _ _ _ Hf1 Hf2) as Hf12. eapply wp_weaken; [apply (drain_spec e2 t2 Hrd2) | |].
  - intros _ s' (Hf3 & Hp3 & Hc3 & _). split_and!; [by eapply follows_quiet | done |]. unfold is_closed. by rewrite Hc3, Hc2.
  - intros err s' [Hf3 He]. split; [by eapply follows_quiet | by left].
Qed.

(** ** Runs of a connected stream *)

(** The bytes a read gave to the caller. *)
Definition given {E} (r : outcome E (option (bytes * Z))) : bytes :=
  match r with Ok (Some (out, n)) => take (Z.to_nat n) out | _ => [] end.
Definition given_nb {E} (r : outcome E (option (option (bytes * Z)))) : bytes :=
  match r with Ok (Some (Some (out, n))) => take (Z.to_nat n) out | _ => [] end.

(** The calls of the application, with the bytes it has read, the buffers it has passed to
    [write_all] and whether that succeeded. *)
Inductive stream_run (s0 : TlsStream) : bytes -> list (bytes * bool) -> TlsStream -> Prop :=
| sr_nil : stream_run s0 [] [] s0
| sr_read rd ws s fuel out s' r : stream_run s0 rd ws s -> stream_read RECV fuel out s = (s', r) -> stream_run s0 (rd ++ given r) ws s'
| sr_try_read rd ws s fuel out s' r : stream_run s0 rd ws s -> try_read RECV fuel out s = (s', r) -> stream_run s0 (rd ++ given_nb r) ws s'
| sr_write rd ws s buf s' r : stream_run s0 rd ws s -> stream_write_all RECV SEND buf s = (s', r) ->
    stream_run s0 rd (ws ++ [(buf, is_ok r)]) s'
| sr_close rd ws s s' r : stream_run s0 rd ws s -> stream_close RECV s = (s', r) -> stream_run s0 rd ws s'.

(** What those writes sent: a failed one, a prefix of its buffer. *)
Inductive written_by : list (bytes * bool) -> bytes -> Prop :=
| wb_nil : written_by [] []
| wb_ok ws wr buf : written_by ws wr -> written_by (ws ++ [(buf, true)]) (wr ++ buf)
| wb_err ws wr buf k : written_by ws wr -> written_by (ws ++ [(buf, false)]) (wr ++ take k buf).

Lemma read_follows fuel out e t s' r : ready e -> stream_read RECV fuel out (e, t) = (s', r) -> follows (given r) [] (e, t) s' /\ r <> Panic.
Proof.
  intros Hrd Hr. destruct (Z.eq_dec (blen out) 0) as [Hz | Hnz].
  { unfold stream_read in Hr. rewrite Hz in Hr. injection Hr as <- <-. split; [apply follows_refl | done]. }
  pose proof (read_spec fuel out e t Hrd ltac:(pose proof (blen_nonneg out); lia)) as Hs. unfold wp in Hs. rewrite Hr in Hs.
  destruct r as [[[out' n] |] | err |]; [split; [apply Hs | done] | by split | split; [apply Hs | done] | done].
Qed.

Lemma try_read_follows fuel out e t s' r : ready e -> try_read RECV fuel out (e, t) = (s', r) -> follows (given_nb r) [] (e, t) s' /\ r <> Panic.
Proof.
  intros Hrd Hr. destruct (Z.eq_dec (blen out) 0) as [Hz | Hnz].
  { unfold try_read in Hr. rewrite Hz in Hr. injection Hr as <- <-. split; [apply follows_refl | done]. }
  pose proof (try_read_spec fuel out e t Hrd ltac:(pose proof (blen_nonneg out); lia)) as Hs. unfold wp in Hs. rewrite Hr in Hs.
  destruct r as [[[[out' n] |] |] | err |]; [split; [apply Hs | done] | by split | by split | split; [apply Hs | done] | done].
Qed.

Lemma write_follows buf e t s' r :
  ready e -> stream_write_all RECV SEND buf (e, t) = (s', r) ->
  r <> Panic /\ exists wr, follows [] wr (e, t) s' /\ forall ws w, written_by ws w -> written_by (ws ++ [(buf, is_ok r)]) (w ++ wr).
Proof.
  intros Hrd Hr. pose proof (stream_write_all_spec buf e t Hrd) as Hs. unfold wp in Hs. rewrite Hr in Hs.
  destruct r as [[] | err |]; [| | done]; (split; [done |]).
  - exists buf. split; [apply Hs |]. intros ws w Hw. by apply wb_ok.
  - destruct Hs as [[k Hf] _]. exists (take k buf). split; [done |]. intros ws w Hw. by apply wb_err.
Qed.

Lemma close_follows e t s' r : ready e -> stream_close RECV (e, t) = (s', r) -> follows [] [] (e, t) s' /\ r <> Panic.
Proof. intros Hrd Hr. pose proof (stream_close_spec e t Hrd) as Hs. unfold wp in Hs. rewrite Hr in Hs. destruct r; [split; [apply Hs | done].. | done]. Qed.

Lemma stream_run_follows s0 rd ws s : ready s0.1 -> stream_run s0 rd ws s -> exists wr, follows rd wr s0 s /\ written_by ws wr.
Proof.
  intros Hrd Hrun. induction Hrun as [| rd ws [e t] fuel out s' r _ IH Hc | rd ws [e t] fuel out s' r _ IH Hc | rd ws [e t] buf s' r _ IH Hc | rd ws [e t] s' r _ IH Hc].
  1: { exists []. split; [apply follows_refl | constructor]. }
  all: destruct IH as (wr & Hf & Hw); assert (ready e) as Hrd1 by apply (ready_follows rd wr s0 (e, t) Hrd Hf).
  - destruct (read_follows _ _ _ _ _ _ Hrd1 Hc) as [Hf' _]. exists wr. split; [| done]. rewrite <- (app_nil_r wr). by eapply follows_trans.
  - destruct (try_read_follows _ _ _ _ _ _ Hrd1 Hc) as [Hf' _]. exists wr. split; [| done]. rewrite <- (app_nil_r wr). by eapply follows_trans.
  - destruct (write_follows _ _ _ _ _ Hrd1 Hc) as (_ & wr' & Hf' & Hw'). exists (wr ++ wr'). split; [| by apply Hw'].
    rewrite <- (app_nil_r rd). by eapply follows_trans.
  - destruct (close_follows _ _ _ _ Hrd1 Hc) as [Hf' _]. exists wr. split; [| done]. rewrite <- (app_nil_r wr), <- (app_nil_r rd). by eapply follows_trans.
Qed.
End stream_specs.

(** C2. The application and the peer of a connected [TlsStream] talk over a channel of
    authentic records.  Start from an engine in its data phase at position [p] of the
    server's direction and [q] of ours, over a transport that meets its contract, and let
    the application call [read], [try_read], [write_all] and [close] in any order, whatever
    they return.  Then the bytes the transport has delivered since start with records
    sealed at consecutive positions of the server's direction, and the application has read
    exactly their application data, in order, up to what is still parked; the bytes the
    transport has taken are, up to what is pending or lost to a broken transport, records
    sealed at consecutive positions of our direction, whose application data is exactly the
    buffers of the [write_all] calls that succeeded, and a prefix of each one that failed;
    and none of the methods panics next. *)
Theorem stream_session `{Usize, HeaplessVec, HkdfSha256, SubtleCt, AeadBackend, KxBackend, MlKemSizes, MlDsaSizes, Transport}
    (ft : Features) (RECV SEND : Z) (S_ : Suite) (rts cts : bytes) (p q : nat * Z) (e0 e : TlsEngine) (t0 t : Tr) (rd : bytes) (ws : list (bytes * bool)) :
  TLS_HEADER <= RECV <= usize_max -> MIN_SEND_STANDARD <= SEND <= usize_max ->
  engine_wf ft RECV SEND e0 -> ph_ok (ph e0) -> live S_ rts cts p q e0 -> stream_run RECV SEND (e0, t0) rd ws (e, t) ->
  (exists input output ins outs p' q' rest lost wr,
    tr_input t = tr_input t0 ++ input /\ tr_output t = tr_output t0 ++ output /\
    sealed_run S_ rts p ins p' /\ buffered e0 ++ input = wire ins ++ rest /\ parked e0 ++ app_bytes ins = rd ++ parked e /\
    sealed_run S_ cts q outs q' /\ pending e0 ++ wire outs = output ++ pending e ++ lost /\ app_bytes outs = wr /\ written_by ws wr /\
    (closed e = false -> rest = buffered e /\ lost = [] /\ live S_ rts cts p' q' e)) /\
  (forall fuel out, (stream_read RECV fuel out (e, t)).2 <> Panic /\ (try_read RECV fuel out (e, t)).2 <> Panic) /\
  (forall buf, (stream_write_all RECV SEND buf (e, t)).2 <> Panic) /\ (stream_close RECV (e, t)).2 <> Panic.
Proof.
  intros HR HS Hwf Hph Hl Hrun. assert (ready ft RECV SEND S_ rts cts e0) as Hrd by (split; [done | by exists p, q]).
  destruct (stream_run_follows ft RECV SEND S_ rts cts HR HS (e0, t0) _ _ _ Hrd Hrun) as (wr & Hf & Hw).
  pose proof (ready_follows ft RECV SEND S_ rts cts HR _ _ (e0, t0) (e, t) Hrd Hf) as Hrd'. cbn [fst] in Hrd'. split.
  - destruct Hf as (tr & (Hr & Hi & Ho) & <- & <-). cbn [fst snd] in *.
    destruct (data_run_session ft RECV SEND S_ rts cts p q e0 tr e ltac:(lia) Hwf ltac:(done) Hr)
      as (ins & outs & p' & q' & rest & lost & [Hwf' Hop Hin Hou Hrc Hrdd Hac Hs Hrest _]).
    exists (received tr), (sent tr), ins, outs, p', q', rest, lost, (accepted tr). split_and!; try done.
    intros Hc. destruct (Hrest Hc) as [-> ->]. by destruct (Hop Hc).
  - split; [| split].
    + intros fuel out. split; [destruct (stream_read RECV fuel out (e, t)) eqn:Hc | destruct (try_read RECV fuel out (e, t)) eqn:Hc].
      * by eapply (read_follows ft RECV SEND S_ rts cts HR HS fuel out e t).
      * by eapply (try_read_follows ft RECV SEND S_ rts cts HR HS fuel out e t).
    + intros buf. destruct (stream_write_all RECV SEND buf (e, t)) eqn:Hc. by eapply (write_follows ft RECV SEND S_ rts cts HR HS buf e t).
    + destruct (stream_close RECV (e, t)) eqn:Hc. by eapply (close_follows ft RECV SEND S_ rts cts HR HS e t).
Qed.

(** C7. [read] returns when the peer sends finitely many bytes.  Over a transport that
    delivers at most [left t] more bytes (and then reports the end of the stream or an
    error), a read of a connected stream into a non-empty buffer comes back after at most
    [2 * left t + blen (buffered e) + 2] rounds: with data, with zero bytes because the
    engine is closed, or with an error of the transport, of the engine's [step], or
    [UnexpectedEof]; never with one of the stream's own internal errors. *)
Theorem stream_read_returns `{Usize, HeaplessVec, HkdfSha256, SubtleCt, AeadBackend, KxBackend, MlKemSizes, MlDsaSizes, Transport}
    (ft : Features) (RECV SEND : Z) (S_ : Suite) (rts cts : bytes) (p q : nat * Z) (e : TlsEngine) (t : Tr) (left : Tr -> Z) (out : bytes) (fuel : nat) :
  TLS_HEADER <= RECV <= usize_max -> MIN_SEND_STANDARD <= SEND <= usize_max ->
  engine_wf ft RECV SEND e -> ph_ok (ph e) -> live S_ rts cts p q e -> delivers_at_most left -> 0 <= left t -> 0 < blen out ->
  2 * left t + blen (buffered e) + 2 <= Z.of_nat fuel ->
  match stream_read RECV fuel out (e, t) with
  | (s', Ok (Some (out', n))) => blen out' = blen out /\ 0 <= n <= blen out /\ (n = 0 -> closed s'.1 = true)
  | (_, Ok None) => False
  | (_, Err err) => (exists x, err = CoIo x) \/ err = CoUnexpectedEof \/ (exists e1 he, (step RECV e1).2 = Err he /\ err = CoHandshake he)
  | (_, Panic) => False
  end.
Proof.
  intros HR HS Hwf Hph Hl Hleft Hl0 Hout Hfuel. assert (ready ft RECV SEND S_ rts cts e) as Hrd by (split; [done | by exists p, q]).
  assert (rank left (e, t) < Z.of_nat fuel) as Hrank.
  { pose proof (weight_bounds e). unfold rank, unsent. cbn [fst snd]. destruct (is_send_pending e); lia. }
  pose proof (read_total ft RECV SEND S_ rts cts HR HS left fuel out e t Hleft Hl0 Hrd Hout Hrank) as Hs. unfold wp in Hs.
  destruct (stream_read RECV fuel out (e, t)) as [s' [[[out' n] |] | err |]]; try done.
  - destruct Hs as (_ & ? & ? & ?). done.
  - destruct Hs as [_ [(s1 & he & _ & Hst & ->) | [He | He]]]; [right; right; by exists s1.1, he | by left | right; by left].
Qed.

(** ** A scripted transport *)

(** It delivers the chunks of a script and then the end of the stream, and takes everything. *)
Record Script := { sc_input : bytes; sc_todo : list bytes; sc_output : bytes }.

Definition script_left (t : Script) : Z := blen (concat (sc_todo t)).

Definition script_read (t : Script) (buf : bytes) : Script * bytes * outcome unit Z :=
  match sc_todo t with
  | [] => (t, buf, Ok 0)
  | chunk :: todo =>
      let n := Nat.min (length chunk) (length buf) in
      let data := (fun b => b mod U8) <$> take n chunk in
      ({| sc_input := sc_input t ++ data; sc_todo := match drop n chunk with [] => todo | rest => rest :: todo end; sc_output := sc_output t |},
       data ++ drop n buf, Ok (Z.of_nat n))
  end.
Definition script_read_nb (t : Script) (buf : bytes) : Script * bytes * outcome unit (option Z) :=
  match sc_todo t with
  | [] => (t, buf, Ok None)
  | _ => let '(t, buf, r) := script_read t buf in (t, buf, r ≫= fun n => Ok (Some n))
  end.
Definition script_write (t : Script) (data : bytes) : Script * outcome unit unit :=
  ({| sc_input := sc_input t; sc_todo := sc_todo t; sc_output := sc_output t ++ data |}, Ok tt).

Lemma script_read_spec t buf : let '(t', buf', r) := script_read t buf in
  blen buf' = blen buf /\ (bytes_ok buf -> bytes_ok buf') /\ sc_output t' = sc_output t /\
  exists n, r = Ok n /\ 0 <= n <= blen buf /\ sc_input t' = sc_input t ++ take (Z.to_nat n) buf' /\ script_left t' + n = script_left t.
Proof.
  unfold script_read, script_left. destruct (sc_todo t) as [| chunk todo] eqn:Ht.
  { split_and!; try done. exists 0. rewrite Ht, app_nil_r. split_and!; try done. apply blen_nonneg. }
  set (n := Nat.min _ _). cbn [sc_output sc_input sc_todo].
  assert (length ((fun b => b mod U8) <$> take n chunk) = n) as Hl by (rewrite length_fmap, length_take; lia).
  split_and!.
  - rewrite blen_app, blen_drop. unfold blen. lia.
  - intros Hb. apply Forall_app. split; [| by apply Forall_drop]. apply Forall_fmap, Forall_true. intros x. unfold compose, is_u8. apply Z.mod_pos_bound. done.
  - done.
  - exists (Z.of_nat n). split_and!; [done | lia | unfold blen; lia | |].
    + by rewrite Nat2Z.id, take_app_length'.
    + assert (concat (match drop n chunk with [] => todo | rest => rest :: todo end) = drop n chunk ++ concat todo) as ->.
      { destruct (drop n chunk); done. }
      cbn [concat]. rewrite !blen_app, blen_drop. unfold blen. lia.
Qed.

Program Definition script_transport : Transport := {|
  Tr := Script; TrError := unit; tr_read := script_read; tr_read_nb := script_read_nb; tr_write_all := script_write;
  tr_input := sc_input; tr_output := sc_output
|}.
Next Obligation.
  intros t buf. pose proof (script_read_spec t buf) as Hs. destruct (script_read t buf) as [[t' buf'] r].
  destruct Hs as (? & ? & ? & n & -> & ? & ? & _). done.
Qed.
Next Obligation.
  intros t buf. pose proof (script_read_spec t buf) as Hs. unfold script_read_nb. destruct (sc_todo t) eqn:Ht; [done |].
  destruct (script_read t buf) as [[t' buf'] r]. destruct Hs as (? & ? & ? & n & -> & ? & ? & _). done.
Qed.
Next Obligation. done. Qed.

Lemma script_delivers : @delivers_at_most script_transport script_left.
Proof.
  intros t t' Hts. split; [apply blen_nonneg |]. destruct Hts as [buf | buf | data]; cbn [tr_read tr_read_nb tr_write_all tr_input script_transport].
  - pose proof (script_read_spec t buf) as Hs. destruct (script_read t buf) as [[t' buf'] r]. destruct Hs as (Hl & _ & _ & n & -> & Hn & Hi & Hle).
    cbn [fst]. rewrite Hi, blen_app, blen_take. lia.
  - unfold script_read_nb. pose proof (script_read_spec t buf) as Hs. destruct (sc_todo t); [cbn [fst]; lia |].
    destruct (script_read t buf) as [[t' buf'] r]. destruct Hs as (Hl & _ & _ & n & -> & Hn & Hi & Hle).
    cbn [fst]. rewrite Hi, blen_app, blen_take. lia.
  - unfold script_write, script_left. cbn [fst sc_input sc_todo]. lia.
Qed.

Section stream_witness.
#[local] Existing Instances usize32 heapless_model hkdf_model subtle_model aead_backend_model rng_model kx_backend_model ml_kem_model ml_dsa_model script_transport.

(** The server of [demo_stream] sends data, asks for a key update and sends data again; the
    application reads twice, writes and closes. *)
Definition demo_transport : @Tr script_transport := {| sc_input := []; sc_todo := [take 30 demo_stream; drop 30 demo_stream]; sc_output := [] |}.

Notation demo_s1 := (stream_read 100 20 (zeros 8) (demo_engine, demo_transport)).
Notation demo_s2 := (stream_read 100 20 (zeros 8) demo_s1.1).
Notation demo_s3 := (stream_write_all 100 64 [111; 107] demo_s2.1).
Notation demo_s4 := (stream_close 100 demo_s3.1).

Lemma demo_stream_run : stream_run 100 64 (demo_engine, demo_transport) (([] ++ given demo_s1.2) ++ given demo_s2.2) ([] ++ [([111; 107], is_ok demo_s3.2)]) demo_s4.1.
Proof.
  refine (sr_close _ _ _ _ _ _ _ _ (sr_write _ _ _ _ _ _ _ _ _ (sr_read _ _ _ _ _ _ _ _ _ _ (sr_read _ _ _ _ _ _ _ _ _ _ (sr_nil _ _ _) _) _) _) _);
    apply surjective_pairing.
Qed.

Lemma stream_session_witness :
  tr_input demo_s4.1.2 = demo_stream /\
  exists ins outs p' q' (rest lost : bytes),
    sealed_run Aes128GcmSha256 [1; 2] (O, 0) ins p' /\ demo_stream = wire ins ++ rest /\ app_bytes ins = [104; 105; 111; 107] /\
    sealed_run Aes128GcmSha256 [3] (O, 0) outs q' /\ wire outs = tr_output demo_s4.1.2 ++ lost /\ written_by [([111; 107], true)] (app_bytes outs).
Proof.
  destruct demo_engine_ok as (Hwf & Hph & Hl).
  pose proof demo_stream_run as Hrun. rewrite (surjective_pairing demo_s4.1) in Hrun.
  destruct (stream_session demo_features 100 64 Aes128GcmSha256 [1; 2] [3] (O, 0) (O, 0) demo_engine demo_s4.1.1 demo_transport demo_s4.1.2 _ _
              ltac:(split; discriminate) ltac:(split; discriminate) Hwf Hph Hl Hrun)
    as ((input & output & ins & outs & p' & q' & rest & lost & wr & Hi & Ho & Hin & Hrc & Hrd & Hou & Hpe & <- & Hw & _) & _ & _ & _).
  assert (tr_input demo_s4.1.2 = demo_stream) as Hd by (vm_compute; reflexivity).
  assert (given demo_s1.2 = [104; 105] /\ given demo_s2.2 = [111; 107] /\ is_ok demo_s3.2 = true) as (E1 & E2 & E3) by (vm_compute; repeat split).
  assert (parked demo_s4.1.1 = [] /\ pending demo_s4.1.1 = []) as (E4 & E5) by (vm_compute; split; reflexivity).
  rewrite E1, E2, E4 in Hrd. rewrite E3 in Hw. rewrite E5 in Hpe. rewrite Hd in Hi.
  change (tr_output demo_transport) with (@nil Z) in Ho. change (tr_input demo_transport) with (@nil Z) in Hi. cbn [app] in Hi, Ho.
  split; [exact Hd |]. exists ins, outs, p', q', rest, lost. rewrite Ho, Hi. exact (conj Hin (conj Hrc (conj Hrd (conj Hou (conj Hpe Hw))))).
Defined.

Lemma stream_read_returns_witness :
  0 < blen (zeros 8) /\
  match stream_read 100 400 (zeros 8) (demo_engine, demo_transport) with
  | (_, Ok None) | (_, Panic) => False
  | _ => True
  end.
Proof.
  destruct demo_engine_ok as (Hwf & Hph & Hl). split; [reflexivity |].
  pose proof (stream_read_returns demo_features 100 64 Aes128GcmSha256 [1; 2] [3] (O, 0) (O, 0) demo_engine demo_transport script_left (zeros 8) 400
    ltac:(split; discriminate) ltac:(split; discriminate) Hwf Hph Hl script_delivers ltac:(vm_compute; discriminate) ltac:(reflexivity) ltac:(vm_compute; discriminate)) as Hr.
  destruct (stream_read 100 400 (zeros 8) (demo_engine, demo_transport)) as [s' [[[out' n] |] | err |]]; [exact I | exact Hr | exact I | exact Hr].
Defined.
End stream_witness.
