(* ===== verification/StreamConnect.v ===== *)
(** * [TlsStream::connect]: from the configuration to an authenticated connection *)
From stdpp Require Import strings.
From S2P Require Import Prelude Deps Bytecopy Consts Aead Hkdf Kx Cert Identity TlsHello ServerFlight Reassembler ClientFlight Connection.
From S2P Require Import Engine EngineData EngineHandshake Stream StreamSpec.

(** ** The ClientHello *)

Section hello.
Context `{Usize, HeaplessVec, HkdfSha256, KxBackend, MlKemSizes, SliceWrite} (ft : Features).

Lemma hello_transcript t random pub opts :
  blen (client_hello_wire ft random pub opts) <= 5 + 16384 ->
  exists t', update_record t (client_hello_wire ft random pub opts) = Ok t' /\
    hashed t' = hashed t ++ [HS_CLIENT_HELLO] ++ vec24 (ch_body ft random pub opts).
Proof.
  intros Hl. unfold client_hello_wire in *. set (msg := [HS_CLIENT_HELLO] ++ vec24 _) in *.
  rewrite !blen_app, blen_vec16, blen_be_bytes in Hl. change (blen [CT_HANDSHAKE]) with 1 in Hl. pose proof (blen_nonneg msg).
  assert (exists l0 l1, be_bytes 2 (blen msg) = [l0; l1]) as (l0 & l1 & Hbe) by (by eexists _, _).
  assert (be16 l0 l1 = blen msg) as Hb by (eapply be16_be_bytes; [unfold is_u16, U16; lia | done]).
  destruct (update_record_ok t ([CT_HANDSHAKE] ++ be_bytes 2 LEGACY_VERSION) l0 l1 msg [] ltac:(done) Hb ltac:(unfold is_u16, U16; lia)) as (t' & Ht & Hh).
  exists t'. split; [| done]. rewrite <- Ht. f_equal. unfold vec16. by rewrite Hbe, app_nil_r, <- !app_assoc.
Qed.

(** The hello is written whole, and is what the transcript starts with. *)
Lemma write_hello_spec c pub opts :
  opts_ok ft (in_client_random c) pub opts ->
  match write_client_hello_to_slice_with ft c (CH_SCRATCH ft) pub opts with
  | Ok (ch, n, next) => let hello := client_hello_wire ft (in_client_random c) pub opts in
      ch = hello /\ n = blen hello /\
      hashed (wsh_transcript next) = hashed (in_transcript c) ++ [HS_CLIENT_HELLO] ++ vec24 (ch_body ft (in_client_random c) pub opts) /\
      wsh_session_id next = co_session_id opts /\ wsh_secrets next = in_secrets c /\ wsh_advertised next = co_suites opts
  | Err _ => True
  | Panic => False
  end.
Proof.
  intros Hok. assert (0 <= CH_SCRATCH ft) as Hcap by (unfold CH_SCRATCH; destruct (f_mlkem ft); lia).
  destruct (slice_cursor_spec (CH_SCRATCH ft) Hcap) as [Hw0 Hl0]. set (cur := slice_cursor (CH_SCRATCH ft)) in *.
  unfold write_client_hello_to_slice_with, conn_write_client_hello_with. fold cur.
  pose proof (@write_client_hello_spec _ slice_write ft (in_client_random c) pub opts cur Hok) as Hs.
  destruct (write_client_hello_with ft (in_client_random c) pub opts cur) as [w' [n | e |]]; [| done | done].
  destruct Hs as (Hv & -> & Hle & Hw). rewrite Hw0 in Hw. cbn [app] in Hw. run. set (hello := client_hello_wire _ _ _ _) in *.
  rewrite Hw, (slice_all hello) by done. run. pose proof (write_all_total cur hello) as Hnp.
  destruct (Z.le_gt_cases (blen hello) (slice_left cur)) as [Hfit | Hbig].
  2: { destruct (slice_write_full cur hello Hbig) as [e He]. destruct (write_all cur hello) as [w2 r]. cbn [snd] in He. subst r. done. }
  destruct (slice_write_fits cur hello Hfit) as [Hwok Hleft]. destruct (write_all cur hello) as [w2 r] eqn:Hwr. cbn [fst snd] in *. subst r.
  apply write_all_spec in Hwr. rewrite Hw0 in Hwr. cbn [app] in Hwr. run.
  destruct (hello_transcript (in_transcript c) (in_client_random c) pub opts Hle) as (t' & Ht & Hh). fold hello in Ht. rewrite Ht. run.
  split_and!; try done. rewrite Hleft, Hl0. lia.
Qed.
End hello.

(** ** The offer *)

Section offer_specs.
Context `{Usize, HeaplessVec, HkdfSha256, KxBackend, MlKemSizes} (ft : Features) (RECV : Z) (SUITES : ConfigSuitePolicy).

(** The shares of the groups have the lengths of their wire forms. *)
Definition share_len (G : KxGroup) (n : Z) : Prop := forall r s c, (@kx_generate _ G r).2 = Ok (s, c) -> cs_len c = n.
Record shares_fit : Prop := {
  sf_x25519 : share_len kx_x25519 32;
  sf_hybrid : share_len kx_hybrid (MLKEM768_EK_BYTES + 32);
  sf_p256 : share_len kx_p256 P256_SHARE_BYTES
}.

(** A build has a group, the X25519 half of the hybrid one, and the suites of its profile. *)
Record build_ok : Prop := {
  bo_group : f_x25519_kx ft || f_p256_kx ft = true;
  bo_hybrid : f_mlkem ft = true -> f_x25519_kx ft = true;
  bo_suites : match SUITES with CspAesOnly => f_cipher_aes ft = true | CspChaChaOnly => f_chacha20 ft = true
              | CspAesAndChaCha => f_cipher_aes ft = true /\ f_chacha20 ft = true end
}.

(** Bytes drawn from the random source, and a key pair that a group generated with it. *)
Definition drawn (n : Z) (bs : bytes) : Prop := exists r, (fill_bytes r n).2 = Ok bs.
Definition generated (G : KxGroup) (p : @KxSecret _ G * bytes) : Prop :=
  exists r c, (@kx_generate _ G r).2 = Ok (p.1, c) /\ share_bytes c = p.2.

Lemma draw_spec n rng : wp (draw n) (fun bs _ => blen bs = n /\ drawn n bs) (fun _ _ => True) rng.
Proof.
  unfold wp, draw, drawn. pose proof (fill_bytes_total rng n). pose proof (fill_bytes_ok rng n) as Hb. destruct (fill_bytes rng n) as [rng' [bs | [] |]] eqn:Hf; [| done | done].
  cbn [map_err]. split; [by apply (Hb bs) | by exists rng; rewrite Hf].
Qed.

Lemma generate_spec G n rng : share_len G n -> wp (generate G) (fun p _ => blen p.2 = n /\ generated G p) (fun _ _ => True) rng.
Proof.
  intros Hlen. unfold wp, generate. pose proof (kx_generate_total rng) as Hnp. pose proof (kx_generate_ok rng) as Hok. specialize (Hlen rng).
  destruct (@kx_generate _ G rng) as [rng' [[s c] | e |]] eqn:Hg; [| done | done]. cbn [snd] in *. specialize (Hok s c eq_refl). specialize (Hlen s c eq_refl).
  run. rewrite (share_slice_eq (E := HandshakeError) c Hok). run. destruct Hok as [Hl _]. cbn [snd].
  split; [| exists rng, c; by rewrite Hg]. unfold share_bytes. rewrite blen_take. lia.
Qed.

Lemma array_of_ok n s : blen s = n -> array_of n (Some s) = Ok s.
Proof. intros Hl. unfold array_of. by rewrite (proj2 (Z.eqb_eq _ _) Hl). Qed.

(** An optional step of the offer. *)
Lemma wp_when {A} (b : bool) (m : RM A) (P : A -> Prop) (Q : option A -> Rng -> Prop) R rng :
  wp m (fun a _ => P a) (fun _ _ => True) rng -> (forall e rng', R e rng') ->
  (forall o rng', (if b then exists a, o = Some a /\ P a else o = None) -> Q o rng') ->
  wp (if b then p ← m; mret (Some p) else mret None) Q R rng.
Proof.
  intros Hm HR HQ. destruct b; [| by apply wp_ret, HQ]. apply wp_bind. eapply wp_weaken; [exact Hm | | done].
  intros a rng' Ha. apply wp_ret, HQ. by exists a.
Qed.

(** The shares of the hello are the public values of generated key pairs, and the secrets
    kept are theirs; the hybrid share is split into its ML-KEM and its X25519 part. *)
Record keys_offered (ks : KxSecrets) (pub : bytes) (opts : ClientHelloOptions) : Prop := {
  ko_hybrid : f_mlkem ft = true ->
    exists s ek, ks_mlkem ks = Some s /\ co_mlkem_ek opts = Some ek /\ generated kx_hybrid (s, ek ++ pub);
  ko_x25519 : f_x25519_kx ft = true -> f_mlkem ft = false -> exists s, ks_x25519 ks = Some s /\ generated kx_x25519 (s, pub);
  ko_p256 : f_p256_kx ft = true -> exists s p, ks_ecdhe ks = Some s /\ generated kx_p256 (s, p) /\
    (if f_x25519_kx ft then co_p256_pub opts = Some p else pub = p)
}.

(** What [connect] offers. *)
Record offered {w} (params : ClientParams w) (init : Init) (pub : bytes) (opts : ClientHelloOptions) : Prop := {
  of_opts : opts_ok ft (in_client_random init) pub opts;
  of_random : drawn 32 (in_client_random init);
  of_shares : keys_offered (in_secrets init) pub opts;
  of_secrets : secrets_ok ft (in_secrets init);
  of_transcript : in_transcript init = TranscriptHash_new;
  of_hostname : co_hostname opts = Some (cp_hostname params);
  of_limit : co_record_size_limit opts = Some (default_our_recv_limit RECV);
  of_session : is_some (co_session_id opts) = cp_middlebox_compat params;
  of_session_id : forall id, co_session_id opts = Some id -> drawn 32 id;
  of_alpn : co_alpn opts = cp_alpn params;
  of_suites : co_suites opts = effective_suite_list SUITES (cp_suite_policy params)
}.

Lemma suites_built policy :
  build_ok -> match effective_suite_list SUITES policy with SlDefault => True | SlAesOnly => f_cipher_aes ft = true | SlChaChaOnly => f_chacha20 ft = true end.
Proof. intros [_ _ Hs]. unfold effective_suite_list. destruct SUITES, policy; try done; apply Hs. Qed.

Lemma slice_split (l a b : bytes) n : slice l 0 n = Some a -> slice_from l n = Some b -> l = a ++ b.
Proof.
  intros (_ & _ & _ & _ & ->)%slice_Some_inv Hb. apply slice_Some_inv in Hb as (_ & _ & _ & _ & ->).
  rewrite Z.sub_0_r, drop_0, (firstn_all2 (drop _ _)); [by rewrite take_drop |]. rewrite length_drop. unfold blen. lia.
Qed.

(** The pieces of the shares that the hello carries. *)
Lemma split_hybrid (m : option (@KxSecret _ kx_hybrid * bytes)) (x : option (@KxSecret _ kx_x25519 * bytes)) :
  build_ok ->
  (if f_x25519_kx ft && negb (f_mlkem ft) then exists a, x = Some a /\ blen a.2 = 32 /\ generated kx_x25519 a else x = None) ->
  (if f_mlkem ft then exists a, m = Some a /\ blen a.2 = MLKEM768_EK_BYTES + 32 /\ generated kx_hybrid a else m = None) ->
  exists ek xpub,
    match m with
    | Some (_, s) => ek ← array_of MLKEM768_EK_BYTES (slice s 0 MLKEM768_EK_BYTES); Ok (Some ek)
    | None => Ok None end = Ok ek /\
    match m with
    | Some (_, s) => p ← array_of 32 (slice_from s MLKEM768_EK_BYTES); Ok (Some p)
    | None => Ok (snd <$> x) end = Ok xpub /\
    (f_mlkem ft = true -> exists k, ek = Some k /\ blen k = MLKEM768_EK_BYTES) /\ (f_x25519_kx ft = true -> exists p, xpub = Some p /\ blen p = 32) /\
    (forall p, xpub = Some p ->
       (f_mlkem ft = true -> exists s k, fst <$> m = Some s /\ ek = Some k /\ generated kx_hybrid (s, k ++ p)) /\
       (f_x25519_kx ft = true -> f_mlkem ft = false -> exists s, fst <$> x = Some s /\ generated kx_x25519 (s, p))).
Proof.
  intros [_ Hh _] Hx Hm. pose proof mlkem_ek_bound. destruct (f_mlkem ft).
  - destruct Hm as ([ms sh] & -> & Hl & Hg). cbn [snd] in Hl. rewrite (Hh eq_refl) in *.
    destruct (slice_in_range sh 0 MLKEM768_EK_BYTES) as [ek Hek']; [lia.. |]. pose proof Hek' as (_ & _ & _ & Hekl & _)%slice_Some_inv.
    destruct (slice_in_range sh MLKEM768_EK_BYTES (blen sh)) as [xp Hxp]; [lia.. |]. pose proof Hxp as (_ & _ & _ & Hxpl & _)%slice_Some_inv.
    exists (Some ek), (Some xp). unfold slice_from. rewrite Hek', Hxp, !array_of_ok by lia. split_and!; try done; [intros _; eexists; (split; [done | lia]).. |].
    intros p [= <-]. split; [intros _ | done]. exists ms, ek. by rewrite (slice_split sh ek xp _ Hek' Hxp) in Hg.
  - subst m. rewrite andb_true_r in Hx. exists None, (snd <$> x). split_and!; try done.
    + intros Fx. rewrite Fx in Hx. destruct Hx as ([s p] & -> & ? & _). by exists p.
    + intros p Hp. split; [done |]. intros Fx _. rewrite Fx in Hx. destruct Hx as ([s q] & -> & _ & Hg). injection Hp as ->. by exists s.
Qed.

Lemma split_p256 (q : option (@KxSecret _ kx_p256 * bytes)) :
  (if f_p256_kx ft then exists a, q = Some a /\ blen a.2 = P256_SHARE_BYTES /\ generated kx_p256 a else q = None) ->
  exists qpub,
    match q with
    | Some (_, s) => if f_x25519_kx ft then p ← array_of P256_SHARE_BYTES (Some s); Ok (Some p) else Ok None
    | None => Ok None end = Ok qpub /\
    (second_group ft = true -> exists p, qpub = Some p /\ blen p = P256_SHARE_BYTES) /\
    (f_x25519_kx ft = true -> qpub = snd <$> q).
Proof.
  intros Hq. unfold second_group. destruct (f_p256_kx ft); [| subst q; exists None; by split_and!].
  destruct Hq as ([s p] & -> & Hl & _). cbn [snd] in Hl. destruct (f_x25519_kx ft); [| exists None; by split_and!].
  exists (Some p). rewrite array_of_ok by done. split_and!; try done. intros _. by exists p.
Qed.

Lemma offer_spec {w} (params : ClientParams w) rng :
  shares_fit -> build_ok -> wp (offer ft RECV SUITES params) (fun '(init, pub, opts) _ => offered params init pub opts) (fun _ _ => True) rng.
Proof.
  intros [Hx Hm Hp] Hb. pose proof Hb as [Hg Hh _]. pose proof mlkem_ek_bound as Hek. unfold offer.
  apply wp_bind. eapply wp_weaken; [apply (draw_spec 32) | | done]. intros random rng1 [Hr Hrd].
  apply wp_bind. eapply (wp_when _ (generate kx_x25519)); [apply (generate_spec _ 32 _ Hx) | done |]. intros x rng2 Hxo.
  apply wp_bind. eapply (wp_when _ (generate kx_hybrid)); [apply (generate_spec _ _ _ Hm) | done |]. intros m rng3 Hmo.
  apply wp_bind. eapply (wp_when _ (draw 32)); [apply (draw_spec 32) | done |]. intros sid rng4 Hso.
  apply wp_bind. eapply (wp_when _ (generate kx_p256)); [apply (generate_spec _ _ _ Hp) | done |]. intros q rng5 Hqo.
  destruct (split_hybrid m x Hb Hxo Hmo) as (ek & xpub & -> & -> & Hekk & Hxp & Hxk). destruct (split_p256 q Hqo) as (qpub & -> & Hqp & Hqk).
  apply wp_bind_ok, wp_bind_ok, wp_bind_ok.
  assert (exists pub, (if f_x25519_kx ft then xpub else snd <$> q) = Some pub /\ blen pub = PRIMARY_PUB_LEN ft) as (pub & Hpub & Hpl).
  { unfold PRIMARY_PUB_LEN, KEY_SHARE_KEY_LEN. destruct (f_x25519_kx ft); [destruct (Hxp eq_refl) as (p & -> & ?); exists p; by destruct (f_mlkem ft) |].
    destruct (f_mlkem ft); [by specialize (Hh eq_refl) |]. cbn [orb] in Hg. rewrite Hg in Hqo. destruct Hqo as ([s p] & -> & ? & _). by exists p. }
  apply wp_bind. eapply wp_or_panic; [exact Hpub |]. apply wp_ret. constructor; cbn [Init_new in_client_random in_secrets in_transcript co_hostname co_record_size_limit co_session_id co_alpn co_suites]; try done.
  - split_and!; cbn [co_session_id co_suites co_mlkem_ek co_p256_pub]; try done; [| by apply suites_built | by auto].
    intros id ->. destruct (cp_middlebox_compat params); [destruct Hso as (a & [= <-] & -> & _); done | done].
  - constructor; cbn [ks_mlkem ks_x25519 ks_ecdhe co_mlkem_ek co_p256_pub].
    + intros F. rewrite (Hh F) in Hpub. by apply (Hxk pub Hpub).
    + intros F. rewrite F in Hpub. by apply (Hxk pub Hpub).
    + intros F. rewrite F in Hqo. destruct Hqo as ([s p] & -> & _ & Hgen). exists s, p. split_and!; try done.
      destruct (f_x25519_kx ft); [by rewrite Hqk | by injection Hpub].
  - split; intros F.
    + rewrite F in Hqo. destruct Hqo as (a & -> & _). by eexists.
    + rewrite F in Hxo. destruct (f_mlkem ft); [destruct Hmo as (a & -> & _); by eexists | destruct Hxo as (a & -> & _); by eexists].
  - destruct (cp_middlebox_compat params); [destruct Hso as (a & -> & _); done | by rewrite Hso].
  - intros id ->. destruct (cp_middlebox_compat params); [by destruct Hso as (a & [= <-] & _ & ?) | done].
Qed.
End offer_specs.

(** ** The handshake loop *)

Section drive_specs.
Context `{Usize, HeaplessVec, HkdfSha256, SubtleCt, AeadBackend, KxBackend, MlKemSizes, VerifierBackend, MlDsaSizes, !VerifyStrategy, CertParser, Transport}.
Context (ft : Features) (FLIGHT RECV SEND : Z) (ip_host : bool) (MAX_CHAIN : Z) {w : RsaWidth} (params : ClientParams w).
Context (Hfeat : f_mlkem ft = true -> f_x25519_kx ft = true) (HM : 0 <= MAX_CHAIN).
Context (Hrecv : TLS_HEADER <= RECV <= usize_max) (Hsend : MIN_SEND_STANDARD <= SEND <= usize_max).

(** The handshake of [c] is under way, over a transport that had delivered [i0] and taken
    [o0] when it began. *)
Definition driven (c : WaitServerHello) (i0 o0 : bytes) (s : TlsStream * Rng) : Prop :=
  exists tr, hs_inv ft RECV SEND ip_host MAX_CHAIN params c tr s.1.1 /\ tr_input s.1.2 = i0 ++ received tr /\ tr_output s.1.2 = o0 ++ sent tr.

(** The handshake of [c] is over. *)
Definition connected (c : WaitServerHello) (i0 o0 : bytes) (s : TlsStream) : Prop :=
  exists input output, tr_input s.2 = i0 ++ input /\ tr_output s.2 = o0 ++ output /\
    established ft RECV SEND ip_host MAX_CHAIN params c input output s.1.

(** An error of the handshake loop: the transport's, or the engine's. *)
Definition drive_error (err : ConnectError TrError) : Prop :=
  io_error err \/ err = CoUnexpectedEof \/
  exists s he, (step_handshake ft FLIGHT RECV ip_host MAX_CHAIN params s).2 = Err he /\ err = CoHandshake he.

Definition hs_progress (s s' : TlsStream) : Prop :=
  tr_step s.2 s'.2 /\ blen (buffered s'.1) + unsent s'.1 < blen (buffered s.1) + unsent s.1 + 2 * (blen (tr_input s'.2) - blen (tr_input s.2)).

Lemma wp_on_stream {A} (m : SS A) (Q : A -> TlsStream * Rng -> Prop) R s rng :
  wp m (fun a s' => Q a (s', rng)) (fun err s' => R err (s', rng)) s -> wp (on_stream m) Q R (s, rng).
Proof. unfold wp, on_stream. destruct (m s) as [s' [a | err |]]; done. Qed.

(** One call of the engine joins the run. *)
Lemma driven_call c i0 o0 e t rng x e' t' rng' :
  driven c i0 o0 ((e, t), rng) -> hs_call ft FLIGHT RECV ip_host MAX_CHAIN params (e, rng) x (e', rng') ->
  tr_input t' = tr_input t ++ received [x] -> tr_output t' = tr_output t ++ sent [x] -> driven c i0 o0 ((e', t'), rng').
Proof.
  intros (tr & Hi & Hin & Hout) Hc Hin' Hout'. cbn [fst snd] in *. exists (tr ++ [x]). destruct (io_app tr [x]) as (E1 & E2 & _ & _). cbn [fst snd].
  split_and!; [apply (hs_call_inv ft FLIGHT RECV SEND ip_host MAX_CHAIN params c tr e rng x e' rng' Hfeat HM ltac:(lia) Hi Hc) | by rewrite E1, Hin', Hin, app_assoc | by rewrite E2, Hout', Hout, app_assoc].
Qed.

Lemma driven_sent c i0 o0 e t rng s' :
  driven c i0 o0 ((e, t), rng) -> sent_by e t s' -> driven c i0 o0 (s', rng).
Proof.
  intros Hd (Hms & Hout & Hin & _). pose proof Hd as (tr & Hi & _). pose proof (hi_wf _ _ _ _ _ _ _ _ _ Hi) as Hwf. cbn [fst] in Hwf. destruct s' as [e' t'].
  cbn [fst snd] in *. destruct (io_one (pending e)) as (_ & E2 & _ & _).
  pose proof (hc_sent ft FLIGHT RECV ip_host MAX_CHAIN params e _ _ _ rng (send_bytes_spec ft RECV SEND e Hwf) (blen_nonneg _) Hms) as Hc.
  rewrite to_nat_blen, firstn_all in Hc. eapply (driven_call _ _ _ _ _ _ _ _ _ _ Hd Hc); [cbn; by rewrite app_nil_r | by rewrite E2].
Qed.

Lemma driven_received c i0 o0 e t rng n s' :
  driven c i0 o0 ((e, t), rng) -> received_by e t n s' -> driven c i0 o0 (s', rng).
Proof.
  intros Hd (free & buf & Hf & Hbl & Hok & Hn & Hr & Hout & Hin & _). destruct s' as [e' t']. cbn [fst snd] in *.
  destruct (io_one (take (Z.to_nat n) buf)) as (E1 & _ & _ & _).
  pose proof (hc_receive ft FLIGHT RECV ip_host MAX_CHAIN params e free buf n e' rng Hf Hbl Hok Hn Hr) as Hc.
  eapply (driven_call _ _ _ _ _ _ _ _ _ _ Hd Hc); [by rewrite E1 | cbn; by rewrite app_nil_r].
Qed.

Lemma drive_round_spec c i0 o0 e t rng :
  driven c i0 o0 ((e, t), rng) ->
  wp (drive_round ft FLIGHT RECV ip_host MAX_CHAIN params)
    (fun o s' => match o with Some _ => connected c i0 o0 s'.1 | None => driven c i0 o0 s' /\ hs_progress (e, t) s'.1 end)
    (fun err _ => drive_error err) ((e, t), rng).
Proof.
  intros (tr & Hi & Hin & Hout). cbn [fst snd] in *. unfold drive_round. apply wp_bind. unfold wp at 1, hs_event.
  pose proof (step_handshake_hs ft FLIGHT RECV SEND ip_host MAX_CHAIN params c tr e rng Hfeat HM ltac:(lia) Hi) as Hs. unfold wp in Hs.
  destruct (step_handshake ft FLIGHT RECV ip_host MAX_CHAIN params (e, rng)) as [[e1 rng1] [ev | err |]] eqn:Hstep; [| | done].
  2: { right. right. exists (e, rng), err. by rewrite Hstep. }
  destruct Hs as [Hi1 Hev]. assert (driven c i0 o0 ((e1, t), rng1)) as Hd1 by (by exists tr).
  pose proof (hi_wf _ _ _ _ _ _ _ _ _ Hi) as Hwf. pose proof (hi_wf _ _ _ _ _ _ _ _ _ Hi1) as Hwf1. cbn [map_err].
  destruct ev as [n | | | |]; cbn [hs_event_ok] in Hev; [| | done | | done].
  - destruct Hev as (Hn & Hpos & Hless). assert (pending e1 <> []) as Hp1 by (intros Hx; rewrite Hx, blen_nil in Hn; lia).
    apply wp_bind, wp_on_stream. eapply wp_weaken; [apply (send_step_core ft RECV SEND Hsend e1 t Hwf1 Hp1) | |].
    2: { intros err s' [_ He]. by left. }
    intros ? [e' t'] Hs'. cbv beta in Hs'. apply wp_ret. split; [by eapply driven_sent |].
    destruct (sent_follows ft RECV SEND e1 t _ Hwf1 Hs') as (_ & Hpn & _ & _ & Hb). pose proof Hs' as (Hms & _ & Hin' & Hts). cbn [fst snd] in *.
    split; [done |]. cbn [fst snd]. rewrite Hb, Hin'.
    pose proof (mark_sent_spec ft RECV SEND e1 (blen (pending e1)) Hwf1 (blen_nonneg _)) as Hm. unfold wp in Hm. rewrite Hms in Hm.
    unfold unsent. rewrite (pending_false ft RECV SEND e' (proj1 Hm) Hpn). destruct Hless as [-> | Hless]; [| destruct (is_send_pending e); lia].
    rewrite (pending_true ft RECV SEND e Hwf Hp1). lia.
  - destruct Hev as (Hfi & Hpn & Hle). pose proof (hi_parked _ _ _ _ _ _ _ _ _ Hi1) as Hpk.
    apply wp_bind, wp_on_stream. eapply wp_weaken; [apply (recv_step_core ft RECV SEND Hrecv e1 t Hwf1 (conj Hpk Hfi)) | |].
    2: { intros err s' [_ [He | He]]; [by left | right; by left]. }
    intros _ [e' t'] [[n Hby] (Hts & _ & Hpe & k & Hk & Hin' & Hb)]. apply wp_ret. assert (driven c i0 o0 (e', t', rng1)) as Hd' by (by eapply driven_received).
    split; [done |]. cbn [fst snd] in *. split; [done |]. cbn [fst snd]. rewrite Hpn in Hpe. destruct Hd' as (tr' & Hi' & _).
    unfold unsent at 1. rewrite (pending_false ft RECV SEND e' (hi_wf _ _ _ _ _ _ _ _ _ Hi') Hpe), Hb, Hin'. unfold unsent. destruct (is_send_pending e); lia.
  - apply wp_ret. exists (received tr), (sent tr). split_and!; [done | done |]. destruct Hev; by apply hs_inv_established.
Qed.

Lemma drive_spec fuel c i0 o0 (s : TlsStream) rng :
  driven c i0 o0 (s, rng) ->
  wp (drive_handshake ft FLIGHT RECV ip_host MAX_CHAIN fuel params)
    (fun o s' => match o with Some _ => connected c i0 o0 s'.1 | None => True end) (fun err _ => drive_error err) (s, rng).
Proof.
  intros Hd. eapply wp_weaken; [apply (wp_rounds _ (driven c i0 o0) (fun _ s' => connected c i0 o0 s'.1) (fun err _ => drive_error err)); [| exact Hd] | | done].
  - intros [[e t] rng1] Hd1. eapply wp_weaken; [apply (drive_round_spec c i0 o0 e t rng1 Hd1) | | done]. intros [[] |] s' Hs'; [done | apply Hs'].
  - by intros [[] |] s'.
Qed.

Definition hs_rank (left : Tr -> Z) (s : TlsStream) : Z := 2 * left s.2 + blen (buffered s.1) + unsent s.1.

Lemma drive_total left fuel c i0 o0 (s : TlsStream) rng :
  delivers_at_most left -> 0 <= left s.2 -> driven c i0 o0 (s, rng) -> hs_rank left s < Z.of_nat fuel ->
  wp (drive_handshake ft FLIGHT RECV ip_host MAX_CHAIN fuel params)
    (fun o s' => match o with Some _ => connected c i0 o0 s'.1 | None => False end) (fun err _ => drive_error err) (s, rng).
Proof.
  intros Hl Hl0 Hd Hf.
  eapply (wp_rounds_total _ (fun s => driven c i0 o0 s /\ 0 <= left s.1.2) (fun s => hs_rank left s.1)); [| | done | done].
  - intros [[e t] rng1] [_ Hx]. cbn [fst snd] in Hx |- *. unfold hs_rank, unsent. cbn [fst snd]. pose proof (blen_nonneg (buffered e)). destruct (is_send_pending e); lia.
  - intros [[e t] rng1] [Hd1 Hx]. cbn [fst snd] in Hx. eapply wp_weaken; [apply (drive_round_spec c i0 o0 e t rng1 Hd1) | | done].
    intros [[] |] s' Hs'; [done |]. destruct Hs' as [Hd' [Hts Hp]]. cbn [fst snd] in Hts. destruct (Hl _ _ Hts). split_and!; [done | done |].
    unfold hs_rank. cbn [fst snd] in *. lia.
Qed.
End drive_specs.

(** ** [connect] *)

Section connect_specs.
Context `{Usize, HeaplessVec, HkdfSha256, SubtleCt, AeadBackend, KxBackend, MlKemSizes, VerifierBackend, MlDsaSizes, !VerifyStrategy, CertParser, Transport, SliceWrite}.
Context (ft : Features) (FLIGHT RECV SEND : Z) (ip_host : bool) (MAX_CHAIN : Z) (SUITES : ConfigSuitePolicy) {w : RsaWidth} (params : ClientParams w).

(** What the buffers of an accepted configuration hold. *)
Lemma validate_ok :
  no_panic (validate_construction ft RECV SEND params) /\
  (validate_construction ft RECV SEND params = Ok tt -> blen (cp_hostname params) <= FACADE_HOSTNAME_MAX /\ MIN_RECV ft <= RECV /\ MIN_SEND_STANDARD <= SEND).
Proof.
  unfold validate_construction, no_panic. destruct (Z.ltb_spec FACADE_HOSTNAME_MAX (blen (cp_hostname params))); [by split |].
  destruct (Z.ltb_spec RECV (MIN_RECV ft)); [by split |]. destruct (Z.ltb_spec SEND MIN_SEND_STANDARD); [by split |].
  destruct (0 <? _); [| done]. destruct (SEND <? _); [by split |]. destruct (RECV <? _); by split.
Qed.

Lemma min_recv_header : TLS_HEADER <= MIN_RECV ft.
Proof.
  unfold MIN_RECV. change (MIN_RECORD_SIZE_LIMIT + RECORD_OVERHEAD) with 85. change TLS_HEADER with 5. destruct (Z.ltb_spec 85 (SERVER_HELLO_RECORD_LEN ft)); lia.
Qed.

Lemma recv_limit_bounds : MIN_RECORD_SIZE_LIMIT <= default_our_recv_limit RECV <= PROTO_MAX_INNER_PLAINTEXT.
Proof.
  unfold default_our_recv_limit, as_u16, U16. change MIN_RECORD_SIZE_LIMIT with 64. change PROTO_MAX_INNER_PLAINTEXT with 16385.
  destruct (Z.ltb_spec 16385 (saturating_sub RECV RECORD_OVERHEAD)); [lia |].
  destruct (Z.ltb_spec (saturating_sub RECV RECORD_OVERHEAD) 64); [lia |]. rewrite Z.mod_small by lia. lia.
Qed.

Lemma map_hello_error_total {E A} (e : ConnectionError E) : exists err, map_client_hello_error (A := A) e = Err err.
Proof. destruct e as [[] | | | | | | | | | | | | | | |]; by eexists. Qed.

(** The connection [c] that follows the hello of [params]. *)
Definition hello_sent (init : Init) (pub : bytes) (opts : ClientHelloOptions) (c : WaitServerHello) : Prop :=
  hashed (wsh_transcript c) = [HS_CLIENT_HELLO] ++ vec24 (ch_body ft (in_client_random init) pub opts) /\
  wsh_session_id c = co_session_id opts /\ wsh_secrets c = in_secrets init /\ wsh_advertised c = co_suites opts.

(** [connect] up to the loop: it fails with the transport untouched, or while sending the
    hello, or it drives a fresh engine that waits for the answer. *)
Lemma connect_cases fuel reassembler scratch_recv scratch_send t rng :
  RECV <= usize_max -> SEND <= usize_max -> shares_fit -> build_ok ft SUITES ->
  blen scratch_recv = RECV -> blen scratch_send = SEND -> bytes_ok scratch_recv ->
  (exists err rng', stream_connect ft FLIGHT RECV SEND ip_host MAX_CHAIN SUITES fuel params reassembler scratch_recv scratch_send t rng = ((t, rng'), Err err)) \/
  (exists t' rng' x, stream_connect ft FLIGHT RECV SEND ip_host MAX_CHAIN SUITES fuel params reassembler scratch_recv scratch_send t rng = ((t', rng'), Err (CoIo x))) \/
  TLS_HEADER <= RECV /\ MIN_SEND_STANDARD <= SEND /\
  exists init pub opts c (s1 : TlsStream) rng1, offered ft RECV SUITES params init pub opts /\ hello_sent init pub opts c /\
    buffered s1.1 = [] /\ pending s1.1 = [] /\ tr_step t s1.2 /\ tr_input s1.2 = tr_input t /\
    driven ft RECV SEND ip_host MAX_CHAIN params c (tr_input t) (tr_output t ++ client_hello_wire ft (in_client_random init) pub opts) (s1, rng1) /\
    stream_connect ft FLIGHT RECV SEND ip_host MAX_CHAIN SUITES fuel params reassembler scratch_recv scratch_send t rng =
      let '((s, rng2), r) := drive_handshake ft FLIGHT RECV ip_host MAX_CHAIN fuel params (s1, rng1) in
      ((s.2, rng2), match r with Ok (Some _) => Ok (Some s) | Ok None => Ok None | Err err => Err err | Panic => Panic end).
Proof.
  intros HR HS Hsf Hbo Hlr Hls Hbr. unfold stream_connect. destruct validate_ok as [Hnp Hv].
  destruct (validate_construction ft RECV SEND params) as [[] | e |]; [| left; by eexists _, _ | done].
  destruct (Hv eq_refl) as (_ & Hmr & Hms). pose proof min_recv_header.
  pose proof (offer_spec ft RECV SUITES params rng Hsf Hbo) as Ho. unfold wp in Ho.
  destruct (offer ft RECV SUITES params rng) as [rng1 [[[init pub] opts] | e |]]; [| left; by eexists _, _ | done].
  change (CH_LEN ft) with (CH_SCRATCH ft). pose proof (write_hello_spec ft init pub opts (of_opts _ _ _ _ _ _ _ Ho)) as Hw.
  destruct (write_client_hello_to_slice_with ft init (CH_SCRATCH ft) pub opts) as [[[ch n] c] | e |]; [| | done].
  2: { left. destruct (map_hello_error_total (A := option TlsStream) e) as [err ->]. by eexists _, _. }
  destruct Hw as (-> & -> & Hh & Hsid & Hsec & Hadv). rewrite (slice_all _ 0) by done.
  set (hello := client_hello_wire _ _ _ _). pose proof (tr_write_spec t hello) as Hwr. pose proof (ts_write t hello) as Hts.
  destruct (tr_write_all t hello) as [t1 [[] | e |]]; [| right; left; by eexists _, _, _ | by destruct Hwr].
  destruct Hwr as [Hin Hout]. right. right. split; [lia |]. split; [done |].
  set (e0 := TlsEngine_new _ _ _ _ _ _). exists init, pub, opts, c, (e0, t1), rng1. split_and!; try done.
  - unfold hello_sent. split_and!; [| done..]. rewrite Hh, (of_transcript _ _ _ _ _ _ _ Ho). change (hashed TranscriptHash_new) with (hashed hasher). by rewrite hasher_spec.
  - exists []. cbn [fst snd]. rewrite Hin, Hout, !app_nil_r. split_and!; [| done | done]. apply new_hs_inv; try done; [| apply recv_limit_bounds].
    rewrite Hsec. apply (of_secrets _ _ _ _ _ _ _ Ho).
  - by destruct (drive_handshake _ _ _ _ _ _ _ _) as [[s rng2] [[[] |] | e |]].
Qed.
End connect_specs.

(** C1. A stream exists only when the server is authenticated.  Over any scratch buffers,
    transport and random generator, [connect] does not panic, and when it returns a stream:
    it has sent one ClientHello, which carries the host name, ALPN names, suites and record
    limit of the configuration, a drawn random, and the public values of generated key pairs
    whose secrets the connection [c] keeps, and whose message starts the transcript of [c]; what followed on the transport is the handshake of [c] as
    [established] describes it (the server's answer is one that the profile accepts, its
    chain is vouched for and names the host, its CertificateVerify and Finished are valid,
    our answer was sent, and the engine is at the start of its data phase with the keys of
    RFC 8446).  A configuration error leaves the transport untouched. *)
Theorem connect_authenticated `{Usize, HeaplessVec, HkdfSha256, SubtleCt, AeadBackend, KxBackend, MlKemSizes, VerifierBackend, MlDsaSizes, !VerifyStrategy, CertParser, Transport, SliceWrite}
    (ft : Features) (FLIGHT RECV SEND : Z) (ip_host : bool) (MAX_CHAIN : Z) (SUITES : ConfigSuitePolicy) {w} (params : ClientParams w)
    (fuel : nat) (r : ServerFlightReassembler) (scratch_recv scratch_send : bytes) (t : Tr) (rng : Rng) :
  RECV <= usize_max -> SEND <= usize_max -> 0 <= MAX_CHAIN -> shares_fit -> build_ok ft SUITES ->
  blen scratch_recv = RECV -> blen scratch_send = SEND -> bytes_ok scratch_recv ->
  match stream_connect ft FLIGHT RECV SEND ip_host MAX_CHAIN SUITES fuel params r scratch_recv scratch_send t rng with
  | ((t', _), Ok (Some s)) => s.2 = t' /\ exists init pub opts c,
      offered ft RECV SUITES params init pub opts /\ hello_sent ft init pub opts c /\
      connected ft RECV SEND ip_host MAX_CHAIN params c (tr_input t) (tr_output t ++ client_hello_wire ft (in_client_random init) pub opts) s
  | ((t', _), Err (CoConfig _)) => t' = t
  | (_, Ok None) | (_, Err _) => True
  | (_, Panic) => False
  end.
Proof.
  intros HR HS HM Hsf Hbo Hlr Hls Hbr. pose proof (bo_hybrid _ _ Hbo) as Hfeat.
  destruct (connect_cases ft FLIGHT RECV SEND ip_host MAX_CHAIN SUITES params fuel r scratch_recv scratch_send t rng HR HS Hsf Hbo Hlr Hls Hbr)
    as [(err & rng' & ->) | [(t' & rng' & x & ->) | (HR' & HS' & init & pub & opts & c & s1 & rng1 & Ho & Hh & _ & _ & _ & _ & Hd & ->)]].
  - by destruct err.
  - done.
  - pose proof (drive_spec ft FLIGHT RECV SEND ip_host MAX_CHAIN params Hfeat HM (conj HR' HR) (conj HS' HS) fuel c _ _ s1 rng1 Hd) as Hs. unfold wp in Hs.
    destruct (drive_handshake ft FLIGHT RECV ip_host MAX_CHAIN fuel params (s1, rng1)) as [[s rng2] [[[] |] | err |]]; try done.
    + split; [done |]. exists init, pub, opts, c. split_and!; [exact Ho | exact Hh | exact Hs].
    + by destruct Hs as [[x ->] | [-> | (s2 & he & _ & ->)]].
Qed.

(** C6. [connect] returns when the server sends finitely many bytes: over a transport that
    delivers at most [left t] bytes, it comes back after at most [2 * left t + 2] rounds of
    the handshake loop, with a stream or with an error. *)
Theorem connect_returns `{Usize, HeaplessVec, HkdfSha256, SubtleCt, AeadBackend, KxBackend, MlKemSizes, VerifierBackend, MlDsaSizes, !VerifyStrategy, CertParser, Transport, SliceWrite}
    (ft : Features) (FLIGHT RECV SEND : Z) (ip_host : bool) (MAX_CHAIN : Z) (SUITES : ConfigSuitePolicy) {w} (params : ClientParams w)
    (left : Tr -> Z) (fuel : nat) (r : ServerFlightReassembler) (scratch_recv scratch_send : bytes) (t : Tr) (rng : Rng) :
  RECV <= usize_max -> SEND <= usize_max -> 0 <= MAX_CHAIN -> shares_fit -> build_ok ft SUITES ->
  blen scratch_recv = RECV -> blen scratch_send = SEND -> bytes_ok scratch_recv ->
  delivers_at_most left -> 2 * left t + 2 <= Z.of_nat fuel ->
  let result := (stream_connect ft FLIGHT RECV SEND ip_host MAX_CHAIN SUITES fuel params r scratch_recv scratch_send t rng).2 in
  (exists s, result = Ok (Some s)) \/ (exists err, result = Err err).
Proof.
  intros HR HS HM Hsf Hbo Hlr Hls Hbr Hl Hf. pose proof (bo_hybrid _ _ Hbo) as Hfeat. cbv zeta.
  destruct (connect_cases ft FLIGHT RECV SEND ip_host MAX_CHAIN SUITES params fuel r scratch_recv scratch_send t rng HR HS Hsf Hbo Hlr Hls Hbr)
    as [(err & rng' & ->) | [(t' & rng' & x & ->) | (HR' & HS' & init & pub & opts & c & s1 & rng1 & _ & _ & Hb & Hp & Hts & Hin & Hd & ->)]].
  1, 2: right; by eexists.
  destruct (Hl _ _ Hts) as [Hl1 Hle]. rewrite Hin in Hle. pose proof Hd as (tr & Hi & _). pose proof (hi_wf _ _ _ _ _ _ _ _ _ Hi) as Hwf. cbn [fst] in Hwf.
  assert (hs_rank left s1 < Z.of_nat fuel) as Hr.
  { unfold hs_rank, unsent. rewrite Hb, (pending_false ft RECV SEND s1.1 Hwf Hp). change (blen (@nil Z)) with 0. lia. }
  pose proof (drive_total ft FLIGHT RECV SEND ip_host MAX_CHAIN params Hfeat HM (conj HR' HR) (conj HS' HS) left fuel c _ _ s1 rng1 Hl Hl1 Hd Hr) as Hs. unfold wp in Hs.
  destruct (drive_handshake ft FLIGHT RECV ip_host MAX_CHAIN fuel params (s1, rng1)) as [[s rng2] [[[] |] | err |]]; try done; [left | right]; by eexists.
Qed.

Section connect_witness.

(** Groups whose share is the secret in [n] bytes. *)
Definition sized_kx_model (n : nat) : @KxGroup rng_model.
Proof.
  refine (@Build_KxGroup rng_model 0x1D (Z.of_nat n) 32 Z unit
    (fun r : Z => (r + 1, Ok (r, {| cs_buf := be_bytes n r; cs_len := Z.of_nat n |})))
    (fun s sh => Ok {| ss_buf := be_bytes 64 ((s + from_be sh) * 2 ^ 256); ss_len := 32 |}) _ _ _ _); try done.
  - intros r s c Hc. apply Ok_inj, pair_equal_spec in Hc as [_ <-].
    split; cbn [cs_len cs_buf]; [rewrite blen_be_bytes; lia | apply bytes_ok_be_bytes].
  - intros s sh c Hc. apply Ok_inj in Hc as <-. unfold secret_ok. cbn [ss_len ss_buf]. rewrite blen_be_bytes. lia.
Defined.
Definition sized_backend_model : @KxBackend rng_model :=
  {| kx_x25519 := sized_kx_model 32; kx_hybrid := sized_kx_model 1216; kx_p256 := sized_kx_model 65 |}.

(** The room left of a buffer, and the bytes written into it. *)
Definition slice_buffer : Write.
Proof.
  refine {| W := Z * bytes; WError := unit;
    write_all w bs := if blen bs <=? w.1 then ((w.1 - blen bs, w.2 ++ bs), Ok tt) else (w, Err tt);
    written := snd |}.
  - intros w bs. by destruct (_ <=? _).
  - intros w bs w' Hw. destruct (_ <=? _); [| done]. by apply pair_equal_spec in Hw as [<- _].
Defined.
Definition slice_model : SliceWrite.
Proof.
  refine {| slice_write := slice_buffer; slice_cursor n := (n, []); slice_left := fst |}.
  - done.
  - intros w bs Hle. cbn [write_all slice_buffer]. by rewrite (proj2 (Z.leb_le _ _) Hle).
  - intros w bs Hlt. cbn [write_all slice_buffer]. rewrite (proj2 (Z.leb_gt _ _) Hlt). by exists tt.
Defined.

#[local] Existing Instances usize32 heapless_model hkdf_model subtle_model aead_backend_model rng_model sized_backend_model
  ml_kem_model backend_model ml_dsa_model cert_model NoClock script_transport slice_model.
#[local] Instance connect_strategy : VerifyStrategy := safe_strategy accept_any accept_any_total.

Lemma demo_shares_fit : shares_fit.
Proof. constructor; intros r s c Hc; apply Ok_inj, pair_equal_spec in Hc as [_ <-]; reflexivity. Qed.

Definition connect_params : ClientParams NoRsa := {|
  cp_hostname := [97; 46; 98]; cp_suite_policy := RspDefault; cp_client_auth := NoClientAuth; cp_middlebox_compat := false; cp_alpn := None |}.

(** The server of "a.b": it reads the hello, and answers with a ServerHello and a flight in
    two records around a change_cipher_spec. *)
Definition demo_offer : Init * bytes * ClientHelloOptions :=
  ok_value (Init_new [] {| ks_x25519 := None; ks_mlkem := None; ks_ecdhe := None |}, [], demo_opts) (offer demo_features 512 CspAesAndChaCha connect_params 5).2.
Definition demo_written_hello : bytes * Z * WaitServerHello :=
  ok_value ([], 0, {| wsh_transcript := TranscriptHash_new; wsh_session_id := None; wsh_secrets := in_secrets demo_offer.1.1; wsh_advertised := SlDefault |})
    (write_client_hello_to_slice_with demo_features demo_offer.1.1 (CH_LEN demo_features) demo_offer.1.2 demo_offer.2).
Definition demo_answer_hello : bytes :=
  server_hello_wire (zeros 32) [] CIPHER_AES_128_GCM_SHA256 [ks_ext NAMED_GROUP_X25519 (be_bytes 32 77); sv_ext].
Definition demo_answer_keys : WaitServerFlight :=
  (ok_value (Aes128GcmSha256, demo_dummy_wait) (read_server_hello_with_backend demo_features demo_written_hello.2 demo_answer_hello)).2.
Definition demo_answer_flight : bytes :=
  let head := through_cert [0; 0] None demo_cert ++ hs_msg HS_CERTIFICATE_VERIFY demo_cv in
  head ++ hs_msg HS_FINISHED (Finished_Mac TLS13_LABEL_PREFIX (wsf_s_hs_ts demo_answer_keys) (sha256 (hashed (wsf_transcript demo_answer_keys) ++ head))).
Definition demo_answer_seal (content : bytes) (seq : Z) : bytes :=
  (ok_value ([], []) (@encrypt_record _ aead_model (wsf_s_hs_keys demo_answer_keys) content CT_HANDSHAKE seq (zeros 400))).2.
Definition demo_server : @Tr script_transport := {|
  sc_input := []; sc_output := [];
  sc_todo := [demo_answer_hello ++ demo_answer_seal (take 50 demo_answer_flight) 0;
              [CT_CHANGE_CIPHER_SPEC; 3; 3; 0; 1; 1] ++ demo_answer_seal (drop 50 demo_answer_flight) 1] |}.

Notation demo_connected := (stream_connect demo_features 1024 512 64 false 8 CspAesAndChaCha 2000 connect_params ServerFlightReassembler_new (zeros 512) (zeros 64) demo_server 5).

Lemma demo_connect_premises :
  512 <= usize_max /\ 64 <= usize_max /\ build_ok demo_features CspAesAndChaCha /\ blen (zeros 512) = 512 /\ blen (zeros 64) = 64 /\ bytes_ok (zeros 512).
Proof.
  split; [discriminate |]. split; [discriminate |]. split; [constructor; [reflexivity | reflexivity | split; reflexivity] |].
  split; [reflexivity |]. split; [reflexivity | apply bytes_okb_sound; vm_compute; reflexivity].
Qed.

Lemma connect_authenticated_witness :
  exists t' rng' s, demo_connected = ((t', rng'), Ok (Some s)) /\ exists init pub opts c,
    offered demo_features 512 CspAesAndChaCha connect_params init pub opts /\ hello_sent demo_features init pub opts c /\
    connected demo_features 512 64 false 8 connect_params c [] (client_hello_wire demo_features (in_client_random init) pub opts) s.
Proof.
  destruct demo_connect_premises as (HR & HS & Hb & Hr & Hs & Hk).
  pose proof (connect_authenticated demo_features 1024 512 64 false 8 CspAesAndChaCha connect_params 2000 ServerFlightReassembler_new (zeros 512) (zeros 64)
    demo_server 5 HR HS ltac:(discriminate) demo_shares_fit Hb Hr Hs Hk) as Hc.
  assert (match demo_connected.2 with Ok (Some _) => true | _ => false end = true) as Hok by (vm_compute; reflexivity).
  destruct demo_connected as [[t' rng'] [[s |] | err |]]; [| discriminate Hok..].
  exists t', rng', s. split; [reflexivity |]. exact (proj2 Hc).
Defined.

Lemma connect_returns_witness :
  2 * script_left demo_server + 2 <= 2000 /\ ((exists s, demo_connected.2 = Ok (Some s)) \/ (exists err, demo_connected.2 = Err err)).
Proof.
  destruct demo_connect_premises as (HR & HS & Hb & Hr & Hs & Hk). split; [vm_compute; discriminate |].
  apply (connect_returns demo_features 1024 512 64 false 8 CspAesAndChaCha connect_params (script_left : @Tr script_transport -> Z) 2000 ServerFlightReassembler_new (zeros 512) (zeros 64)
    demo_server 5 HR HS ltac:(discriminate) demo_shares_fit Hb Hr Hs Hk script_delivers ltac:(vm_compute; discriminate)).
Defined.
End connect_witness.
